(** * Exercism API client: a shallow embedding of [exercism.py]

    The Python module wraps the exercism.org REST API twice: a blocking
    client ([Exercism], on [requests]) and a cooperative one
    ([AsyncExercism], on [aiohttp]); both retry through [tenacity].

    The embedding keeps the program's own shape.  Every method becomes a
    computation in a state-and-exception monad [M] over a [World] that
    holds

    - the chronological [trace] of what the program did to the outside
      (HTTP calls, sleeps, callback invocations), and
    - the [heap] of dictionary objects that are shared by reference
      ([params] is mutated in place by [get_all_pages]).

    What is out there, the wall clock and the credential are the
    environment [Env]: [remote] answers a call as a function of the
    history so far, so scripted, stateful and stateless servers are all
    instances.  [server] puts in front of it what the client library
    checks of a call before it sends anything.

    Durations are integers in milliseconds (0.2 s is 200), instants are
    integers in microseconds since 0001-01-01T00:00:00, the resolution of
    Python's [datetime].

    JSON fields are read at the types of the data model: where Python would
    go on with a value of another JSON type, the model raises [TypeError]. *)

From stdpp Require Import base option list gmap strings pretty sorting.
From Stdlib Require Import Strings.Ascii.

Local Open Scope Z_scope.
Set Warnings "-register-all,-clear-no-such-hyp".

(** ** Python values *)

Module Py.

Inductive Json : Type :=
| JNull
| JBool (b : bool)
| JNum (n : Z)
| JStr (s : string)
| JList (items : list Json)
| JObj (fields : list (string * Json)).

(** A [dict] object: the caller's [params]. *)
Abbreviation Dict := (gmap string Json).

(** The exception classes the module can meet.  [HTTPError] and
    [ConnectionError] are the [requests] classes, [ClientResponseError]
    and [ClientConnectionError] the [aiohttp] ones; [RetryError] is what
    [tenacity] raises when it gives up, wrapping the last failure. *)
Inductive Exn : Type :=
| HTTPError (status : Z)
| ConnectionError
| ClientResponseError (status : Z)
| ClientConnectionError
| RetryError (last : Exn)
| TypeError
| KeyError (key : string)
| ValueError
| JSONDecodeError
| OverflowError
| AssertionError
| CallbackError (what : string).

(** [OutOfFuel] is not a Python outcome: it marks a run that was cut by
    the step bound of an unbounded loop, and no handler catches it. *)
Inductive Outcome (A : Type) : Type :=
| Ok (a : A)
| Raise (e : Exn)
| OutOfFuel.
Global Arguments Ok {A} a.
Global Arguments Raise {A} e.
Global Arguments OutOfFuel {A}.

(** Truth value of a JSON value, as [if x:] and [not x] see it. *)
Definition truthy (j : Json) : bool :=
  match j with
  | JNull => false
  | JBool b => b
  | JNum n => negb (n =? 0)
  | JStr s => negb (String.eqb s "")
  | JList l => match l with [] => false | _ => true end
  | JObj f => match f with [] => false | _ => true end
  end.

Fixpoint assoc (k : string) (fields : list (string * Json)) : option Json :=
  match fields with
  | [] => None
  | (k', v) :: rest => if String.eqb k k' then Some v else assoc k rest
  end.

(** [j[k]]: only a dict can be indexed by a string. *)
Definition getitem (j : Json) (k : string) : Outcome Json :=
  match j with
  | JObj fields =>
      match assoc k fields with
      | Some v => Ok v
      | None => Raise (KeyError k)
      end
  | _ => Raise TypeError
  end.

Definition as_list (j : Json) : Outcome (list Json) :=
  match j with JList l => Ok l | _ => Raise TypeError end.

Definition as_str (j : Json) : Outcome string :=
  match j with JStr s => Ok s | _ => Raise TypeError end.

Definition as_int (j : Json) : Outcome Z :=
  match j with JNum n => Ok n | _ => Raise TypeError end.

(** [str(n)] of an integer. *)
Definition str (n : Z) : string := pretty n.

(** [j == s] for a string [s]: a JSON value equals a string only if it is
    that string. *)
Definition eq_str (j : Json) (s : string) : bool :=
  match j with JStr t => String.eqb t s | _ => false end.

(** [s.lower()] and [s.upper()], on ASCII text. *)
Definition lower_char (c : ascii) : ascii :=
  let n := N_of_ascii c in
  if ((65 <=? n) && (n <=? 90))%N then ascii_of_N (n + 32) else c.

Definition upper_char (c : ascii) : ascii :=
  let n := N_of_ascii c in
  if ((97 <=? n) && (n <=? 122))%N then ascii_of_N (n - 32) else c.

Fixpoint lower (s : string) : string :=
  match s with
  | EmptyString => EmptyString
  | String c rest => String (lower_char c) (lower rest)
  end.

Fixpoint upper (s : string) : string :=
  match s with
  | EmptyString => EmptyString
  | String c rest => String (upper_char c) (upper rest)
  end.

(** A value of a dictionary whose timestamps were parsed: what JSON gave,
    or an aware [datetime] in UTC, as microseconds since
    0001-01-01T00:00:00 UTC. *)
Inductive Value : Type :=
| VJson (j : Json)
| VDatetime (t : Z).

Abbreviation Item := (list (string * Value)).

Fixpoint item_get (k : string) (i : Item) : Outcome Value :=
  match i with
  | [] => Raise (KeyError k)
  | (k', v) :: rest => if String.eqb k k' then Ok v else item_get k rest
  end.

(** [i[k] = v]: the entry is replaced where it stands, or added last. *)
Fixpoint item_set (k : string) (v : Value) (i : Item) : Item :=
  match i with
  | [] => [(k, v)]
  | (k', v') :: rest =>
      if String.eqb k k' then (k, v) :: rest else (k', v') :: item_set k v rest
  end.

(** [d[k] = v] on a JSON object. *)
Fixpoint obj_set (k : string) (v : Json) (fields : list (string * Json))
    : list (string * Json) :=
  match fields with
  | [] => [(k, v)]
  | (k', v') :: rest =>
      if String.eqb k k' then (k, v) :: rest else (k', v') :: obj_set k v rest
  end.

(** [xs.sort(key=...)], on the keys already taken: ascending and stable.
    The sort is an insertion sort; any stable sort gives the same list. *)
Fixpoint insert_by_key {A} (x : Z * A) (sorted : list (Z * A)) : list (Z * A) :=
  match sorted with
  | [] => [x]
  | y :: rest => if y.1 <? x.1 then y :: insert_by_key x rest else x :: y :: rest
  end.

Definition sort_by_key {A} (xs : list (Z * A)) : list (Z * A) :=
  foldr insert_by_key [] xs.

(** [sorted(set(xs))] of strings: ascending, each once. *)
Fixpoint insert_once (x : string) (sorted : list string) : list string :=
  match sorted with
  | [] => [x]
  | y :: rest =>
      if String.ltb y x then y :: insert_once x rest
      else if String.eqb x y then y :: rest
      else x :: y :: rest
  end.

Definition sorted_set (xs : list string) : list string := foldr insert_once [] xs.

End Py.
Export Py.

(** ** The outside world *)

Inductive Client : Type := Requests | Aiohttp.
Inductive Method : Type := GET | POST | PATCH.

(** What a call of [session.get], [session.post] or [session.patch] is
    given: the callable, the positional arguments, and the keyword
    arguments, with the [params] dictionary as it reads at call time. *)
Record Request : Type := mkRequest {
  client : Client;
  method : Method;
  positional : list string;
  params : option Dict;
  keywords : gmap string Json;
}.

(** The text of a [retry-after] header: [int()] reads it or raises. *)
Inductive HeaderText : Type :=
| IntText (d : Z)
| OtherText (s : string).

Record Response : Type := mkResponse {
  status : Z;
  retry_after : option HeaderText;
  body : option Json;
}.

(** What a call comes back with: the API answers, the connection fails,
    or the client library refuses the call before anything is sent, which
    is a [TypeError]. *)
Inductive Reply : Type :=
| Answer (r : Response)
| Unreachable
| Refused.

Inductive Event : Type :=
| Call (r : Request)
| Sleep (ms : Z)
| Dispatch (notification : Json).

Abbreviation loc := positive.

Record World : Type := mkWorld {
  trace : list Event;
  heap : gmap loc Dict;
}.

Record Env : Type := mkEnv {
  remote : list Event → Request → Reply;
  clock : list Event → Z;
  token : string;
}.

(** *** What the client libraries accept

    The methods as the libraries declare them: [Session.get(url,
    **kwargs)], [Session.post(url, data=None, json=None, **kwargs)] and
    [Session.patch(url, data=None, **kwargs)] in [requests];
    [ClientSession.get(url, *, ...)] and its siblings in [aiohttp], which
    take the URL alone by position. *)
Definition parameters (c : Client) (m : Method) : list string :=
  match c, m with
  | Requests, POST => ["url"; "data"; "json"]
  | Requests, PATCH => ["url"; "data"]
  | _, _ => ["url"]
  end.

(** Python binds the call: the positional arguments fill the parameters
    in order and may not outnumber them, no parameter gets a value by
    position and by keyword both, and [url] gets one. *)
Definition binds (req : Request) : bool :=
  let names := parameters (client req) (method req) in
  bool_decide (length (positional req) ≤ length names)%nat
  && forallb (λ name, bool_decide (keywords req !! name = None))
       (take (length (positional req)) names)
  && (bool_decide (positional req ≠ [])
      || bool_decide (is_Some (keywords req !! "url"))).

(** [aiohttp] writes [params] into the URL before it sends, and takes
    text and integers for that, or a list of them; a boolean, [None] or a
    dictionary is a [TypeError].  [requests] writes whatever it gets. *)
Definition query_scalar (v : Json) : bool :=
  match v with
  | JStr _ | JNum _ => true
  | _ => false
  end.

Definition query_value (v : Json) : bool :=
  match v with
  | JList items => forallb query_scalar items
  | _ => query_scalar v
  end.

Definition encodes (req : Request) : bool :=
  match client req, params req with
  | Aiohttp, Some d => bool_decide (map_Forall (λ _ v, query_value v = true) d)
  | _, _ => true
  end.

Definition accepted (req : Request) : bool := binds req && encodes req.

(** What the call [req] comes back with after the history [tr].  A call
    that does not bind, or whose [params] the library cannot write, is
    refused before anything is sent, whatever is out there.  Every other
    call is [remote]'s to answer: the rest of the library and the API
    behind it. *)
Definition server (env : Env) (tr : list Event) (req : Request) : Reply :=
  if accepted req then remote env tr req else Refused.

(** ** The monad of the embedding *)

Definition M (A : Type) : Type := World → Outcome A * World.

Global Instance M_ret : MRet M := λ A a w, (Ok a, w).

Global Instance M_bind : MBind M := λ A B f m w,
  match m w with
  | (Ok a, w1) => f a w1
  | (Raise e, w1) => (Raise e, w1)
  | (OutOfFuel, w1) => (OutOfFuel, w1)
  end.

Definition raise {A} (e : Exn) : M A := λ w, (Raise e, w).

Definition out_of_fuel {A} : M A := λ w, (OutOfFuel, w).

Definition lift {A} (o : Outcome A) : M A := λ w, (o, w).

(** [try: m except cls: handler], for the class test [catches]. *)
Definition try_except {A} (m : M A) (catches : Exn → bool) (handler : M A) : M A :=
  λ w,
    match m w with
    | (Raise e, w1) => if catches e then handler w1 else (Raise e, w1)
    | r => r
    end.

Definition log (e : Event) : M unit :=
  λ w, (Ok tt, {| trace := trace w ++ [e]; heap := heap w |}).

(** *** Dictionaries by reference *)

Definition dict_new : M loc :=
  λ w, let l := fresh (dom (heap w)) in
       (Ok l, {| trace := trace w; heap := <[l := ∅]> (heap w) |}).

(** [d[k] = v], in place. *)
Definition dict_setitem (l : loc) (k : string) (v : Json) : M unit :=
  λ w, (Ok tt, {| trace := trace w;
                  heap := <[l := <[k := v]> (default ∅ (heap w !! l))]> (heap w) |}).

(** Keyword arguments as the methods pass them on: [sleep], [params] (a
    reference to the caller's dictionary), and the rest, which the
    methods hand to the library untouched. *)
Record Kwargs : Type := mkKwargs {
  kw_sleep : option Z;
  kw_params : option loc;
  kw_rest : gmap string Json;
}.

Definition no_kwargs : Kwargs :=
  {| kw_sleep := None; kw_params := None; kw_rest := ∅ |}.

Definition with_sleep (ms : Z) (kw : Kwargs) : Kwargs :=
  {| kw_sleep := Some ms; kw_params := kw_params kw; kw_rest := kw_rest kw |}.

Definition with_params (l : loc) (kw : Kwargs) : Kwargs :=
  {| kw_sleep := kw_sleep kw; kw_params := Some l; kw_rest := kw_rest kw |}.

(** *** Time *)

(** [time.sleep(s)] takes the length to nanoseconds in a signed 64-bit
    integer: a length that does not fit is an [OverflowError], and one
    that fits and is negative a [ValueError]. *)
Definition max_sleep : Z := (2 ^ 63 - 1) / 1000000.

Definition time_sleep (ms : Z) : M unit :=
  if bool_decide (- max_sleep ≤ ms ≤ max_sleep) then
    if bool_decide (ms < 0) then raise ValueError else log (Sleep ms)
  else raise OverflowError.

(** [asyncio.sleep(s)] returns at once on a non-positive delay. *)
Definition asyncio_sleep (ms : Z) : M unit := log (Sleep (Z.max 0 ms)).

(** [int(text)] *)
Definition py_int (h : HeaderText) : M Z :=
  match h with
  | IntText d => mret d
  | OtherText _ => raise ValueError
  end.

(** ** tenacity *)

Module tenacity.

(** [wait_exponential(multiplier, min, max)], in seconds, for the
    attempt that just failed: [multiplier * 2 ** (attempt_number - 1)]
    clamped to [[max(0, min), max]]. *)
Definition wait_exponential (multiplier min max : Z) (attempt_number : Z) : Z :=
  Z.max (Z.max 0 min) (Z.min (multiplier * 2 ^ (attempt_number - 1)) max).

(** [stop_after_attempt(n)] *)
Definition stop_after_attempt (n : Z) (attempt_number : Z) : bool :=
  bool_decide (n ≤ attempt_number).

(** The retry loop of [Retrying.__call__]: run the function; a result,
    or an exception the [retry] predicate rejects, leaves the loop as it
    is; otherwise give up with [RetryError] if [stop] says so, else
    sleep [wait] seconds and run again.  [budget] bounds the number of
    sleeps; [retry] below gives it the attempt limit. *)
Fixpoint retrying {A} (budget : nat) (attempt_number : Z)
    (stop : Z → bool) (wait : Z → Z) (retry_if : Exn → bool)
    (sleep : Z → M unit) (fn : M A) : M A :=
  λ w,
    match fn w with
    | (Raise e, w1) =>
        if retry_if e then
          if stop attempt_number then (Raise (RetryError e), w1)
          else
            match budget with
            | O => (OutOfFuel, w1)
            | S budget' =>
                (sleep (1000 * wait attempt_number);;
                 retrying budget' (attempt_number + 1)
                   stop wait retry_if sleep fn) w1
            end
        else (Raise e, w1)
    | r => r
    end.

(** [@tenacity.retry(stop=stop_after_attempt(n), wait=..., retry=...,
    sleep=...)] *)
Definition retry {A} (n : nat) (wait : Z → Z) (retry_if : Exn → bool)
    (sleep : Z → M unit) (fn : M A) : M A :=
  retrying n 1 (stop_after_attempt (Z.of_nat n)) wait retry_if sleep fn.

End tenacity.

(** [retry_if_exception_type((requests.HTTPError,
    requests.exceptions.ConnectionError))] *)
Definition is_requests_failure (e : Exn) : bool :=
  match e with
  | HTTPError _ | ConnectionError => true
  | _ => false
  end.

(** [except requests.exceptions.HTTPError] *)
Definition is_HTTPError (e : Exn) : bool :=
  match e with HTTPError _ => true | _ => false end.

(** ** Control structures *)

Global Instance Outcome_ret : MRet Outcome := λ A a, Ok a.

Global Instance Outcome_bind : MBind Outcome := λ A B f o,
  match o with
  | Ok a => f a
  | Raise e => Raise e
  | OutOfFuel => OutOfFuel
  end.

Inductive LoopStep (A : Type) : Type :=
| Break (a : A)
| Continue (a : A).
Global Arguments Break {A} a.
Global Arguments Continue {A} a.

(** [for page in itertools.count(start): body], left by [break] only. *)
Fixpoint for_count {A} (fuel : nat) (page : Z) (acc : A)
    (body : Z → A → M (LoopStep A)) : M A :=
  match fuel with
  | O => out_of_fuel
  | S fuel' =>
      step ← body page acc;
      match step with
      | Break a => mret a
      | Continue a => for_count fuel' (page + 1) a body
      end
  end.

(** [for x in xs: body], the loop state threaded through. *)
Fixpoint for_each {A S} (xs : list A) (acc : S) (body : A → S → M S) : M S :=
  match xs with
  | [] => mret acc
  | x :: rest => acc' ← body x acc; for_each rest acc' body
  end.

(** [[f(x) for x in xs]] *)
Fixpoint map_M {A B} (f : A → M B) (xs : list A) : M (list B) :=
  match xs with
  | [] => mret []
  | x :: rest => y ← f x; ys ← map_M f rest; mret (y :: ys)
  end.

(** [[x for x in xs if p(x)]] *)
Fixpoint filter_M {A} (p : A → M bool) (xs : list A) : M (list A) :=
  match xs with
  | [] => mret []
  | x :: rest =>
      keep ← p x;
      ys ← filter_M p rest;
      mret (if keep : bool then x :: ys else ys)
  end.

(** ** The transport *)

Definition snapshot (c : Client) (m : Method) (args : list string)
    (kw : Kwargs) (w : World) : Request :=
  {| client := c; method := m; positional := args;
     params := kw_params kw ≫= (heap w !!.);
     keywords := kw_rest kw |}.

Definition connection_failure (c : Client) : Exn :=
  match c with
  | Requests => ConnectionError
  | Aiohttp => ClientConnectionError
  end.

(** [session.get], called with the arguments it was handed, and its
    siblings.  The call is on the trace whether it goes out or not: a
    call the library refuses is a [TypeError] before anything is sent,
    one that goes out is answered by the API or fails at the
    connection. *)
Definition send (env : Env) (c : Client) (m : Method) (args : list string)
    (kw : Kwargs) : M Response :=
  λ w,
    let req := snapshot c m args kw w in
    let w1 := {| trace := trace w ++ [Call req]; heap := heap w |} in
    match server env (trace w) req with
    | Answer r => (Ok r, w1)
    | Unreachable => (Raise (connection_failure c), w1)
    | Refused => (Raise TypeError, w1)
    end.

(** [resp.json()] *)
Definition json (resp : Response) : M Json :=
  match body resp with
  | Some j => mret j
  | None => raise JSONDecodeError
  end.

Definition sleep_or (default_ms : Z) (kw : Kwargs) : Z :=
  default default_ms (kw_sleep kw).

(** [kwargs.pop("params", {})] *)
Definition pop_params (kw : Kwargs) : M loc :=
  match kw_params kw with
  | Some l => mret l
  | None => dict_new
  end.

(** [a >= b] on two JSON numbers. *)
Definition py_ge (a b : Json) : Outcome bool :=
  match a, b with
  | JNum x, JNum y => Ok (bool_decide (y ≤ x))
  | _, _ => Raise TypeError
  end.

(** [response["meta"]["current_page"] >= response["meta"]["total_pages"]] *)
Definition is_last_page (response : Json) : Outcome bool :=
  meta ← getitem response "meta";
  current_page ← getitem meta "current_page";
  meta ← getitem response "meta";
  total_pages ← getitem meta "total_pages";
  py_ge current_page total_pages.

(** ** datetime *)

Module datetime.

Definition us_per_second : Z := 1000000.

Definition us_per_day : Z := 86400 * us_per_second.

Definition is_leap (year : Z) : bool :=
  (year mod 4 =? 0) && (negb (year mod 100 =? 0) || (year mod 400 =? 0)).

Definition days_in_month (year month : Z) : Z :=
  if (month =? 2) && is_leap year then 29
  else default 0 ([31; 28; 31; 30; 31; 30; 31; 31; 30; 31; 30; 31] !! Z.to_nat (month - 1)).

Definition days_before_year (year : Z) : Z :=
  let y := year - 1 in y * 365 + y / 4 - y / 100 + y / 400.

Definition days_before_month (year month : Z) : Z :=
  default 0 ([0; 31; 59; 90; 120; 151; 181; 212; 243; 273; 304; 334] !! Z.to_nat (month - 1))
  + (if (2 <? month) && is_leap year then 1 else 0).

(** Ordinal of a date, 0001-01-01 being day 1. *)
Definition ymd2ord (year month day : Z) : Z :=
  days_before_year year + days_before_month year month + day.

(** A naive [datetime] as microseconds since 0001-01-01T00:00:00. *)
Definition instant (year month day hour minute second : Z) : Z :=
  ((ymd2ord year month day - 1) * 86400 + hour * 3600 + minute * 60 + second)
  * us_per_second.

(** [datetime.max], 9999-12-31T23:59:59.999999 *)
Definition max_instant : Z := instant 9999 12 31 23 59 59 + 999999.

(** [datetime.timedelta(days=n)] *)
Definition timedelta_days (n : Z) : Outcome Z :=
  if bool_decide (-999999999 ≤ n ≤ 999999999) then Ok (n * us_per_day)
  else Raise OverflowError.

(** [dt - delta] *)
Definition sub_timedelta (dt delta : Z) : Outcome Z :=
  let r := dt - delta in
  if bool_decide (0 ≤ r ≤ max_instant) then Ok r else Raise OverflowError.

(** [(a - b).days]: a [timedelta] keeps whole days rounded down. *)
Definition days_between (a b : Z) : Z := (a - b) / us_per_day.

(** *** [strptime]

    CPython's [_strptime] turns the format into a regular expression,
    one group of alternatives for each directive ([%Y] is
    [\d\d\d\d], [%H] is [2[0-3]|[0-1]\d|\d], and so on), matches
    it at the start of the text without regard to case, and wants the
    match to end where the text ends.  The fields then go through
    [int] and the [datetime] constructor, which refuses year 0, a day
    the month does not have, and a second above 59.

    Text is held as its UTF-8 bytes.  [\d] is any decimal digit of
    Unicode, and [int] reads it; a class such as [[0-5]] is ASCII. *)

(** The first character of a text, as its code point. *)
Definition code_point (s : string) : option (Z * string) :=
  let byte c := Z.of_N (N_of_ascii c) in
  let more c := bool_decide (128 ≤ byte c < 192) in
  match s with
  | EmptyString => None
  | String a s1 =>
      if bool_decide (byte a < 128) then Some (byte a, s1)
      else
        match s1 with
        | EmptyString => None
        | String b s2 =>
            if negb (more b) then None
            else if bool_decide (194 ≤ byte a < 224)
            then Some ((byte a - 192) * 64 + (byte b - 128), s2)
            else
              match s2 with
              | EmptyString => None
              | String c s3 =>
                  if negb (more c) then None
                  else if bool_decide (224 ≤ byte a < 240) then
                    let cp := (byte a - 224) * 4096 + (byte b - 128) * 64
                              + (byte c - 128) in
                    if bool_decide (2048 ≤ cp) && negb (bool_decide (55296 ≤ cp < 57344))
                    then Some (cp, s3) else None
                  else
                    match s3 with
                    | EmptyString => None
                    | String d s4 =>
                        if negb (more d) then None
                        else if bool_decide (240 ≤ byte a < 245) then
                          let cp := (byte a - 240) * 262144 + (byte b - 128) * 4096
                                    + (byte c - 128) * 64 + (byte d - 128) in
                          if bool_decide (65536 ≤ cp ≤ 1114111)
                          then Some (cp, s4) else None
                        else None
                    end
              end
        end
  end.

(** The digit zero of every run of decimal digits (category Nd, Unicode
    14.0); the nine code points after it are the digits one to nine. *)
Definition decimal_zeros : list Z :=
  [48; 1632; 1776; 1984; 2406; 2534; 2662; 2790;
   2918; 3046; 3174; 3302; 3430; 3558; 3664; 3792;
   3872; 4160; 4240; 6112; 6160; 6470; 6608; 6784;
   6800; 6992; 7088; 7232; 7248; 42528; 43216; 43264;
   43472; 43504; 43600; 44016; 65296; 66720; 68912; 69734;
   69872; 69942; 70096; 70384; 70736; 70864; 71248; 71360;
   71472; 71904; 72016; 72784; 73040; 73120; 92768; 92864;
   93008; 120782; 120792; 120802; 120812; 120822; 123200; 123632;
   125264; 130032].

(** The value of a decimal digit. *)
Definition decimal (cp : Z) : option Z :=
  '(_, zero) ← list_find (λ zero, zero ≤ cp ≤ zero + 9) decimal_zeros;
  Some (cp - zero).

(** One place of a pattern: [\d], a class [[lo-hi]] of ASCII digits, or
    a character of the format, a letter in either case. *)
Inductive Atom : Type :=
| Dec
| Rng (lo hi : Z)
| Chr (c : ascii).

Definition fold_case (cp : Z) : Z :=
  if bool_decide (65 ≤ cp ≤ 90) then cp + 32 else cp.

(** The digits an atom reads, and what follows. *)
Definition match_atom (a : Atom) (s : string) : option (list Z * string) :=
  '(cp, rest) ← code_point s;
  match a with
  | Dec => d ← decimal cp; Some ([d], rest)
  | Rng lo hi =>
      if bool_decide (48 + lo ≤ cp ≤ 48 + hi) then Some ([cp - 48], rest) else None
  | Chr c =>
      if bool_decide (fold_case cp = fold_case (Z.of_N (N_of_ascii c)))
      then Some ([], rest) else None
  end.

Fixpoint match_atoms (atoms : list Atom) (s : string) : option (list Z * string) :=
  match atoms with
  | [] => Some ([], s)
  | a :: more =>
      '(ds, s1) ← match_atom a s;
      '(ds', s2) ← match_atoms more s1;
      Some (ds ++ ds', s2)
  end.

(** A pattern is a sequence of groups, each a list of alternatives; the
    first alternative after which the rest of the pattern matches is
    taken.  The result is the digits of each group. *)
Fixpoint match_groups (groups : list (list (list Atom))) (s : string)
    : option (list (list Z) * string) :=
  match groups with
  | [] => Some ([], s)
  | alternatives :: rest =>
      (fix first_of (alts : list (list Atom)) : option (list (list Z) * string) :=
         match alts with
         | [] => None
         | alt :: others =>
             match match_atoms alt s with
             | Some (ds, s1) =>
                 match match_groups rest s1 with
                 | Some (found, s2) => Some (ds :: found, s2)
                 | None => first_of others
                 end
             | None => first_of others
             end
         end) alternatives
  end.

Definition directive_Y : list (list Atom) := [[Dec; Dec; Dec; Dec]].

Definition directive_m : list (list Atom) :=
  [[Rng 1 1; Rng 0 2]; [Rng 0 0; Rng 1 9]; [Rng 1 9]].

Definition directive_d : list (list Atom) :=
  [[Rng 3 3; Rng 0 1]; [Rng 1 2; Dec]; [Rng 0 0; Rng 1 9]; [Rng 1 9];
   [Chr " "; Rng 1 9]].

Definition directive_H : list (list Atom) :=
  [[Rng 2 2; Rng 0 3]; [Rng 0 1; Dec]; [Dec]].

Definition directive_M : list (list Atom) := [[Rng 0 5; Dec]; [Dec]].

Definition directive_S : list (list Atom) :=
  [[Rng 6 6; Rng 0 1]; [Rng 0 5; Dec]; [Dec]].

Definition literal (c : ascii) : list (list Atom) := [[Chr c]].

(** [int] of the digits. *)
Definition number (ds : list Z) : Z := fold_left (λ acc d, 10 * acc + d) ds 0.

(** The match of a pattern that holds the six fields of a timestamp,
    from the year to the second, with one group of text between two
    fields, and the [datetime] made of it. *)
Definition timestamp (pattern : list (list (list Atom))) (s : string) : option Z :=
  '(found, rest) ← match_groups pattern s;
  let value i := number (default [] (found !! i)) in
  let year := value 0%nat in
  let month := value 2%nat in
  let day := value 4%nat in
  let hour := value 6%nat in
  let minute := value 8%nat in
  let second := value 10%nat in
  if String.eqb rest ""
     && bool_decide (1 ≤ year)
     && bool_decide (day ≤ days_in_month year month)
     && bool_decide (second ≤ 59)
  then Some (instant year month day hour minute second)
  else None.

(** *** [strptime(text, "%Y-%m-%dT%H:%M:%SZ")] *)

Definition parse (s : string) : option Z :=
  timestamp
    [directive_Y; literal "-"; directive_m; literal "-"; directive_d; literal "T";
     directive_H; literal ":"; directive_M; literal ":"; directive_S; literal "Z"] s.

Definition strptime (s : string) : Outcome Z :=
  match parse s with
  | Some t => Ok t
  | None => Raise ValueError
  end.

(** *** [strptime(text, "%Y-%m-%dT%H:%M:%S.000Z")] *)

Definition parse_ms (s : string) : option Z :=
  timestamp
    [directive_Y; literal "-"; directive_m; literal "-"; directive_d; literal "T";
     directive_H; literal ":"; directive_M; literal ":"; directive_S; literal ".";
     literal "0"; literal "0"; literal "0"; literal "Z"] s.

Definition strptime_ms (s : string) : Outcome Z :=
  match parse_ms s with
  | Some t => Ok t
  | None => Raise ValueError
  end.

End datetime.

(** [datetime.datetime.now()]: naive local time. *)
Definition datetime_now (env : Env) : M Z := λ w, (Ok (clock env (trace w)), w).

(** [min] and [max] over the timestamp strings, in the order of [str]. *)
Definition py_min (xs : list string) : Outcome string :=
  match xs with
  | [] => Raise ValueError
  | x :: rest => Ok (fold_left (λ m y, if String.ltb y m then y else m) rest x)
  end.

Definition py_max_default (xs : list string) (d : string) : string :=
  match xs with
  | [] => d
  | x :: rest => fold_left (λ m y, if String.ltb m y then y else m) rest x
  end.

Definition py_max2 (a b : string) : string := if String.ltb a b then b else a.

(** [max] of a list of instants. *)
Definition py_max_instant (xs : list Z) : Outcome Z :=
  match xs with
  | [] => Raise ValueError
  | x :: rest => Ok (fold_left Z.max rest x)
  end.

(** [assert cond] *)
Definition py_assert (cond : bool) : M unit :=
  if cond then mret tt else raise AssertionError.

(** A callback is the caller's: it sees the history and returns or raises. *)
Definition Callback : Type := list Event → Json → option Exn.

Definition invoke (callback : Callback) (notification : Json) : M unit :=
  λ w,
    let w1 := {| trace := trace w ++ [Dispatch notification]; heap := heap w |} in
    match callback (trace w) notification with
    | None => (Ok tt, w1)
    | Some e => (Raise e, w1)
    end.

(** A new dict object holding [d]. *)
Definition dict_of (d : Dict) : M loc :=
  λ w, let l := fresh (dom (heap w)) in
       (Ok l, {| trace := trace w; heap := <[l := d]> (heap w) |}).

(** ** Standard output

    A method that prints gives, beside its outcome, the lines it wrote:
    on an exception, the lines written before it. *)

Definition Out (A : Type) : Type := (list string * Outcome A)%type.

Global Instance Out_ret : MRet Out := λ A a, ([], Ok a).

Global Instance Out_bind : MBind Out := λ A B f m,
  match m with
  | (lines, Ok a) => let '(more, r) := f a in (lines ++ more, r)
  | (lines, Raise e) => (lines, Raise e)
  | (lines, OutOfFuel) => (lines, OutOfFuel)
  end.

Definition print (line : string) : Out unit := ([line], Ok tt).

Definition out {A} (o : Outcome A) : Out A := ([], o).

(** [for x in xs: body], printing. *)
Fixpoint for_each_out {A} (xs : list A) (body : A → Out unit) : Out unit :=
  match xs with
  | [] => mret tt
  | x :: rest => body x;; for_each_out rest body
  end.

(** ** class Exercism *)

Module Exercism.
Section WithEnv.
Context (env : Env).

Definition API : string := "https://exercism.org/api/v2".

Definition WATCHER_SLEEP_SEC : Z := 15 * 60.

(** [requests.Response.raise_for_status] *)
Definition raise_for_status (resp : Response) : M unit :=
  if bool_decide (400 ≤ status resp < 600)
  then raise (HTTPError (status resp))
  else mret tt.

Definition request (func : Method) (args : list string) (kw : Kwargs) : M Response :=
  resp ← send env Requests func args kw;
  resp ← match retry_after resp with
         | Some text =>
             delay ← py_int text;
             time_sleep (1000 * (delay + 1));;
             send env Requests func args kw
         | None => mret resp
         end;
  raise_for_status resp;;
  time_sleep (sleep_or 500 kw);;
  mret resp.

(** The decorated body of [get_json_with_retries]: one attempt. *)
Definition get_json (args : list string) (kw : Kwargs) : M Json :=
  resp ← request GET args (with_sleep (sleep_or 200 kw) kw);
  json resp.

Definition get_json_with_retries (args : list string) (kw : Kwargs) : M Json :=
  tenacity.retry 3 (tenacity.wait_exponential 2 15 60)
    is_requests_failure time_sleep (get_json args kw).

(** The body of the loop of [get_all_pages]. *)
Definition fetch_page (params : loc) (url : string) (args : list string)
    (kw : Kwargs) (page : Z) (all_data : list Json) : M (LoopStep (list Json)) :=
  dict_setitem params "page" (JStr (str page));;
  response ← get_json_with_retries (url :: args) (with_params params kw);
  results ← lift (getitem response "results" ≫= as_list);
  let all_data := all_data ++ results in
  last ← lift (is_last_page response);
  mret (if last : bool then Break all_data else Continue all_data).

Definition get_all_pages (fuel : nat) (args : list string) (endpoint : string)
    (kw : Kwargs) : M (list Json) :=
  params ← pop_params kw;
  let url := API +:+ "/" +:+ endpoint in
  for_count fuel 1 [] (fetch_page params url args kw).

Definition post (args : list string) (kw : Kwargs) : M Response :=
  request POST args (with_sleep (sleep_or 500 kw) kw).

Definition patch (args : list string) (kw : Kwargs) : M Response :=
  request PATCH args (with_sleep (sleep_or 500 kw) kw).

Definition notifications : M Json :=
  get_json_with_retries [API +:+ "/notifications"] no_kwargs.

(** The body of the loop of [update_exercises]. *)
Definition sync_solution (solution : Json) (updates : list Json) : M (list Json) :=
  out_of_date ← lift (getitem solution "is_out_of_date");
  if negb (truthy out_of_date) then mret updates
  else
    uuid ← lift (getitem solution "uuid" ≫= as_str);
    resp ← patch [API +:+ "/solutions/" +:+ uuid +:+ "/sync"] no_kwargs;
    j ← json resp;
    solution ← lift (getitem j "solution");
    mret (updates ++ [solution]).

Definition update_exercises (fuel : nat) : M (list Json) :=
  solutions ← get_all_pages fuel [] "solutions" no_kwargs;
  for_each solutions [] sync_solution.

Definition uuid_of (r : Json) : M string :=
  lift (getitem r "uuid" ≫= as_str).

(** [[r for r in self.notifications()["results"] if not r["is_read"]]] *)
Definition unread_notifications : M (list Json) :=
  n ← notifications;
  results ← lift (getitem n "results" ≫= as_list);
  filter_M (λ r, is_read ← lift (getitem r "is_read");
                 mret (negb (truthy is_read))) results.

(** Priming: [set(r["uuid"] for r in self.notifications()["results"])] *)
Definition seen_at_start : M (gset string) :=
  n ← notifications;
  results ← lift (getitem n "results" ≫= as_list);
  uuids ← map_M uuid_of results;
  mret (list_to_set uuids).

(** One turn of the [while True] loop of [notification_pusher]; the
    result is the seen-set the next turn starts with. *)
Definition poll_cycle (callback : Callback) (seen_notifications : gset string)
    : M (gset string) :=
  time_sleep (1000 * WATCHER_SLEEP_SEC);;
  fetched ← try_except (unread ← unread_notifications; mret (Some unread))
               is_HTTPError (mret None);
  match fetched with
  | None => mret seen_notifications
  | Some unread =>
      unseen ← filter_M (λ r, uuid ← uuid_of r;
                              mret (bool_decide (uuid ∉ seen_notifications))) unread;
      for_each unseen tt (λ result _, invoke callback result);;
      new ← map_M uuid_of unseen;
      mret (seen_notifications ∪ list_to_set new)
  end.

Fixpoint polling (cycles : nat) (callback : Callback) (seen : gset string)
    : M (gset string) :=
  match cycles with
  | O => mret seen
  | S n => seen' ← poll_cycle callback seen; polling n callback seen'
  end.

(** [notification_pusher] never returns: the model observes it after
    [cycles] turns of its loop, [Ok seen] being a watcher still running
    with that seen-set. *)
Definition notification_pusher (cycles : nat) (callback : Callback) : M (gset string) :=
  seen_notifications ← seen_at_start;
  polling cycles callback seen_notifications.

Definition posts_url (uuid : string) : string :=
  API +:+ "/mentoring/discussions/" +:+ uuid +:+ "/posts".

Definition mentor_discussion_posts (uuid : string) : M (list Json) :=
  j ← get_json_with_retries [posts_url uuid] no_kwargs;
  lift (getitem j "items" ≫= as_list).

Definition updated_at (record : Json) : Outcome Z :=
  text ← getitem record "updated_at" ≫= as_str;
  datetime.strptime text.

(** The body of the inner loop of [old_mentor_discussions]. *)
Definition check_discussion (cutoff : Z) (discussion : Json) (uuids : list string)
    : M (list string) :=
  updated ← lift (updated_at discussion);
  if bool_decide (cutoff < updated) then mret uuids
  else
    uuid ← lift (getitem discussion "uuid" ≫= as_str);
    posts ← mentor_discussion_posts uuid;
    post_dates ← map_M (λ c, lift (updated_at c)) posts;
    most_recent_post ← lift (py_max_instant post_dates);
    if bool_decide (cutoff < most_recent_post) then mret uuids
    else mret (uuids ++ [uuid]).

(** The body of the outer loop of [old_mentor_discussions]. *)
Definition check_page (cutoff : Z) (params : loc) (page : Z) (uuids : list string)
    : M (list string) :=
  dict_setitem params "page" (JNum page);;
  resp ← get_json_with_retries [API +:+ "/mentoring/discussions"]
           (with_params params no_kwargs);
  results ← lift (getitem resp "results" ≫= as_list);
  for_each results uuids (check_discussion cutoff).

Definition old_mentor_discussions (status : string) (age : Z) (order : string)
    : M (list string) :=
  py_assert (bool_decide (order ∈ ["oldest"; "recent"; "exercise"; "student"]));;
  py_assert (bool_decide (status ∈ ["awaiting_mentor"; "awaiting_student"; "finished"]));;
  params ← dict_of {["status" := JStr status; "order" := JStr order]};
  resp ← get_json_with_retries [API +:+ "/mentoring/discussions"]
           (with_params params no_kwargs);
  page_count ← lift (getitem resp "meta" ≫= (λ meta, getitem meta "total_pages"));
  delta ← lift (datetime.timedelta_days age);
  now ← datetime_now env;
  cutoff ← lift (datetime.sub_timedelta now delta);
  page_count ← lift (as_int page_count);
  for_each (seqZ 1 page_count) [] (check_page cutoff params).

Definition finish (uuids : list string) : M unit :=
  for_each uuids tt (λ uuid _,
    request PATCH [API +:+ "/mentoring/discussions/" +:+ uuid +:+ "/finish"]
      (with_sleep 200 no_kwargs);;
    mret tt).

Definition quote : string := String (ascii_of_N 34) "".

Definition default_nudge : string :=
  "It's been a while! "
  +:+ "How is this exercise going? Are you planning on making more changes? "
  +:+ "If you are ready to move on, you can free up the mentoring slot by clicking "
  +:+ quote +:+ "End discussion" +:+ quote +:+ ". "
  +:+ "If you are still working on this, that is great, too! "
  +:+ "If you have any questions or what any help or tips, just let me know!".

Definition nudge (uuids : list string) (msg : string) : M unit :=
  let msg := if String.eqb msg "" then default_nudge else msg in
  for_each uuids tt (λ uuid _,
    post [posts_url uuid]
      {| kw_sleep := None; kw_params := None;
         kw_rest := {["data" := JObj [("content", JStr msg)]]} |};;
    mret tt).

(** The lines of [print_unread_notifications], once the notifications
    are fetched. *)
Definition unread_lines (notifications : Json) : Out unit :=
  unread_count ← out (meta ← getitem notifications "meta";
                      getitem meta "unread_count" ≫= as_int);
  print ("Unread count: " +:+ str unread_count);;
  results ← out (getitem notifications "results" ≫= as_list);
  for_each_out results (λ result,
    is_read ← out (getitem result "is_read");
    if truthy is_read then mret tt
    else
      url ← out (getitem result "url" ≫= as_str);
      text ← out (getitem result "text" ≫= as_str);
      print (url +:+ " " +:+ text)).

Definition print_unread_notifications : M (Out unit) :=
  notifications ← notifications;
  mret (unread_lines notifications).

Definition tests_status (record : Json) : Outcome Json :=
  getitem record "published_iteration_head_tests_status".

(** [f"{status.upper()}: Updated {track}/{exercise}"] *)
Definition updated_line (status : string) (record : Json) : Outcome string :=
  track ← getitem record "track";
  track ← getitem track "slug" ≫= as_str;
  exercise ← getitem record "exercise";
  exercise ← getitem exercise "slug" ≫= as_str;
  Ok (upper status +:+ ": Updated " +:+ track +:+ "/" +:+ exercise).

(** The lines of [print_nonpassing_solutions], once the solutions are
    fetched. *)
Definition nonpassing_lines (solutions : list Json) : Out unit :=
  for_each_out solutions (λ solution,
    status ← out (tests_status solution);
    if eq_str status "passed" then mret tt
    else
      status ← out (tests_status solution ≫= as_str);
      line ← out (updated_line status solution);
      print line).

Definition print_nonpassing_solutions (fuel : nat) : M (Out unit) :=
  solutions ← get_all_pages fuel [] "solutions" no_kwargs;
  mret (nonpassing_lines solutions).

(** The lines of [update_exercises_and_print], once the updates are
    there. *)
Definition update_lines (updates : list Json) : Out unit :=
  states ← out (foldr (λ update acc,
                         state ← tests_status update ≫= as_str;
                         rest ← acc;
                         Ok (state :: rest)) (Ok []) updates);
  for_each_out (sorted_set states) (λ state,
    for_each_out updates (λ update,
      status ← out (tests_status update);
      if eq_str status state then
        line ← out (updated_line state update);
        print line
      else mret tt)).

Definition update_exercises_and_print (fuel : nat) : M (Out unit) :=
  updates ← update_exercises fuel;
  mret (update_lines updates).

(** The two loops of [streaming_events] over one record: both timestamps
    are parsed and put back in place as aware datetimes. *)
Definition parse_times (i : Json) : Outcome Item :=
  match i with
  | JObj fields =>
      foldl (λ acc key,
               item ← acc;
               value ← item_get key item;
               text ← match value with
                      | VJson (JStr text) => Ok text
                      | _ => Raise TypeError
                      end;
               parsed ← datetime.strptime_ms text;
               Ok (item_set key (VDatetime parsed) item))
            (Ok (prod_map id VJson <$> fields)) ["starts_at"; "ends_at"]
  | _ => Raise TypeError
  end.

(** [x["starts_at"]], the key of the sort. *)
Definition starts_at (x : Item) : Outcome Z :=
  value ← item_get "starts_at" x;
  match value with
  | VDatetime t => Ok t
  | VJson _ => Raise TypeError
  end.

(** What [streaming_events] does with the records it fetched. *)
Definition timed_and_sorted (all_data : list Json) : Outcome (list Item) :=
  items ← foldr (λ i acc, item ← parse_times i; rest ← acc; Ok (item :: rest))
             (Ok []) all_data;
  keys ← foldr (λ x acc, key ← starts_at x; rest ← acc; Ok (key :: rest))
            (Ok []) items;
  Ok ((sort_by_key (zip keys items)).*2).

Definition streaming_events (fuel : nat) (live : bool) : M (list Item) :=
  params ← dict_of (if live then {["live" := JBool true]} else ∅);
  all_data ← get_all_pages fuel [] "streaming_events" (with_params params no_kwargs);
  lift (timed_and_sorted all_data).

(** [[i for i in events if i["starts_at"] >= now]] *)
Definition not_before (now : Z) (events : list Item) : Outcome (list Item) :=
  foldr (λ i acc,
           start ← starts_at i;
           rest ← acc;
           Ok (if bool_decide (now ≤ start) then i :: rest else rest))
        (Ok []) events.

(** [datetime.datetime.now(datetime.timezone.utc)], on the clock
    [utc_clock]. *)
Definition future_streaming_events (utc_clock : list Event → Z) (fuel : nat)
    : M (list Item) :=
  now ← (λ w, (Ok (utc_clock (trace w)), w));
  events ← streaming_events fuel false;
  lift (not_before now events).

Definition mentor_requests (fuel : nat) (track : string) : M (list Json) :=
  params ← dict_of {["track_slug" := JStr (lower track)]};
  get_all_pages fuel [] "mentoring/requests"
    {| kw_sleep := Some 500; kw_params := Some params; kw_rest := ∅ |}.

(** [[i["slug"] for i in data["tracks"]]] *)
Definition slugs (data : Json) : Outcome (list Json) :=
  tracks ← getitem data "tracks" ≫= as_list;
  foldr (λ i acc, slug ← getitem i "slug"; rest ← acc; Ok (slug :: rest))
        (Ok []) tracks.

Definition all_tracks : M (list Json) :=
  data ← get_json_with_retries [API +:+ "/tracks"] no_kwargs;
  lift (slugs data).

Definition failing_keys : list string :=
  ["uuid"; "private_url"; "published_iteration_head_tests_status";
   "published_at"; "completed_at"; "updated_at"; "is_out_of_date"].

(** [track and solution["track"]["slug"] != track] *)
Definition other_track (track : option string) (solution : Json) : Outcome bool :=
  match track with
  | Some t =>
      if String.eqb t "" then Ok false
      else
        slug ← getitem solution "track" ≫= (λ tr, getitem tr "slug");
        Ok (negb (eq_str slug t))
  | None => Ok false
  end.

(** The body of the inner loop of [failing_solutions]. *)
Definition failing_solution (track : option string) (solution : Json)
    (solutions : list Json) : Outcome (list Json) :=
  skip ← other_track track solution;
  if skip : bool then Ok solutions
  else
    status ← tests_status solution;
    if eq_str status "passed" || eq_str status "not_queued" then Ok solutions
    else
      values ← foldr (λ f acc, v ← getitem solution f; rest ← acc; Ok (v :: rest))
                 (Ok []) failing_keys;
      record ← foldl (λ acc key,
                        record ← acc;
                        slug ← getitem solution key ≫= (λ x, getitem x "slug");
                        Ok (obj_set key slug record))
                 (Ok (zip failing_keys values)) ["exercise"; "track"];
      Ok (solutions ++ [JObj record]).

(** The body of the outer loop of [failing_solutions]. *)
Definition failing_page (track : option string) (params : loc) (page : Z)
    (solutions : list Json) : M (list Json) :=
  dict_setitem params "page" (JNum page);;
  resp ← get_json_with_retries [API +:+ "/solutions"] (with_params params no_kwargs);
  results ← lift (getitem resp "results" ≫= as_list);
  for_each results solutions (λ solution acc, lift (failing_solution track solution acc)).

Definition failing_solutions (track : option string) : M (list Json) :=
  params ← dict_of ∅;
  resp ← get_json_with_retries [API +:+ "/solutions"] (with_params params no_kwargs);
  page_count ← lift (getitem resp "meta" ≫= (λ meta, getitem meta "total_pages"));
  page_count ← lift (as_int page_count);
  for_each (seqZ 1 page_count) [] (failing_page track params).

End WithEnv.
End Exercism.

(** ** class AsyncExercism *)

Module AsyncExercism.
Section WithEnv.
Context (env : Env).

Definition API : string := "https://exercism.org/api/v2".

Definition headers : Json :=
  JObj [("Authorization", JStr ("Bearer " +:+ token env))].

(** [aiohttp.ClientResponse.raise_for_status] *)
Definition raise_for_status (resp : Response) : M unit :=
  if bool_decide (400 ≤ status resp)
  then raise (ClientResponseError (status resp))
  else mret tt.

(** [if "headers" not in kwargs: kwargs["headers"] = self.headers] *)
Definition with_headers (kw : Kwargs) : Kwargs :=
  match kw_rest kw !! "headers" with
  | Some _ => kw
  | None =>
      {| kw_sleep := kw_sleep kw; kw_params := kw_params kw;
         kw_rest := <["headers" := headers]> (kw_rest kw) |}
  end.

(** The decorated body of [get_json_with_retries]: one attempt.  The
    session is the one transport of the model. *)
Definition get_json (args : list string) (endpoint : string) (kw : Kwargs) : M Json :=
  let kwargs := with_headers kw in
  resp ← send env Aiohttp GET ((API +:+ "/" +:+ endpoint) :: args) kwargs;
  match retry_after resp with
  | None =>
      raise_for_status resp;;
      asyncio_sleep (sleep_or 200 kw);;
      json resp
  | Some text =>
      delay ← py_int text;
      asyncio_sleep (1000 * (delay + 1));;
      resp ← send env Aiohttp GET args kwargs;
      raise_for_status resp;;
      asyncio_sleep (sleep_or 200 kw);;
      json resp
  end.

Definition get_json_with_retries (args : list string) (endpoint : string)
    (kw : Kwargs) : M Json :=
  tenacity.retry 3 (tenacity.wait_exponential 2 15 60)
    is_requests_failure asyncio_sleep (get_json args endpoint kw).

(** The body of the loop of [get_all_pages]. *)
Definition fetch_page (params : loc) (endpoint : string) (args : list string)
    (kw : Kwargs) (page : Z) (all_data : list Json) : M (LoopStep (list Json)) :=
  dict_setitem params "page" (JStr (str page));;
  response ← get_json_with_retries args endpoint (with_params params kw);
  results ← lift (getitem response "results" ≫= as_list);
  let all_data := all_data ++ results in
  last ← lift (is_last_page response);
  mret (if last : bool then Break all_data else Continue all_data).

Definition get_all_pages (fuel : nat) (args : list string) (endpoint : string)
    (kw : Kwargs) : M (list Json) :=
  params ← pop_params kw;
  for_count fuel 1 [] (fetch_page params endpoint args kw).

Definition streaming_events (fuel : nat) (live : bool) : M (list Item) :=
  params ← dict_of (if live then {["live" := JBool true]} else ∅);
  all_data ← get_all_pages fuel [] "streaming_events" (with_params params no_kwargs);
  lift (Exercism.timed_and_sorted all_data).

Definition future_streaming_events (utc_clock : list Event → Z) (fuel : nat)
    : M (list Item) :=
  now ← (λ w, (Ok (utc_clock (trace w)), w));
  events ← streaming_events fuel false;
  lift (Exercism.not_before now events).

Definition mentor_requests (fuel : nat) (track : string) : M (list Json) :=
  params ← dict_of {["track_slug" := JStr (lower track)]};
  get_all_pages fuel [] "mentoring/requests"
    {| kw_sleep := Some 500; kw_params := Some params; kw_rest := ∅ |}.

Definition all_tracks : M (list Json) :=
  data ← get_json_with_retries [] "tracks" no_kwargs;
  lift (Exercism.slugs data).

End WithEnv.
End AsyncExercism.

(** ** The script [nudge()] *)

(** [p["updated_at"] for p in posts if p["by_student"]], or [if not]. *)
Fixpoint stamps (student : bool) (posts : list Json) : Outcome (list string) :=
  match posts with
  | [] => Ok []
  | p :: rest =>
      by_student ← getitem p "by_student";
      if Bool.eqb (truthy by_student) student then
        t ← getitem p "updated_at" ≫= as_str;
        ts ← stamps student rest;
        Ok (t :: ts)
      else stamps student rest
  end.

(** [len([p for p in posts if p["updated_at"] >= updated])] *)
Fixpoint posts_since (updated : string) (posts : list Json) : Outcome Z :=
  match posts with
  | [] => Ok 0
  | p :: rest =>
      t ← getitem p "updated_at" ≫= as_str;
      n ← posts_since updated rest;
      Ok (if String.leb updated t then 1 + n else n)
  end.

(** The body of the loop of [nudge()]: one discussion is put on one of
    the two lists. *)
Definition sort_discussion (env : Env) (now : Z) (uuid : string)
    (lists : list string * list string) : M (list string * list string) :=
  let '(to_finish, to_nudge) := lists in
  posts ← Exercism.mentor_discussion_posts env uuid;
  first_mentor ← lift (stamps false posts ≫= py_min);
  student ← lift (stamps true posts);
  let last_student := py_max_default student first_mentor in
  let updated := py_max2 first_mentor last_student in
  posts_since_updated ← lift (posts_since updated posts);
  parsed ← lift (datetime.strptime updated);
  let age_days := datetime.days_between now parsed in
  if bool_decide (300 < age_days) && bool_decide (5 < posts_since_updated)
  then mret (to_finish ++ [uuid], to_nudge)
  else mret (to_finish, to_nudge ++ [uuid]).

Definition nudge (env : Env) : M unit :=
  now ← datetime_now env;
  ids ← Exercism.old_mentor_discussions env "awaiting_student" 30 "oldest";
  '(to_finish, to_nudge) ← for_each ids ([], []) (sort_discussion env now);
  Exercism.finish env to_finish;;
  Exercism.nudge env to_nudge "".

(** * Observations, policies and scenarios *)

(** ** What a trace shows *)

Definition calls (tr : list Event) : list Request :=
  omap (λ e, match e with Call r => Some r | _ => None end) tr.

Definition sleeps (tr : list Event) : list Z :=
  omap (λ e, match e with Sleep ms => Some ms | _ => None end) tr.

Definition dispatches (tr : list Event) : list Json :=
  omap (λ e, match e with Dispatch n => Some n | _ => None end) tr.

Definition called (r : Request) (w : World) : World :=
  {| trace := trace w ++ [Call r]; heap := heap w |}.

Definition slept (ms : Z) (w : World) : World :=
  {| trace := trace w ++ [Sleep ms]; heap := heap w |}.

(** ** The retry policy, in the words of the design

    Up to three attempts; a failure is transient when it is an
    [HTTPError] or a connection failure; after a transient failure wait,
    then try again; the third transient failure is final. *)

Definition transient {A} (r : Outcome A) : option Exn :=
  match r with
  | Raise e => if is_requests_failure e then Some e else None
  | _ => None
  end.

Definition three_attempts {A} (wait1 wait2 : Z) (attempt : M A) : M A :=
  λ w,
    let '(r1, w1) := attempt w in
    match transient r1 with
    | None => (r1, w1)
    | Some _ =>
        let '(r2, w2) := attempt (slept (1000 * wait1) w1) in
        match transient r2 with
        | None => (r2, w2)
        | Some _ =>
            let '(r3, w3) := attempt (slept (1000 * wait2) w2) in
            match transient r3 with
            | None => (r3, w3)
            | Some e => (Raise (RetryError e), w3)
            end
        end
    end.

(** ** Scenarios *)

(** A server that answers the n-th call with the n-th reply of a script,
    whatever is asked, and is unreachable once the script is over. *)
Definition scripted (script : list Reply) : list Event → Request → Reply :=
  λ tr _, default Unreachable (script !! length (calls tr)).

Definition scripted_env (script : list Reply) : Env :=
  {| remote := scripted script; clock := λ _, 0; token := "secret" |}.

Definition ok_json (j : Json) : Reply :=
  Answer {| status := 200; retry_after := None; body := Some j |}.

Definition rate_limited (d : Z) : Reply :=
  Answer {| status := 429; retry_after := Some (IntText d); body := None |}.

Definition failing (code : Z) : Reply :=
  Answer {| status := code; retry_after := None; body := None |}.

Definition fresh_world : World := {| trace := []; heap := ∅ |}.

Definition tracks_url : string := "https://exercism.org/api/v2/tracks".

(** Three server errors in a row, then a good answer. *)
Definition three_failures : Env :=
  scripted_env [failing 503; failing 503; failing 503; ok_json JNull].

(** A rate-limit signal, then a good answer. *)
Definition limited_once : Env :=
  scripted_env [rate_limited 1; ok_json (JObj [("tracks", JList [])])].

(** One server error, then a good answer. *)
Definition failing_once : Env :=
  scripted_env [failing 503; ok_json (JObj [("tracks", JList [])])].

(** ** Pagination, in the words of the design *)

(** The dictionary the caller handed over, as it reads when
    [get_all_pages] starts; a call without [params] starts from [{}]. *)
Definition initial_params (kw : Kwargs) (w : World) : Dict :=
  default ∅ (kw_params kw ≫= (heap w !!.)).

Definition page_params (d : Dict) (page : Z) : Dict :=
  <["page" := JStr (str page)]> d.

(** The request for one page, as each client puts it. *)
Definition page_request (endpoint : string) (kw : Kwargs) (d : Dict) (page : Z)
    : Request :=
  {| client := Requests; method := GET;
     positional := [Exercism.API +:+ "/" +:+ endpoint];
     params := Some (page_params d page);
     keywords := kw_rest kw |}.

Definition async_page_request (env : Env) (endpoint : string) (kw : Kwargs)
    (d : Dict) (page : Z) : Request :=
  {| client := Aiohttp; method := GET;
     positional := [AsyncExercism.API +:+ "/" +:+ endpoint];
     params := Some (page_params d page);
     keywords := kw_rest (AsyncExercism.with_headers env kw) |}.

(** A page envelope: [results], and [meta] with the two counters. *)
Definition is_page (j : Json) (results : list Json) (current total : Z) : Prop :=
  getitem j "results" = Ok (JList results)
  ∧ ∃ meta, getitem j "meta" = Ok meta
      ∧ getitem meta "current_page" = Ok (JNum current)
      ∧ getitem meta "total_pages" = Ok (JNum total).

(** An answer that is neither a rate-limit signal nor an error status and
    carries the JSON body [j]. *)
Definition answers_with (reply : Reply) (j : Json) : Prop :=
  ∃ r, reply = Answer r ∧ retry_after r = None ∧ status r < 400 ∧ body r = Some j.

Definition envelope (results : list Json) (current total : Z) : Json :=
  JObj [("results", JList results);
        ("meta", JObj [("current_page", JNum current); ("total_pages", JNum total)])].

(** A stateless server holding a book of pages: the request for page [p]
    is answered with the p-th page and the given total. *)
Definition paged (book : list (list Json)) (total : Z)
    : list Event → Request → Reply :=
  λ _ req,
    match params req ≫= (.!! "page") with
    | Some (JStr s) =>
        match list_find (λ p, str p = s) (seqZ 1 (Z.of_nat (length book))) with
        | Some (i, p) => ok_json (envelope (default [] (book !! i)) p total)
        | None => failing 404
        end
    | _ => failing 404
    end.

Definition paged_env (book : list (list Json)) (total : Z) : Env :=
  {| remote := paged book total; clock := λ _, 0; token := "secret" |}.

(** The one page of a collection, answered 503 at the first try. *)
Definition first_try_fails : Env :=
  scripted_env [failing 503; ok_json (envelope [JStr "a"] 1 1)].

Definition two_pages : list (list Json) :=
  [[JStr "a"; JStr "b"]; [JStr "c"]].

Definition page_of (book : list (list Json)) (p : Z) : list Json :=
  default [] (book !! Z.to_nat (p - 1)).

(** The world after page [p] was asked for and its answer paced: the
    caller's dictionary reads [page = str(p)], one call and one sleep are
    on the trace. *)
Definition turn_page (l : loc) (d : Dict) (req : Z → Request) (ms : Z)
    (p : Z) (w : World) : World :=
  {| trace := trace w ++ [Call (req p); Sleep ms];
     heap := <[l := page_params d p]> (heap w) |}.

(** The dictionary at [l] is [d] up to its [page] entry. *)
Definition reads_as (l : loc) (d : Dict) (w : World) : Prop :=
  ∀ v, <["page" := v]> (default ∅ (heap w !! l)) = <["page" := v]> d.

(** What a complete traversal of [n] pages returns and leaves behind. *)
Definition traversed (w w' : World) (out : Outcome (list Json))
    (req : Z → Request) (pages : Z → list Json) (n : Z) : Prop :=
  out = Ok (concat (pages <$> seqZ 1 n))
  ∧ calls (trace w') = calls (trace w) ++ (req <$> seqZ 1 n)
  ∧ NoDup (req <$> seqZ 1 n)
  ∧ length (req <$> seqZ 1 n) = Z.to_nat n
  ∧ length (concat (pages <$> seqZ 1 n)) = sum_list (length ∘ pages <$> seqZ 1 n).


(** Between [w] and [w'] the heap did not change, no callback ran, and
    the calls made were all the request [req], at least [least] times. *)
Definition repeats (req : Request) (least : nat) (w w' : World) : Prop :=
  heap w' = heap w
  ∧ dispatches (trace w') = dispatches (trace w)
  ∧ ∃ k, (least ≤ k)%nat ∧ calls (trace w') = calls (trace w) ++ replicate k req.


(** ** The watcher, in the words of the design *)

Definition uuid_key (r : Json) : option string :=
  match getitem r "uuid" ≫= as_str with
  | Ok u => Some u
  | _ => None
  end.

(** The UUIDs handed to the callback, in order. *)
Definition uuids_dispatched (tr : list Event) : list string :=
  omap uuid_key (dispatches tr).

(** No answer of the server lists a UUID twice. *)
Definition unique_uuids (env : Env) : Prop :=
  ∀ tr req r j rs,
    server env tr req = Answer r →
    body r = Some j →
    getitem j "results" = Ok (JList rs) →
    NoDup (omap uuid_key rs).

(** Priming took the listing [rs] and recorded every UUID in it. *)
Definition primed_with (env : Env) (w : World) (seen : gset string) : Prop :=
  ∃ j w1 rs us,
    Exercism.notifications env w = (Ok j, w1)
    ∧ getitem j "results" = Ok (JList rs)
    ∧ Some <$> us = uuid_key <$> rs
    ∧ seen = list_to_set us.

Definition notification (uuid : string) (is_read : bool) : Json :=
  JObj [("uuid", JStr uuid); ("is_read", JBool is_read);
        ("url", JStr ("https://exercism.org/notifications/" +:+ uuid));
        ("text", JStr "A mentor has replied")].

Definition listing (rs : list Json) : Reply :=
  ok_json (JObj [("results", JList rs);
                 ("meta", JObj [("unread_count", JNum 0)])]).

(** Priming sees [n1]; the listing of the first poll names [n2], unread,
    twice. *)
Definition listed_twice : Env :=
  scripted_env
    [listing [notification "n1" false];
     listing [notification "n1" false; notification "n2" false;
              notification "n2" false]].

(** A callback that always returns. *)
Definition quiet_callback : Callback := λ _ _, None.

(** Priming sees [n1]; the first poll adds [n2], both unread; the second
    poll shows the same two again and a third one already read. *)
Definition three_polls : Env :=
  scripted_env
    [listing [notification "n1" false];
     listing [notification "n1" false; notification "n2" false];
     listing [notification "n1" false; notification "n2" false;
              notification "n3" true]].

(** After priming, the API answers 503 three times in a row. *)
Definition outage : Env :=
  scripted_env
    [listing [notification "n1" false];
     failing 503; failing 503; failing 503;
     listing [notification "n1" false; notification "n2" false]].

(** After priming, the API cannot be reached. *)
Definition unplugged : Env :=
  scripted_env [listing [notification "n1" false]].

(** A step of a comprehension that only reads the record it is given. *)
Definition reads {A B} (f : A → M B) (g : A → Outcome B) : Prop :=
  ∀ x w, f x w = (g x, w).


(** What the watcher did between [w] and [w'], having entered the stretch
    with the seen-set [seen]: the callback was handed the UUIDs [new], none
    of which was in [seen]; none came twice if the server lists each UUID
    once; and a watcher still running has added exactly them to its
    seen-set. *)
Definition delivered (env : Env) (seen : gset string) (w w' : World)
    (r : Outcome (gset string)) (new : list string) : Prop :=
  uuids_dispatched (trace w') = uuids_dispatched (trace w) ++ new
  ∧ (∀ u, u ∈ new → u ∉ seen)
  ∧ (unique_uuids env → NoDup new)
  ∧ (∀ seen', r = Ok seen' → seen' = seen ∪ list_to_set new).

(** The watcher observed after [n] cycles, ending in [r] and [w'].  If
    priming went through with the seen-set [seen0]: priming dispatched
    nothing and recorded the whole listing; the cycles delivered as
    [delivered] says; and at every earlier cycle [k] the seen-set had only
    grown, is contained in the final one, and nothing in it was delivered
    afterwards.  If priming failed, so did the watcher, and nothing was
    dispatched. *)
Definition watch_report (env : Env) (callback : Callback) (n : nat)
    (w : World) (r : Outcome (gset string)) (w' : World) : Prop :=
  match Exercism.seen_at_start env w with
  | (Ok seen0, w0) =>
      primed_with env w seen0
      ∧ uuids_dispatched (trace w0) = uuids_dispatched (trace w)
      ∧ (∃ new, delivered env seen0 w0 w' r new)
      ∧ (∀ k m seen_k w_k,
           n = (k + m)%nat →
           Exercism.polling env k callback seen0 w0 = (Ok seen_k, w_k) →
           seen0 ⊆ seen_k
           ∧ (∃ later, delivered env seen_k w_k w' r later)
           ∧ (∀ seen_n, r = Ok seen_n → seen_k ⊆ seen_n))
  | (_, w0) =>
      w' = w0 ∧ uuids_dispatched (trace w') = uuids_dispatched (trace w)
  end.

(** ** Stale discussions, in the words of the design *)

(** The requests of [old_mentor_discussions]: the listing, first without
    a page and then page by page, and the posts of one discussion. *)
Definition discussion_filter (status order : string) : Dict :=
  {["status" := JStr status; "order" := JStr order]}.

Definition discussions_request (status order : string) (page : option Z) : Request :=
  {| client := Requests; method := GET;
     positional := [Exercism.API +:+ "/mentoring/discussions"];
     params := Some (match page with
                     | None => discussion_filter status order
                     | Some p => <["page" := JNum p]> (discussion_filter status order)
                     end);
     keywords := ∅ |}.

Definition posts_request (uuid : string) : Request :=
  {| client := Requests; method := GET;
     positional := [Exercism.posts_url uuid];
     params := None;
     keywords := ∅ |}.

Definition post_times (posts : list Json) : list Z :=
  omap (λ p, match Exercism.updated_at p with Ok t => Some t | _ => None end) posts.

(** The most recent of some instants. *)
Definition most_recent (ts : list Z) : option Z :=
  match ts with
  | [] => None
  | t :: rest => Some (foldr Z.max t rest)
  end.

(** Both checks of phase 1: the discussion itself, and its most recent
    post, are not more recent than the cutoff. *)
Definition candidate (cutoff : Z) (posts_of : string → list Json)
    (discussion : Json) : option string :=
  match Exercism.updated_at discussion, uuid_key discussion with
  | Ok updated, Some uuid =>
      match most_recent (post_times (posts_of uuid)) with
      | Some latest =>
          if bool_decide (updated ≤ cutoff) && bool_decide (latest ≤ cutoff)
          then Some uuid else None
      | None => None
      end
  | _, _ => None
  end.

(** What phase 1 needs of a discussion the server lists: a timestamp that
    reads, and, when that one is old enough, a UUID under which the server
    gives the posts, at least one, each with a timestamp that reads. *)
Definition listed (env : Env) (cutoff : Z) (posts_of : string → list Json)
    (discussion : Json) : Prop :=
  ∃ updated,
    Exercism.updated_at discussion = Ok updated
    ∧ (updated ≤ cutoff →
       ∃ uuid,
         getitem discussion "uuid" ≫= as_str = Ok uuid
         ∧ (∀ tr, ∃ j, answers_with (server env tr (posts_request uuid)) j
                       ∧ getitem j "items" = Ok (JList (posts_of uuid)))
         ∧ posts_of uuid ≠ []
         ∧ Forall (λ p, ∃ t, Exercism.updated_at p = Ok t) (posts_of uuid)).

(** ** Finish or nudge, in the words of the design *)

(** A post as the classifier reads it. *)
Record Post : Type := mkPost {
  post_updated_at : string;
  post_by_student : bool;
}.

Definition reads_post (j : Json) (p : Post) : Prop :=
  getitem j "updated_at" = Ok (JStr (post_updated_at p))
  ∧ ∃ b, getitem j "by_student" = Ok b ∧ truthy b = post_by_student p.

Definition is_least (m : string) (xs : list string) : Prop :=
  m ∈ xs ∧ ∀ x, x ∈ xs → (m ≤ x)%string.

Definition is_greatest (m : string) (xs : list string) : Prop :=
  m ∈ xs ∧ ∀ x, x ∈ xs → (x ≤ m)%string.

Definition mentor_times (posts : list Post) : list string :=
  post_updated_at <$> filter (λ p, post_by_student p = false) posts.

Definition student_times (posts : list Post) : list string :=
  post_updated_at <$> filter (λ p, post_by_student p = true) posts.

(** [reference] is the later of the first mentor post and the last
    student post, the latter defaulting to the former. *)
Definition reference_time (posts : list Post) (reference : string) : Prop :=
  ∃ first_mentor last_student,
    is_least first_mentor (mentor_times posts)
    ∧ (student_times posts = [] → last_student = first_mentor)
    ∧ (student_times posts ≠ [] → is_greatest last_student (student_times posts))
    ∧ is_greatest reference [first_mentor; last_student].

Definition posts_since_updated (posts : list Post) (reference : string) : Z :=
  Z.of_nat (length (filter (λ p, (reference ≤ post_updated_at p)%string) posts)).

Inductive Verdict : Type := Finish | Nudge.

(** The rule as the design words it: finish when the reference time lies
    more than 300 days back and more than 5 posts are at or after it. *)
Definition verdict_by_elapsed_time (now reference : Z) (since : Z) : Verdict :=
  if bool_decide (300 * datetime.us_per_day < now - reference)
     && bool_decide (5 < since)
  then Finish else Nudge.

(** The rule on whole days elapsed. *)
Definition verdict_by_whole_days (now reference : Z) (since : Z) : Verdict :=
  if bool_decide (300 < datetime.days_between now reference)
     && bool_decide (5 < since)
  then Finish else Nudge.

Definition filed (v : Verdict) (uuid : string) (lists : list string * list string)
    : list string * list string :=
  match v with
  | Finish => (lists.1 ++ [uuid], lists.2)
  | Nudge => (lists.1, lists.2 ++ [uuid])
  end.

(** *** A mentoring server *)

Definition discussion (uuid updated_at : string) : Json :=
  JObj [("uuid", JStr uuid); ("status", JStr "awaiting_student");
        ("updated_at", JStr updated_at)].

Definition post_of (p : Post) : Json :=
  JObj [("by_student", JBool (post_by_student p));
        ("updated_at", JStr (post_updated_at p))].

(** A stateless server with a book of discussion pages and the posts of
    each discussion. *)
Definition mentoring (book : list (list Json)) (posts : list (string * list Post))
    : list Event → Request → Reply :=
  λ _ req,
    match positional req with
    | [url] =>
        if bool_decide (url = Exercism.API +:+ "/mentoring/discussions") then
          match default (JNum 1) (params req ≫= (.!! "page")) with
          | JNum p =>
              ok_json (envelope (default [] (book !! Z.to_nat (p - 1))) p
                         (Z.of_nat (length book)))
          | _ => failing 400
          end
        else
          match list_find (λ up, Exercism.posts_url up.1 = url) posts with
          | Some (_, (_, ps)) => ok_json (JObj [("items", JList (post_of <$> ps))])
          | None => failing 404
          end
    | _ => failing 400
    end.

Definition noon_2025_06_01 : Z := datetime.instant 2025 6 1 12 0 0.

Definition mentoring_env (book : list (list Json)) (posts : list (string * list Post)) : Env :=
  {| remote := mentoring book posts; clock := λ _, noon_2025_06_01; token := "secret" |}.

Definition six_posts (stamp : string) : list Post :=
  [ {| post_updated_at := stamp; post_by_student := false |};
    {| post_updated_at := stamp; post_by_student := true |};
    {| post_updated_at := stamp; post_by_student := false |};
    {| post_updated_at := stamp; post_by_student := true |};
    {| post_updated_at := stamp; post_by_student := false |};
    {| post_updated_at := stamp; post_by_student := true |} ].

(** Two pages of discussions: [d1] went quiet 400 days ago with six posts,
    [d2] is recent, [d3] is old on its face but has a recent post, [d4]
    went quiet 300 days and 12 hours ago with six posts. *)
Definition discussions_book : list (list Json) :=
  [ [discussion "d1" "2024-04-27T12:00:00Z"; discussion "d2" "2025-05-30T08:00:00Z"];
    [discussion "d3" "2025-01-01T00:00:00Z"; discussion "d4" "2024-08-05T00:00:00Z"] ].

Definition discussions_posts : list (string * list Post) :=
  [ ("d1", six_posts "2024-04-27T12:00:00Z");
    ("d2", [ {| post_updated_at := "2025-05-30T08:00:00Z"; post_by_student := false |} ]);
    ("d3", [ {| post_updated_at := "2025-01-01T00:00:00Z"; post_by_student := false |};
             {| post_updated_at := "2025-05-20T00:00:00Z"; post_by_student := true |} ]);
    ("d4", six_posts "2024-08-05T00:00:00Z") ].

Definition mentor_desk : Env := mentoring_env discussions_book discussions_posts.

(** One page of two discussions that went quiet 400 days ago: [d1] with
    six posts, [d0] with none. *)
Definition silent_posts : list (string * list Post) :=
  [ ("d1", six_posts "2024-04-27T12:00:00Z"); ("d0", []) ].

Definition silent_desk : Env :=
  mentoring_env
    [ [discussion "d1" "2024-04-27T12:00:00Z"; discussion "d0" "2024-04-27T12:00:00Z"] ]
    silent_posts.

(** ** All or nothing, in the words of the design *)

(** Asking for one page: what the loop of [get_all_pages] does before it
    looks at the answer. *)
Definition ask_page (env : Env) (l : loc) (url : string) (args : list string)
    (kw : Kwargs) (page : Z) : M Json :=
  dict_setitem l "page" (JStr (str page));;
  Exercism.get_json_with_retries env (url :: args) (with_params l kw).

(** [turned ask p w chunks q w']: from page [p] in world [w], pages [p] to
    [q - 1] were asked for in turn, each came back and said more pages
    follow, their records are [chunks], and the loop stands at page [q] in
    world [w']. *)
Inductive turned (ask : Z → M Json) : Z → World → list (list Json) → Z → World → Prop :=
| turned_none p w : turned ask p w [] p w
| turned_next p w j rs w1 chunks q w' :
    ask p w = (Ok j, w1) →
    getitem j "results" ≫= as_list = Ok rs →
    is_last_page j = Ok false →
    turned ask (p + 1) w1 chunks q w' →
    turned ask p w (rs :: chunks) q w'.

(** A failed page fetch fails the traversal, whatever was gathered. *)
Definition pagination_fails_whole : Prop :=
  ∀ env fuel args endpoint kw w l w1 chunks q w2 e w3,
    pop_params kw w = (Ok l, w1) →
    turned (ask_page env l (Exercism.API +:+ "/" +:+ endpoint) args kw) 1 w1 chunks q w2 →
    ask_page env l (Exercism.API +:+ "/" +:+ endpoint) args kw q w2 = (Raise e, w3) →
    (length chunks < fuel)%nat →
    Exercism.get_all_pages env fuel args endpoint kw w = (Raise e, w3).

(** A traversal that returns has seen every page up to one that said it
    was the last, and returns all their records. *)
Definition pagination_returns_all : Prop :=
  ∀ env fuel args endpoint kw w data w3,
    Exercism.get_all_pages env fuel args endpoint kw w = (Ok data, w3) →
    ∃ l w1 chunks q w2 j rs,
      pop_params kw w = (Ok l, w1)
      ∧ turned (ask_page env l (Exercism.API +:+ "/" +:+ endpoint) args kw) 1 w1 chunks q w2
      ∧ ask_page env l (Exercism.API +:+ "/" +:+ endpoint) args kw q w2 = (Ok j, w3)
      ∧ getitem j "results" ≫= as_list = Ok rs
      ∧ is_last_page j = Ok true
      ∧ data = concat chunks ++ rs.

Definition out_of_date (solution : Json) : bool :=
  match getitem solution "is_out_of_date" with
  | Ok b => truthy b
  | _ => false
  end.

Definition sync_url (uuid : string) : string :=
  Exercism.API +:+ "/solutions/" +:+ uuid +:+ "/sync".

Definition sync_request (uuid : string) : Request :=
  {| client := Requests; method := PATCH;
     positional := [sync_url uuid];
     params := None;
     keywords := ∅ |}.

(** A failed traversal, or a failed sync after any number of syncs that
    went through, fails [update_exercises]. *)
Definition sync_fails_whole : Prop :=
  ∀ env fuel w,
    (∀ e w1,
       Exercism.get_all_pages env fuel [] "solutions" no_kwargs w = (Raise e, w1) →
       Exercism.update_exercises env fuel w = (Raise e, w1))
    ∧ (∀ before s after w1 updates w2 uuid e w3,
         Exercism.get_all_pages env fuel [] "solutions" no_kwargs w
           = (Ok (before ++ s :: after), w1) →
         for_each before [] (Exercism.sync_solution env) w1 = (Ok updates, w2) →
         out_of_date s = true →
         getitem s "uuid" ≫= as_str = Ok uuid →
         Exercism.patch env [sync_url uuid] no_kwargs w2 = (Raise e, w3) →
         Exercism.update_exercises env fuel w = (Raise e, w3)).

(** [update] is what syncing the solution [s] gave: the [solution] record
    of an answer of the API to the PATCH for its UUID. *)
Definition synced_as (env : Env) (s update : Json) : Prop :=
  ∃ uuid tr r j,
    getitem s "uuid" ≫= as_str = Ok uuid
    ∧ server env tr (sync_request uuid) = Answer r
    ∧ body r = Some j
    ∧ getitem j "solution" = Ok update.

(** An [update_exercises] that returns went through the whole traversal
    and holds, for each solution that was out of date and in their order,
    the record its sync gave; nothing is left out and nothing else is
    there. *)
Definition sync_returns_all : Prop :=
  ∀ env fuel w updates w',
    Exercism.update_exercises env fuel w = (Ok updates, w') →
    ∃ solutions w1,
      Exercism.get_all_pages env fuel [] "solutions" no_kwargs w = (Ok solutions, w1)
      ∧ Forall2 (synced_as env) (filter (λ s, out_of_date s = true) solutions) updates.

Definition discussions_url : string := Exercism.API +:+ "/mentoring/discussions".

(** A failed fetch fails [old_mentor_discussions], whatever was gathered:
    the first listing; the listing of any page, after any number of pages
    that went through; the posts of any discussion, after any number of
    discussions that went through. *)
Definition classification_fails_whole : Prop :=
  ∀ env status age order w l w1,
    order ∈ ["oldest"; "recent"; "exercise"; "student"] →
    status ∈ ["awaiting_mentor"; "awaiting_student"; "finished"] →
    dict_of (discussion_filter status order) w = (Ok l, w1) →
    (∀ e w2,
       Exercism.get_json_with_retries env [discussions_url] (with_params l no_kwargs) w1
         = (Raise e, w2) →
       Exercism.old_mentor_discussions env status age order w = (Raise e, w2))
    ∧ (∀ j0 w2 meta T delta cutoff before p after uuids w3 e w4,
         Exercism.get_json_with_retries env [discussions_url] (with_params l no_kwargs) w1
           = (Ok j0, w2) →
         getitem j0 "meta" = Ok meta →
         getitem meta "total_pages" = Ok (JNum T) →
         datetime.timedelta_days age = Ok delta →
         datetime.sub_timedelta (clock env (trace w2)) delta = Ok cutoff →
         seqZ 1 T = before ++ p :: after →
         for_each before [] (Exercism.check_page env cutoff l) w2 = (Ok uuids, w3) →
         Exercism.check_page env cutoff l p uuids w3 = (Raise e, w4) →
         Exercism.old_mentor_discussions env status age order w = (Raise e, w4))
    ∧ (∀ cutoff p uuids w3 e w4,
         (dict_setitem l "page" (JNum p);;
          Exercism.get_json_with_retries env [discussions_url] (with_params l no_kwargs)) w3
           = (Raise e, w4) →
         Exercism.check_page env cutoff l p uuids w3 = (Raise e, w4))
    ∧ (∀ cutoff p uuids w3 j w4 before d after uuids' w5 e w6,
         (dict_setitem l "page" (JNum p);;
          Exercism.get_json_with_retries env [discussions_url] (with_params l no_kwargs)) w3
           = (Ok j, w4) →
         getitem j "results" ≫= as_list = Ok (before ++ d :: after) →
         for_each before uuids (Exercism.check_discussion env cutoff) w4 = (Ok uuids', w5) →
         Exercism.check_discussion env cutoff d uuids' w5 = (Raise e, w6) →
         Exercism.check_page env cutoff l p uuids w3 = (Raise e, w6))
    ∧ (∀ cutoff d uuids w5 updated uuid e w6,
         Exercism.updated_at d = Ok updated →
         updated ≤ cutoff →
         getitem d "uuid" ≫= as_str = Ok uuid →
         Exercism.mentor_discussion_posts env uuid w5 = (Raise e, w6) →
         Exercism.check_discussion env cutoff d uuids w5 = (Raise e, w6)).

(** Asking for one page of the discussions. *)
Definition ask_discussions (env : Env) (l : loc) (page : Z) : M Json :=
  dict_setitem l "page" (JNum page);;
  Exercism.get_json_with_retries env [discussions_url] (with_params l no_kwargs).

(** [examined env cutoff ds w found w']: from the world [w] the
    discussions [ds] were gone through in order, and [found] are the
    UUIDs of those that are old on both counts.  One that is recent on
    its face costs nothing; of one that is not, the posts were fetched,
    there was at least one, and the latest decided. *)
Inductive examined (env : Env) (cutoff : Z)
    : list Json → World → list string → World → Prop :=
| examined_none w : examined env cutoff [] w [] w
| examined_recent d ds w updated found w' :
    Exercism.updated_at d = Ok updated →
    cutoff < updated →
    examined env cutoff ds w found w' →
    examined env cutoff (d :: ds) w found w'
| examined_old d ds w updated uuid posts w1 dates latest found w' :
    Exercism.updated_at d = Ok updated →
    updated ≤ cutoff →
    getitem d "uuid" ≫= as_str = Ok uuid →
    Exercism.mentor_discussion_posts env uuid w = (Ok posts, w1) →
    Forall2 (λ p t, Exercism.updated_at p = Ok t) posts dates →
    most_recent dates = Some latest →
    examined env cutoff ds w1 found w' →
    examined env cutoff (d :: ds) w
      (if bool_decide (latest ≤ cutoff) then uuid :: found else found) w'.

(** [listed_through env cutoff l ps w found w']: the pages [ps] were
    asked for in order, each came back, and the discussions of each were
    examined; [found] are the UUIDs found on them, page after page. *)
Inductive listed_through (env : Env) (cutoff : Z) (l : loc)
    : list Z → World → list string → World → Prop :=
| listed_none w : listed_through env cutoff l [] w [] w
| listed_page p ps w j w1 ds found w2 more w3 :
    ask_discussions env l p w = (Ok j, w1) →
    getitem j "results" ≫= as_list = Ok ds →
    examined env cutoff ds w1 found w2 →
    listed_through env cutoff l ps w2 more w3 →
    listed_through env cutoff l (p :: ps) w (found ++ more) w3.

(** An [old_mentor_discussions] that returns has listed every page from 1
    to the page count the first answer gave, has examined every
    discussion on them, and returns the UUIDs of all that are old on both
    counts, and of no other. *)
Definition classification_returns_all : Prop :=
  ∀ env status age order w uuids w',
    Exercism.old_mentor_discussions env status age order w = (Ok uuids, w') →
    ∃ l w1 j0 w2 meta T delta cutoff,
      dict_of (discussion_filter status order) w = (Ok l, w1)
      ∧ Exercism.get_json_with_retries env [discussions_url] (with_params l no_kwargs) w1
        = (Ok j0, w2)
      ∧ getitem j0 "meta" = Ok meta
      ∧ getitem meta "total_pages" = Ok (JNum T)
      ∧ datetime.timedelta_days age = Ok delta
      ∧ datetime.sub_timedelta (clock env (trace w2)) delta = Ok cutoff
      ∧ listed_through env cutoff l (seqZ 1 T) w2 uuids w'.

Definition solution (uuid : string) (is_out_of_date : bool) : Json :=
  JObj [("uuid", JStr uuid); ("is_out_of_date", JBool is_out_of_date)].

(** One page of three solutions, two of them out of date; every sync is
    answered with the solution brought up to date. *)
Definition shelf : Env :=
  {| remote := λ _ req,
       match method req with
       | GET => ok_json (envelope [solution "s1" true; solution "s2" false;
                                   solution "s3" true] 1 1)
       | _ => ok_json (JObj [("solution", JObj [("is_out_of_date", JBool false)])])
       end;
     clock := λ _, 0; token := "secret" |}.

(** The listing of two solutions out of date; the first sync goes
    through, the second is answered 500. *)
Definition second_sync_down : Env :=
  scripted_env
    [ok_json (envelope [solution "s1" true; solution "s2" true] 1 1);
     ok_json (JObj [("solution", JObj [("is_out_of_date", JBool false)])]);
     failing 500].

(** The discussions of [mentor_desk], the posts of [d4] being out of
    reach. *)
Definition posts_down : Env :=
  mentoring_env discussions_book (take 3 discussions_posts).

(** Page 1 of two comes back, then the API answers 500 three times. *)
Definition second_page_down : Env :=
  scripted_env
    [ok_json (envelope [JStr "a"; JStr "b"] 1 2);
     failing 500; failing 500; failing 500].

(** The posts the mentoring server of [mentor_desk] holds for a UUID. *)
Definition desk_posts (uuid : string) : list Json :=
  match list_find (λ up : string * list Post, up.1 = uuid) discussions_posts with
  | Some (_, (_, ps)) => post_of <$> ps
  | None => []
  end.

Definition thirty_days_before_noon : Z := noon_2025_06_01 - 30 * datetime.us_per_day.




(** * Further observations *)

(** ** What a run leaves behind, as a relation between worlds *)

(** Whatever [m] returns or raises, the world it leaves is related by [R]
    to the world it started in. *)
Definition keeps {A} (R : World → World → Prop) (m : M A) : Prop :=
  ∀ w r w', m w = (r, w') → R w w'.

(** The calls made between [w] and [w'] all satisfy [P]. *)
Definition calling (P : Request → Prop) (w w' : World) : Prop :=
  ∃ reqs, calls (trace w') = calls (trace w) ++ reqs ∧ Forall P reqs.

(** At most [n] calls were made between [w] and [w']. *)
Definition at_most (n : nat) (w w' : World) : Prop :=
  (length (calls (trace w')) ≤ length (calls (trace w)) + n)%nat.

(** Every dictionary that existed in [w], the one at [l] apart, reads in
    [w'] as it did. *)
Definition untouched (l : option loc) (w w' : World) : Prop :=
  ∀ l', is_Some (heap w !! l') → Some l' ≠ l → heap w' !! l' = heap w !! l'.

(** A header that is not a number of seconds: an HTTP date. *)
Definition dated : Reply :=
  Answer {| status := 429;
            retry_after := Some (OtherText "Wed, 21 Oct 2015 07:28:00 GMT");
            body := None |}.

Definition limited_until_a_date : Env :=
  scripted_env [dated; ok_json (JObj [("tracks", JList [])])].

(** ** Finishing and nudging, as the server sees them *)

Definition finish_request (uuid : string) : Request :=
  {| client := Requests; method := PATCH;
     positional := [Exercism.API +:+ "/mentoring/discussions/" +:+ uuid +:+ "/finish"];
     params := None;
     keywords := ∅ |}.


(** A request answered without a rate-limit signal and without an error
    status. *)
Definition accepts (env : Env) (req : Request) : Prop :=
  ∀ tr, ∃ r, server env tr req = Answer r
             ∧ retry_after r = None ∧ ¬ (400 ≤ status r < 600).


(** A server that accepts whatever it is asked. *)
Definition agreeable : Env :=
  {| remote := λ _ _, ok_json (JObj []); clock := λ _, 0; token := "secret" |}.


(** ** The script, phase by phase *)




(** A discussion in which only the student has posted. *)
Definition student_only : list Post :=
  [ {| post_updated_at := "2024-04-27T12:00:00Z"; post_by_student := true |} ].

Definition lonely_desk : Env :=
  mentoring_env [[discussion "s1" "2024-04-27T12:00:00Z"]] [("s1", student_only)].

(** ** What phase 1 costs *)

(** The first check of phase 1 alone: the discussion's own timestamp is
    not after the cutoff. *)
Definition old_on_its_face (cutoff : Z) (discussion : Json) : option string :=
  match Exercism.updated_at discussion, uuid_key discussion with
  | Ok updated, Some uuid => if bool_decide (updated ≤ cutoff) then Some uuid else None
  | _, _ => None
  end.

(** A request and the pause that follows its answer. *)
Definition paced (ms : Z) (req : Request) : list Event := [Call req; Sleep ms].

(** The requests of phase 1 on [T] pages: the listing without a page,
    then each page followed by the posts of the discussions on it that
    are old on their face. *)
Definition phase_one_requests (status order : string) (cutoff : Z)
    (pages : Z → list Json) (T : Z) : list Request :=
  discussions_request status order None
  :: concat ((λ p, discussions_request status order (Some p)
                   :: (posts_request <$> omap (old_on_its_face cutoff) (pages p)))
             <$> seqZ 1 T).

(** ** Pagination: the edges *)

(** A server that ignores the page asked for: it always answers with the
    first of two pages. *)
Definition stuck : Env :=
  {| remote := λ _ _, ok_json (envelope [JStr "a"] 1 2);
     clock := λ _, 0; token := "secret" |}.

(** The dictionaries are the same in [w'] as in [w]. *)
Definition same_heap (w w' : World) : Prop := heap w' = heap w.

(** A page that cannot be read: it has no [results], or its [results] is
    a list but [meta] or one of the two counters is missing.  [e] is what
    the first failing subscript raises. *)
Definition unreadable_page (j : Json) (e : Exn) : Prop :=
  getitem j "results" = Raise e
  ∨ ∃ rs, getitem j "results" = Ok (JList rs)
      ∧ (getitem j "meta" = Raise e
         ∨ ∃ meta, getitem j "meta" = Ok meta
             ∧ (getitem meta "current_page" = Raise e
                ∨ ∃ cur, getitem meta "current_page" = Ok cur
                    ∧ getitem meta "total_pages" = Raise e)).

(** The first page comes without its [meta]. *)
Definition bare_listing : Env :=
  {| remote := λ _ _, ok_json (JObj [("results", JList [JStr "a"])]);
     clock := λ _, 0; token := "secret" |}.

(** ** The watcher, cycle by cycle *)

Definition notifications_request : Request :=
  {| client := Requests; method := GET;
     positional := [Exercism.API +:+ "/notifications"];
     params := None;
     keywords := ∅ |}.

Definition is_unread (r : Json) : bool :=
  match getitem r "is_read" with
  | Ok b => negb (truthy b)
  | _ => false
  end.

Definition not_seen (seen : gset string) (r : Json) : bool :=
  match uuid_key r with
  | Some u => bool_decide (u ∉ seen)
  | None => false
  end.

(** A record the callback is owed: unread, and of a UUID not seen yet. *)
Definition owed (seen : gset string) (r : Json) : bool :=
  is_unread r && not_seen seen r.

(** A record the loop can read: it says whether it is read, and if it is
    not, it has a UUID. *)
Definition readable (r : Json) : Prop :=
  (∃ b, getitem r "is_read" = Ok b)
  ∧ (is_unread r = true → ∃ u, getitem r "uuid" ≫= as_str = Ok u).

(** The world after one quiet cycle that dispatched [new]. *)
Definition after_cycle (w : World) (new : list Json) : World :=
  {| trace := trace w ++ [Sleep (1000 * Exercism.WATCHER_SLEEP_SEC);
                          Call notifications_request; Sleep 200]
              ++ (Dispatch <$> new);
     heap := heap w |}.

(** A callback that fails on the notification [n2]. *)
Definition choking_callback : Callback :=
  λ _ r, if bool_decide (uuid_key r = Some "n2") then Some (CallbackError "n2") else None.

(** A server whose notifications are always the same three: [n1] and [n2]
    unread, [n3] read. *)
Definition mailbox : Env :=
  {| remote := λ _ _, listing [notification "n1" false; notification "n2" false;
                               notification "n3" true];
     clock := λ _, 0; token := "secret" |}.

(** ** Syncing *)

(** The UUIDs of the solutions that are out of date, in order. *)
Definition stale_uuids (solutions : list Json) : list string :=
  omap (λ s, if out_of_date s then uuid_key s else None) solutions.

(** A solution the loop of [update_exercises] gets through: it says
    whether it is out of date, and if it is, it has a UUID whose sync the
    server accepts, answering with the record [synced uuid]. *)
Definition syncable (env : Env) (synced : string → Json) (s : Json) : Prop :=
  (∃ b, getitem s "is_out_of_date" = Ok b)
  ∧ (out_of_date s = true →
     ∃ uuid, getitem s "uuid" ≫= as_str = Ok uuid
       ∧ ∀ tr, ∃ r j, server env tr (sync_request uuid) = Answer r
                      ∧ retry_after r = None ∧ ¬ (400 ≤ status r < 600)
                      ∧ body r = Some j
                      ∧ getitem j "solution" = Ok (synced uuid)).

(** ** Failing solutions, as a report *)

Definition solutions_request (page : option Z) : Request :=
  {| client := Requests; method := GET;
     positional := [Exercism.API +:+ "/solutions"];
     params := Some (match page with
                     | None => ∅
                     | Some p => {["page" := JNum p]}
                     end);
     keywords := ∅ |}.

(** A field of a record, and the slug of a record nested in it; [null]
    stands for what is not there. *)
Definition field_of (s : Json) (k : string) : Json :=
  match getitem s k with Ok v => v | _ => JNull end.

Definition slug_of (s : Json) (k : string) : Json :=
  field_of (field_of s k) "slug".

(** The solution is of the track asked for; no track, or an empty one,
    asks for nothing. *)
Definition on_track (track : option string) (s : Json) : bool :=
  match track with
  | Some t => String.eqb t "" || eq_str (slug_of s "track") t
  | None => true
  end.

Definition passes (s : Json) : bool :=
  let status := field_of s "published_iteration_head_tests_status" in
  eq_str status "passed" || eq_str status "not_queued".

Definition is_failing (track : option string) (s : Json) : bool :=
  on_track track s && negb (passes s).

(** What is reported of a failing solution: seven of its fields, and the
    slugs of its exercise and its track. *)
Definition report (s : Json) : Json :=
  JObj [("uuid", field_of s "uuid");
        ("private_url", field_of s "private_url");
        ("published_iteration_head_tests_status",
         field_of s "published_iteration_head_tests_status");
        ("published_at", field_of s "published_at");
        ("completed_at", field_of s "completed_at");
        ("updated_at", field_of s "updated_at");
        ("is_out_of_date", field_of s "is_out_of_date");
        ("exercise", slug_of s "exercise");
        ("track", slug_of s "track")].

Definition has (s : Json) (k : string) : Prop := ∃ v, getitem s k = Ok v.

(** A solution the loop of [failing_solutions] gets through: what it
    looks at is there.  The track is looked at only when a track is asked
    for, the status only on that track, the rest only when the solution
    fails. *)
Definition reportable (track : option string) (s : Json) : Prop :=
  (∀ t, track = Some t → t ≠ "" → ∃ tr, getitem s "track" = Ok tr ∧ has tr "slug")
  ∧ (on_track track s = true → has s "published_iteration_head_tests_status")
  ∧ (is_failing track s = true →
     Forall (has s) Exercism.failing_keys
     ∧ (∃ ex, getitem s "exercise" = Ok ex ∧ has ex "slug")
     ∧ (∃ tr, getitem s "track" = Ok tr ∧ has tr "slug")).

Definition solved (uuid track status : string) : Json :=
  JObj [("uuid", JStr uuid); ("private_url", JStr ("https://exercism.org/s/" +:+ uuid));
        ("published_iteration_head_tests_status", JStr status);
        ("published_at", JNull); ("completed_at", JNull);
        ("updated_at", JStr "2024-04-27T12:00:00Z");
        ("is_out_of_date", JBool false);
        ("exercise", JObj [("slug", JStr "leap")]);
        ("track", JObj [("slug", JStr track)])].

(** One page of four solutions on two tracks. *)
Definition four_solutions : list Json :=
  [solved "s1" "python" "passed"; solved "s2" "python" "failed";
   solved "s3" "rust" "errored"; solved "s4" "python" "not_queued"].

Definition report_desk : Env :=
  {| remote := λ _ _, ok_json (envelope four_solutions 1 1);
     clock := λ _, 0; token := "secret" |}.

(** ** Streaming events, in order *)

(** The traversal [streaming_events] starts with, in each client. *)
Definition streaming_fetch (env : Env) (fuel : nat) (live : bool) : M (list Json) :=
  params ← dict_of (if live then {["live" := JBool true]} else ∅);
  Exercism.get_all_pages env fuel [] "streaming_events" (with_params params no_kwargs).

Definition async_streaming_fetch (env : Env) (fuel : nat) (live : bool) : M (list Json) :=
  params ← dict_of (if live then {["live" := JBool true]} else ∅);
  AsyncExercism.get_all_pages env fuel [] "streaming_events" (with_params params no_kwargs).

Definition start_time (x : Item) : Z :=
  match Exercism.starts_at x with Ok t => t | _ => 0 end.

Definition by_start (x y : Item) : Prop := start_time x ≤ start_time y.

Definition as_value (o : Outcome Json) : Outcome Value :=
  match o with
  | Ok v => Ok (VJson v)
  | Raise e => Raise e
  | OutOfFuel => OutOfFuel
  end.

(** [item] is the record [i] with its two timestamps parsed: both read in
    the format with [.000], both are datetimes in [item], and every other
    entry is as it was. *)
Definition parsed (i : Json) (item : Item) : Prop :=
  ∃ s e ts te,
    getitem i "starts_at" = Ok (JStr s) ∧ datetime.strptime_ms s = Ok ts
    ∧ getitem i "ends_at" = Ok (JStr e) ∧ datetime.strptime_ms e = Ok te
    ∧ item_get "starts_at" item = Ok (VDatetime ts)
    ∧ item_get "ends_at" item = Ok (VDatetime te)
    ∧ ∀ k, k ≠ "starts_at" → k ≠ "ends_at" → item_get k item = as_value (getitem i k).

(** What [streaming_events] gives back of the records [all_data]: each
    with its timestamps parsed, in ascending order of [starts_at], records
    that start together staying in the order they came in. *)
Definition in_order_of_start (all_data : list Json) (events : list Item) : Prop :=
  ∃ items,
    Forall2 parsed all_data items
    ∧ events ≡ₚ items
    ∧ Sorted by_start events
    ∧ ∀ t, filter (λ x, start_time x = t) events = filter (λ x, start_time x = t) items.

Definition stream (title starts_at ends_at : string) : Json :=
  JObj [("title", JStr title); ("starts_at", JStr starts_at); ("ends_at", JStr ends_at)].

(** One page of three streams, not in the order of their start. *)
Definition three_streams : list Json :=
  [stream "late" "2025-06-03T18:00:00.000Z" "2025-06-03T19:00:00.000Z";
   stream "early" "2025-06-01T18:00:00.000Z" "2025-06-01T19:00:00.000Z";
   stream "middle" "2025-06-02T18:00:00.000Z" "2025-06-02T19:00:00.000Z"].

Definition studio : Env :=
  {| remote := λ _ _, ok_json (envelope three_streams 1 1);
     clock := λ _, 0; token := "secret" |}.

(** A UTC clock that stands at noon on 2025-06-02. *)
Definition noon_2025_06_02_utc : list Event → Z :=
  λ _, datetime.instant 2025 6 2 12 0 0.

(** A stream whose start has a fraction of a second. *)
Definition off_beat : list Json :=
  [stream "early" "2025-06-01T18:00:00.000Z" "2025-06-01T19:00:00.000Z";
   stream "odd" "2025-06-02T18:00:00.500Z" "2025-06-02T19:00:00.000Z"].

Definition off_beat_studio : Env :=
  {| remote := λ _ _, ok_json (envelope off_beat 1 1);
     clock := λ _, 0; token := "secret" |}.

(** ** Mentoring requests and tracks *)

(** What [mentor_requests] asks with: the track in lower case. *)
Definition track_filter (track : string) : Dict :=
  {["track_slug" := JStr (lower track)]}.

Definition tracks_request : Request :=
  {| client := Requests; method := GET;
     positional := [Exercism.API +:+ "/tracks"];
     params := None;
     keywords := ∅ |}.

Definition async_tracks_request (env : Env) : Request :=
  {| client := Aiohttp; method := GET;
     positional := [AsyncExercism.API +:+ "/tracks"];
     params := None;
     keywords := {["headers" := AsyncExercism.headers env]} |}.

(** A stateless server holding a book of pages, whatever else is asked. *)
Definition library : Env := paged_env two_pages 2.

(** A server that lists two tracks. *)
Definition two_tracks : Env :=
  {| remote := λ _ _, ok_json (JObj [("tracks", JList [JObj [("slug", JStr "python")];
                                                        JObj [("slug", JStr "rust")]])]);
     clock := λ _, 0; token := "secret" |}.

(** ** What is printed *)

Definition status_of (record : Json) : string :=
  match Exercism.tests_status record ≫= as_str with Ok s => s | _ => "" end.

Definition line_of (record : Json) : string :=
  match Exercism.updated_line (status_of record) record with Ok l => l | _ => "" end.

(** A record a line can be printed of: its status is text, and so are
    the slugs of its track and its exercise. *)
Definition printable (record : Json) : Prop :=
  (∃ s, Exercism.tests_status record = Ok (JStr s))
  ∧ ∃ l, Exercism.updated_line (status_of record) record = Ok l.

Definition by_status (a b : Json) : Prop := (status_of a ≤ status_of b)%string.

(** The records of each of the [keys] in turn, in the order they have in
    [xs]. *)
Definition grouped (keys : list string) (xs : list Json) : list Json :=
  concat ((λ k, filter (λ x, status_of x = k) xs) <$> keys).

(** A notification a line can be printed of, when it is unread. *)
Definition listable (r : Json) : Prop :=
  (∃ b, getitem r "is_read" = Ok b)
  ∧ (is_unread r = true →
     ∃ url text, getitem r "url" = Ok (JStr url) ∧ getitem r "text" = Ok (JStr text)).

Definition notice_of (r : Json) : string :=
  match getitem r "url" ≫= as_str, getitem r "text" ≫= as_str with
  | Ok url, Ok text => url +:+ " " +:+ text
  | _, _ => ""
  end.

Definition three_updates : list Json :=
  [solved "s1" "python" "passed"; solved "s2" "python" "failed";
   solved "s3" "rust" "passed"].

(** Three solutions out of date; the sync of each answers with one of
    [three_updates]. *)
Definition workshop : Env :=
  {| remote := λ _ req,
       match method req with
       | GET => ok_json (envelope [solution "s1" true; solution "s2" true;
                                   solution "s3" true] 1 1)
       | _ =>
           ok_json (JObj [("solution",
             if bool_decide (positional req = [sync_url "s1"])
             then solved "s1" "python" "passed"
             else if bool_decide (positional req = [sync_url "s2"])
             then solved "s2" "python" "failed"
             else solved "s3" "rust" "passed")])
       end;
     clock := λ _, 0; token := "secret" |}.

(** A solution [print_nonpassing_solutions] gets through: it has a
    status, and a line can be printed of it unless it passed. *)
Definition showable (s : Json) : Prop :=
  (∃ status, Exercism.tests_status s = Ok status)
  ∧ (Exercism.tests_status s ≠ Ok (JStr "passed") → printable s).

Definition has_passed (s : Json) : bool :=
  eq_str (field_of s "published_iteration_head_tests_status") "passed".

(** The first request of the cooperative [streaming_events(True)]. *)
Definition live_request (env : Env) : Request :=
  async_page_request env "streaming_events" no_kwargs {["live" := JBool true]} 1.

(** * Properties *)

(** ** The model on small inputs *)

Example backoff_values :
  tenacity.wait_exponential 2 15 60 <$> [1; 2; 3; 4; 5; 6] = [15; 15; 15; 16; 32; 60].
Proof. reflexivity. Qed.

Example strptime_reads :
  datetime.strptime "2024-01-05T03:04:05Z" = Ok (datetime.instant 2024 1 5 3 4 5)
  ∧ datetime.strptime "2024-1-5t3:4:5z" = Ok (datetime.instant 2024 1 5 3 4 5)
  ∧ datetime.strptime "2023-02-29T00:00:00Z" = Raise ValueError
  ∧ datetime.strptime "2024-02-29T00:00:60Z" = Raise ValueError
  ∧ datetime.strptime "2024-02-29T00:00:00.000Z" = Raise ValueError.
Proof. repeat split; vm_compute; reflexivity. Qed.

Example ordinals :
  datetime.ymd2ord 1 1 1 = 1
  ∧ datetime.ymd2ord 1970 1 1 = 719163
  ∧ datetime.ymd2ord 9999 12 31 = 3652059.
Proof. repeat split; reflexivity. Qed.

Example whole_days :
  datetime.days_between (datetime.instant 2025 6 1 12 0 0) (datetime.instant 2024 8 5 0 0 0)
  = 300.
Proof. reflexivity. Qed.

Example text_order :
  py_min ["2024-05-01T00:00:00Z"; "2023-12-31T23:59:59Z"; "2024-01-01T00:00:00Z"]
  = Ok "2023-12-31T23:59:59Z".
Proof. reflexivity. Qed.

Example rate_limited_blocking_fetch :
  let run := Exercism.get_json_with_retries limited_once [tracks_url] no_kwargs fresh_world in
  run.1 = Ok (JObj [("tracks", JList [])])
  ∧ sleeps (trace run.2) = [2000; 200]
  ∧ positional <$> calls (trace run.2) = [[tracks_url]; [tracks_url]].
Proof. repeat split; vm_compute; reflexivity. Qed.

Example watcher_on_three_polls :
  let run := Exercism.notification_pusher three_polls 2 quiet_callback fresh_world in
  uuids_dispatched (trace run.2) = ["n2"]
  ∧ sleeps (trace run.2) = [200; 900000; 200; 900000; 200].
Proof. repeat split; vm_compute; reflexivity. Qed.

Example phase_one_on_the_desk :
  (Exercism.old_mentor_discussions mentor_desk "awaiting_student" 30 "oldest" fresh_world).1
  = Ok ["d1"; "d4"].
Proof. vm_compute. reflexivity. Qed.

(** ** The monad *)

Lemma run_bind {A B} (m : M A) (f : A → M B) (w : World) :
  (m ≫= f) w =
  match m w with
  | (Ok a, w1) => f a w1
  | (Raise e, w1) => (Raise e, w1)
  | (OutOfFuel, w1) => (OutOfFuel, w1)
  end.
Proof. reflexivity. Qed.

Lemma run_bind_ok {A B} (m : M A) (f : A → M B) w a w1 :
  m w = (Ok a, w1) → (m ≫= f) w = f a w1.
Proof. intros H. rewrite run_bind, H. reflexivity. Qed.

Lemma run_bind_raise {A B} (m : M A) (f : A → M B) w e w1 :
  m w = (Raise e, w1) → (m ≫= f) w = (Raise e, w1).
Proof. intros H. rewrite run_bind, H. reflexivity. Qed.

Lemma bind_ok_inv {A B} (m : M A) (f : A → M B) w b w' :
  (m ≫= f) w = (Ok b, w') →
  ∃ a w1, m w = (Ok a, w1) ∧ f a w1 = (Ok b, w').
Proof.
  rewrite run_bind. destruct (m w) as [[a|e|] w1]; [eauto | discriminate..].
Qed.

Lemma time_sleep_run ms w :
  0 ≤ ms ≤ max_sleep → time_sleep ms w = (Ok tt, slept ms w).
Proof.
  intros H. unfold time_sleep.
  rewrite bool_decide_eq_true_2 by (unfold max_sleep in *; lia).
  rewrite bool_decide_eq_false_2 by lia. reflexivity.
Qed.

Lemma max_sleep_value : max_sleep = 9223372036854.
Proof. reflexivity. Qed.

(** [time.sleep] sleeps the length it is given, or raises and does
    nothing. *)
Lemma time_sleep_cases ms w :
  (0 ≤ ms ≤ max_sleep ∧ time_sleep ms w = (Ok tt, slept ms w))
  ∨ (- max_sleep ≤ ms < 0 ∧ time_sleep ms w = (Raise ValueError, w))
  ∨ (¬ (- max_sleep ≤ ms ≤ max_sleep) ∧ time_sleep ms w = (Raise OverflowError, w)).
Proof.
  unfold time_sleep. repeat case_bool_decide.
  - right. left. split; [lia|done].
  - left. split; [lia|done].
  - right. right. done.
Qed.

Lemma send_run env c m args kw w :
  send env c m args kw w =
  match server env (trace w) (snapshot c m args kw w) with
  | Answer r => (Ok r, called (snapshot c m args kw w) w)
  | Unreachable => (Raise (connection_failure c), called (snapshot c m args kw w) w)
  | Refused => (Raise TypeError, called (snapshot c m args kw w) w)
  end.
Proof. reflexivity. Qed.

(** A call with the URL as its one positional argument is accepted when
    [url] is not among the keywords too and the library can write the
    query. *)
Lemma accepted_by_position req url :
  positional req = [url] →
  keywords req !! "url" = None →
  encodes req = true →
  accepted req = true.
Proof.
  intros Hp Hk He. unfold accepted, binds. rewrite Hp, He.
  destruct (client req), (method req); cbn; by rewrite Hk.
Qed.

Lemma server_accepted env tr req :
  accepted req = true → server env tr req = remote env tr req.
Proof. unfold server. by intros ->. Qed.

(** An answer is the API's. *)
Lemma answered_by_remote env tr req r :
  server env tr req = Answer r → remote env tr req = Answer r.
Proof. unfold server. by destruct (accepted req). Qed.

Lemma send_answered env c m args kw w resp w' :
  send env c m args kw w = (Ok resp, w') →
  server env (trace w) (snapshot c m args kw w) = Answer resp
  ∧ w' = called (snapshot c m args kw w) w.
Proof.
  rewrite send_run. destruct (server env _ _); [|done..]. by intros [= <- <-].
Qed.


(** A call without a URL, by position or by keyword, is refused. *)
Lemma server_needs_url env tr req :
  positional req = [] → keywords req !! "url" = None → server env tr req = Refused.
Proof.
  intros Hp Hk. unfold server, accepted, binds. rewrite Hp, Hk.
  rewrite (bool_decide_eq_false_2 (@nil string ≠ [])) by (intros H; by apply H).
  rewrite (bool_decide_eq_false_2 (is_Some (@None Json))) by (by intros [? ?]).
  cbn. by rewrite !andb_false_r.
Qed.

(** A call that came back with an answer had its URL once: by position,
    and then not by keyword. *)
Lemma answered_by_position env tr req r url rest :
  server env tr req = Answer r →
  positional req = url :: rest →
  keywords req !! "url" = None.
Proof.
  unfold server, accepted, binds. intros H Hp. rewrite Hp in H.
  destruct (parameters (client req) (method req)) as [|name names] eqn:Hn;
    [by destruct (client req), (method req)|].
  assert (name = "url") as ->
    by (unfold parameters in Hn; destruct (client req), (method req); by simplify_eq).
  cbn [length take forallb] in H.
  destruct (bool_decide (keywords req !! "url" = None)) eqn:Hk;
    [by apply bool_decide_eq_true in Hk|].
  by rewrite andb_false_l, andb_false_r in H.
Qed.

(** ** tenacity: the decorator is the three-attempt policy *)

Lemma retry_is_three_attempts {A} (sleep : Z → M unit) (fn : M A) w :
  (∀ w, sleep 15000 w = (Ok tt, slept 15000 w)) →
  tenacity.retry 3 (tenacity.wait_exponential 2 15 60) is_requests_failure sleep fn w
  = three_attempts 15 15 fn w.
Proof.
  intros Hsleep.
  unfold tenacity.retry, three_attempts. cbn [tenacity.retrying].
  destruct (fn w) as [[a|e|] w1]; cbn [transient]; try reflexivity.
  destruct (is_requests_failure e); [|reflexivity].
  change (tenacity.stop_after_attempt (Z.of_nat 3) 1) with false. cbv iota.
  change (1000 * tenacity.wait_exponential 2 15 60 1) with 15000.
  change (1000 * 15) with 15000.
  rewrite run_bind, Hsleep.
  change (1 + 1) with 2.
  destruct (fn (slept 15000 w1)) as [[a2|e2|] w2]; cbn [transient]; try reflexivity.
  destruct (is_requests_failure e2); [|reflexivity].
  change (tenacity.stop_after_attempt (Z.of_nat 3) 2) with false. cbv iota.
  change (1000 * tenacity.wait_exponential 2 15 60 2) with 15000.
  rewrite run_bind, Hsleep.
  change (2 + 1) with 3.
  destruct (fn (slept 15000 w2)) as [[a3|e3|] w3]; cbn [transient]; try reflexivity.
  destruct (is_requests_failure e3); reflexivity.
Qed.

Lemma asyncio_sleep_run ms w :
  0 ≤ ms → asyncio_sleep ms w = (Ok tt, slept ms w).
Proof.
  intros H. unfold asyncio_sleep, log, slept. rewrite Z.max_r by lia. reflexivity.
Qed.

Lemma get_json_with_retries_three_attempts env args kw w :
  Exercism.get_json_with_retries env args kw w
  = three_attempts 15 15 (Exercism.get_json env args kw) w.
Proof. apply retry_is_three_attempts. intros. by apply time_sleep_run. Qed.

(** C2, as amended: [get_json_with_retries] is the three-attempt policy.
    It runs the rate-limited GET at most three times; a failed attempt is
    followed by another only when the failure is an [HTTPError] or a
    connection failure; the third such failure in a row is final and
    surfaces as [RetryError]; a result, or a failure of any other class,
    ends the call at once.  The wait after the first failed attempt and
    the wait after the second are both 15 seconds (the exponential term
    is 2 s and then 4 s, below the floor of 15): they do not decrease and
    stay within 15 to 60 seconds, but the second is not 30. *)
Theorem get_json_with_retries_policy (env : Env) (args : list string)
    (kw : Kwargs) (w : World) :
  Exercism.get_json_with_retries env args kw w
  = three_attempts 15 15 (Exercism.get_json env args kw) w
  ∧ tenacity.wait_exponential 2 15 60 1 = 15
  ∧ tenacity.wait_exponential 2 15 60 2 = 15
  ∧ 15 ≤ tenacity.wait_exponential 2 15 60 1
       ≤ tenacity.wait_exponential 2 15 60 2 ≤ 60.
Proof.
  split; [apply get_json_with_retries_three_attempts|].
  vm_compute. repeat split; congruence.
Qed.

(** C2 as stated fails on the waits: after three 503 answers in a row the
    two waits observed are 15 s and 15 s, not 15 s and 30 s. *)
Lemma backoff_is_not_15_then_30 :
  sleeps (trace (Exercism.get_json_with_retries three_failures [tracks_url] no_kwargs fresh_world).2)
  = [15000; 15000]
  ∧ sleeps (trace (Exercism.get_json_with_retries three_failures [tracks_url] no_kwargs fresh_world).2)
  ≠ [15000; 30000].
Proof. split; [vm_compute; reflexivity | vm_compute; congruence]. Qed.

(** ** The rate-limit signal *)

Lemma snapshot_heap c m args kw w w' :
  heap w' = heap w → snapshot c m args kw w' = snapshot c m args kw w.
Proof. intros H. unfold snapshot. by rewrite H. Qed.

Lemma snapshot_with_sleep c m args ms kw w :
  snapshot c m args (with_sleep ms kw) w = snapshot c m args kw w.
Proof. reflexivity. Qed.

(** Blocking client: a rate-limited first answer is followed by a sleep of
    [d + 1] seconds, a length [time.sleep] takes, and one more call of the
    same callable with the same arguments, whose answer is not looked at
    for a rate limit. *)
Lemma request_rate_limited env func url kw w d r1 :
  server env (trace w) (snapshot Requests func [url] kw w) = Answer r1 →
  retry_after r1 = Some (IntText d) →
  0 ≤ 1000 * (d + 1) ≤ max_sleep →
  Exercism.request env func [url] kw w
  = (resp ← send env Requests func [url] kw;
     Exercism.raise_for_status resp;;
     time_sleep (sleep_or 500 kw);;
     mret resp)
      (slept (1000 * (d + 1)) (called (snapshot Requests func [url] kw w) w)).
Proof.
  intros Hs Hr Hd. unfold Exercism.request.
  rewrite run_bind, send_run, Hs.
  rewrite run_bind. rewrite Hr. cbn [py_int].
  rewrite (run_bind (mret d)). cbn [mret M_ret].
  rewrite (run_bind (time_sleep _)), time_sleep_run by lia.
  reflexivity.
Qed.

Lemma request_not_rate_limited env func url kw w r1 :
  server env (trace w) (snapshot Requests func [url] kw w) = Answer r1 →
  retry_after r1 = None →
  Exercism.request env func [url] kw w
  = (Exercism.raise_for_status r1;;
     time_sleep (sleep_or 500 kw);;
     mret r1)
      (called (snapshot Requests func [url] kw w) w).
Proof.
  intros Hs Hr. unfold Exercism.request.
  rewrite run_bind, send_run, Hs.
  rewrite run_bind. rewrite Hr. reflexivity.
Qed.

(** The calls of a rate-limited blocking request: the same request, twice. *)
Lemma request_rate_limited_calls env func url kw w d r1 r w' :
  server env (trace w) (snapshot Requests func [url] kw w) = Answer r1 →
  retry_after r1 = Some (IntText d) →
  0 ≤ 1000 * (d + 1) ≤ max_sleep →
  Exercism.request env func [url] kw w = (r, w') →
  calls (trace w') = calls (trace w) ++
    [snapshot Requests func [url] kw w; snapshot Requests func [url] kw w]
  ∧ ∃ rest, sleeps (trace w') = sleeps (trace w) ++ 1000 * (d + 1) :: rest.
Proof.
  intros Hs Hr Hd. rewrite (request_rate_limited _ _ _ _ _ _ _ Hs Hr Hd).
  rewrite run_bind, send_run.
  set (w1 := slept _ _).
  assert (Hsnap : snapshot Requests func [url] kw w1 = snapshot Requests func [url] kw w)
    by reflexivity.
  rewrite Hsnap.
  assert (Hc : ∀ tr e, calls (tr ++ [e]) = calls tr ++ calls [e]).
  { intros. unfold calls. by rewrite omap_app. }
  assert (Hsl : ∀ tr e, sleeps (tr ++ [e]) = sleeps tr ++ sleeps [e]).
  { intros. unfold sleeps. by rewrite omap_app. }
  destruct (server env (trace w1) _) as [r2| |].
  - unfold Exercism.raise_for_status. rewrite run_bind.
    case_bool_decide.
    + intros [= <- <-]. cbn [trace called slept w1].
      rewrite !Hc, !Hsl. cbn. rewrite !app_nil_r, <- app_assoc. eauto.
    + cbn [mret M_ret]. rewrite run_bind.
      destruct (time_sleep_cases (sleep_or 500 kw) (called (snapshot Requests func [url] kw w) w1))
        as [[_ ->]|[[_ ->]|[_ ->]]].
      * intros [= <- <-]. cbn [trace called slept w1 log].
        rewrite !Hc, !Hsl. cbn. rewrite !app_nil_r, <- !app_assoc. eauto.
      * intros [= <- <-]. cbn [trace called slept w1].
        rewrite !Hc, !Hsl. cbn. rewrite !app_nil_r, <- app_assoc. eauto.
      * intros [= <- <-]. cbn [trace called slept w1].
        rewrite !Hc, !Hsl. cbn. rewrite !app_nil_r, <- app_assoc. eauto.
  - intros [= <- <-]. cbn [trace called slept w1].
    rewrite !Hc, !Hsl. cbn. rewrite !app_nil_r, <- app_assoc. eauto.
  - intros [= <- <-]. cbn [trace called slept w1].
    rewrite !Hc, !Hsl. cbn. rewrite !app_nil_r, <- app_assoc. eauto.
Qed.

(** The cooperative client never meets a failure its decorator retries:
    what [aiohttp] raises is not of the [requests] classes. *)
Lemma async_get_json_not_transient env args endpoint kw w :
  transient (AsyncExercism.get_json env args endpoint kw w).1 = None.
Proof.
  unfold AsyncExercism.get_json.
  set (kwargs := AsyncExercism.with_headers env kw).
  assert (Hsend : ∀ a w, transient (send env Aiohttp GET a kwargs w).1 = None).
  { intros a w0. unfold send. destruct (server env _ _); reflexivity. }
  assert (Htail : ∀ resp w,
    transient ((AsyncExercism.raise_for_status resp;;
                asyncio_sleep (sleep_or 200 kw);; json resp) w).1 = None).
  { intros resp w0. rewrite run_bind. unfold AsyncExercism.raise_for_status.
    case_bool_decide; [reflexivity|]. cbn [mret M_ret].
    rewrite run_bind. cbn [asyncio_sleep log].
    unfold json. destruct (body resp); reflexivity. }
  rewrite run_bind.
  pose proof (Hsend ((AsyncExercism.API +:+ "/" +:+ endpoint) :: args) w) as Hfirst.
  destruct (send env Aiohttp GET _ kwargs w) as [[resp|e|] w1]; [|exact Hfirst|reflexivity].
  clear Hfirst.
  destruct (retry_after resp) as [text|]; [|apply Htail].
  rewrite run_bind. destruct text as [d|s]; [|reflexivity].
  cbn [py_int mret M_ret]. rewrite run_bind. cbn [asyncio_sleep log].
  rewrite run_bind.
  match goal with |- context [send env Aiohttp GET args kwargs ?w2] =>
    pose proof (Hsend args w2) as Hsecond;
    destruct (send env Aiohttp GET args kwargs w2) as [[resp2|e2|] w3]
  end; [apply Htail|exact Hsecond|reflexivity].
Qed.

Lemma async_get_json_with_retries_once env args endpoint kw w :
  AsyncExercism.get_json_with_retries env args endpoint kw w
  = AsyncExercism.get_json env args endpoint kw w.
Proof.
  unfold AsyncExercism.get_json_with_retries.
  rewrite retry_is_three_attempts by (intros; by apply asyncio_sleep_run).
  unfold three_attempts.
  pose proof (async_get_json_not_transient env args endpoint kw w) as H.
  destruct (AsyncExercism.get_json env args endpoint kw w) as [r w1].
  cbn in H. by rewrite H.
Qed.

(** C1, at the failing input: in the cooperative client a first answer
    with [retry-after: d] is followed by a sleep of [d + 1] seconds and
    then by a call of [session.get] that is handed the arguments without
    the URL.  That call is not the request that was made first, and it
    is refused with [TypeError] before anything is sent: nothing is
    reissued.  The blocking client does reissue the same request once
    ([request_rate_limited], [request_rate_limited_calls]). *)
Theorem async_reissue_drops_url (env : Env) (endpoint : string) (kw : Kwargs)
    (w : World) (d : Z) (r1 : Response) :
  let url := AsyncExercism.API +:+ "/" +:+ endpoint in
  let kwargs := AsyncExercism.with_headers env kw in
  server env (trace w) (snapshot Aiohttp GET [url] kwargs w) = Answer r1 →
  retry_after r1 = Some (IntText d) →
  AsyncExercism.get_json_with_retries env [] endpoint kw w
  = (Raise TypeError,
     {| trace := trace w ++ [Call (snapshot Aiohttp GET [url] kwargs w);
                             Sleep (Z.max 0 (1000 * (d + 1)));
                             Call (snapshot Aiohttp GET [] kwargs w)];
        heap := heap w |})
  ∧ positional (snapshot Aiohttp GET [] kwargs w)
    ≠ positional (snapshot Aiohttp GET [url] kwargs w).
Proof.
  intros url kwargs Hs Hr. split; [|discriminate].
  rewrite async_get_json_with_retries_once. unfold AsyncExercism.get_json.
  fold url kwargs. rewrite run_bind, send_run, Hs, Hr.
  cbn [py_int]. rewrite (run_bind (mret d)). cbn [mret M_ret].
  rewrite (run_bind (asyncio_sleep _)). cbn [asyncio_sleep log].
  rewrite run_bind, send_run, server_needs_url.
  - unfold called. cbn. rewrite <- !app_assoc. reflexivity.
  - reflexivity.
  - by apply (answered_by_position env (trace w) _ r1 url [] Hs).
Qed.

Lemma async_reissue_drops_url_witness :
  (AsyncExercism.get_json_with_retries limited_once [] "tracks" no_kwargs fresh_world).1
  = Raise TypeError.
Proof.
  pose proof (async_reissue_drops_url limited_once "tracks" no_kwargs fresh_world 1
    {| status := 429; retry_after := Some (IntText 1); body := None |}
    eq_refl eq_refl) as [H _].
  rewrite H. reflexivity.
Defined.

(** C9, at two failing inputs: on the same two answers of the server the
    two clients end differently.  After a rate-limit signal followed by a
    good answer the blocking fetch returns the body and the cooperative
    one raises [TypeError]; after a 503 followed by a good answer the
    blocking fetch waits, retries and returns the body, and the
    cooperative one raises the [aiohttp] error at once, which its
    decorator, set up for the [requests] classes, does not retry. *)
Theorem modes_disagree :
  (Exercism.get_json_with_retries limited_once [tracks_url] no_kwargs fresh_world).1
    = Ok (JObj [("tracks", JList [])])
  ∧ (AsyncExercism.get_json_with_retries limited_once [] "tracks" no_kwargs fresh_world).1
    = Raise TypeError
  ∧ (Exercism.get_json_with_retries failing_once [tracks_url] no_kwargs fresh_world).1
    = Ok (JObj [("tracks", JList [])])
  ∧ (AsyncExercism.get_json_with_retries failing_once [] "tracks" no_kwargs fresh_world).1
    = Raise (ClientResponseError 503).
Proof. repeat split; vm_compute; reflexivity. Qed.

(** ** Traces *)

Lemma calls_app tr1 tr2 : calls (tr1 ++ tr2) = calls tr1 ++ calls tr2.
Proof. apply omap_app. Qed.

Lemma sleeps_app tr1 tr2 : sleeps (tr1 ++ tr2) = sleeps tr1 ++ sleeps tr2.
Proof. apply omap_app. Qed.

Lemma dispatches_app tr1 tr2 : dispatches (tr1 ++ tr2) = dispatches tr1 ++ dispatches tr2.
Proof. apply omap_app. Qed.

(** ** A fetch that meets a good answer *)

Lemma answers_with_run env url kw w j :
  answers_with (server env (trace w) (snapshot Requests GET [url] kw w)) j →
  0 ≤ sleep_or 200 kw ≤ max_sleep →
  Exercism.get_json_with_retries env [url] kw w
  = (Ok j, slept (sleep_or 200 kw) (called (snapshot Requests GET [url] kw w) w)).
Proof.
  intros (r & Hs & Hr & Hst & Hb) Hsl.
  rewrite get_json_with_retries_three_attempts.
  unfold three_attempts, Exercism.get_json.
  rewrite run_bind.
  rewrite (request_not_rate_limited env GET url _ w r) by (rewrite ?snapshot_with_sleep; done).
  rewrite snapshot_with_sleep.
  unfold Exercism.raise_for_status. rewrite run_bind.
  rewrite bool_decide_eq_false_2 by lia. cbn [mret M_ret].
  rewrite run_bind. change (sleep_or 500 (with_sleep (sleep_or 200 kw) kw)) with (sleep_or 200 kw).
  rewrite time_sleep_run by done. cbn [mret M_ret].
  unfold json. rewrite Hb. reflexivity.
Qed.

Lemma async_answers_with_run env endpoint kw w j :
  let req := snapshot Aiohttp GET [AsyncExercism.API +:+ "/" +:+ endpoint]
               (AsyncExercism.with_headers env kw) w in
  answers_with (server env (trace w) req) j →
  AsyncExercism.get_json_with_retries env [] endpoint kw w
  = (Ok j, slept (Z.max 0 (sleep_or 200 kw)) (called req w)).
Proof.
  intros req (r & Hs & Hr & Hst & Hb).
  rewrite async_get_json_with_retries_once. unfold AsyncExercism.get_json.
  rewrite run_bind, send_run. fold req. rewrite Hs, Hr.
  unfold AsyncExercism.raise_for_status. rewrite run_bind.
  rewrite bool_decide_eq_false_2 by lia. cbn [mret M_ret].
  rewrite run_bind. cbn [asyncio_sleep log].
  unfold json. rewrite Hb. reflexivity.
Qed.

(** ** Loops *)

(** A [for ... in itertools.count(1)] loop whose body goes through on
    every page up to [n] and breaks on page [n]. *)
Lemma for_count_run {A} (body : Z → A → M (LoopStep A))
    (step : Z → A → A) (next : Z → World → World) (I : World → Prop) (n : Z) :
  (∀ p acc w, 1 ≤ p ≤ n → I w →
     I (next p w)
     ∧ body p acc w
       = (Ok (if bool_decide (n ≤ p) then Break (step p acc) else Continue (step p acc)),
          next p w)) →
  ∀ fuel p acc w,
    1 ≤ p ≤ n → (Z.to_nat (n - p) < fuel)%nat → I w →
    for_count fuel p acc body w
    = (Ok (foldl (λ a q, step q a) acc (seqZ p (n - p + 1))),
       foldl (λ w q, next q w) w (seqZ p (n - p + 1))).
Proof.
  intros Hbody fuel. induction fuel as [|fuel IH]; intros p acc w Hp Hfuel HI; [lia|].
  cbn [for_count]. destruct (Hbody p acc w Hp HI) as [HI' Hrun].
  rewrite (run_bind_ok _ _ _ _ _ Hrun).
  rewrite seqZ_cons by lia. cbn [foldl].
  case_bool_decide.
  - assert (p = n) as -> by lia.
    rewrite seqZ_nil by lia. reflexivity.
  - rewrite IH by (done || lia).
    replace (Z.pred (n - p + 1)) with (n - (p + 1) + 1) by lia.
    replace (Z.succ p) with (p + 1) by lia. reflexivity.
Qed.

Lemma foldl_concat {A} (f : Z → list A) (acc : list A) (ps : list Z) :
  foldl (λ a q, a ++ f q) acc ps = acc ++ concat (f <$> ps).
Proof.
  revert acc. induction ps as [|p ps IH]; intros acc; cbn.
  - by rewrite app_nil_r.
  - by rewrite IH, app_assoc.
Qed.

(** ** Pagination on a server with a stable page count *)

Lemma turn_page_reads_as l d req ms p w : reads_as l d (turn_page l d req ms p w).
Proof.
  intros v. cbn. rewrite lookup_insert_eq. cbn. unfold page_params.
  apply insert_insert_eq.
Qed.

Lemma turned_pages_calls l d req ms ps w :
  calls (trace (foldl (λ w q, turn_page l d req ms q w) w ps))
  = calls (trace w) ++ (req <$> ps).
Proof.
  revert w. induction ps as [|p ps IH]; intros w; cbn [foldl fmap list_fmap].
  - by rewrite app_nil_r.
  - rewrite IH. cbn [turn_page trace]. rewrite calls_app. cbn.
    by rewrite <- app_assoc.
Qed.

Lemma turned_pages_heap l d req ms ps p w :
  heap (foldl (λ w q, turn_page l d req ms q w) w (ps ++ [p]))
  = <[l := page_params d p]> (heap w).
Proof.
  revert w. induction ps as [|q ps IH]; intros w; cbn [foldl app].
  - reflexivity.
  - rewrite IH. cbn [turn_page heap]. apply insert_insert_eq.
Qed.

Lemma is_page_last j rs cur tot :
  is_page j rs cur tot → is_last_page j = Ok (bool_decide (tot ≤ cur)).
Proof.
  intros (_ & meta & Hm & Hc & Ht). unfold is_last_page.
  rewrite Hm. cbn. rewrite Hc. cbn. rewrite Ht. reflexivity.
Qed.

Lemma fetch_page_run env l endpoint kw d pages T p acc w :
  let url := Exercism.API +:+ "/" +:+ endpoint in
  0 ≤ sleep_or 200 kw ≤ max_sleep →
  reads_as l d w →
  (∀ tr, ∃ j, answers_with (server env tr (page_request endpoint kw d p)) j
              ∧ is_page j (pages p) p T) →
  Exercism.fetch_page env l url [] kw p acc w
  = (Ok (if bool_decide (T ≤ p) then Break (acc ++ pages p) else Continue (acc ++ pages p)),
     turn_page l d (page_request endpoint kw d) (sleep_or 200 kw) p w).
Proof.
  intros url Hsl Hd Hsrv. unfold Exercism.fetch_page.
  rewrite run_bind. cbn [dict_setitem].
  set (w1 := {| trace := trace w; heap := _ |}).
  assert (Hreq : snapshot Requests GET [url] (with_params l kw) w1
                 = page_request endpoint kw d p).
  { unfold snapshot, page_request. cbn. rewrite lookup_insert_eq. cbn.
    unfold page_params. by rewrite Hd. }
  destruct (Hsrv (trace w1)) as (j & Hans & Hpage).
  rewrite run_bind, (answers_with_run env url (with_params l kw) w1 j)
    by (rewrite ?Hreq; done).
  rewrite Hreq.
  destruct Hpage as (Hres & Hmeta).
  rewrite run_bind. unfold lift at 1. rewrite Hres. cbn [mbind Outcome_bind as_list].
  rewrite run_bind. unfold lift at 1.
  rewrite (is_page_last j (pages p) p T) by (split; done).
  cbn [mret M_ret]. unfold turn_page, slept, called, w1. cbn.
  rewrite <- app_assoc. cbn. unfold page_params.
  rewrite (Hd (JStr (str p))).
  reflexivity.
Qed.

Lemma async_fetch_page_run env l endpoint kw d pages T p acc w :
  reads_as l d w →
  (∀ tr, ∃ j, answers_with (server env tr (async_page_request env endpoint kw d p)) j
              ∧ is_page j (pages p) p T) →
  AsyncExercism.fetch_page env l endpoint [] kw p acc w
  = (Ok (if bool_decide (T ≤ p) then Break (acc ++ pages p) else Continue (acc ++ pages p)),
     turn_page l d (async_page_request env endpoint kw d) (Z.max 0 (sleep_or 200 kw)) p w).
Proof.
  intros Hd Hsrv. unfold AsyncExercism.fetch_page.
  rewrite run_bind. cbn [dict_setitem].
  set (w1 := {| trace := trace w; heap := _ |}).
  assert (Hreq : snapshot Aiohttp GET [AsyncExercism.API +:+ "/" +:+ endpoint]
                   (AsyncExercism.with_headers env (with_params l kw)) w1
                 = async_page_request env endpoint kw d p).
  { unfold snapshot, async_page_request, AsyncExercism.with_headers. cbn.
    destruct (kw_rest kw !! "headers"); cbn; rewrite lookup_insert_eq; cbn;
      unfold page_params; by rewrite Hd. }
  destruct (Hsrv (trace w1)) as (j & Hans & Hpage).
  rewrite run_bind, (async_answers_with_run env endpoint (with_params l kw) w1 j)
    by (rewrite ?Hreq; done).
  rewrite Hreq.
  destruct Hpage as (Hres & Hmeta).
  rewrite run_bind. unfold lift at 1. rewrite Hres. cbn [mbind Outcome_bind as_list].
  rewrite run_bind. unfold lift at 1.
  rewrite (is_page_last j (pages p) p T) by (split; done).
  cbn [mret M_ret]. unfold turn_page, slept, called, w1. cbn.
  rewrite <- app_assoc. cbn. unfold page_params.
  rewrite (Hd (JStr (str p))). reflexivity.
Qed.

Lemma pop_params_run kw w :
  ∃ l w1, pop_params kw w = (Ok l, w1)
    ∧ trace w1 = trace w
    ∧ reads_as l (initial_params kw w) w1
    ∧ (∀ d, <[l := d]> (heap w1) = <[l := d]> (heap w))
    ∧ (∀ l', kw_params kw = Some l' → l = l').
Proof.
  unfold pop_params, initial_params. destruct (kw_params kw) as [l|]; cbn.
  - exists l, w. repeat split; try done. by intros l' [= ->].
  - eexists _, _. split; [reflexivity|]. cbn. repeat split; try done.
    + intros v. cbn. by rewrite lookup_insert_eq.
    + intros d. apply insert_insert_eq.
Qed.

Lemma page_request_inj endpoint kw d : Inj (=) (=) (page_request endpoint kw d).
Proof.
  intros p q H. injection H as H. unfold page_params in H.
  assert (Hl : (<["page" := JStr (str p)]> d : Dict) !! "page"
               = (<["page" := JStr (str q)]> d : Dict) !! "page") by (by rewrite H).
  rewrite !lookup_insert_eq in Hl. injection Hl as Hl.
  by apply (inj pretty) in Hl.
Qed.

Lemma async_page_request_inj env endpoint kw d :
  Inj (=) (=) (async_page_request env endpoint kw d).
Proof.
  intros p q H. injection H as H. unfold page_params in H.
  assert (Hl : (<["page" := JStr (str p)]> d : Dict) !! "page"
               = (<["page" := JStr (str q)]> d : Dict) !! "page") by (by rewrite H).
  rewrite !lookup_insert_eq in Hl. injection Hl as Hl.
  by apply (inj pretty) in Hl.
Qed.

Lemma length_concat_pages (pages : Z → list Json) (ps : list Z) :
  length (concat (pages <$> ps)) = sum_list (length ∘ pages <$> ps).
Proof.
  induction ps as [|p ps IH]; cbn; [done|].
  by rewrite length_app, IH.
Qed.

(** C3, as amended: when every request for a page [p] from 1 to
    [max T 1] is answered at its first attempt (neither an error status
    nor a rate-limit signal nor a failed connection) with page [p] of a
    stable page count [T], a traversal by [get_all_pages], blocking or
    cooperative, returns the records of pages 1 to [max T 1], page after
    page and in the order of each page; their number is the sum of the
    page lengths; and the requests made are exactly those for pages 1 to
    [max T 1], each once.  That is [T] requests when [T] is at least 1,
    and one request when the server reports no page at all.  For the
    blocking client the pause after each request is one that
    [time.sleep] takes.  A request that is not answered at its first
    attempt is put again ([retried_page_asked_twice]). *)
Theorem get_all_pages_traversal (env : Env) (endpoint : string) (kw : Kwargs)
    (w : World) (pages : Z → list Json) (T : Z) (fuel : nat) :
  let d := initial_params kw w in
  let n := Z.max T 1 in
  (Z.to_nat n ≤ fuel)%nat →
  (0 ≤ sleep_or 200 kw ≤ max_sleep →
   (∀ tr p, 1 ≤ p ≤ n →
      ∃ j, answers_with (server env tr (page_request endpoint kw d p)) j
           ∧ is_page j (pages p) p T) →
   let '(out, w') := Exercism.get_all_pages env fuel [] endpoint kw w in
   traversed w w' out (page_request endpoint kw d) pages n)
  ∧ ((∀ tr p, 1 ≤ p ≤ n →
      ∃ j, answers_with (server env tr (async_page_request env endpoint kw d p)) j
           ∧ is_page j (pages p) p T) →
   let '(out, w') := AsyncExercism.get_all_pages env fuel [] endpoint kw w in
   traversed w w' out (async_page_request env endpoint kw d) pages n).
Proof.
  intros d n Hfuel.
  destruct (pop_params_run kw w) as (l & w1 & Hpop & Htr & Hreads & _ & _).
  fold d in Hreads.
  split.
  - intros Hsl Hsrv. unfold Exercism.get_all_pages.
    rewrite (run_bind_ok _ _ _ _ _ Hpop).
    rewrite (for_count_run _ (λ p acc, acc ++ pages p)
               (turn_page l d (page_request endpoint kw d) (sleep_or 200 kw))
               (reads_as l d) n).
    + replace (n - 1 + 1) with n by lia.
      rewrite foldl_concat. cbn [app].
      repeat split.
      * by rewrite turned_pages_calls, Htr.
      * eapply @NoDup_fmap_2; [apply page_request_inj | apply NoDup_seqZ].
      * by rewrite length_fmap, length_seqZ.
      * apply length_concat_pages.
    + intros p acc w2 Hp Hw2. split; [apply turn_page_reads_as|].
      rewrite (fetch_page_run env l endpoint kw d pages T p acc w2) by eauto.
      repeat case_bool_decide; (done || lia).
    + lia.
    + lia.
    + done.
  - intros Hsrv. unfold AsyncExercism.get_all_pages.
    rewrite (run_bind_ok _ _ _ _ _ Hpop).
    rewrite (for_count_run _ (λ p acc, acc ++ pages p)
               (turn_page l d (async_page_request env endpoint kw d)
                  (Z.max 0 (sleep_or 200 kw)))
               (reads_as l d) n).
    + replace (n - 1 + 1) with n by lia.
      rewrite foldl_concat. cbn [app].
      repeat split.
      * by rewrite turned_pages_calls, Htr.
      * eapply @NoDup_fmap_2; [apply async_page_request_inj | apply NoDup_seqZ].
      * by rewrite length_fmap, length_seqZ.
      * apply length_concat_pages.
    + intros p acc w2 Hp Hw2. split; [apply turn_page_reads_as|].
      rewrite (async_fetch_page_run env l endpoint kw d pages T p acc w2) by eauto.
      repeat case_bool_decide; (done || lia).
    + lia.
    + lia.
    + done.
Qed.

Lemma get_all_pages_traversal_witness :
  (Exercism.get_all_pages (paged_env two_pages 2) 2 [] "solutions" no_kwargs fresh_world).1
  = Ok [JStr "a"; JStr "b"; JStr "c"]
  ∧ (AsyncExercism.get_all_pages (paged_env two_pages 2) 2 [] "solutions" no_kwargs fresh_world).1
  = Ok [JStr "a"; JStr "b"; JStr "c"].
Proof.
  pose proof (get_all_pages_traversal (paged_env two_pages 2) "solutions" no_kwargs
                fresh_world (page_of two_pages) 2 2 ltac:(vm_compute; lia)) as [Hb Ha].
  split.
  - destruct (Exercism.get_all_pages _ _ _ _ _ _) as [out w'].
    destruct Hb as (-> & _); [split; vm_compute; congruence| |reflexivity].
    intros tr p Hp. assert (p = 1 ∨ p = 2) as [-> | ->] by lia;
      (eexists; split; [eexists; split; [reflexivity|]|]; vm_compute; eauto 10).
  - destruct (AsyncExercism.get_all_pages _ _ _ _ _ _) as [out w'].
    destruct Ha as (-> & _); [|reflexivity].
    intros tr p Hp. assert (p = 1 ∨ p = 2) as [-> | ->] by lia;
      (eexists; split; [eexists; split; [reflexivity|]|]; vm_compute; eauto 10).
Defined.

(** C3 as stated fails on an empty collection: the server reports zero
    pages, and one request is made all the same. *)
Lemma zero_pages_one_request :
  let run := Exercism.get_all_pages (paged_env [[]] 0) 1 [] "solutions" no_kwargs fresh_world in
  (∀ tr, answers_with
           (server (paged_env [[]] 0) tr (page_request "solutions" no_kwargs ∅ 1))
           (envelope [] 1 0))
  ∧ is_page (envelope [] 1 0) [] 1 0
  ∧ run.1 = Ok []
  ∧ length (calls (trace run.2)) = 1%nat
  ∧ length (calls (trace run.2)) ≠ Z.to_nat 0.
Proof.
  split; [|split].
  - intros tr. eexists. split; [reflexivity|]. vm_compute. eauto.
  - vm_compute. eauto 10.
  - vm_compute. repeat split; congruence.
Qed.

(** A page request that is answered 503 is put again by the retry layer:
    with a stable page count of one, page 1 is asked for twice. *)
Lemma retried_page_asked_twice :
  let run := Exercism.get_all_pages first_try_fails 1 [] "solutions" no_kwargs fresh_world in
  run.1 = Ok [JStr "a"]
  ∧ calls (trace run.2)
    = [page_request "solutions" no_kwargs ∅ 1; page_request "solutions" no_kwargs ∅ 1]
  ∧ sleeps (trace run.2) = [15000; 200].
Proof. vm_compute. done. Qed.

(** ** What a fetch leaves behind, whatever the server does *)

Lemma bind_inv {A B} (m : M A) (f : A → M B) w r w' :
  (m ≫= f) w = (r, w') →
  (∃ a w1, m w = (Ok a, w1) ∧ f a w1 = (r, w'))
  ∨ (∃ e, m w = (Raise e, w') ∧ r = Raise e)
  ∨ (m w = (OutOfFuel, w') ∧ r = OutOfFuel).
Proof.
  rewrite run_bind. destruct (m w) as [[a|e|] w1].
  - eauto.
  - intros [= <- <-]. eauto.
  - intros [= <- <-]. eauto.
Qed.

Lemma repeats_refl req w : repeats req 0 w w.
Proof. split_and!; [done..|]. exists 0%nat. split; [lia|]. by rewrite app_nil_r. Qed.

Lemma repeats_trans req a b w w1 w2 :
  repeats req a w w1 → repeats req b w1 w2 → repeats req (a + b) w w2.
Proof.
  intros (Hh1 & Hd1 & k1 & Hk1 & Hc1) (Hh2 & Hd2 & k2 & Hk2 & Hc2).
  split_and!; [congruence..|]. exists (k1 + k2)%nat. split; [lia|].
  by rewrite Hc2, Hc1, <- app_assoc, replicate_add.
Qed.

Lemma repeats_weaken req a b w w' :
  (b ≤ a)%nat → repeats req a w w' → repeats req b w w'.
Proof.
  intros Hle (Hh & Hd & k & Hk & Hc). split_and!; [done..|].
  exists k. split; [lia|done].
Qed.

Lemma repeats_slept req ms w : repeats req 0 w (slept ms w).
Proof.
  split_and!; [done| |].
  - cbn. rewrite dispatches_app. apply app_nil_r.
  - exists 0%nat. split; [lia|]. cbn. by rewrite calls_app.
Qed.

Lemma repeats_time_sleep req ms w (r : Outcome unit) w' :
  time_sleep ms w = (r, w') → repeats req 0 w w'.
Proof.
  destruct (time_sleep_cases ms w) as [[_ ->]|[[_ ->]|[_ ->]]]; intros [= <- <-].
  - apply repeats_slept.
  - apply repeats_refl.
  - apply repeats_refl.
Qed.

Lemma repeats_send env c m args kw w r w' :
  send env c m args kw w = (r, w') →
  repeats (snapshot c m args kw w) 1 w w'.
Proof.
  intros H.
  assert (w' = called (snapshot c m args kw w) w) as ->.
  { unfold send in H. destruct (server env _ _); by injection H. }
  split_and!; [done| |].
  - cbn. rewrite dispatches_app. apply app_nil_r.
  - exists 1%nat. split; [lia|]. cbn. by rewrite calls_app.
Qed.

Lemma repeats_snapshot c m args kw req a w w' :
  repeats req a w w' → snapshot c m args kw w' = snapshot c m args kw w.
Proof. intros [Hh _]. by apply snapshot_heap. Qed.

Lemma request_repeats env func args kw w r w' :
  Exercism.request env func args kw w = (r, w') →
  repeats (snapshot Requests func args kw w) 1 w w'.
Proof.
  set (req := snapshot Requests func args kw w).
  unfold Exercism.request. intros H.
  apply bind_inv in H as [(resp & w1 & Hsend & H) | [(e & Hsend & _) | (Hsend & _)]];
    [|by apply repeats_send in Hsend..].
  apply repeats_send in Hsend. fold req in Hsend.
  apply (repeats_trans _ 1 0 _ w1); [done|].
  assert (Htail : ∀ resp w2 r w',
    (Exercism.raise_for_status resp;; time_sleep (sleep_or 500 kw);; mret resp) w2 = (r, w') →
    repeats req 0 w2 w').
  { clear. intros resp w2 r w' H.
    apply bind_inv in H as [([] & w3 & Hrfs & H) | [(e & Hrfs & _) | (Hrfs & _)]].
    - assert (w3 = w2) as ->.
      { unfold Exercism.raise_for_status in Hrfs. by case_bool_decide; injection Hrfs. }
      apply bind_inv in H as [([] & w4 & Hsl & H) | [(e & Hsl & _) | (Hsl & _)]];
        [|by eapply repeats_time_sleep..].
      injection H as <- <-. by eapply repeats_time_sleep.
    - unfold Exercism.raise_for_status, raise in Hrfs.
      case_bool_decide; simplify_eq. apply repeats_refl.
    - unfold Exercism.raise_for_status in Hrfs. by case_bool_decide. }
  apply bind_inv in H as [(resp2 & w2 & Hmid & H) | [(e & Hmid & _) | (Hmid & _)]].
  - apply Htail in H.
    assert (repeats req 0 w1 w2); [|by apply (repeats_trans _ 0 0 _ w2)].
    destruct (retry_after resp) as [text|]; [|injection Hmid as <- <-; apply repeats_refl].
    apply bind_inv in Hmid as [(d & w3 & Hint & Hmid) | [(e & Hint & [=]) | (Hint & [=])]].
    assert (w3 = w1) as -> by (destruct text; by injection Hint).
    apply bind_inv in Hmid as [([] & w4 & Hsl & Hmid) | [(e & Hsl & [=]) | (Hsl & [=])]].
    apply (repeats_time_sleep req) in Hsl.
    apply repeats_send in Hmid.
    rewrite (repeats_snapshot _ _ _ _ _ _ _ _ Hsl) in Hmid.
    rewrite (repeats_snapshot _ _ _ _ _ _ _ _ Hsend) in Hmid. fold req in Hmid.
    apply (repeats_weaken _ 1); [lia|]. by apply (repeats_trans _ 0 1 _ w4).
  - destruct (retry_after resp) as [text|]; [|done].
    apply bind_inv in Hmid as [(d & w3 & Hint & Hmid) | [(e' & Hint & _) | (Hint & [=])]].
    + assert (w3 = w1) as -> by (destruct text; by injection Hint).
      apply bind_inv in Hmid as [([] & w4 & Hsl & Hmid) | [(e' & Hsl & _) | (Hsl & [=])]].
      * apply (repeats_time_sleep req) in Hsl.
        apply repeats_send in Hmid.
        rewrite (repeats_snapshot _ _ _ _ _ _ _ _ Hsl) in Hmid.
        rewrite (repeats_snapshot _ _ _ _ _ _ _ _ Hsend) in Hmid. fold req in Hmid.
        apply (repeats_weaken _ 1); [lia|]. by apply (repeats_trans _ 0 1 _ w4).
      * by apply (repeats_time_sleep req) in Hsl.
    + destruct text; unfold py_int, raise in Hint; simplify_eq. apply repeats_refl.
  - destruct (retry_after resp) as [text|]; [|done].
    apply bind_inv in Hmid as [(d & w3 & Hint & Hmid) | [(e' & Hint & [=]) | (Hint & _)]].
    + assert (w3 = w1) as -> by (destruct text; by injection Hint).
      apply bind_inv in Hmid as [([] & w4 & Hsl & Hmid) | [(e' & Hsl & [=]) | (Hsl & _)]].
      * unfold send in Hmid. by destruct (server env _ _).
      * unfold time_sleep in Hsl. by repeat case_bool_decide.
    + by destruct text.
Qed.

Lemma get_json_repeats env args kw w r w' :
  Exercism.get_json env args kw w = (r, w') →
  repeats (snapshot Requests GET args kw w) 1 w w'.
Proof.
  unfold Exercism.get_json. intros H.
  apply bind_inv in H as [(resp & w1 & Hreq & H) | [(e & Hreq & _) | (Hreq & _)]];
    apply request_repeats in Hreq; rewrite snapshot_with_sleep in Hreq; try done.
  unfold json, raise, mret, M_ret in H. destruct (body resp); by simplify_eq.
Qed.

Lemma three_attempts_repeats {A} (attempt : M A) (c : Client) (m : Method)
    (args : list string) (kw : Kwargs) wait1 wait2 w r w' :
  (∀ w r w', attempt w = (r, w') → repeats (snapshot c m args kw w) 1 w w') →
  three_attempts wait1 wait2 attempt w = (r, w') →
  repeats (snapshot c m args kw w) 1 w w'.
Proof.
  intros Hatt. unfold three_attempts.
  destruct (attempt w) as [r1 w1] eqn:E1. apply Hatt in E1.
  destruct (transient r1); [|by intros [= <- <-]].
  pose proof (repeats_slept (snapshot c m args kw w) (1000 * wait1) w1) as Hs1.
  destruct (attempt (slept _ w1)) as [r2 w2] eqn:E2. apply Hatt in E2.
  rewrite (snapshot_heap c m args kw w1) in E2 by done.
  rewrite (repeats_snapshot _ _ _ _ _ _ _ _ E1) in E2.
  assert (H2 : repeats (snapshot c m args kw w) 1 w w2).
  { apply (repeats_weaken _ (1 + 0 + 1)); [lia|].
    eapply repeats_trans; [|exact E2]. eapply repeats_trans; [exact E1|exact Hs1]. }
  destruct (transient r2); [|by intros [= <- <-]].
  pose proof (repeats_slept (snapshot c m args kw w) (1000 * wait2) w2) as Hs2.
  destruct (attempt (slept _ w2)) as [r3 w3] eqn:E3. apply Hatt in E3.
  rewrite (snapshot_heap c m args kw w2) in E3 by done.
  rewrite (repeats_snapshot _ _ _ _ _ _ _ _ H2) in E3.
  assert (H3 : repeats (snapshot c m args kw w) 1 w w3).
  { apply (repeats_weaken _ (1 + 0 + 1)); [lia|].
    eapply repeats_trans; [|exact E3]. eapply repeats_trans; [exact H2|exact Hs2]. }
  destruct (transient r3); by intros [= <- <-].
Qed.

Lemma get_json_with_retries_repeats env args kw w r w' :
  Exercism.get_json_with_retries env args kw w = (r, w') →
  repeats (snapshot Requests GET args kw w) 1 w w'.
Proof.
  rewrite get_json_with_retries_three_attempts.
  apply three_attempts_repeats. intros ? ? ?. apply get_json_repeats.
Qed.


(** ** The caller's dictionary *)



Lemma lift_inv {A} (o : Outcome A) w r w' : lift o w = (r, w') → r = o ∧ w' = w.
Proof. unfold lift. by intros [= <- <-]. Qed.



(** ** The watcher *)

Lemma three_attempts_final {A} (attempt : M A) wait1 wait2 w e w' :
  three_attempts wait1 wait2 attempt w = (Raise e, w') →
  is_requests_failure e = false.
Proof.
  assert (Ht : ∀ (r : Outcome A) e, transient r = None → r = Raise e →
               is_requests_failure e = false).
  { intros r e0 Hr ->. cbn in Hr. by destruct (is_requests_failure e0). }
  unfold three_attempts.
  destruct (attempt w) as [r1 w1].
  destruct (transient r1) eqn:T1; [|intros [= -> <-]; eauto].
  destruct (attempt (slept _ w1)) as [r2 w2].
  destruct (transient r2) eqn:T2; [|intros [= -> <-]; eauto].
  destruct (attempt (slept _ w2)) as [r3 w3].
  destruct (transient r3) eqn:T3; [|intros [= -> <-]; eauto].
  by intros [= <- <-].
Qed.

(** No [HTTPError] ever leaves the decorated fetch: the decorator retries
    that class, and when it gives up it raises [RetryError]. *)
Lemma get_json_with_retries_no_HTTPError env args kw w e w' :
  Exercism.get_json_with_retries env args kw w = (Raise e, w') →
  is_HTTPError e = false.
Proof.
  rewrite get_json_with_retries_three_attempts.
  intros H%three_attempts_final. by destruct e.
Qed.

Lemma lift_raise_not_HTTPError {A} (o : Outcome A) e :
  (∀ s, o ≠ Raise (HTTPError s)) → o = Raise e → is_HTTPError e = false.
Proof. intros Ho ->. destruct e; try done. by destruct (Ho status0). Qed.

Lemma filter_M_reads {A} (p : A → M bool) (q : A → Outcome bool) xs w r w' :
  reads p q →
  filter_M p xs w = (r, w') →
  w' = w
  ∧ (∀ ys, r = Ok ys → ys `sublist_of` xs ∧ Forall (λ y, q y = Ok true) ys)
  ∧ (∀ e, r = Raise e → ∃ x, x ∈ xs ∧ q x = Raise e).
Proof.
  intros Hp. revert r w'. induction xs as [|x xs IH]; intros r w' H; cbn [filter_M] in H.
  - injection H as <- <-. split_and!; try done.
    intros ys [= <-]. split; [done|constructor].
  - rewrite run_bind, Hp in H. destruct (q x) as [b|e|] eqn:Hq.
    + rewrite run_bind in H.
      destruct (filter_M p xs w) as [r1 w1] eqn:Hrec.
      destruct (IH _ _ eq_refl) as (-> & Hok & Hraise).
      destruct r1 as [ys|e|]; [|injection H as <- <-..].
      * injection H as <- <-. split_and!; try done.
        intros ys' [= <-]. destruct (Hok ys eq_refl) as [Hsub Hall].
        destruct b.
        -- split; [by constructor|by constructor].
        -- split; [by constructor|done].
      * split_and!; try done. intros e' [= <-].
        destruct (Hraise e eq_refl) as (y & Hy & Hqy). exists y. split; [by right|done].
      * done.
    + injection H as <- <-. split_and!; try done.
      intros e' [= <-]. exists x. split; [by left|done].
    + injection H as <- <-. split_and!; done.
Qed.

Lemma map_M_reads {A B} (f : A → M B) (g : A → Outcome B) xs w r w' :
  reads f g →
  map_M f xs w = (r, w') →
  w' = w
  ∧ (∀ ys, r = Ok ys → Forall2 (λ x y, g x = Ok y) xs ys)
  ∧ (∀ e, r = Raise e → ∃ x, x ∈ xs ∧ g x = Raise e).
Proof.
  intros Hf. revert r w'. induction xs as [|x xs IH]; intros r w' H; cbn [map_M] in H.
  - injection H as <- <-. split_and!; try done. intros ys [= <-]. constructor.
  - rewrite run_bind, Hf in H. destruct (g x) as [y|e|] eqn:Hg.
    + rewrite run_bind in H.
      destruct (map_M f xs w) as [r1 w1] eqn:Hrec.
      destruct (IH _ _ eq_refl) as (-> & Hok & Hraise).
      destruct r1 as [ys|e|]; injection H as <- <-; split_and!; try done.
      * intros ys' [= <-]. constructor; eauto.
      * intros e' [= <-].
        destruct (Hraise e eq_refl) as (y' & Hy & Hgy). exists y'. split; [by right|done].
    + injection H as <- <-. split_and!; try done.
      intros e' [= <-]. exists x. split; [by left|done].
    + injection H as <- <-. split_and!; done.
Qed.

Lemma uuid_of_reads :
  reads Exercism.uuid_of (λ r, getitem r "uuid" ≫= as_str).
Proof. intros r w. reflexivity. Qed.

Lemma uuid_key_Ok r u : getitem r "uuid" ≫= as_str = Ok u → uuid_key r = Some u.
Proof. unfold uuid_key. by intros ->. Qed.

Lemma getitem_not_HTTPError j k s : getitem j k ≠ Raise (HTTPError s).
Proof. unfold getitem. destruct j; try done. by destruct (assoc k fields). Qed.

Lemma unread_notifications_no_HTTPError env w e w' :
  Exercism.unread_notifications env w = (Raise e, w') →
  is_HTTPError e = false.
Proof.
  unfold Exercism.unread_notifications. intros H.
  apply bind_inv in H as [(n & w1 & Hn & H) | [(e' & Hn & [= <-]) | (_ & [=])]];
    [|by eapply get_json_with_retries_no_HTTPError].
  apply bind_inv in H as [(rs & w2 & Hrs & H) | [(e' & Hrs & [= <-]) | (_ & [=])]].
  - apply (filter_M_reads _ (λ r, is_read ← getitem r "is_read"; Ok (negb (truthy is_read))))
      in H as (_ & _ & Hraise).
    + destruct (Hraise e eq_refl) as (x & _ & Hx).
      destruct (getitem x "is_read") eqn:Hg; cbn in Hx; try done.
      injection Hx as <-. eapply lift_raise_not_HTTPError; [|exact Hg].
      intros s. apply getitem_not_HTTPError.
    + intros r w0. unfold lift. rewrite run_bind.
      by destruct (getitem r "is_read").
  - apply lift_inv in Hrs as [Hrs _].
    destruct (getitem n "results") as [j| |] eqn:Hg; cbn in Hrs; try done.
    + destruct j; cbn in Hrs; by simplify_eq.
    + injection Hrs as <-. eapply lift_raise_not_HTTPError; [|exact Hg].
      intros s. apply getitem_not_HTTPError.
Qed.

(** The handler of the polling loop is never entered: whatever makes the
    fetch of a cycle fail ends the watcher. *)
Lemma poll_cycle_never_catches env callback seen w e w' :
  Exercism.unread_notifications env (slept (1000 * Exercism.WATCHER_SLEEP_SEC) w)
    = (Raise e, w') →
  Exercism.poll_cycle env callback seen w = (Raise e, w').
Proof.
  intros H. unfold Exercism.poll_cycle.
  rewrite run_bind, time_sleep_run by (split; vm_compute; congruence).
  rewrite run_bind. unfold try_except. rewrite run_bind, H.
  by rewrite (unread_notifications_no_HTTPError _ _ _ _ H).
Qed.

(** C7, at two failing inputs: a fetch that fails during a polling cycle
    is not swallowed.  Three 503 answers in one cycle end the watcher
    with [RetryError], and so does an API that cannot be reached: the
    decorator of the fetch turns the failure it gives up on into
    [RetryError], which the handler for [HTTPError] does not catch
    ([poll_cycle_never_catches]). *)
Theorem outage_ends_the_watcher :
  (Exercism.notification_pusher outage 1 quiet_callback fresh_world).1
    = Raise (RetryError (HTTPError 503))
  ∧ (Exercism.notification_pusher unplugged 1 quiet_callback fresh_world).1
    = Raise (RetryError ConnectionError).
Proof. split; vm_compute; reflexivity. Qed.

Lemma sublist_omap {A B} (f : A → option B) (l k : list A) :
  l `sublist_of` k → omap f l `sublist_of` omap f k.
Proof.
  induction 1 as [|x l k _ IH|x l k _ IH]; cbn.
  - constructor.
  - destruct (f x); [by constructor|done].
  - destruct (f x); [by constructor|done].
Qed.

Lemma send_served env c m args kw w resp w' :
  send env c m args kw w = (Ok resp, w') →
  ∃ tr req, server env tr req = Answer resp.
Proof.
  intros [H _]%send_answered. eauto.
Qed.

Lemma request_served env func args kw w resp w' :
  Exercism.request env func args kw w = (Ok resp, w') →
  ∃ tr req, server env tr req = Answer resp.
Proof.
  unfold Exercism.request. intros H.
  apply bind_inv in H as [(r1 & w1 & Hs1 & H) | [(e & _ & [=]) | (_ & [=])]].
  apply bind_inv in H as [(r2 & w2 & Hmid & H) | [(e & _ & [=]) | (_ & [=])]].
  apply bind_inv in H as [([] & w3 & _ & H) | [(e & _ & [=]) | (_ & [=])]].
  apply bind_inv in H as [([] & w4 & _ & H) | [(e & _ & [=]) | (_ & [=])]].
  injection H as <- <-.
  destruct (retry_after r1).
  - apply bind_inv in Hmid as [(d & w5 & _ & Hmid) | [(e & _ & [=]) | (_ & [=])]].
    apply bind_inv in Hmid as [([] & w6 & _ & Hmid) | [(e & _ & [=]) | (_ & [=])]].
    by apply send_served in Hmid.
  - injection Hmid as <- <-. by apply send_served in Hs1.
Qed.

(** A response that [request] returns is the API's answer to the request
    as it was put. *)
Lemma request_answered env func args kw w resp w' :
  Exercism.request env func args kw w = (Ok resp, w') →
  ∃ tr, server env tr (snapshot Requests func args kw w) = Answer resp.
Proof.
  unfold Exercism.request. intros H.
  apply bind_ok_inv in H as (r1 & w1 & Hs1 & H).
  apply send_answered in Hs1 as (Hs1 & ->).
  apply bind_ok_inv in H as (r2 & w2 & Hmid & H).
  apply bind_ok_inv in H as ([] & w3 & _ & H).
  apply bind_ok_inv in H as ([] & w4 & _ & H).
  injection H as <- <-.
  destruct (retry_after r1) as [text|]; [|injection Hmid as <- <-; eauto].
  apply bind_ok_inv in Hmid as (d & w5 & Hint & Hmid).
  assert (w5 = called (snapshot Requests func args kw w) w) as ->
    by (destruct text; by injection Hint).
  apply bind_ok_inv in Hmid as ([] & w6 & Hsl & Hmid).
  assert (heap w6 = heap w) as Hheap.
  { destruct (time_sleep_cases (1000 * (d + 1)) (called (snapshot Requests func args kw w) w))
      as [[_ E]|[[_ E]|[_ E]]]; rewrite E in Hsl; by simplify_eq. }
  apply send_answered in Hmid as (Hs2 & _).
  rewrite (snapshot_heap Requests func args kw w w6 Hheap) in Hs2. eauto.
Qed.

Lemma three_attempts_ok {A} (attempt : M A) wait1 wait2 w a w' :
  three_attempts wait1 wait2 attempt w = (Ok a, w') →
  ∃ w0, attempt w0 = (Ok a, w').
Proof.
  unfold three_attempts.
  destruct (attempt w) as [r1 w1] eqn:E1.
  destruct (transient r1); [|intros [= -> <-]; eauto].
  destruct (attempt (slept _ w1)) as [r2 w2] eqn:E2.
  destruct (transient r2); [|intros [= -> <-]; eauto].
  destruct (attempt (slept _ w2)) as [r3 w3] eqn:E3.
  destruct (transient r3); [done|intros [= -> <-]; eauto].
Qed.

Lemma get_json_with_retries_served env args kw w j w' :
  Exercism.get_json_with_retries env args kw w = (Ok j, w') →
  ∃ tr req r, server env tr req = Answer r ∧ body r = Some j.
Proof.
  rewrite get_json_with_retries_three_attempts.
  intros [w0 H]%three_attempts_ok. unfold Exercism.get_json in H.
  apply bind_inv in H as [(resp & w1 & Hreq & H) | [(e & _ & [=]) | (_ & [=])]].
  apply request_served in Hreq as (tr & req & Hs).
  exists tr, req, resp. split; [done|].
  unfold json in H. destruct (body resp); [|done]. by injection H as <- _.
Qed.

Lemma get_json_with_retries_quiet env args kw w r w' :
  Exercism.get_json_with_retries env args kw w = (r, w') →
  dispatches (trace w') = dispatches (trace w).
Proof. by intros (_ & H & _)%get_json_with_retries_repeats. Qed.

(** What the polling loop fetches: a sublist of a listing the server gave. *)
Lemma unread_notifications_spec env w r w' :
  Exercism.unread_notifications env w = (r, w') →
  dispatches (trace w') = dispatches (trace w)
  ∧ ∀ unread, r = Ok unread →
      ∃ tr req resp j rs,
        server env tr req = Answer resp ∧ body resp = Some j
        ∧ getitem j "results" = Ok (JList rs)
        ∧ unread `sublist_of` rs.
Proof.
  unfold Exercism.unread_notifications. intros H.
  apply bind_inv in H as [(n & w1 & Hn & H) | [(e & Hn & ->) | (Hn & ->)]];
    [|split; [by eapply get_json_with_retries_quiet|done]..].
  pose proof (get_json_with_retries_quiet _ _ _ _ _ _ Hn) as Hq.
  apply get_json_with_retries_served in Hn as (tr & req & resp & Hs & Hb).
  apply bind_inv in H as [(rs & w2 & Hrs & H) | [(e & Hrs & ->) | (Hrs & ->)]];
    apply lift_inv in Hrs as [Hrs ->]; [|done..].
  apply (filter_M_reads _ (λ r, is_read ← getitem r "is_read"; Ok (negb (truthy is_read))))
    in H as (-> & Hok & _).
  - split; [done|]. intros unread ->. destruct (Hok _ eq_refl) as [Hsub _].
    exists tr, req, resp, n, rs. split_and!; try done.
    destruct (getitem n "results") as [j| |]; cbn in Hrs; try done.
    destruct j; cbn in Hrs; by simplify_eq.
  - intros x w0. unfold lift. rewrite run_bind.
    by destruct (getitem x "is_read").
Qed.

Lemma for_each_invoke callback (unseen : list Json) w r w' :
  for_each unseen tt (λ result _, invoke callback result) w = (r, w') →
  ∃ pre, pre `sublist_of` unseen
    ∧ dispatches (trace w') = dispatches (trace w) ++ pre
    ∧ (∀ u, r = Ok u → pre = unseen).
Proof.
  revert w. induction unseen as [|x xs IH]; intros w H; cbn [for_each] in H.
  - injection H as <- <-. exists []. split_and!; [done| |done]. by rewrite app_nil_r.
  - rewrite run_bind in H. unfold invoke at 1 in H.
    destruct (callback (trace w) x).
    + injection H as <- <-. exists [x].
      split_and!; [|cbn [trace]; by rewrite dispatches_app|done].
      constructor. apply sublist_nil_l.
    + apply IH in H as (pre & Hsub & Hd & Hok). cbn [trace] in Hd.
      exists (x :: pre). split_and!.
      * by constructor.
      * rewrite Hd, dispatches_app. cbn. by rewrite <- app_assoc.
      * intros u Hu. f_equal. eauto.
Qed.

Lemma delivered_nothing env seen w w' r :
  dispatches (trace w') = dispatches (trace w) →
  (∀ seen', r = Ok seen' → seen' = seen) →
  delivered env seen w w' r [].
Proof.
  intros Hd Hr. split_and!.
  - unfold uuids_dispatched. by rewrite Hd, app_nil_r.
  - by intros u ?%elem_of_nil.
  - intros _. constructor.
  - intros seen' Hs. rewrite (Hr _ Hs). cbn. by rewrite (right_id_L ∅ (∪)).
Qed.

Lemma poll_cycle_delivered env callback seen w r w' :
  Exercism.poll_cycle env callback seen w = (r, w') →
  ∃ new, delivered env seen w w' r new.
Proof.
  unfold Exercism.poll_cycle. intros H.
  apply bind_inv in H as [([] & w1 & Hsl & H) | [(e & Hsl & ->) | (Hsl & ->)]];
    apply (repeats_time_sleep (snapshot Requests GET [] no_kwargs w)) in Hsl
      as (_ & Hd1 & _);
    [|exists []; by apply delivered_nothing..].
  apply bind_inv in H as [(fetched & w2 & Hf & H) | [(e & Hf & ->) | (Hf & ->)]].
  - (* the fetch returned, or its failure was handled *)
    assert (Hd2 : dispatches (trace w2) = dispatches (trace w1)
                  ∧ ∀ unread, fetched = Some unread →
                      ∃ tr req resp j rs,
                        server env tr req = Answer resp ∧ body resp = Some j
                        ∧ getitem j "results" = Ok (JList rs)
                        ∧ unread `sublist_of` rs).
    { unfold try_except in Hf. rewrite run_bind in Hf.
      destruct (Exercism.unread_notifications env w1) as [[unread|e|] w3] eqn:Hu;
        apply unread_notifications_spec in Hu as [Hq Hu].
      - injection Hf as <- <-. split; [done|]. intros ? [= <-]. eauto.
      - destruct (is_HTTPError e); [|done]. injection Hf as <- <-. by split.
      - done. }
    destruct Hd2 as [Hd2 Hsrv].
    destruct fetched as [unread|].
    + destruct (Hsrv _ eq_refl) as (tr & req & resp & j & rs & Hs & Hb & Hrs & Hsub).
      set (q := λ r : Json, uuid ← getitem r "uuid" ≫= as_str;
                            Ok (bool_decide (uuid ∉ seen))).
      assert (Hq : reads (λ r, uuid ← Exercism.uuid_of r;
                               mret (bool_decide (uuid ∉ seen))) q).
      { intros x w0. unfold Exercism.uuid_of, lift, q. rewrite run_bind.
        by destruct (getitem x "uuid" ≫= as_str). }
      assert (Hnew : ∀ pre, pre `sublist_of` unread →
                Forall (λ y, q y = Ok true) pre →
                (∀ u, u ∈ omap uuid_key pre → u ∉ seen)
                ∧ (unique_uuids env → NoDup (omap uuid_key pre))).
      { intros pre Hpre Hall. split.
        - intros u (y & Hy & Hu)%list_elem_of_omap.
          rewrite Forall_forall in Hall. specialize (Hall y Hy).
          unfold q, uuid_key in *.
          destruct (getitem y "uuid" ≫= as_str) as [u'| |]; cbn in Hall; try done.
          injection Hu as <-. injection Hall as Hall. by apply bool_decide_eq_true in Hall.
        - intros Huniq. eapply sublist_NoDup; [by eapply Huniq|].
          apply sublist_omap. by etrans. }
      apply bind_inv in H as [(unseen & w3 & Hun & H) | [(e & Hun & ->) | (Hun & ->)]];
        apply (filter_M_reads _ q) in Hun as (-> & Hok & _); try done;
        [|exists []; apply delivered_nothing; [congruence|done]..].
      destruct (Hok _ eq_refl) as [Hsub' Hall].
      apply bind_inv in H as [([] & w4 & Hinv & H) | [(e & Hinv & ->) | (Hinv & ->)]];
        apply for_each_invoke in Hinv as (pre & Hpre & Hd4 & Hfull).
      * specialize (Hfull _ eq_refl) as ->.
        destruct (Hnew unseen Hsub' Hall) as [Hfresh Hnodup].
        exists (omap uuid_key unseen).
        apply bind_inv in H as [(us & w5 & Hus & H) | [(e & Hus & ->) | (Hus & ->)]];
          apply (map_M_reads _ _ _ _ _ _ uuid_of_reads) in Hus as (-> & Hus & _);
          [injection H as <- <-|..];
          (split_and!; [unfold uuids_dispatched; by rewrite Hd4, Hd2, Hd1, omap_app
                       |done|done|]); [|done..].
        intros seen' [= <-]. specialize (Hus _ eq_refl).
        f_equal. f_equal. clear -Hus.
        induction Hus as [|x u xs us Hx _ IH]; cbn; [done|].
        by rewrite (uuid_key_Ok _ _ Hx), IH.
      * assert (Hall' : Forall (λ y, q y = Ok true) pre).
        { rewrite Forall_forall in *. intros y Hy. apply Hall.
          by eapply elem_of_sublist. }
        destruct (Hnew pre (transitivity Hpre Hsub') Hall') as [Hfresh Hnodup].
        exists (omap uuid_key pre). split_and!; try done.
        unfold uuids_dispatched. by rewrite Hd4, Hd2, Hd1, omap_app.
      * assert (Hall' : Forall (λ y, q y = Ok true) pre).
        { rewrite Forall_forall in *. intros y Hy. apply Hall.
          by eapply elem_of_sublist. }
        destruct (Hnew pre (transitivity Hpre Hsub') Hall') as [Hfresh Hnodup].
        exists (omap uuid_key pre). split_and!; try done.
        unfold uuids_dispatched. by rewrite Hd4, Hd2, Hd1, omap_app.
    + injection H as <- <-. exists []. apply delivered_nothing; [congruence|].
      by intros ? [= <-].
  - exists []. apply delivered_nothing; [|done].
    unfold try_except, mret, M_ret in Hf. rewrite run_bind in Hf.
    destruct (Exercism.unread_notifications env w1) as [[unread|e'|] w3] eqn:Hu;
      apply unread_notifications_spec in Hu as [Hq _]; try done.
    destruct (is_HTTPError e'); simplify_eq; congruence.
  - exists []. apply delivered_nothing; [|done].
    unfold try_except, mret, M_ret in Hf. rewrite run_bind in Hf.
    destruct (Exercism.unread_notifications env w1) as [[unread|e'|] w3] eqn:Hu;
      apply unread_notifications_spec in Hu as [Hq _]; try done.
    + destruct (is_HTTPError e'); by simplify_eq.
    + simplify_eq. congruence.
Qed.

Lemma delivered_then env seen w w1 w2 seen1 new1 r new2 :
  delivered env seen w w1 (Ok seen1) new1 →
  delivered env seen1 w1 w2 r new2 →
  delivered env seen w w2 r (new1 ++ new2).
Proof.
  intros (Hd1 & Hf1 & Hn1 & Hs1) (Hd2 & Hf2 & Hn2 & Hs2).
  specialize (Hs1 _ eq_refl). subst seen1.
  split_and!.
  - by rewrite Hd2, Hd1, app_assoc.
  - intros u [Hu|Hu]%elem_of_app; [by apply Hf1|].
    apply Hf2 in Hu. set_solver.
  - intros Huniq. apply NoDup_app. split_and!; [by apply Hn1| |by apply Hn2].
    intros u Hu1 Hu2. apply Hf2 in Hu2. apply Hu2.
    apply elem_of_union_r. by apply elem_of_list_to_set.
  - intros seen' Hr. rewrite (Hs2 _ Hr), list_to_set_app_L. set_solver.
Qed.

Lemma polling_delivered env callback n seen w r w' :
  Exercism.polling env n callback seen w = (r, w') →
  ∃ new, delivered env seen w w' r new.
Proof.
  revert seen w. induction n as [|n IH]; intros seen w H; cbn [Exercism.polling] in H.
  - injection H as <- <-. exists []. apply delivered_nothing; [done|]. by intros ? [= <-].
  - apply bind_inv in H as [(seen1 & w1 & Hc & H) | [(e & Hc & ->) | (Hc & ->)]];
      apply poll_cycle_delivered in Hc as [new1 Hc]; [|by exists new1..].
    apply IH in H as [new2 H]. exists (new1 ++ new2). by eapply delivered_then.
Qed.

Lemma polling_add env callback k m seen w :
  Exercism.polling env (k + m) callback seen w
  = (seen_k ← Exercism.polling env k callback seen; Exercism.polling env m callback seen_k) w.
Proof.
  revert seen w. induction k as [|k IH]; intros seen w; cbn [Exercism.polling Nat.add].
  - reflexivity.
  - rewrite !run_bind. destruct (Exercism.poll_cycle env callback seen w) as [[s| |] w1];
      [|done..].
    rewrite IH. by rewrite run_bind.
Qed.

Lemma seen_at_start_spec env w r w0 :
  Exercism.seen_at_start env w = (r, w0) →
  dispatches (trace w0) = dispatches (trace w)
  ∧ ∀ seen0, r = Ok seen0 → primed_with env w seen0.
Proof.
  unfold Exercism.seen_at_start, primed_with. intros H.
  apply bind_inv in H as [(j & w1 & Hn & H) | [(e & Hn & ->) | (Hn & ->)]];
    [|split; [by eapply get_json_with_retries_quiet|done]..].
  pose proof (get_json_with_retries_quiet _ _ _ _ _ _ Hn) as Hq.
  apply bind_inv in H as [(rs & w2 & Hrs & H) | [(e & Hrs & ->) | (Hrs & ->)]];
    apply lift_inv in Hrs as [Hrs ->]; [|done..].
  apply bind_inv in H as [(us & w3 & Hus & H) | [(e & Hus & ->) | (Hus & ->)]];
    apply (map_M_reads _ _ _ _ _ _ uuid_of_reads) in Hus as (-> & Hus & _); [|done..].
  injection H as <- <-. split; [done|]. intros seen0 [= <-].
  eexists j, _, rs, us. split_and!; [exact Hn| | |done].
  - destruct (getitem j "results") as [x| |]; cbn in Hrs; try done.
    destruct x; cbn in Hrs; by simplify_eq.
  - specialize (Hus _ eq_refl). clear -Hus. symmetry.
    induction Hus as [|x u xs us Hx _ IH]; cbn; [done|].
    by rewrite (uuid_key_Ok _ _ Hx), IH.
Qed.

(** C6, as amended: however the server and the callback behave, a
    watcher observed after any number of cycles satisfies
    [watch_report]: the seen-set only grows; every UUID listed at priming
    time is in the seen-set and is never handed to the callback; no UUID
    that is in the seen-set at some cycle is handed to the callback
    later, so one dispatched on poll N is not dispatched again on poll
    N+1 whatever its [is_read] reads; and if no answer of the server
    lists a UUID twice, no UUID is handed to the callback twice. *)
Theorem notification_pusher_delivers_once (env : Env) (callback : Callback)
    (n : nat) (w : World) (r : Outcome (gset string)) (w' : World) :
  Exercism.notification_pusher env n callback w = (r, w') →
  watch_report env callback n w r w'.
Proof.
  unfold Exercism.notification_pusher, watch_report. rewrite run_bind.
  destruct (Exercism.seen_at_start env w) as [r0 w0] eqn:Hstart.
  apply seen_at_start_spec in Hstart as [Hq Hprimed].
  assert (Hq' : uuids_dispatched (trace w0) = uuids_dispatched (trace w))
    by (unfold uuids_dispatched; by rewrite Hq).
  destruct r0 as [seen0|e|]; [|intros [= <- <-]; by split..].
  intros H. split_and!; try done.
  - by apply Hprimed.
  - by eapply polling_delivered.
  - intros k m seen_k w_k -> Hk.
    rewrite polling_add, (run_bind_ok _ _ _ _ _ Hk) in H.
    apply polling_delivered in Hk as (new_k & _ & _ & _ & Hseen).
    specialize (Hseen _ eq_refl).
    apply polling_delivered in H as (later & H).
    split_and!.
    + set_solver.
    + by exists later.
    + intros seen_n Hr. destruct H as (_ & _ & _ & Hs). rewrite (Hs _ Hr). set_solver.
Qed.

Lemma three_polls_unique : unique_uuids three_polls.
Proof.
  intros tr req r j rs Hs%answered_by_remote Hb Hrs. cbn in Hs. unfold scripted in Hs.
  destruct (length (calls tr)) as [|[|[|k]]]; cbn in Hs; [..|done];
    unfold listing, ok_json in Hs; injection Hs as <-;
    cbn in Hb; injection Hb as <-;
    vm_compute in Hrs; injection Hrs as <-;
    apply (bool_decide_unpack _); by vm_compute.
Qed.

Lemma notification_pusher_delivers_once_witness :
  let run := Exercism.notification_pusher three_polls 2 quiet_callback fresh_world in
  watch_report three_polls quiet_callback 2 fresh_world run.1 run.2
  ∧ uuids_dispatched (trace run.2) = ["n2"]
  ∧ unique_uuids three_polls.
Proof.
  intros run. split_and!.
  - apply notification_pusher_delivers_once. apply surjective_pairing.
  - vm_compute. reflexivity.
  - apply three_polls_unique.
Defined.

(** C6 as stated fails on a listing that names an unread notification
    twice: priming saw [n1], the first poll lists [n2] twice, and the
    callback is handed [n2] twice in that poll, the seen-set being
    brought up to date only after the loop over the listing. *)
Lemma listed_twice_dispatched_twice :
  let run := Exercism.notification_pusher listed_twice 1 quiet_callback fresh_world in
  (∃ seen, run.1 = Ok seen)
  ∧ uuids_dispatched (trace run.2) = ["n2"; "n2"]
  ∧ ¬ NoDup (uuids_dispatched (trace run.2))
  ∧ ¬ unique_uuids listed_twice.
Proof.
  assert (Hd : uuids_dispatched (trace (Exercism.notification_pusher listed_twice 1
                 quiet_callback fresh_world).2) = ["n2"; "n2"])
    by (vm_compute; reflexivity).
  cbv zeta. rewrite Hd. split_and!.
  - eexists. vm_compute. reflexivity.
  - done.
  - intros Hn. apply NoDup_cons in Hn as [Hin _]. apply Hin. by left.
  - intros Hu.
    specialize (Hu [Call (snapshot Requests GET [tracks_url] no_kwargs fresh_world)]
                  (snapshot Requests GET [tracks_url] no_kwargs fresh_world)
                  _ _ _ eq_refl eq_refl eq_refl).
    vm_compute in Hu. apply NoDup_cons in Hu as [_ Hu].
    apply NoDup_cons in Hu as [Hin _]. apply Hin. by left.
Qed.

(** ** Finish or nudge *)

Lemma ltb_leb (a b : string) : String.ltb a b = true → (a ≤ b)%string.
Proof.
  unfold String.le, String.ltb, String.leb. by destruct (a ?= b)%string.
Qed.

Lemma ltb_false_leb (a b : string) : String.ltb a b = false → (b ≤ a)%string.
Proof.
  unfold String.le, String.ltb, String.leb. rewrite (String.compare_antisym a b).
  by destruct (b ?= a)%string.
Qed.

Lemma fold_min_least (rest : list string) (x : string) :
  is_least (fold_left (λ m y, if String.ltb y m then y else m) rest x) (x :: rest).
Proof.
  revert x. induction rest as [|y rest IH]; intros x; cbn [fold_left].
  - split; [by left|]. by intros ? ->%list_elem_of_singleton.
  - destruct (String.ltb y x) eqn:Hlt.
    + destruct (IH y) as [Hin Hle]. split.
      * right. done.
      * intros z [->|Hz]%elem_of_cons; [|by apply Hle].
        etrans; [apply Hle; by left|]. by apply ltb_leb.
    + destruct (IH x) as [Hin Hle]. split.
      * apply elem_of_cons in Hin as [->|Hin]; [by left|]. right. by right.
      * intros z [->|[->|Hz]%elem_of_cons]%elem_of_cons.
        -- apply Hle. by left.
        -- etrans; [apply Hle; by left|]. by apply ltb_false_leb.
        -- apply Hle. by right.
Qed.

Lemma fold_max_greatest (rest : list string) (x : string) :
  is_greatest (fold_left (λ m y, if String.ltb m y then y else m) rest x) (x :: rest).
Proof.
  revert x. induction rest as [|y rest IH]; intros x; cbn [fold_left].
  - split; [by left|]. by intros ? ->%list_elem_of_singleton.
  - destruct (String.ltb x y) eqn:Hlt.
    + destruct (IH y) as [Hin Hle]. split.
      * right. done.
      * intros z [->|Hz]%elem_of_cons; [|by apply Hle].
        etrans; [by apply ltb_leb|]. apply Hle. by left.
    + destruct (IH x) as [Hin Hle]. split.
      * apply elem_of_cons in Hin as [->|Hin]; [by left|]. right. by right.
      * intros z [->|[->|Hz]%elem_of_cons]%elem_of_cons.
        -- apply Hle. by left.
        -- etrans; [by apply ltb_false_leb|]. apply Hle. by left.
        -- apply Hle. by right.
Qed.

Lemma py_min_least xs :
  xs ≠ [] → ∃ m, py_min xs = Ok m ∧ is_least m xs.
Proof.
  destruct xs as [|x rest]; [done|]. intros _. eexists. split; [reflexivity|].
  apply fold_min_least.
Qed.

Lemma py_max_default_greatest xs d :
  (xs = [] → py_max_default xs d = d)
  ∧ (xs ≠ [] → is_greatest (py_max_default xs d) xs).
Proof.
  destruct xs as [|x rest]; split; try done. intros _. apply fold_max_greatest.
Qed.

Lemma py_max2_greatest a b : is_greatest (py_max2 a b) [a; b].
Proof. apply (fold_max_greatest [b] a). Qed.

Lemma is_least_unique m m' xs : is_least m xs → is_least m' xs → m = m'.
Proof. intros [Hin Hle] [Hin' Hle']. apply (anti_symm String.le); eauto. Qed.

Lemma is_greatest_unique m m' xs : is_greatest m xs → is_greatest m' xs → m = m'.
Proof. intros [Hin Hle] [Hin' Hle']. apply (anti_symm String.le); eauto. Qed.

Lemma reference_time_unique posts r r' :
  reference_time posts r → reference_time posts r' → r = r'.
Proof.
  intros (f & l & Hf & Hl0 & Hl1 & Hr) (f' & l' & Hf' & Hl0' & Hl1' & Hr').
  assert (f = f') as <- by (by eapply is_least_unique).
  assert (l = l') as <-.
  { destruct (student_times posts) as [|s ss] eqn:Hs.
    - by rewrite Hl0, Hl0'.
    - eapply is_greatest_unique; [by apply Hl1|by apply Hl1']. }
  by eapply is_greatest_unique.
Qed.

Lemma stamps_reads (student : bool) (items : list Json) (posts : list Post) :
  Forall2 reads_post items posts →
  stamps student items
  = Ok (post_updated_at <$> filter (λ p, post_by_student p = student) posts).
Proof.
  induction 1 as [|j p js ps (Hu & b & Hb & Ht) _ IH]; [done|].
  cbn [stamps]. rewrite Hb. cbn [mbind Outcome_bind]. rewrite Ht, IH, Hu.
  destruct (post_by_student p) eqn:Hp, student; cbn [Bool.eqb].
  all: try rewrite filter_cons_True by (cbv beta; congruence).
  all: try rewrite filter_cons_False by (cbv beta; congruence).
  all: done.
Qed.

Lemma posts_since_reads (reference : string) (items : list Json) (posts : list Post) :
  Forall2 reads_post items posts →
  posts_since reference items = Ok (posts_since_updated posts reference).
Proof.
  unfold posts_since_updated.
  induction 1 as [|j p js ps (Hu & _) _ IH]; [done|].
  cbn [posts_since]. rewrite Hu, IH. cbn [mbind Outcome_bind as_str].
  destruct (String.leb reference (post_updated_at p)) eqn:Hleb.
  - rewrite filter_cons_True by (by apply Is_true_true).
    cbn [length]. f_equal. lia.
  - rewrite filter_cons_False by (by apply Is_true_false). done.
Qed.

Lemma mentor_discussion_posts_run env uuid w j items :
  answers_with (server env (trace w) (posts_request uuid)) j →
  getitem j "items" = Ok (JList items) →
  Exercism.mentor_discussion_posts env uuid w
  = (Ok items, slept 200 (called (posts_request uuid) w)).
Proof.
  intros Hans Hitems. unfold Exercism.mentor_discussion_posts.
  rewrite run_bind, (answers_with_run env _ no_kwargs w j) by done.
  unfold lift. by rewrite Hitems.
Qed.

(** C4, as amended: for a candidate discussion with at least one mentor
    post, the reference time is the later of the earliest mentor post and
    the latest student post (the former standing in for the latter when
    no student posted), [posts_since_updated] counts the posts at or after
    it, and the discussion is filed under finish exactly when the number
    of whole days from the reference time to now exceeds 300, that is
    when at least 301 days have passed, and more than 5 posts are
    counted; it is filed under nudge otherwise. *)
Theorem sort_discussion_verdict (env : Env) (now : Z) (uuid : string)
    (lists : list string * list string) (w : World)
    (j : Json) (items : list Json) (posts : list Post) :
  answers_with (server env (trace w) (posts_request uuid)) j →
  getitem j "items" = Ok (JList items) →
  Forall2 reads_post items posts →
  mentor_times posts ≠ [] →
  (∃ reference, reference_time posts reference)
  ∧ ∀ reference t,
      reference_time posts reference →
      datetime.strptime reference = Ok t →
      (sort_discussion env now uuid lists w).1
      = Ok (filed (verdict_by_whole_days now t (posts_since_updated posts reference))
              uuid lists).
Proof.
  intros Hans Hitems Hposts Hmentor.
  destruct (py_min_least _ Hmentor) as (first & Hmin & Hfirst).
  set (last := py_max_default (student_times posts) first).
  set (ref := py_max2 first last).
  assert (Href : reference_time posts ref).
  { exists first, last. destruct (py_max_default_greatest (student_times posts) first).
    split_and!; try done. apply py_max2_greatest. }
  split; [by exists ref|].
  intros reference t Href' Ht.
  assert (reference = ref) as -> by (by eapply reference_time_unique).
  unfold sort_discussion. destruct lists as [to_finish to_nudge].
  rewrite run_bind, (mentor_discussion_posts_run env uuid w j items) by done.
  rewrite run_bind. unfold lift at 1.
  rewrite (stamps_reads false items posts) by done. cbn [mbind Outcome_bind].
  fold (mentor_times posts). rewrite Hmin.
  rewrite run_bind. unfold lift at 1.
  rewrite (stamps_reads true items posts) by done.
  fold (student_times posts). fold last. fold ref.
  rewrite run_bind. unfold lift at 1.
  rewrite (posts_since_reads ref items posts) by done.
  rewrite run_bind. unfold lift at 1. rewrite Ht.
  unfold verdict_by_whole_days, filed.
  by destruct (bool_decide _ && bool_decide _).
Qed.

Lemma six_posts_reference (stamp : string) : reference_time (six_posts stamp) stamp.
Proof.
  assert (Hall : ∀ x : string, x ∈ [stamp; stamp; stamp] → x = stamp) by set_solver.
  exists stamp, stamp. split_and!.
  - split; [by left|]. by intros x ->%Hall.
  - done.
  - intros _. split; [by left|]. by intros x ->%Hall.
  - split; [by left|]. intros x Hx. assert (x = stamp) as -> by set_solver. done.
Qed.

Lemma sort_discussion_verdict_witness :
  (sort_discussion mentor_desk noon_2025_06_01 "d1" ([], []) fresh_world).1
  = Ok (["d1"], []).
Proof.
  destruct (sort_discussion_verdict mentor_desk noon_2025_06_01 "d1" ([], []) fresh_world
              (JObj [("items", JList (post_of <$> six_posts "2024-04-27T12:00:00Z"))])
              (post_of <$> six_posts "2024-04-27T12:00:00Z")
              (six_posts "2024-04-27T12:00:00Z")) as [_ H].
  - eexists. split; [reflexivity|]. vm_compute. eauto.
  - reflexivity.
  - repeat constructor; eexists; split; reflexivity.
  - vm_compute. congruence.
  - rewrite (H "2024-04-27T12:00:00Z" (datetime.instant 2024 4 27 12 0 0)
               (six_posts_reference _) eq_refl).
    vm_compute. reflexivity.
Defined.

(** C4 as stated fails between 300 and 301 days: the reference time lies
    300 days and 12 hours back, six posts are at it, and the discussion
    is nudged, not finished. *)
Lemma half_a_day_past_300 :
  let posts := six_posts "2024-08-05T00:00:00Z" in
  let reference := "2024-08-05T00:00:00Z" in
  let t := datetime.instant 2024 8 5 0 0 0 in
  reference_time posts reference
  ∧ datetime.strptime reference = Ok t
  ∧ noon_2025_06_01 - t = 300 * datetime.us_per_day + 12 * 3600 * datetime.us_per_second
  ∧ posts_since_updated posts reference = 6
  ∧ verdict_by_elapsed_time noon_2025_06_01 t (posts_since_updated posts reference) = Finish
  ∧ (sort_discussion mentor_desk noon_2025_06_01 "d4" ([], []) fresh_world).1
    = Ok (filed Nudge "d4" ([], [])).
Proof.
  intros posts reference t. split_and!; try (vm_compute; reflexivity).
  apply six_posts_reference.
Qed.

(** ** Stale discussions *)

Lemma fold_left_max_out (rest : list Z) (x y : Z) :
  fold_left Z.max rest (Z.max x y) = Z.max y (fold_left Z.max rest x).
Proof.
  revert x. induction rest as [|z rest IH]; intros x; cbn; [lia|].
  replace (Z.max (Z.max x y) z) with (Z.max (Z.max x z) y) by lia. apply IH.
Qed.

Lemma fold_left_max_foldr (rest : list Z) (x : Z) :
  fold_left Z.max rest x = foldr Z.max x rest.
Proof.
  induction rest as [|y rest IH]; cbn; [done|].
  by rewrite fold_left_max_out, IH.
Qed.

Lemma map_M_reads_all {A B} (f : A → M B) (g : A → Outcome B) xs w :
  reads f g →
  Forall (λ x, ∃ y, g x = Ok y) xs →
  map_M f xs w
  = (Ok (omap (λ x, match g x with Ok y => Some y | _ => None end) xs), w).
Proof.
  intros Hf. induction 1 as [|x xs [y Hy] _ IH]; cbn [map_M]; [done|].
  rewrite run_bind, Hf, Hy. rewrite run_bind, IH. cbn. by rewrite Hy.
Qed.

Lemma for_each_run {A S} (body : A → S → M S) (step : A → S → S)
    (I : World → Prop) (xs : list A) :
  (∀ x acc w, x ∈ xs → I w → ∃ w', body x acc w = (Ok (step x acc), w') ∧ I w') →
  ∀ acc w, I w →
    ∃ w', for_each xs acc body w = (Ok (foldl (λ a x, step x a) acc xs), w') ∧ I w'.
Proof.
  induction xs as [|x xs IH]; intros Hbody acc w HI; cbn [for_each foldl].
  - by exists w.
  - destruct (Hbody x acc w) as (w1 & Hrun & HI1); [by left|done|].
    rewrite (run_bind_ok _ _ _ _ _ Hrun).
    apply IH; [|done]. intros y acc' w0 Hy. apply Hbody. by right.
Qed.

Lemma foldl_omap {A B} (f : A → option B) (acc : list B) (xs : list A) :
  foldl (λ a x, a ++ option_list (f x)) acc xs = acc ++ omap f xs.
Proof.
  revert acc. induction xs as [|x xs IH]; intros acc; cbn.
  - by rewrite app_nil_r.
  - rewrite IH, <- app_assoc. by destruct (f x).
Qed.

Lemma check_discussion_run env cutoff posts_of d uuids w :
  listed env cutoff posts_of d →
  ∃ w', Exercism.check_discussion env cutoff d uuids w
        = (Ok (uuids ++ option_list (candidate cutoff posts_of d)), w')
        ∧ heap w' = heap w.
Proof.
  intros (t & Ht & Hold). unfold Exercism.check_discussion, candidate.
  rewrite run_bind. unfold lift at 1. rewrite Ht.
  case_bool_decide as Hcut.
  - exists w. split; [|done]. cbn [mret M_ret]. f_equal. f_equal.
    destruct (uuid_key d); [|by rewrite app_nil_r].
    destruct (most_recent _); [|by rewrite app_nil_r].
    rewrite bool_decide_eq_false_2 by lia. by rewrite app_nil_r.
  - destruct Hold as (u & Hu & Hsrv & Hne & Hall); [lia|].
    rewrite (uuid_key_Ok _ _ Hu).
    rewrite run_bind. unfold lift at 1. rewrite Hu.
    destruct (Hsrv (trace w)) as (j & Hans & Hitems).
    rewrite run_bind, (mentor_discussion_posts_run env u w j (posts_of u)) by done.
    rewrite run_bind.
    rewrite (map_M_reads_all _ Exercism.updated_at _ _ (λ _ _, eq_refl) Hall).
    fold (post_times (posts_of u)).
    assert (Hts : post_times (posts_of u) ≠ []).
    { destruct (posts_of u) as [|p ps]; [done|].
      apply Forall_cons in Hall as [[tp Hp] _]. unfold post_times. cbn. by rewrite Hp. }
    destruct (post_times (posts_of u)) as [|x rest]; [done|].
    rewrite run_bind. unfold lift at 1. cbn [py_max_instant most_recent].
    rewrite fold_left_max_foldr. set (m := foldr Z.max x rest).
    exists (slept 200 (called (posts_request u) w)). split; [|reflexivity].
    rewrite (bool_decide_eq_true_2 (t ≤ cutoff)) by lia. cbn [andb].
    destruct (decide (cutoff < m)).
    + rewrite (bool_decide_eq_true_2 (cutoff < m)) by done.
      rewrite (bool_decide_eq_false_2 (m ≤ cutoff)) by lia.
      cbn [mret M_ret option_list]. by rewrite app_nil_r.
    + rewrite (bool_decide_eq_false_2 (cutoff < m)) by done.
      rewrite (bool_decide_eq_true_2 (m ≤ cutoff)) by lia.
      reflexivity.
Qed.

Lemma check_page_run env cutoff posts_of status order l pages T p uuids w :
  1 ≤ p ≤ T →
  reads_as l (discussion_filter status order) w →
  (∀ tr, ∃ j, answers_with (server env tr (discussions_request status order (Some p))) j
              ∧ getitem j "results" = Ok (JList (pages p))) →
  Forall (listed env cutoff posts_of) (pages p) →
  ∃ w', Exercism.check_page env cutoff l p uuids w
        = (Ok (uuids ++ omap (candidate cutoff posts_of) (pages p)), w')
        ∧ reads_as l (discussion_filter status order) w'.
Proof.
  intros Hp Hd Hsrv Hlisted. unfold Exercism.check_page.
  rewrite run_bind. cbn [dict_setitem].
  set (w1 := {| trace := trace w; heap := _ |}).
  assert (Hd1 : reads_as l (discussion_filter status order) w1).
  { intros v. cbn. rewrite lookup_insert_eq. cbn. by rewrite insert_insert_eq. }
  assert (Hreq : snapshot Requests GET [Exercism.API +:+ "/mentoring/discussions"]
                   (with_params l no_kwargs) w1
                 = discussions_request status order (Some p)).
  { unfold snapshot, discussions_request. cbn. rewrite lookup_insert_eq. cbn.
    by rewrite Hd. }
  destruct (Hsrv (trace w1)) as (j & Hans & Hres).
  rewrite run_bind, (answers_with_run env _ (with_params l no_kwargs) w1 j)
    by (rewrite ?Hreq; done).
  rewrite run_bind. unfold lift at 1. rewrite Hres. cbn [mbind Outcome_bind as_list].
  set (w2 := slept _ _).
  destruct (for_each_run (Exercism.check_discussion env cutoff)
              (λ d acc, acc ++ option_list (candidate cutoff posts_of d))
              (λ w0, heap w0 = heap w2) (pages p)) with (acc := uuids) (w := w2)
    as (w' & Hrun & Hheap); [|done|].
  - intros d acc w0 Hin Hw0. rewrite Forall_forall in Hlisted.
    destruct (check_discussion_run env cutoff posts_of d acc w0 (Hlisted d Hin))
      as (w0' & Hrun & Hh).
    exists w0'. split; [done|congruence].
  - exists w'. rewrite Hrun, foldl_omap. split; [done|].
    intros v. rewrite Hheap. apply Hd1.
Qed.

Lemma foldl_omap_pages {A B} (f : A → option B) (pages : Z → list A)
    (acc : list B) (ps : list Z) :
  foldl (λ a p, a ++ omap f (pages p)) acc ps = acc ++ omap f (concat (pages <$> ps)).
Proof.
  revert acc. induction ps as [|p ps IH]; intros acc; cbn.
  - by rewrite app_nil_r.
  - by rewrite IH, omap_app, app_assoc.
Qed.

(** C5, as amended: with a server that answers the listing and the
    posts requests at the first attempt, timestamps in the format of the
    API, and at least one post in every discussion whose own
    [updated_at] is not after the cutoff ([listed]),
    [old_mentor_discussions] returns, in the order of the pages, exactly
    the UUIDs of the listed discussions that pass both checks: the
    discussion's own [updated_at] is not after the cutoff, now minus
    [age] days, and neither is the most recent [updated_at] of its
    posts. *)
Theorem old_mentor_discussions_candidates (env : Env) (status order : string)
    (age : Z) (w : World) (T : Z) (pages : Z → list Json)
    (posts_of : string → list Json) (delta cutoff : Z) :
  let first := discussions_request status order None in
  let now := clock env (trace w ++ [Call first; Sleep 200]) in
  order ∈ ["oldest"; "recent"; "exercise"; "student"] →
  status ∈ ["awaiting_mentor"; "awaiting_student"; "finished"] →
  datetime.timedelta_days age = Ok delta →
  datetime.sub_timedelta now delta = Ok cutoff →
  (∃ j meta, answers_with (server env (trace w) first) j
             ∧ getitem j "meta" = Ok meta
             ∧ getitem meta "total_pages" = Ok (JNum T)) →
  (∀ tr p, 1 ≤ p ≤ T →
     ∃ j, answers_with (server env tr (discussions_request status order (Some p))) j
          ∧ getitem j "results" = Ok (JList (pages p))) →
  (∀ p, 1 ≤ p ≤ T → Forall (listed env cutoff posts_of) (pages p)) →
  (Exercism.old_mentor_discussions env status age order w).1
  = Ok (omap (candidate cutoff posts_of) (concat (pages <$> seqZ 1 T))).
Proof.
  intros first now Horder Hstatus Hdelta Hcutoff (j0 & meta & Hans & Hmeta & HT) Hpages Hlisted.
  unfold Exercism.old_mentor_discussions.
  rewrite run_bind, bool_decide_eq_true_2 by done. cbn [py_assert mret M_ret].
  rewrite run_bind, bool_decide_eq_true_2 by done. cbn [py_assert mret M_ret].
  rewrite run_bind. cbn [dict_of].
  set (l := fresh (dom (heap w))).
  set (w1 := {| trace := trace w; heap := _ |}).
  assert (Hd1 : reads_as l (discussion_filter status order) w1).
  { intros v. cbn. by rewrite lookup_insert_eq. }
  assert (Hreq : snapshot Requests GET [Exercism.API +:+ "/mentoring/discussions"]
                   (with_params l no_kwargs) w1 = first).
  { unfold snapshot, first, discussions_request. cbn. by rewrite lookup_insert_eq. }
  rewrite run_bind, (answers_with_run env _ (with_params l no_kwargs) w1 j0)
    by (rewrite ?Hreq; done).
  rewrite Hreq.
  rewrite run_bind. unfold lift at 1. rewrite Hmeta. cbn [mbind Outcome_bind]. rewrite HT.
  rewrite run_bind. unfold lift at 1. rewrite Hdelta.
  rewrite run_bind. unfold datetime_now.
  assert (Hnow : clock env (trace (slept (sleep_or 200 (with_params l no_kwargs))
                                    (called first w1))) = now).
  { unfold now. cbn. by rewrite <- app_assoc. }
  rewrite Hnow.
  rewrite run_bind. unfold lift at 1. rewrite Hcutoff.
  rewrite run_bind. unfold lift at 1. cbn [as_int].
  set (w2 := slept _ _).
  destruct (for_each_run (Exercism.check_page env cutoff l)
              (λ p acc, acc ++ omap (candidate cutoff posts_of) (pages p))
              (reads_as l (discussion_filter status order)) (seqZ 1 T))
    with (acc := @nil string) (w := w2) as (w' & Hrun & _); [|done|].
  - intros p acc w0 Hin Hw0. apply elem_of_seqZ in Hin.
    apply (check_page_run env cutoff posts_of status order l pages T p acc w0);
      [lia|done|intros tr; apply Hpages; lia|apply Hlisted; lia].
  - rewrite Hrun. cbn [fst]. f_equal.
    apply (foldl_omap_pages (candidate cutoff posts_of) pages []).
Qed.

(** C5 as stated fails on a discussion without posts.  The listing holds
    [d1], which is old on both counts, and [d0], which is as old on its
    face and for which the API answers the posts request with no post:
    [max] has nothing to choose from, and the call raises [ValueError].
    [d0] is neither skipped nor returned, and [d1] is lost with it. *)
Lemma discussion_without_posts :
  let run := Exercism.old_mentor_discussions silent_desk "awaiting_student" 30 "oldest"
               fresh_world in
  let d0 := discussion "d0" "2024-04-27T12:00:00Z" in
  let d1 := discussion "d1" "2024-04-27T12:00:00Z" in
  (∀ tr, answers_with (server silent_desk tr (discussions_request "awaiting_student" "oldest" (Some 1)))
           (envelope [d1; d0] 1 1))
  ∧ (∀ tr, answers_with (server silent_desk tr (posts_request "d0")) (JObj [("items", JList [])]))
  ∧ (∃ updated, Exercism.updated_at d0 = Ok updated ∧ updated ≤ thirty_days_before_noon)
  ∧ candidate thirty_days_before_noon
      (λ uuid, if String.eqb uuid "d1" then post_of <$> six_posts "2024-04-27T12:00:00Z" else [])
      d1 = Some "d1"
  ∧ run.1 = Raise ValueError.
Proof.
  split_and!.
  - intros tr. eexists. split; [reflexivity|]. vm_compute. eauto.
  - intros tr. eexists. split; [reflexivity|]. vm_compute. eauto.
  - eexists. split; [vm_compute; reflexivity|]. vm_compute. congruence.
  - vm_compute. reflexivity.
  - vm_compute. reflexivity.
Qed.

(** ** All or nothing *)

Lemma fetch_page_ask env l url args kw p acc w :
  Exercism.fetch_page env l url args kw p acc w
  = (response ← ask_page env l url args kw p;
     results ← lift (getitem response "results" ≫= as_list);
     last ← lift (is_last_page response);
     mret (if last : bool then Break (acc ++ results) else Continue (acc ++ results))) w.
Proof.
  unfold Exercism.fetch_page, ask_page. rewrite !run_bind.
  destruct (dict_setitem l "page" (JStr (str p)) w) as [[[]| |] w1]; [|done..].
  by rewrite run_bind.
Qed.

Lemma loop_fails_whole env l url args kw fuel p acc w chunks q w2 e w3 :
  turned (ask_page env l url args kw) p w chunks q w2 →
  ask_page env l url args kw q w2 = (Raise e, w3) →
  (length chunks < fuel)%nat →
  for_count fuel p acc (Exercism.fetch_page env l url args kw) w = (Raise e, w3).
Proof.
  intros Hturned. revert fuel acc.
  induction Hturned as [p w|p w j rs w1 chunks q w' Hask Hrs Hlast _ IH];
    intros fuel acc Hfail Hfuel.
  - destruct fuel as [|fuel]; [cbn in Hfuel; lia|]. cbn [for_count].
    rewrite run_bind, fetch_page_ask, run_bind, Hfail. reflexivity.
  - destruct fuel as [|fuel]; [cbn in Hfuel; lia|]. cbn [for_count].
    rewrite run_bind, fetch_page_ask, run_bind, Hask.
    rewrite run_bind. unfold lift at 1. rewrite Hrs.
    rewrite run_bind. unfold lift at 1. rewrite Hlast. cbn [mret M_ret].
    apply IH; [done|]. cbn in Hfuel. lia.
Qed.

Lemma loop_returns_all env l url args kw fuel p acc w data w3 :
  for_count fuel p acc (Exercism.fetch_page env l url args kw) w = (Ok data, w3) →
  ∃ chunks q w2 j rs,
    turned (ask_page env l url args kw) p w chunks q w2
    ∧ ask_page env l url args kw q w2 = (Ok j, w3)
    ∧ getitem j "results" ≫= as_list = Ok rs
    ∧ is_last_page j = Ok true
    ∧ data = acc ++ concat chunks ++ rs.
Proof.
  revert p acc w. induction fuel as [|fuel IH]; intros p acc w H; [done|].
  cbn [for_count] in H.
  apply bind_inv in H as [(st & w1 & Hbody & H) | [(e & _ & [=]) | (_ & [=])]].
  rewrite fetch_page_ask in Hbody.
  apply bind_inv in Hbody as [(j & w2 & Hask & Hbody) | [(e & _ & [=]) | (_ & [=])]].
  apply bind_inv in Hbody as [(rs & w4 & Hrs & Hbody) | [(e & _ & [=]) | (_ & [=])]].
  apply lift_inv in Hrs as [Hrs ->].
  apply bind_inv in Hbody as [(last & w5 & Hlast & Hbody) | [(e & _ & [=]) | (_ & [=])]].
  apply lift_inv in Hlast as [Hlast ->]. injection Hbody as <- <-.
  destruct last.
  - injection H as <- <-. exists [], p, w, j, rs. split_and!; try done. constructor.
  - apply IH in H as (chunks & q & w6 & j' & rs' & Hturned & Hask' & Hrs' & Hlast' & ->).
    exists (rs :: chunks), q, w6, j', rs'. split_and!; try done.
    + by econstructor.
    + cbn. by rewrite <- !app_assoc.
Qed.

Lemma pagination_all_or_nothing : pagination_fails_whole ∧ pagination_returns_all.
Proof.
  split.
  - intros env fuel args endpoint kw w l w1 chunks q w2 e w3 Hpop Hturned Hfail Hfuel.
    unfold Exercism.get_all_pages. rewrite (run_bind_ok _ _ _ _ _ Hpop).
    by eapply loop_fails_whole.
  - intros env fuel args endpoint kw w data w3 H.
    unfold Exercism.get_all_pages in H.
    apply bind_inv in H as [(l & w1 & Hpop & H) | [(e & _ & [=]) | (_ & [=])]].
    apply loop_returns_all in H as (chunks & q & w2 & j & rs & ? & ? & ? & ? & ->).
    exists l, w1, chunks, q, w2, j, rs. split_and!; done.
Qed.

Lemma for_each_app {A S} (body : A → S → M S) (pre post : list A) acc w :
  for_each (pre ++ post) acc body w
  = (acc1 ← for_each pre acc body; for_each post acc1 body) w.
Proof.
  revert acc w. induction pre as [|x pre IH]; intros acc w; cbn [for_each app].
  - reflexivity.
  - rewrite !run_bind. destruct (body x acc w) as [[acc1| |] w1]; [|done..].
    by rewrite IH, run_bind.
Qed.

(** A loop body that fails on one element, after the elements before it
    went through, fails the loop. *)
Lemma for_each_fails {A S} (body : A → S → M S) (pre post : list A) x acc w acc1 w1 e w2 :
  for_each pre acc body w = (Ok acc1, w1) →
  body x acc1 w1 = (Raise e, w2) →
  for_each (pre ++ x :: post) acc body w = (Raise e, w2).
Proof.
  intros Hpre Hx. rewrite for_each_app, (run_bind_ok _ _ _ _ _ Hpre).
  cbn [for_each]. by rewrite run_bind, Hx.
Qed.

Lemma sync_solution_fails env s updates w uuid e w' :
  out_of_date s = true →
  getitem s "uuid" ≫= as_str = Ok uuid →
  Exercism.patch env [sync_url uuid] no_kwargs w = (Raise e, w') →
  Exercism.sync_solution env s updates w = (Raise e, w').
Proof.
  unfold out_of_date, Exercism.sync_solution. intros Hood Hu Hpatch.
  rewrite run_bind. unfold lift at 1.
  destruct (getitem s "is_out_of_date") as [b| |]; [|done..]. rewrite Hood. cbn [negb].
  rewrite run_bind. unfold lift at 1. rewrite Hu.
  fold (sync_url uuid). by rewrite run_bind, Hpatch.
Qed.

Lemma sync_solution_inv env s updates w updates' w' :
  Exercism.sync_solution env s updates w = (Ok updates', w') →
  (out_of_date s = false ∧ updates' = updates)
  ∨ (out_of_date s = true ∧ ∃ update, synced_as env s update ∧ updates' = updates ++ [update]).
Proof.
  unfold out_of_date, Exercism.sync_solution. intros H.
  apply bind_ok_inv in H as (b & w1 & Hb & H).
  apply lift_inv in Hb as [Hb ->]. rewrite <- Hb. destruct (truthy b); cbn [negb] in H.
  - right. split; [done|].
    apply bind_ok_inv in H as (uuid & w2 & Hu & H). apply lift_inv in Hu as [Hu ->].
    apply bind_ok_inv in H as (resp & w3 & Hpatch & H).
    apply bind_ok_inv in H as (j & w4 & Hj & H).
    apply bind_ok_inv in H as (update & w5 & Hsol & H). apply lift_inv in Hsol as [Hsol ->].
    injection H as <- _. exists update. split; [|done].
    unfold Exercism.patch in Hpatch. apply request_answered in Hpatch as [tr Hs].
    exists uuid, tr, resp, j. split_and!; [done|exact Hs| |done].
    unfold json, raise, mret, M_ret in Hj. destruct (body resp); by simplify_eq.
  - left. by injection H as <- _.
Qed.

Lemma sync_all_or_nothing : sync_fails_whole ∧ sync_returns_all.
Proof.
  split.
  - intros env fuel w. split.
    + intros e w1 H. unfold Exercism.update_exercises. by rewrite run_bind, H.
    + intros before s after w1 updates w2 uuid e w3 Hpages Hbefore Hood Hu Hpatch.
      unfold Exercism.update_exercises. rewrite (run_bind_ok _ _ _ _ _ Hpages).
      eapply for_each_fails; [done|]. by eapply sync_solution_fails.
  - intros env fuel w updates w' H. unfold Exercism.update_exercises in H.
    apply bind_ok_inv in H as (sols & w1 & Hpages & H).
    exists sols, w1. split; [done|].
    assert (Hgen : ∀ acc w0 acc' w0',
      for_each sols acc (Exercism.sync_solution env) w0 = (Ok acc', w0') →
      ∃ new, acc' = acc ++ new
             ∧ Forall2 (synced_as env) (filter (λ s, out_of_date s = true) sols) new).
    { clear. induction sols as [|s sols IH]; intros acc w0 acc' w0' H; cbn [for_each] in H.
      - injection H as <- _. exists []. split; [by rewrite app_nil_r|constructor].
      - apply bind_ok_inv in H as (acc1 & w1 & Hs & H).
        apply IH in H as (new & -> & Hnew).
        apply sync_solution_inv in Hs as [[Hood ->]|[Hood (update & Hup & ->)]].
        + exists new. split; [done|].
          by rewrite filter_cons_False by (cbv beta; congruence).
        + exists (update :: new). split; [by rewrite <- app_assoc|].
          rewrite filter_cons_True by done. by constructor. }
    apply Hgen in H as (new & Hacc & Hnew). by rewrite Hacc.
Qed.

Lemma classification_nothing_partial : classification_fails_whole.
Proof.
  intros env status age order w l w1 Horder Hstatus Hdict.
  unfold discussions_url.
  assert (Hsetup : ∀ r w',
    (resp ← Exercism.get_json_with_retries env
              [Exercism.API +:+ "/mentoring/discussions"] (with_params l no_kwargs);
     page_count ← lift (getitem resp "meta" ≫= (λ meta, getitem meta "total_pages"));
     delta ← lift (datetime.timedelta_days age);
     now ← datetime_now env;
     cutoff ← lift (datetime.sub_timedelta now delta);
     page_count ← lift (as_int page_count);
     for_each (seqZ 1 page_count) [] (Exercism.check_page env cutoff l)) w1 = (r, w') →
    Exercism.old_mentor_discussions env status age order w = (r, w')).
  { intros r w' H. unfold Exercism.old_mentor_discussions.
    rewrite run_bind, bool_decide_eq_true_2 by done. cbn [py_assert mret M_ret].
    rewrite run_bind, bool_decide_eq_true_2 by done. cbn [py_assert mret M_ret].
    by rewrite (run_bind_ok _ _ _ _ _ Hdict). }
  split_and!.
  - intros e w2 H. apply Hsetup. by rewrite run_bind, H.
  - intros j0 w2 meta T delta cutoff before p after uuids w3 e w4
      Hfirst Hmeta HT Hdelta Hcutoff Hpages Hbefore Hpage.
    apply Hsetup. rewrite (run_bind_ok _ _ _ _ _ Hfirst).
    rewrite run_bind. unfold lift at 1. rewrite Hmeta. cbn [mbind Outcome_bind]. rewrite HT.
    rewrite run_bind. unfold lift at 1. rewrite Hdelta.
    rewrite run_bind. unfold datetime_now.
    rewrite run_bind. unfold lift at 1. rewrite Hcutoff.
    rewrite run_bind. unfold lift at 1. cbn [as_int].
    rewrite Hpages. by eapply for_each_fails.
  - intros cutoff p uuids w3 e w4 H. unfold Exercism.check_page.
    apply bind_inv in H as [([] & w5 & Hset & H) | [(e' & Hset & _) | (Hset & _)]];
      [|done..].
    rewrite (run_bind_ok _ _ _ _ _ Hset). by rewrite run_bind, H.
  - intros cutoff p uuids w3 j w4 before d after uuids' w5 e w6 H Hres Hbefore Hd.
    unfold Exercism.check_page.
    apply bind_inv in H as [([] & w7 & Hset & H) | [(e' & _ & [=]) | (_ & [=])]].
    rewrite (run_bind_ok _ _ _ _ _ Hset), (run_bind_ok _ _ _ _ _ H).
    rewrite run_bind. unfold lift at 1. rewrite Hres.
    by eapply for_each_fails.
  - intros cutoff d uuids w5 updated uuid e w6 Hup Hold Hu Hposts.
    unfold Exercism.check_discussion.
    rewrite run_bind. unfold lift at 1. rewrite Hup.
    rewrite bool_decide_eq_false_2 by lia.
    rewrite run_bind. unfold lift at 1. rewrite Hu.
    by rewrite run_bind, Hposts.
Qed.

Lemma check_discussion_inv env cutoff d uuids w uuids' w' :
  Exercism.check_discussion env cutoff d uuids w = (Ok uuids', w') →
  ∃ found, examined env cutoff [d] w found w' ∧ uuids' = uuids ++ found.
Proof.
  unfold Exercism.check_discussion. intros H.
  apply bind_ok_inv in H as (updated & w1 & Hup & H). apply lift_inv in Hup as [Hup ->]. symmetry in Hup.
  case_bool_decide as Hcut.
  - injection H as <- <-. exists []. split; [|by rewrite app_nil_r].
    eapply examined_recent; [done|lia|constructor].
  - apply bind_ok_inv in H as (uuid & w2 & Hu & H). apply lift_inv in Hu as [Hu ->]. symmetry in Hu.
    apply bind_ok_inv in H as (posts & w3 & Hposts & H).
    apply bind_ok_inv in H as (dates & w4 & Hdates & H).
    apply (map_M_reads _ Exercism.updated_at) in Hdates as (-> & Hdates & _);
      [|intros x w0; reflexivity].
    specialize (Hdates _ eq_refl).
    apply bind_ok_inv in H as (latest & w5 & Hmax & H). apply lift_inv in Hmax as [Hmax ->].
    assert (Hrecent : most_recent dates = Some latest).
    { destruct dates as [|t ts]; [done|]. cbn [py_max_instant] in Hmax.
      injection Hmax as ->. cbn [most_recent]. by rewrite fold_left_max_foldr. }
    pose proof (examined_old env cutoff d [] w updated uuid posts w3 dates latest [] w3
                  Hup ltac:(lia) Hu Hposts Hdates Hrecent (examined_none _ _ _)) as Hex.
    destruct (decide (cutoff < latest)) as [Hlate|Hlate].
    + rewrite bool_decide_eq_true_2 in H by done. injection H as <- <-.
      rewrite bool_decide_eq_false_2 in Hex by lia.
      exists []. split; [done|by rewrite app_nil_r].
    + rewrite bool_decide_eq_false_2 in H by done. injection H as <- <-.
      rewrite bool_decide_eq_true_2 in Hex by lia.
      exists [uuid]. by split.
Qed.

Lemma examined_app env cutoff ds1 ds2 w found1 w1 found2 w2 :
  examined env cutoff ds1 w found1 w1 →
  examined env cutoff ds2 w1 found2 w2 →
  examined env cutoff (ds1 ++ ds2) w (found1 ++ found2) w2.
Proof.
  induction 1 as [w|d ds w updated found w' Hup Hcut _ IH
                 |d ds w updated uuid posts w1' dates latest found w' Hup Hcut Hu Hposts
                    Hdates Hrecent _ IH]; intros H2.
  - done.
  - cbn. eapply examined_recent; [done..|]. by apply IH.
  - cbn.
    replace ((if bool_decide (latest ≤ cutoff) then uuid :: found else found) ++ found2)
      with (if bool_decide (latest ≤ cutoff) then uuid :: (found ++ found2) else found ++ found2)
      by (by case_bool_decide).
    eapply examined_old; [done..|]. by apply IH.
Qed.

Lemma check_discussions_inv env cutoff ds uuids w uuids' w' :
  for_each ds uuids (Exercism.check_discussion env cutoff) w = (Ok uuids', w') →
  ∃ found, examined env cutoff ds w found w' ∧ uuids' = uuids ++ found.
Proof.
  revert uuids w. induction ds as [|d ds IH]; intros uuids w H; cbn [for_each] in H.
  - injection H as <- <-. exists []. split; [constructor|by rewrite app_nil_r].
  - apply bind_ok_inv in H as (uuids1 & w1 & Hd & H).
    apply check_discussion_inv in Hd as (found1 & Hex1 & ->).
    apply IH in H as (found2 & Hex2 & ->).
    exists (found1 ++ found2). split; [|by rewrite app_assoc].
    by apply (examined_app env cutoff [d] ds w found1 w1).
Qed.

Lemma check_pages_inv env cutoff l ps uuids w uuids' w' :
  for_each ps uuids (Exercism.check_page env cutoff l) w = (Ok uuids', w') →
  ∃ found, listed_through env cutoff l ps w found w' ∧ uuids' = uuids ++ found.
Proof.
  revert uuids w. induction ps as [|p ps IH]; intros uuids w H; cbn [for_each] in H.
  - injection H as <- <-. exists []. split; [constructor|by rewrite app_nil_r].
  - apply bind_ok_inv in H as (uuids1 & w1 & Hp & H).
    unfold Exercism.check_page in Hp.
    apply bind_ok_inv in Hp as ([] & w2 & Hset & Hp).
    apply bind_ok_inv in Hp as (j & w3 & Hfetch & Hp).
    apply bind_ok_inv in Hp as (ds & w4 & Hres & Hp). apply lift_inv in Hres as [Hres ->]. symmetry in Hres.
    apply check_discussions_inv in Hp as (found1 & Hex & ->).
    apply IH in H as (found2 & Hrest & ->).
    exists (found1 ++ found2). split; [|by rewrite app_assoc].
    eapply listed_page; [|done..].
    unfold ask_discussions, discussions_url. by rewrite (run_bind_ok _ _ _ _ _ Hset).
Qed.

Lemma classification_complete : classification_returns_all.
Proof.
  intros env status age order w uuids w' H. unfold Exercism.old_mentor_discussions in H.
  assert (Hassert : ∀ cond wa wb, py_assert cond wa = (Ok tt, wb) → wb = wa).
  { intros [] wa wb; by intros [= <-]. }
  apply bind_ok_inv in H as ([] & w0 & Ha1 & H). apply Hassert in Ha1 as ->.
  apply bind_ok_inv in H as ([] & w0 & Ha2 & H). apply Hassert in Ha2 as ->.
  apply bind_ok_inv in H as (l & w1 & Hdict & H).
  apply bind_ok_inv in H as (j0 & w2 & Hfirst & H).
  apply bind_ok_inv in H as (count & w3 & Hcount & H). apply lift_inv in Hcount as [Hcount ->]. symmetry in Hcount.
  apply bind_ok_inv in H as (delta & w3 & Hdelta & H). apply lift_inv in Hdelta as [Hdelta ->]. symmetry in Hdelta.
  apply bind_ok_inv in H as (now & w3 & Hnow & H).
  unfold datetime_now in Hnow. injection Hnow as <- <-.
  apply bind_ok_inv in H as (cutoff & w3 & Hcutoff & H). apply lift_inv in Hcutoff as [Hcutoff ->]. symmetry in Hcutoff.
  apply bind_ok_inv in H as (T & w3 & HT & H). apply lift_inv in HT as [HT ->]. symmetry in HT.
  apply check_pages_inv in H as (found & Hlisted & ->).
  destruct (getitem j0 "meta") as [meta| |] eqn:Hmeta; cbn in Hcount; [|done..].
  destruct count; cbn in HT; try done. injection HT as ->.
  exists l, w1, j0, w2, meta, T, delta, cutoff. split_and!; done.
Qed.

(** C8: each one-shot operation returns everything or raises.  A page
    fetch that fails makes [get_all_pages] raise that failure, whatever
    it had gathered, and a [get_all_pages] that returns has fetched every
    page up to one that said it was the last and returns all their
    records.  A failed traversal or a failed sync makes
    [update_exercises] raise, and an [update_exercises] that returns
    holds, for each out-of-date solution of the whole traversal and in
    their order, the record its sync gave.  A failed listing or a failed
    posts fetch makes [old_mentor_discussions] raise, whatever it had
    gathered, and an [old_mentor_discussions] that returns has listed
    every page up to the page count, examined every discussion on them,
    and returns the UUIDs of all that are old on both counts. *)
Theorem one_shot_operations_all_or_nothing :
  pagination_fails_whole
  ∧ pagination_returns_all
  ∧ sync_fails_whole
  ∧ sync_returns_all
  ∧ classification_fails_whole
  ∧ classification_returns_all.
Proof.
  destruct pagination_all_or_nothing, sync_all_or_nothing.
  split_and!; try done.
  - apply classification_nothing_partial.
  - apply classification_complete.
Qed.

Lemma one_shot_operations_all_or_nothing_witness :
  (Exercism.get_all_pages second_page_down 5 [] "solutions" no_kwargs fresh_world).1
    = Raise (RetryError (HTTPError 500))
  ∧ (∃ chunks rs,
       (Exercism.get_all_pages (paged_env two_pages 2) 2 [] "solutions" no_kwargs
          fresh_world).1 = Ok (concat chunks ++ rs)
       ∧ concat chunks ++ rs = [JStr "a"; JStr "b"; JStr "c"])
  ∧ (Exercism.update_exercises second_sync_down 1 fresh_world).1 = Raise (HTTPError 500)
  ∧ (∃ updates,
       (Exercism.update_exercises shelf 1 fresh_world).1 = Ok updates
       ∧ Forall2 (synced_as shelf) [solution "s1" true; solution "s3" true] updates)
  ∧ (Exercism.old_mentor_discussions posts_down "awaiting_student" 30 "oldest"
       fresh_world).1 = Raise (RetryError (HTTPError 404))
  ∧ (∃ l w2 w',
       (Exercism.old_mentor_discussions mentor_desk "awaiting_student" 30 "oldest"
          fresh_world).1 = Ok ["d1"; "d4"]
       ∧ listed_through mentor_desk thirty_days_before_noon l (seqZ 1 2) w2
           ["d1"; "d4"] w').
Proof.
  destruct one_shot_operations_all_or_nothing as (Hpf & Hpr & Hsf & Hsr & Hcf & Hcr).
  split_and!.
  - unfold pagination_fails_whole in Hpf.
    erewrite (Hpf second_page_down 5%nat [] "solutions" no_kwargs fresh_world
                _ _ [[JStr "a"; JStr "b"]] 2).
    + reflexivity.
    + reflexivity.
    + eapply turned_next; [vm_compute; reflexivity|reflexivity|reflexivity|apply turned_none].
    + vm_compute. reflexivity.
    + cbn. lia.
  - destruct (Hpr (paged_env two_pages 2) 2%nat [] "solutions" no_kwargs fresh_world
                [JStr "a"; JStr "b"; JStr "c"]
                (Exercism.get_all_pages (paged_env two_pages 2) 2 [] "solutions" no_kwargs
                   fresh_world).2)
      as (l & w1 & chunks & q & w2 & j & rs & _ & _ & _ & _ & _ & Hdata);
      [vm_compute; reflexivity|].
    exists chunks, rs. rewrite <- Hdata. split; [vm_compute|]; reflexivity.
  - destruct (Hsf second_sync_down 1%nat fresh_world) as [_ Hsync].
    set (w1 := (Exercism.get_all_pages second_sync_down 1 [] "solutions" no_kwargs
                  fresh_world).2).
    set (w2 := (for_each [solution "s1" true] [] (Exercism.sync_solution second_sync_down)
                  w1).2).
    rewrite (Hsync [solution "s1" true] (solution "s2" true) [] w1
               [JObj [("is_out_of_date", JBool false)]] w2 "s2" (HTTPError 500)
               (Exercism.patch second_sync_down [sync_url "s2"] no_kwargs w2).2);
      [reflexivity|vm_compute; reflexivity..].
  - destruct (Hsr shelf 1%nat fresh_world
                [JObj [("is_out_of_date", JBool false)]; JObj [("is_out_of_date", JBool false)]]
                (Exercism.update_exercises shelf 1 fresh_world).2)
      as (solutions & w1 & Hpages & Hsynced); [vm_compute; reflexivity|].
    eexists. split; [vm_compute; reflexivity|].
    apply (f_equal fst) in Hpages. vm_compute in Hpages. injection Hpages as <-.
    exact Hsynced.
  - set (w0 := (dict_of (discussion_filter "awaiting_student" "oldest") fresh_world).2).
    set (l := fresh (dom (heap fresh_world))).
    destruct (Hcf posts_down "awaiting_student" 30 "oldest" fresh_world l w0)
      as (_ & Hpage & _); [apply (bool_decide_unpack _); by vm_compute..|reflexivity|].
    set (first := Exercism.get_json_with_retries posts_down [discussions_url]
                    (with_params l no_kwargs) w0).
    set (w3 := (for_each [1] [] (Exercism.check_page posts_down thirty_days_before_noon l)
                  first.2).2).
    rewrite (Hpage (envelope (page_of discussions_book 1) 1 2) first.2
               (JObj [("current_page", JNum 1); ("total_pages", JNum 2)]) 2
               (30 * datetime.us_per_day) thirty_days_before_noon [1] 2 [] ["d1"] w3
               (RetryError (HTTPError 404))
               (Exercism.check_page posts_down thirty_days_before_noon l 2 ["d1"] w3).2);
      [reflexivity|vm_compute; reflexivity..].
  - destruct (Hcr mentor_desk "awaiting_student" 30 "oldest" fresh_world ["d1"; "d4"]
                (Exercism.old_mentor_discussions mentor_desk "awaiting_student" 30 "oldest"
                   fresh_world).2)
      as (l & w1 & j0 & w2 & meta & T & delta & cutoff
          & Hd & Hfirst & Hmeta & HT & Hdelta & Hcutoff & Hlisted);
      [vm_compute; reflexivity|].
    injection Hd as <- <-.
    vm_compute in Hfirst. injection Hfirst as <- <-.
    vm_compute in Hmeta. injection Hmeta as <-.
    vm_compute in HT. injection HT as <-.
    vm_compute in Hdelta. injection Hdelta as <-.
    vm_compute in Hcutoff. injection Hcutoff as <-.
    eexists _, _, _. split; [vm_compute; reflexivity|]. exact Hlisted.
Defined.

Lemma old_mentor_discussions_candidates_witness :
  (Exercism.old_mentor_discussions mentor_desk "awaiting_student" 30 "oldest" fresh_world).1
  = Ok (omap (candidate thirty_days_before_noon desk_posts)
          (concat (page_of discussions_book <$> seqZ 1 2)))
  ∧ omap (candidate thirty_days_before_noon desk_posts)
      (concat (page_of discussions_book <$> seqZ 1 2)) = ["d1"; "d4"].
Proof.
  split; [|vm_compute; reflexivity].
  apply (old_mentor_discussions_candidates mentor_desk "awaiting_student" "oldest" 30
           fresh_world 2 (page_of discussions_book) desk_posts
           (30 * datetime.us_per_day) thirty_days_before_noon).
  - apply (bool_decide_unpack _). by vm_compute.
  - apply (bool_decide_unpack _). by vm_compute.
  - reflexivity.
  - reflexivity.
  - eexists _, _. split_and!; [eexists; split; [reflexivity|]; vm_compute; eauto
                              |reflexivity|reflexivity].
  - intros tr p Hp. assert (p = 1 ∨ p = 2) as [-> | ->] by lia;
      (eexists; split; [eexists; split; [reflexivity|]; vm_compute; eauto|reflexivity]).
  - intros p Hp.
    assert (p = 1 ∨ p = 2) as [-> | ->] by lia.
    + repeat constructor.
      * eexists. split; [reflexivity|]. intros _. exists "d1". split_and!.
        -- reflexivity.
        -- intros tr. eexists. split; [eexists; split; [reflexivity|]; vm_compute; eauto|reflexivity].
        -- by vm_compute.
        -- repeat constructor; eexists; reflexivity.
      * eexists. split; [reflexivity|]. intros Hold. by vm_compute in Hold.
    + repeat constructor.
      * eexists. split; [reflexivity|]. intros _. exists "d3". split_and!.
        -- reflexivity.
        -- intros tr. eexists. split; [eexists; split; [reflexivity|]; vm_compute; eauto|reflexivity].
        -- by vm_compute.
        -- repeat constructor; eexists; reflexivity.
      * eexists. split; [reflexivity|]. intros _. exists "d4". split_and!.
        -- reflexivity.
        -- intros tr. eexists. split; [eexists; split; [reflexivity|]; vm_compute; eauto|reflexivity].
        -- by vm_compute.
        -- repeat constructor; eexists; reflexivity.
Defined.


(** * Further properties of the module *)

(** ** The request layer *)

Lemma request_unreadable_header env func url kw w r1 s :
  server env (trace w) (snapshot Requests func [url] kw w) = Answer r1 →
  retry_after r1 = Some (OtherText s) →
  Exercism.request env func [url] kw w
  = (Raise ValueError, called (snapshot Requests func [url] kw w) w).
Proof.
  intros Hs Hr. unfold Exercism.request.
  rewrite run_bind, send_run, Hs, Hr. reflexivity.
Qed.

(** X1: a [retry-after] header whose text [int()] does not read (the
    header may carry an HTTP date) makes the request fail with
    [ValueError] after the one call, without any sleep.  The decorator
    does not retry that error, so the blocking fetch fails the same way,
    and so does the cooperative one. *)
Theorem unreadable_retry_after (env : Env) (url endpoint : string) (kw : Kwargs)
    (w : World) (r1 : Response) (s : string) :
  retry_after r1 = Some (OtherText s) →
  (∀ func,
     server env (trace w) (snapshot Requests func [url] kw w) = Answer r1 →
     Exercism.request env func [url] kw w
     = (Raise ValueError, called (snapshot Requests func [url] kw w) w))
  ∧ (server env (trace w) (snapshot Requests GET [url] kw w) = Answer r1 →
     Exercism.get_json_with_retries env [url] kw w
     = (Raise ValueError, called (snapshot Requests GET [url] kw w) w))
  ∧ (let req := snapshot Aiohttp GET [AsyncExercism.API +:+ "/" +:+ endpoint]
                  (AsyncExercism.with_headers env kw) w in
     server env (trace w) req = Answer r1 →
     AsyncExercism.get_json_with_retries env [] endpoint kw w
     = (Raise ValueError, called req w)).
Proof.
  intros Hr. split_and!.
  - intros func Hs. by eapply request_unreadable_header.
  - intros Hs. rewrite get_json_with_retries_three_attempts.
    unfold three_attempts, Exercism.get_json.
    rewrite run_bind.
    rewrite (request_unreadable_header env GET url _ w r1 s); [reflexivity|exact Hs|exact Hr].
  - intros req Hs. rewrite async_get_json_with_retries_once.
    unfold AsyncExercism.get_json. rewrite run_bind, send_run.
    fold req. rewrite Hs, Hr. reflexivity.
Qed.

Lemma unreadable_retry_after_witness :
  Exercism.get_json_with_retries limited_until_a_date [tracks_url] no_kwargs fresh_world
  = (Raise ValueError, called (snapshot Requests GET [tracks_url] no_kwargs fresh_world) fresh_world).
Proof.
  refine (proj1 (proj2 (unreadable_retry_after limited_until_a_date tracks_url "tracks"
    no_kwargs fresh_world
    {| status := 429;
       retry_after := Some (OtherText "Wed, 21 Oct 2015 07:28:00 GMT");
       body := None |}
    "Wed, 21 Oct 2015 07:28:00 GMT" eq_refl)) eq_refl).
Defined.

(** A call that was sent leaves the request on the trace and nothing else. *)
Lemma send_world env c m args kw w r w' :
  send env c m args kw w = (r, w') → w' = called (snapshot c m args kw w) w.
Proof.
  unfold send. destruct (server env _ _); by intros [= _ <-].
Qed.

Lemma time_sleep_inv ms w r w' :
  time_sleep ms w = (r, w') →
  (r = Ok tt ∧ 0 ≤ ms ≤ max_sleep ∧ w' = slept ms w)
  ∨ ((r = Raise ValueError ∨ r = Raise OverflowError)
     ∧ ¬ (0 ≤ ms ≤ max_sleep) ∧ w' = w).
Proof.
  destruct (time_sleep_cases ms w) as [[? ->]|[[? ->]|[? ->]]]; intros [= <- <-].
  - left. done.
  - right. split_and!; [by left|lia|done].
  - right. split_and!; [by right|unfold max_sleep in *; lia|done].
Qed.

Lemma raise_for_status_inv resp w r w' :
  Exercism.raise_for_status resp w = (r, w') →
  w' = w
  ∧ ((r = Ok tt ∧ ¬ (400 ≤ status resp < 600))
     ∨ (r = Raise (HTTPError (status resp)) ∧ 400 ≤ status resp < 600)).
Proof.
  unfold Exercism.raise_for_status. case_bool_decide; intros [= <- <-]; eauto.
Qed.

(** X2: a response that [request] returns is never an error status: it is
    the API's answer to the request as first put, with a status outside
    400..599; and the last thing [request] did was the pacing sleep, of a
    length [time.sleep] takes: not negative, and within the range of its
    clock. *)
Theorem request_returns_a_good_response (env : Env) (func : Method)
    (args : list string) (kw : Kwargs) (w : World) (resp : Response) (w' : World) :
  Exercism.request env func args kw w = (Ok resp, w') →
  ¬ (400 ≤ status resp < 600)
  ∧ (∃ tr, server env tr (snapshot Requests func args kw w) = Answer resp)
  ∧ 0 ≤ sleep_or 500 kw ≤ max_sleep
  ∧ ∃ tr, trace w' = tr ++ [Sleep (sleep_or 500 kw)].
Proof.
  unfold Exercism.request. intros H.
  apply bind_ok_inv in H as (r1 & w1 & Hsend & H).
  apply send_answered in Hsend as (Hs1 & ->).
  apply bind_ok_inv in H as (r2 & w2 & Hmid & H).
  apply bind_ok_inv in H as ([] & w3 & Hrfs & H).
  apply raise_for_status_inv in Hrfs as [-> [[_ Hst]|[[=] _]]].
  apply bind_ok_inv in H as ([] & w4 & Hsl & H).
  apply time_sleep_inv in Hsl as [(_ & Hms & ->)|([[=]|[=]] & _)].
  injection H as <- <-.
  assert (∃ tr, server env tr (snapshot Requests func args kw w) = Answer r2) as Hserved.
  { destruct (retry_after r1) as [text|].
    - apply bind_ok_inv in Hmid as (d & w5 & Hint & Hmid).
      assert (w5 = called (snapshot Requests func args kw w) w) as ->.
      { destruct text; by injection Hint. }
      apply bind_ok_inv in Hmid as ([] & w6 & Hsl & Hmid).
      apply time_sleep_inv in Hsl as [(_ & _ & ->)|([[=]|[=]] & _)].
      apply send_answered in Hmid as (Hs2 & _).
      rewrite (snapshot_heap _ _ _ _ _ w) in Hs2 by done. eauto.
    - injection Hmid as <- <-. eauto. }
  do 3 (split; [done|]). eexists. reflexivity.
Qed.

Lemma request_returns_a_good_response_witness :
  ∃ resp,
    (Exercism.request limited_once GET [tracks_url] no_kwargs fresh_world).1 = Ok resp
    ∧ status resp = 200
    ∧ ¬ (400 ≤ status resp < 600).
Proof.
  eexists. split; [vm_compute; reflexivity|]. split; [reflexivity|].
  refine (proj1 (request_returns_a_good_response limited_once GET [tracks_url]
    no_kwargs fresh_world _
    (Exercism.request limited_once GET [tracks_url] no_kwargs fresh_world).2 _)).
  vm_compute. reflexivity.
Defined.

Lemma at_most_refl w : at_most 0 w w.
Proof. unfold at_most. lia. Qed.

Lemma at_most_trans a b w w1 w2 :
  at_most a w w1 → at_most b w1 w2 → at_most (a + b) w w2.
Proof. unfold at_most. lia. Qed.

Lemma at_most_weaken a b w w' : (a ≤ b)%nat → at_most a w w' → at_most b w w'.
Proof. unfold at_most. lia. Qed.

Lemma at_most_slept ms w : at_most 0 w (slept ms w).
Proof. unfold at_most. cbn. rewrite calls_app. cbn. rewrite app_nil_r. lia. Qed.

Lemma at_most_called req w : at_most 1 w (called req w).
Proof. unfold at_most. cbn. rewrite calls_app, length_app. cbn. lia. Qed.

Lemma py_int_inv text w r w' :
  py_int text w = (r, w') → w' = w ∧ r ≠ OutOfFuel.
Proof. destruct text; intros [= <- <-]; done. Qed.

Lemma time_sleep_at_most ms w r w' : time_sleep ms w = (r, w') → at_most 0 w w'.
Proof.
  intros [(_ & _ & ->)|(_ & _ & ->)]%time_sleep_inv; [apply at_most_slept|apply at_most_refl].
Qed.

Lemma request_at_most env func args kw w r w' :
  Exercism.request env func args kw w = (r, w') → at_most 2 w w'.
Proof.
  unfold Exercism.request. intros H.
  pose proof (at_most_called (snapshot Requests func args kw w) w) as H1.
  apply bind_inv in H as [(r1 & w1 & Hsend & H) | [(e & Hsend & _) | (Hsend & _)]];
    apply send_world in Hsend as Hw1; rewrite <- Hw1 in H1;
    [|by apply (at_most_weaken 1); [lia|]..].
  clear Hsend Hw1.
  assert (Htail : ∀ resp w2 r w',
    (Exercism.raise_for_status resp;; time_sleep (sleep_or 500 kw);; mret resp) w2 = (r, w') →
    at_most 0 w2 w').
  { clear. intros resp w2 r w' H.
    apply bind_inv in H as [([] & w3 & Hrfs & H) | [(e & Hrfs & _) | (Hrfs & _)]];
      apply raise_for_status_inv in Hrfs as [-> _]; [|apply at_most_refl..].
    apply bind_inv in H as [([] & w4 & Hsl & H) | [(e & Hsl & _) | (Hsl & _)]];
      apply time_sleep_at_most in Hsl; try injection H as <- <-; done. }
  assert (Hmid : ∀ r2 w2,
    match retry_after r1 with
    | Some text => delay ← py_int text; time_sleep (1000 * (delay + 1));;
                   send env Requests func args kw
    | None => mret r1
    end w1 = (r2, w2) → at_most 1 w1 w2).
  { clear. intros r2 w2 Hm. destruct (retry_after r1) as [text|].
    - apply bind_inv in Hm as [(d & w3 & Hint & Hm) | [(e & Hint & _) | (Hint & _)]];
        apply py_int_inv in Hint as [-> _];
        [|apply (at_most_weaken 0); [lia|apply at_most_refl]..].
      apply bind_inv in Hm as [([] & w4 & Hsl & Hm) | [(e & Hsl & _) | (Hsl & _)]];
        apply time_sleep_at_most in Hsl;
        [|by apply (at_most_weaken 0); [lia|]..].
      apply send_world in Hm as ->.
      apply (at_most_trans 0 1 _ w4); [done|apply at_most_called].
    - injection Hm as <- <-. apply (at_most_weaken 0); [lia|apply at_most_refl]. }
  apply bind_inv in H as [(r2 & w2 & Hm & H) | [(e & Hm & _) | (Hm & _)]];
    apply Hmid in Hm; [|by apply (at_most_trans 1 1 _ w1)..].
  apply Htail in H. apply (at_most_trans 1 1 _ w1); [done|].
  by apply (at_most_trans 1 0 _ w2).
Qed.

Lemma send_returns env c m args kw w : (send env c m args kw w).1 ≠ OutOfFuel.
Proof.
  unfold send. by destruct (server env _ _).
Qed.

Lemma time_sleep_returns ms w : (time_sleep ms w).1 ≠ OutOfFuel.
Proof. unfold time_sleep. by repeat case_bool_decide. Qed.

Lemma bind_returns {A B} (m : M A) (f : A → M B) w :
  (m w).1 ≠ OutOfFuel →
  (∀ a w1, m w = (Ok a, w1) → (f a w1).1 ≠ OutOfFuel) →
  ((m ≫= f) w).1 ≠ OutOfFuel.
Proof.
  intros Hm Hf. rewrite run_bind. destruct (m w) as [[a|e|] w1]; [by apply Hf|done..].
Qed.

Lemma request_returns env func args kw w :
  (Exercism.request env func args kw w).1 ≠ OutOfFuel.
Proof.
  unfold Exercism.request.
  apply bind_returns; [apply send_returns|]. intros r1 w1 _.
  apply bind_returns.
  - destruct (retry_after r1) as [text|]; [|done].
    apply bind_returns; [by destruct text|]. intros d w2 _.
    apply bind_returns; [apply time_sleep_returns|]. intros [] w3 _. apply send_returns.
  - intros r2 w2 _. apply bind_returns.
    + unfold Exercism.raise_for_status. by case_bool_decide.
    + intros [] w3 _. apply bind_returns; [apply time_sleep_returns|done].
Qed.

Lemma get_json_returns env args kw w :
  (Exercism.get_json env args kw w).1 ≠ OutOfFuel.
Proof.
  unfold Exercism.get_json. apply bind_returns; [apply request_returns|].
  intros resp w1 _. unfold json. by destruct (body resp).
Qed.

Lemma three_attempts_returns {A} (attempt : M A) wait1 wait2 w :
  (∀ w, (attempt w).1 ≠ OutOfFuel) →
  (three_attempts wait1 wait2 attempt w).1 ≠ OutOfFuel.
Proof.
  intros Ha. unfold three_attempts.
  pose proof (Ha w) as H1. destruct (attempt w) as [r1 w1].
  destruct (transient r1); [|done].
  pose proof (Ha (slept (1000 * wait1) w1)) as H2. destruct (attempt _) as [r2 w2].
  destruct (transient r2); [|done].
  pose proof (Ha (slept (1000 * wait2) w2)) as H3. destruct (attempt _) as [r3 w3].
  by destruct (transient r3).
Qed.

Lemma three_attempts_at_most {A} (attempt : M A) (n : nat) wait1 wait2 w r w' :
  (∀ w r w', attempt w = (r, w') → at_most n w w') →
  three_attempts wait1 wait2 attempt w = (r, w') →
  at_most (3 * n) w w'.
Proof.
  intros Ha. unfold three_attempts.
  destruct (attempt w) as [r1 w1] eqn:E1. apply Ha in E1.
  destruct (transient r1); [|intros [= <- <-]; by apply (at_most_weaken n); [lia|]].
  destruct (attempt (slept _ w1)) as [r2 w2] eqn:E2. apply Ha in E2.
  pose proof (at_most_slept (1000 * wait1) w1) as S1.
  assert (at_most (2 * n) w w2) as H2.
  { apply (at_most_weaken (n + 0 + n)); [lia|].
    eapply at_most_trans; [|exact E2]. eapply at_most_trans; [exact E1|exact S1]. }
  destruct (transient r2); [|intros [= <- <-]; by apply (at_most_weaken (2 * n)); [lia|]].
  destruct (attempt (slept _ w2)) as [r3 w3] eqn:E3. apply Ha in E3.
  pose proof (at_most_slept (1000 * wait2) w2) as S2.
  assert (at_most (3 * n) w w3) as H3.
  { apply (at_most_weaken (2 * n + 0 + n)); [lia|].
    eapply at_most_trans; [|exact E3]. eapply at_most_trans; [exact H2|exact S2]. }
  destruct (transient r3); by intros [= <- <-].
Qed.

Lemma get_json_at_most env args kw w r w' :
  Exercism.get_json env args kw w = (r, w') → at_most 2 w w'.
Proof.
  unfold Exercism.get_json. intros H.
  apply bind_inv in H as [(resp & w1 & Hreq & H) | [(e & Hreq & _) | (Hreq & _)]];
    apply request_at_most in Hreq; try done.
  unfold json, raise, mret, M_ret in H. destruct (body resp); by simplify_eq.
Qed.

(** X3: whatever the server does, the blocking fetch ends (it returns or
    raises), leaves every dictionary as it was, and puts the same GET
    request between one and six times: three attempts at most, each
    reissued once at most after a rate-limit signal. *)
Theorem fetch_sends_one_to_six_requests (env : Env) (args : list string)
    (kw : Kwargs) (w : World) :
  let run := Exercism.get_json_with_retries env args kw w in
  run.1 ≠ OutOfFuel
  ∧ heap run.2 = heap w
  ∧ ∃ k, (1 ≤ k ≤ 6)%nat
      ∧ calls (trace run.2)
        = calls (trace w) ++ replicate k (snapshot Requests GET args kw w).
Proof.
  intros run. subst run.
  split.
  { rewrite get_json_with_retries_three_attempts.
    apply three_attempts_returns. intros. apply get_json_returns. }
  destruct (Exercism.get_json_with_retries env args kw w) as [r w'] eqn:E.
  pose proof E as (Hh & _ & k & Hk & Hc)%get_json_with_retries_repeats.
  rewrite get_json_with_retries_three_attempts in E.
  apply (three_attempts_at_most _ 2) in E; [|intros ? ? ?; apply get_json_at_most].
  cbn. split; [done|]. exists k. split; [|done].
  unfold at_most in E. rewrite Hc, length_app, length_replicate in E. lia.
Qed.

(** Six requests are reached: each attempt is told to wait and then
    answered with a server error. *)
Example six_requests_at_worst :
  length (calls (trace (Exercism.get_json_with_retries
    (scripted_env [rate_limited 0; failing 503; rate_limited 0; failing 503;
                   rate_limited 0; failing 503])
    [tracks_url] no_kwargs fresh_world).2)) = 6%nat.
Proof. vm_compute. reflexivity. Qed.

(** ** Failures and the decorator *)

(** What one attempt of the blocking fetch can raise. *)
Lemma get_json_raises env args kw w e w' :
  Exercism.get_json env args kw w = (Raise e, w') →
  e = TypeError ∨ e = ConnectionError ∨ e = ValueError ∨ e = OverflowError
  ∨ e = JSONDecodeError ∨ ∃ s, e = HTTPError s.
Proof.
  assert (Hsend : ∀ a k w e w', send env Requests GET a k w = (Raise e, w') →
                    e = TypeError ∨ e = ConnectionError).
  { intros a k w0 e0 w0'. unfold send.
    destruct (server env _ _); intros [= <- _]; eauto. }
  unfold Exercism.get_json, Exercism.request. intros H.
  apply bind_inv in H as [(resp & w1 & Hreq & H) | [(e0 & Hreq & [= <-]) | (_ & [=])]].
  { unfold json, raise, mret, M_ret in H. destruct (body resp); simplify_eq. eauto 10. }
  apply bind_inv in Hreq as [(r1 & w2 & _ & H) | [(e0 & Hs & [= <-]) | (_ & [=])]];
    [|apply Hsend in Hs; naive_solver].
  apply bind_inv in H as [(r2 & w3 & _ & H) | [(e0 & Hm & [= <-]) | (_ & [=])]].
  - apply bind_inv in H as [([] & w4 & _ & H) | [(e0 & Hr & [= <-]) | (_ & [=])]].
    + apply bind_inv in H as [([] & w5 & _ & [=]) | [(e0 & Hsl & [= <-]) | (_ & [=])]].
      apply time_sleep_inv in Hsl as [([=] & _)|([[= ->]|[= ->]] & _)]; eauto 10.
    + apply raise_for_status_inv in Hr as [_ [[[=] _]|[[= ->] _]]]. eauto 10.
  - destruct (retry_after r1) as [text|]; [|done].
    apply bind_inv in Hm as [(d & w4 & _ & H) | [(e1 & Hi & [= <-]) | (_ & [=])]].
    + apply bind_inv in H as [([] & w5 & _ & H) | [(e1 & Hsl & [= <-]) | (_ & [=])]].
      * apply Hsend in H. naive_solver.
      * apply time_sleep_inv in Hsl as [([=] & _)|([[= ->]|[= ->]] & _)]; eauto 10.
    + destruct text; unfold py_int, raise in Hi; simplify_eq. eauto 10.
Qed.

Lemma three_attempts_gives_up {A} (attempt : M A) wait1 wait2 w last w' :
  (∀ w last w', attempt w ≠ (Raise (RetryError last), w')) →
  three_attempts wait1 wait2 attempt w = (Raise (RetryError last), w') →
  is_requests_failure last = true
  ∧ ∃ e1 w1 e2 w2,
      attempt w = (Raise e1, w1)
      ∧ attempt (slept (1000 * wait1) w1) = (Raise e2, w2)
      ∧ attempt (slept (1000 * wait2) w2) = (Raise last, w').
Proof.
  intros Hno. unfold three_attempts.
  destruct (attempt w) as [r1 w1] eqn:E1.
  destruct (transient r1) eqn:T1; [|intros [= -> <-]; by destruct (Hno _ _ _ E1)].
  destruct (attempt (slept _ w1)) as [r2 w2] eqn:E2.
  destruct (transient r2) eqn:T2; [|intros [= -> <-]; by destruct (Hno _ _ _ E2)].
  destruct (attempt (slept _ w2)) as [r3 w3] eqn:E3.
  destruct (transient r3) eqn:T3; [|intros [= -> <-]; by destruct (Hno _ _ _ E3)].
  intros [= <- <-].
  destruct r1 as [|x1|], r2 as [|x2|], r3 as [|x3|]; try done.
  cbn in T3. destruct (is_requests_failure x3) eqn:F3; [|done]. injection T3 as <-.
  split; [done|]. eauto 10.
Qed.

(** X4: no [HTTPError] and no [ConnectionError] ever leaves the blocking
    fetch.  When it gives up, what the caller sees is [RetryError]
    wrapping the last failure, which is of one of these two classes, and
    by then all three attempts were made: the request was put at least
    three times. *)
Theorem fetch_failures_surface_as_RetryError (env : Env) (args : list string)
    (kw : Kwargs) (w : World) (e : Exn) (w' : World) :
  Exercism.get_json_with_retries env args kw w = (Raise e, w') →
  is_requests_failure e = false
  ∧ ∀ last, e = RetryError last →
      is_requests_failure last = true
      ∧ ∃ k, (3 ≤ k)%nat
          ∧ calls (trace w')
            = calls (trace w) ++ replicate k (snapshot Requests GET args kw w).
Proof.
  intros H. rewrite get_json_with_retries_three_attempts in H. split.
  { by eapply three_attempts_final. }
  intros last ->.
  apply three_attempts_gives_up in H as (Hlast & e1 & w1 & e2 & w2 & E1 & E2 & E3).
  2:{ intros w0 l w0' Hc. apply get_json_raises in Hc. naive_solver. }
  split; [done|].
  apply get_json_repeats in E1 as (Hh1 & _ & k1 & Hk1 & Hc1).
  apply get_json_repeats in E2 as (Hh2 & _ & k2 & Hk2 & Hc2).
  apply get_json_repeats in E3 as (Hh3 & _ & k3 & Hk3 & Hc3).
  cbn [slept heap] in Hh2, Hh3.
  rewrite (snapshot_heap Requests GET args kw w) in Hc3 by (cbn; congruence).
  rewrite (snapshot_heap Requests GET args kw w) in Hc2 by (cbn; congruence).
  exists (k1 + k2 + k3)%nat. split; [lia|].
  cbn in Hc2, Hc3. rewrite calls_app in Hc2, Hc3. cbn in Hc2, Hc3.
  rewrite app_nil_r in Hc2, Hc3.
  rewrite Hc3, Hc2, Hc1, <- !app_assoc, !replicate_add, <- !app_assoc. reflexivity.
Qed.

Lemma fetch_failures_surface_as_RetryError_witness :
  (Exercism.get_json_with_retries three_failures [tracks_url] no_kwargs fresh_world).1
    = Raise (RetryError (HTTPError 503))
  ∧ is_requests_failure (RetryError (HTTPError 503)) = false.
Proof.
  split; [vm_compute; reflexivity|].
  refine (proj1 (fetch_failures_surface_as_RetryError three_failures [tracks_url]
    no_kwargs fresh_world _
    (Exercism.get_json_with_retries three_failures [tracks_url] no_kwargs fresh_world).2 _)).
  vm_compute. reflexivity.
Defined.

(** X5: the cooperative fetch does not retry.  Its decorator names the
    exception classes of [requests]; a failure of [aiohttp], be it an
    error status or a connection that cannot be made, leaves at once,
    after the one call and without any wait. *)
Theorem cooperative_fetch_does_not_retry (env : Env) (endpoint : string)
    (kw : Kwargs) (w : World) :
  let req := snapshot Aiohttp GET [AsyncExercism.API +:+ "/" +:+ endpoint]
               (AsyncExercism.with_headers env kw) w in
  (server env (trace w) req = Unreachable →
   AsyncExercism.get_json_with_retries env [] endpoint kw w
   = (Raise ClientConnectionError, called req w))
  ∧ (∀ r1, server env (trace w) req = Answer r1 →
       retry_after r1 = None →
       400 ≤ status r1 →
       AsyncExercism.get_json_with_retries env [] endpoint kw w
       = (Raise (ClientResponseError (status r1)), called req w)).
Proof.
  intros req. split.
  - intros Hs. rewrite async_get_json_with_retries_once.
    unfold AsyncExercism.get_json. rewrite run_bind, send_run. fold req. by rewrite Hs.
  - intros r1 Hs Hr Hst. rewrite async_get_json_with_retries_once.
    unfold AsyncExercism.get_json. rewrite run_bind, send_run. fold req.
    rewrite Hs, Hr. rewrite run_bind. unfold AsyncExercism.raise_for_status.
    by rewrite bool_decide_eq_true_2.
Qed.

Lemma cooperative_fetch_does_not_retry_witness :
  AsyncExercism.get_json_with_retries failing_once [] "tracks" no_kwargs fresh_world
  = (Raise (ClientResponseError 503),
     called (snapshot Aiohttp GET [tracks_url]
               (AsyncExercism.with_headers failing_once no_kwargs) fresh_world)
       fresh_world).
Proof.
  refine (proj2 (cooperative_fetch_does_not_retry failing_once "tracks" no_kwargs fresh_world)
    {| status := 503; retry_after := None; body := None |} eq_refl eq_refl _).
  vm_compute. congruence.
Defined.

(** ** Finishing and nudging *)

Lemma request_accepted env func url kw w :
  accepts env (snapshot Requests func [url] kw w) →
  0 ≤ sleep_or 500 kw ≤ max_sleep →
  ∃ r, Exercism.request env func [url] kw w
       = (Ok r, slept (sleep_or 500 kw) (called (snapshot Requests func [url] kw w) w)).
Proof.
  intros Hacc Hms. destruct (Hacc (trace w)) as (r & Hs & Hr & Hst).
  exists r. rewrite (request_not_rate_limited env func url kw w r Hs Hr).
  rewrite run_bind. unfold Exercism.raise_for_status.
  rewrite bool_decide_eq_false_2 by done. cbn [mret M_ret].
  rewrite run_bind, time_sleep_run by done. reflexivity.
Qed.






(** X6: on a server that accepts each of them, [finish] sends one PATCH
    to the [finish] URL of every discussion, in the order given, each
    followed by a pause of 0.2 s, and does nothing else; an empty list
    sends nothing. *)
Theorem finish_patches_each_discussion_once (env : Env) (uuids : list string)
    (w : World) :
  (∀ uuid, uuid ∈ uuids → accepts env (finish_request uuid)) →
  Exercism.finish env uuids w
  = (Ok tt,
     {| trace := trace w
                 ++ concat ((λ uuid, [Call (finish_request uuid); Sleep 200]) <$> uuids);
        heap := heap w |}).
Proof.
  unfold Exercism.finish. revert w.
  induction uuids as [|u uuids IH]; intros w Hacc.
  - cbn. rewrite app_nil_r. by destruct w.
  - cbn [for_each]. rewrite run_bind, run_bind.
    destruct (request_accepted env PATCH
      (Exercism.API +:+ "/mentoring/discussions/" +:+ u +:+ "/finish")
      (with_sleep 200 no_kwargs) w) as (r & ->); [apply Hacc; left|done|].
    cbn [mret M_ret]. rewrite IH by (intros; apply Hacc; by right).
    f_equal. cbn. f_equal. by rewrite <- !app_assoc.
Qed.

Lemma finish_patches_each_discussion_once_witness :
  calls (trace (Exercism.finish agreeable ["d1"; "d4"] fresh_world).2)
  = [finish_request "d1"; finish_request "d4"].
Proof.
  rewrite (finish_patches_each_discussion_once agreeable ["d1"; "d4"] fresh_world).
  - reflexivity.
  - intros uuid _ tr. eexists. split; [reflexivity|]. split; [reflexivity|]. cbn. lia.
Defined.





(** ** A relation kept by every step *)

Section Keeps.
Context (R : World → World → Prop) `{!PreOrder R}.

Lemma keeps_ret {A} (a : A) : keeps R (mret a).
Proof. intros w r w' [= _ <-]. reflexivity. Qed.

Lemma keeps_lift {A} (o : Outcome A) : keeps R (lift o).
Proof. intros w r w' [= _ <-]. reflexivity. Qed.

Lemma keeps_raise {A} (e : Exn) : keeps R (raise (A := A) e).
Proof. intros w r w' [= _ <-]. reflexivity. Qed.

Lemma keeps_out_of_fuel {A} : keeps R (out_of_fuel (A := A)).
Proof. intros w r w' [= _ <-]. reflexivity. Qed.

Lemma keeps_bind {A B} (m : M A) (f : A → M B) :
  keeps R m → (∀ a, keeps R (f a)) → keeps R (m ≫= f).
Proof.
  intros Hm Hf w r w' H.
  apply bind_inv in H as [(a & w1 & Ha & H) | [(e & Ha & _) | (Ha & _)]].
  - transitivity w1; [by eapply Hm|by eapply Hf].
  - by eapply Hm.
  - by eapply Hm.
Qed.



Lemma keeps_filter_M {A} (p : A → M bool) (xs : list A) :
  (∀ x, keeps R (p x)) → keeps R (filter_M p xs).
Proof.
  intros Hp. induction xs as [|x xs IH]; cbn [filter_M].
  - apply keeps_ret.
  - apply keeps_bind; [apply Hp|]. intros keep.
    apply keeps_bind; [apply IH|]. intros ys. apply keeps_ret.
Qed.

Lemma keeps_for_count {A} (body : Z → A → M (LoopStep A)) (fuel : nat) (p : Z) (acc : A) :
  (∀ p acc, keeps R (body p acc)) → keeps R (for_count fuel p acc body).
Proof.
  intros Hbody. revert p acc. induction fuel as [|fuel IH]; intros p acc; cbn [for_count].
  - apply keeps_out_of_fuel.
  - apply keeps_bind; [apply Hbody|]. intros [a|a]; [apply keeps_ret|apply IH].
Qed.

Lemma keeps_try_except {A} (m : M A) (catches : Exn → bool) (handler : M A) :
  keeps R m → keeps R handler → keeps R (try_except m catches handler).
Proof.
  intros Hm Hh w r w'. unfold try_except.
  destruct (m w) as [[a|e|] w1] eqn:E.
  - intros [= <- <-]. by eapply Hm.
  - destruct (catches e).
    + intros H. transitivity w1; [by eapply Hm|by eapply Hh].
    + intros [= <- <-]. by eapply Hm.
  - intros [= <- <-]. by eapply Hm.
Qed.

Lemma keeps_three_attempts {A} (attempt : M A) wait1 wait2 :
  (∀ ms w, R w (slept ms w)) →
  keeps R attempt → keeps R (three_attempts wait1 wait2 attempt).
Proof.
  intros Hs Ha w r w'. unfold three_attempts.
  destruct (attempt w) as [r1 w1] eqn:E1. apply Ha in E1.
  destruct (transient r1); [|by intros [= <- <-]].
  destruct (attempt (slept _ w1)) as [r2 w2] eqn:E2. apply Ha in E2.
  assert (R w w2) by (transitivity w1; [done|]; transitivity (slept (1000 * wait1) w1); [apply Hs|done]).
  destruct (transient r2); [|by intros [= <- <-]].
  destruct (attempt (slept _ w2)) as [r3 w3] eqn:E3. apply Ha in E3.
  assert (R w w3) by (transitivity w2; [done|]; transitivity (slept (1000 * wait2) w2); [apply Hs|done]).
  destruct (transient r3); by intros [= <- <-].
Qed.

End Keeps.

(** *** Calls of one kind *)

Global Instance calling_preorder (P : Request → Prop) : PreOrder (calling P).
Proof.
  split.
  - intros w. exists []. split; [by rewrite app_nil_r|constructor].
  - intros w1 w2 w3 (q1 & H1 & P1) (q2 & H2 & P2).
    exists (q1 ++ q2). split; [by rewrite H2, H1, app_assoc|by apply Forall_app].
Qed.

















(** One turn of the loop of [nudge()] puts the discussion at the end of
    one of the two lists. *)
Lemma sort_discussion_files env now uuid to_finish to_nudge w fin nud w' :
  sort_discussion env now uuid (to_finish, to_nudge) w = (Ok (fin, nud), w') →
  (fin = to_finish ++ [uuid] ∧ nud = to_nudge)
  ∨ (fin = to_finish ∧ nud = to_nudge ++ [uuid]).
Proof.
  unfold sort_discussion. intros H.
  apply bind_ok_inv in H as (posts & w1 & _ & H).
  apply bind_ok_inv in H as (first_mentor & w2 & _ & H).
  apply bind_ok_inv in H as (student & w3 & _ & H).
  apply bind_ok_inv in H as (n & w4 & _ & H).
  apply bind_ok_inv in H as (parsed & w5 & _ & H).
  destruct (_ && _); injection H as <- <- <-; eauto.
Qed.

Lemma sort_loop_files env now ids to_finish to_nudge w fin nud w' :
  for_each ids (to_finish, to_nudge) (sort_discussion env now) w = (Ok (fin, nud), w') →
  ∃ fin' nud',
    fin = to_finish ++ fin' ∧ nud = to_nudge ++ nud'
    ∧ fin' ++ nud' ≡ₚ ids
    ∧ fin' `sublist_of` ids ∧ nud' `sublist_of` ids.
Proof.
  revert to_finish to_nudge w. induction ids as [|uuid ids IH]; intros f n w H.
  - injection H as <- <- <-. exists [], []. by rewrite !app_nil_r.
  - cbn [for_each] in H. apply bind_ok_inv in H as ([f1 n1] & w1 & Hx & H).
    apply IH in H as (f2 & n2 & -> & -> & Hperm & Hsf & Hsn).
    apply sort_discussion_files in Hx as [[-> ->]|[-> ->]].
    + exists (uuid :: f2), n2. rewrite <- !app_assoc. split_and!; try done.
      * cbn. by rewrite Hperm.
      * by apply sublist_skip.
      * by apply sublist_cons.
    + exists f2, (uuid :: n2). rewrite <- !app_assoc. split_and!; try done.
      * rewrite <- Permutation_middle. by rewrite Hperm.
      * by apply sublist_cons.
      * by apply sublist_skip.
Qed.

(** X9: the loop of [nudge()] puts every candidate on exactly one of the
    two lists and drops none: the lists together are a rearrangement of
    the candidates, and each keeps the candidates' order. *)
Theorem nudge_files_every_candidate (env : Env) (now : Z) (ids : list string)
    (w : World) (to_finish to_nudge : list string) (w' : World) :
  for_each ids ([], []) (sort_discussion env now) w = (Ok (to_finish, to_nudge), w') →
  to_finish ++ to_nudge ≡ₚ ids
  ∧ to_finish `sublist_of` ids
  ∧ to_nudge `sublist_of` ids.
Proof.
  intros (f & n & -> & -> & H)%sort_loop_files. exact H.
Qed.

Lemma nudge_files_every_candidate_witness :
  (for_each ["d1"; "d4"] ([], []) (sort_discussion mentor_desk noon_2025_06_01) fresh_world).1
    = Ok (["d1"], ["d4"])
  ∧ ["d1"] ++ ["d4"] ≡ₚ ["d1"; "d4"].
Proof.
  split; [vm_compute; reflexivity|].
  refine (proj1 (nudge_files_every_candidate mentor_desk noon_2025_06_01 ["d1"; "d4"]
    fresh_world ["d1"] ["d4"]
    (for_each ["d1"; "d4"] ([], []) (sort_discussion mentor_desk noon_2025_06_01)
       fresh_world).2 _)).
  vm_compute. reflexivity.
Defined.






(** X11: a discussion in which no mentor has posted (only student posts,
    or no post at all) cannot be sorted: [min] has nothing to choose from
    and the turn of the loop raises [ValueError], after the posts were
    fetched. *)
Theorem sort_discussion_needs_a_mentor_post (env : Env) (now : Z) (uuid : string)
    (lists : list string * list string) (w : World)
    (j : Json) (items : list Json) (posts : list Post) :
  answers_with (server env (trace w) (posts_request uuid)) j →
  getitem j "items" = Ok (JList items) →
  Forall2 reads_post items posts →
  mentor_times posts = [] →
  sort_discussion env now uuid lists w
  = (Raise ValueError, slept 200 (called (posts_request uuid) w)).
Proof.
  intros Hs Hitems Hposts Hnone. unfold sort_discussion. destruct lists as [f n].
  rewrite run_bind, (mentor_discussion_posts_run env uuid w j items Hs Hitems).
  rewrite run_bind. rewrite (stamps_reads false items posts Hposts).
  fold (mentor_times posts). by rewrite Hnone.
Qed.

Lemma sort_discussion_needs_a_mentor_post_witness :
  sort_discussion lonely_desk noon_2025_06_01 "s1" ([], []) fresh_world
  = (Raise ValueError, slept 200 (called (posts_request "s1") fresh_world)).
Proof.
  apply (sort_discussion_needs_a_mentor_post lonely_desk noon_2025_06_01 "s1" ([], [])
    fresh_world (JObj [("items", JList (post_of <$> student_only))])
    (post_of <$> student_only) student_only).
  - eexists. split; [reflexivity|]. split; [reflexivity|]. split; [cbn; lia|reflexivity].
  - reflexivity.
  - repeat constructor. by exists (JBool true).
  - reflexivity.
Defined.

(** ** Stale discussions: the edges *)

(** X12: [old_mentor_discussions] checks its arguments before anything
    else: an [order] or a [status] outside the known ones raises
    [AssertionError] at once, with no request sent and no dictionary
    made. *)
Theorem old_mentor_discussions_checks_its_arguments (env : Env) (status order : string)
    (age : Z) (w : World) :
  order ∉ ["oldest"; "recent"; "exercise"; "student"]
  ∨ status ∉ ["awaiting_mentor"; "awaiting_student"; "finished"] →
  Exercism.old_mentor_discussions env status age order w = (Raise AssertionError, w).
Proof.
  intros H. unfold Exercism.old_mentor_discussions.
  rewrite run_bind. unfold py_assert at 1.
  case_bool_decide as Ho; [|reflexivity].
  destruct H as [H|H]; [done|].
  cbn [mret M_ret]. rewrite run_bind. unfold py_assert at 1.
  by rewrite bool_decide_eq_false_2.
Qed.

Lemma old_mentor_discussions_checks_its_arguments_witness :
  Exercism.old_mentor_discussions mentor_desk "awaiting_students" 30 "oldest" fresh_world
  = (Raise AssertionError, fresh_world).
Proof.
  apply old_mentor_discussions_checks_its_arguments. right.
  intros H. by repeat (apply elem_of_cons in H as [H|H]; [discriminate H|]);
    apply elem_of_nil in H.
Defined.

(** The opening of [old_mentor_discussions]: the arguments pass, the
    filter dictionary is made, and the listing is asked for once, without
    a page. *)
Lemma old_mentor_discussions_opening env status order age w j0 meta T :
  let first := discussions_request status order None in
  let l := fresh (dom (heap w)) in
  order ∈ ["oldest"; "recent"; "exercise"; "student"] →
  status ∈ ["awaiting_mentor"; "awaiting_student"; "finished"] →
  answers_with (server env (trace w) first) j0 →
  getitem j0 "meta" = Ok meta →
  getitem meta "total_pages" = Ok T →
  Exercism.old_mentor_discussions env status age order w
  = (delta ← lift (datetime.timedelta_days age);
     now ← datetime_now env;
     cutoff ← lift (datetime.sub_timedelta now delta);
     page_count ← lift (as_int T);
     for_each (seqZ 1 page_count) [] (Exercism.check_page env cutoff l))
      {| trace := trace w ++ [Call first; Sleep 200];
         heap := <[l := discussion_filter status order]> (heap w) |}.
Proof.
  intros first l Horder Hstatus Hans Hmeta HT.
  unfold Exercism.old_mentor_discussions.
  rewrite run_bind, bool_decide_eq_true_2 by done. cbn [py_assert mret M_ret].
  rewrite run_bind, bool_decide_eq_true_2 by done. cbn [py_assert mret M_ret].
  rewrite run_bind. cbn [dict_of]. fold l.
  set (w1 := {| trace := trace w; heap := _ |}).
  assert (Hreq : snapshot Requests GET [Exercism.API +:+ "/mentoring/discussions"]
                   (with_params l no_kwargs) w1 = first).
  { unfold snapshot, first, discussions_request. cbn. by rewrite lookup_insert_eq. }
  rewrite run_bind, (answers_with_run env _ (with_params l no_kwargs) w1 j0)
    by (rewrite ?Hreq; done).
  rewrite Hreq.
  rewrite run_bind. unfold lift at 1. rewrite Hmeta. cbn [mbind Outcome_bind]. rewrite HT.
  unfold slept, called, w1. cbn [trace heap sleep_or with_params no_kwargs kw_sleep default].
  by rewrite <- app_assoc.
Qed.

(** X13: an [age] that takes the cutoff out of the range of [datetime]
    (before year 1 or after year 9999, or beyond what [timedelta] holds)
    raises [OverflowError], and only after the first listing was
    fetched. *)
Theorem old_mentor_discussions_age_out_of_range (env : Env) (status order : string)
    (age : Z) (w : World) :
  let first := discussions_request status order None in
  let now := clock env (trace w ++ [Call first; Sleep 200]) in
  let run := Exercism.old_mentor_discussions env status age order w in
  order ∈ ["oldest"; "recent"; "exercise"; "student"] →
  status ∈ ["awaiting_mentor"; "awaiting_student"; "finished"] →
  (∃ j meta T, answers_with (server env (trace w) first) j
               ∧ getitem j "meta" = Ok meta
               ∧ getitem meta "total_pages" = Ok T) →
  ¬ (-999999999 ≤ age ≤ 999999999)
  ∨ ¬ (0 ≤ now - age * datetime.us_per_day ≤ datetime.max_instant) →
  run.1 = Raise OverflowError
  ∧ trace run.2 = trace w ++ [Call first; Sleep 200].
Proof.
  intros first now run Horder Hstatus (j0 & meta & T & Hans & Hmeta & HT) Hage.
  assert (run = (Raise OverflowError,
                 {| trace := trace w ++ [Call first; Sleep 200];
                    heap := <[fresh (dom (heap w)) := discussion_filter status order]>
                              (heap w) |})) as ->; [|done].
  subst run.
  rewrite (old_mentor_discussions_opening env status order age w j0 meta T) by done.
  rewrite run_bind. unfold lift at 1, datetime.timedelta_days.
  case_bool_decide as Hrange; [|done].
  destruct Hage as [Hage|Hage]; [done|].
  rewrite run_bind. unfold datetime_now. cbn [trace].
  rewrite run_bind. unfold lift at 1, datetime.sub_timedelta.
  fold first. fold now. by rewrite bool_decide_eq_false_2.
Qed.

Lemma old_mentor_discussions_age_out_of_range_witness :
  (Exercism.old_mentor_discussions mentor_desk "awaiting_student" 800000 "oldest"
     fresh_world).1
  = Raise OverflowError.
Proof.
  refine (proj1 (old_mentor_discussions_age_out_of_range mentor_desk
    "awaiting_student" "oldest" 800000 fresh_world _ _ _ _)).
  - set_solver.
  - set_solver.
  - eexists _, _, _. split.
    { eexists. split; [reflexivity|]. split; [reflexivity|]. split; [cbn; lia|reflexivity]. }
    split; reflexivity.
  - right. vm_compute. intros [H _]. by apply H.
Defined.

Lemma for_each_traced {A S} (body : A → S → M S) (step : A → S → S)
    (evs : A → list Event) (I : World → Prop) (xs : list A) :
  (∀ x acc w, x ∈ xs → I w →
     ∃ w', body x acc w = (Ok (step x acc), w') ∧ trace w' = trace w ++ evs x ∧ I w') →
  ∀ acc w, I w →
    ∃ w', for_each xs acc body w = (Ok (foldl (λ a x, step x a) acc xs), w')
          ∧ trace w' = trace w ++ concat (evs <$> xs) ∧ I w'.
Proof.
  induction xs as [|x xs IH]; intros Hbody acc w HI; cbn [for_each foldl].
  - exists w. cbn. by rewrite app_nil_r.
  - destruct (Hbody x acc w) as (w1 & Hrun & Htr & HI1); [by left|done|].
    rewrite (run_bind_ok _ _ _ _ _ Hrun).
    destruct (IH (λ y acc' w0 Hy, Hbody y acc' w0 (list_elem_of_further _ _ _ Hy))
                (step x acc) w1 HI1) as (w' & Hrest & Htr' & HI').
    exists w'. split; [done|]. split; [|done].
    rewrite Htr', Htr. cbn. by rewrite <- app_assoc.
Qed.

Lemma check_discussion_traced env cutoff posts_of d uuids w :
  listed env cutoff posts_of d →
  ∃ w', Exercism.check_discussion env cutoff d uuids w
        = (Ok (uuids ++ option_list (candidate cutoff posts_of d)), w')
        ∧ trace w' = trace w
            ++ concat (paced 200 ∘ posts_request <$> option_list (old_on_its_face cutoff d))
        ∧ heap w' = heap w.
Proof.
  intros Hl.
  destruct (check_discussion_run env cutoff posts_of d uuids w Hl) as (w' & Hrun & Hh).
  exists w'. split; [done|]. split; [|done].
  destruct Hl as (t & Ht & Hold). unfold old_on_its_face. rewrite Ht.
  unfold Exercism.check_discussion in Hrun.
  rewrite run_bind in Hrun. unfold lift at 1 in Hrun. rewrite Ht in Hrun.
  case_bool_decide as Hcut.
  - injection Hrun as _ <-.
    destruct (uuid_key d); [|by rewrite app_nil_r].
    rewrite bool_decide_eq_false_2 by lia. by rewrite app_nil_r.
  - destruct Hold as (u & Hu & Hsrv & Hne & Hall); [lia|].
    rewrite (uuid_key_Ok _ _ Hu), bool_decide_eq_true_2 by lia.
    rewrite run_bind in Hrun. unfold lift at 1 in Hrun. rewrite Hu in Hrun.
    destruct (Hsrv (trace w)) as (j & Hans & Hitems).
    rewrite run_bind, (mentor_discussion_posts_run env u w j (posts_of u)) in Hrun by done.
    rewrite run_bind in Hrun.
    rewrite (map_M_reads_all _ Exercism.updated_at _ _ (λ _ _, eq_refl) Hall) in Hrun.
    rewrite run_bind in Hrun. unfold lift at 1 in Hrun.
    destruct (py_max_instant _) as [m|e|]; [|by simplify_eq..].
    case_bool_decide; injection Hrun as _ <-; cbn; by rewrite <- app_assoc.
Qed.

Lemma check_page_traced env cutoff posts_of status order l pages T p uuids w :
  1 ≤ p ≤ T →
  reads_as l (discussion_filter status order) w →
  (∀ tr, ∃ j, answers_with (server env tr (discussions_request status order (Some p))) j
              ∧ getitem j "results" = Ok (JList (pages p))) →
  Forall (listed env cutoff posts_of) (pages p) →
  ∃ w', Exercism.check_page env cutoff l p uuids w
        = (Ok (uuids ++ omap (candidate cutoff posts_of) (pages p)), w')
        ∧ trace w' = trace w
            ++ concat (paced 200 <$>
                 discussions_request status order (Some p)
                 :: (posts_request <$> omap (old_on_its_face cutoff) (pages p)))
        ∧ reads_as l (discussion_filter status order) w'.
Proof.
  intros Hp Hd Hsrv Hlisted. unfold Exercism.check_page.
  rewrite run_bind. cbn [dict_setitem].
  set (w1 := {| trace := trace w; heap := _ |}).
  assert (Hd1 : reads_as l (discussion_filter status order) w1).
  { intros v. cbn. rewrite lookup_insert_eq. cbn. by rewrite insert_insert_eq. }
  assert (Hreq : snapshot Requests GET [Exercism.API +:+ "/mentoring/discussions"]
                   (with_params l no_kwargs) w1
                 = discussions_request status order (Some p)).
  { unfold snapshot, discussions_request. cbn. rewrite lookup_insert_eq. cbn.
    by rewrite Hd. }
  destruct (Hsrv (trace w1)) as (j & Hans & Hres).
  rewrite run_bind, (answers_with_run env _ (with_params l no_kwargs) w1 j)
    by (rewrite ?Hreq; done).
  rewrite run_bind. unfold lift at 1. rewrite Hres. cbn [mbind Outcome_bind as_list].
  rewrite Hreq.
  set (w2 := slept _ _).
  destruct (for_each_traced (Exercism.check_discussion env cutoff)
              (λ d acc, acc ++ option_list (candidate cutoff posts_of d))
              (λ d, concat (paced 200 ∘ posts_request
                            <$> option_list (old_on_its_face cutoff d)))
              (λ w0, heap w0 = heap w2) (pages p)) with (acc := uuids) (w := w2)
    as (w' & Hrun & Htr & Hheap); [|done|].
  - intros d acc w0 Hin Hw0. rewrite Forall_forall in Hlisted.
    destruct (check_discussion_traced env cutoff posts_of d acc w0 (Hlisted d Hin))
      as (w0' & Hrun & Htr & Hh).
    exists w0'. split; [done|]. split; [done|congruence].
  - exists w'. rewrite Hrun, foldl_omap. split; [done|]. split.
    + rewrite Htr. unfold w2, slept, called. cbn [trace w1]. rewrite <- !app_assoc.
      f_equal. rewrite fmap_cons. cbn [concat paced app]. do 2 f_equal.
      clear. induction (pages p) as [|d ds IH]; [done|]. cbn.
      rewrite IH. by destruct (old_on_its_face cutoff d).
    + intros v. rewrite Hheap. apply Hd1.
Qed.

(** X14: what phase 1 costs.  With a server that answers as the design
    supposes, [old_mentor_discussions] asks for the listing once without
    a page, which tells it the page count [T], and then for every page
    from 1 to [T]: page 1 is fetched twice.  The posts are fetched only
    for the discussions that are old on their face, right after the page
    that lists them.  Every answer is followed by a pause of 0.2 s, and
    nothing else is sent. *)
Theorem old_mentor_discussions_requests (env : Env) (status order : string)
    (age : Z) (w : World) (T : Z) (pages : Z → list Json)
    (posts_of : string → list Json) (delta cutoff : Z) :
  let first := discussions_request status order None in
  let now := clock env (trace w ++ [Call first; Sleep 200]) in
  order ∈ ["oldest"; "recent"; "exercise"; "student"] →
  status ∈ ["awaiting_mentor"; "awaiting_student"; "finished"] →
  datetime.timedelta_days age = Ok delta →
  datetime.sub_timedelta now delta = Ok cutoff →
  (∃ j meta, answers_with (server env (trace w) first) j
             ∧ getitem j "meta" = Ok meta
             ∧ getitem meta "total_pages" = Ok (JNum T)) →
  (∀ tr p, 1 ≤ p ≤ T →
     ∃ j, answers_with (server env tr (discussions_request status order (Some p))) j
          ∧ getitem j "results" = Ok (JList (pages p))) →
  (∀ p, 1 ≤ p ≤ T → Forall (listed env cutoff posts_of) (pages p)) →
  trace (Exercism.old_mentor_discussions env status age order w).2
  = trace w ++ concat (paced 200 <$> phase_one_requests status order cutoff pages T).
Proof.
  intros first now Horder Hstatus Hdelta Hcutoff (j0 & meta & Hans & Hmeta & HT) Hpages Hlisted.
  rewrite (old_mentor_discussions_opening env status order age w j0 meta (JNum T)) by done.
  set (l := fresh (dom (heap w))). set (w2 := {| trace := _; heap := _ |}).
  rewrite run_bind. unfold lift at 1. rewrite Hdelta.
  rewrite run_bind. unfold datetime_now. cbn [trace w2]. fold first. fold now.
  rewrite run_bind. unfold lift at 1. rewrite Hcutoff.
  rewrite run_bind. unfold lift at 1. cbn [as_int].
  destruct (for_each_traced (Exercism.check_page env cutoff l)
              (λ p acc, acc ++ omap (candidate cutoff posts_of) (pages p))
              (λ p, concat (paced 200 <$>
                      discussions_request status order (Some p)
                      :: (posts_request <$> omap (old_on_its_face cutoff) (pages p))))
              (reads_as l (discussion_filter status order)) (seqZ 1 T))
    with (acc := @nil string) (w := w2) as (w' & Hrun & Htr & _).
  - intros p acc w0 Hin Hw0. apply elem_of_seqZ in Hin.
    apply (check_page_traced env cutoff posts_of status order l pages T p acc w0);
      [lia|done|intros tr; apply Hpages; lia|apply Hlisted; lia].
  - intros v. cbn. by rewrite lookup_insert_eq.
  - rewrite Hrun. cbn [snd]. rewrite Htr. unfold phase_one_requests. cbn [w2 trace].
    rewrite <- app_assoc. f_equal. cbn. do 2 f_equal.
    clear. induction (seqZ 1 T) as [|p ps IH]; [done|].
    rewrite !fmap_cons. cbn [concat]. rewrite fmap_app, concat_app, IH. done.
Qed.

Lemma desk_answers_pages tr p :
  1 ≤ p ≤ 2 →
  ∃ j, answers_with (server mentor_desk tr
                       (discussions_request "awaiting_student" "oldest" (Some p))) j
       ∧ getitem j "results" = Ok (JList (page_of discussions_book p)).
Proof.
  intros Hp. assert (p = 1 ∨ p = 2) as [-> | ->] by lia;
    (eexists; split; [eexists; split; [reflexivity|]; vm_compute; eauto|reflexivity]).
Qed.

Lemma desk_answers_first :
  ∃ j meta, answers_with (server mentor_desk []
                            (discussions_request "awaiting_student" "oldest" None)) j
            ∧ getitem j "meta" = Ok meta
            ∧ getitem meta "total_pages" = Ok (JNum 2).
Proof.
  eexists _, _. split_and!; [eexists; split; [reflexivity|]; vm_compute; eauto
                            |reflexivity|reflexivity].
Qed.

Lemma desk_listed p :
  1 ≤ p ≤ 2 →
  Forall (listed mentor_desk thirty_days_before_noon desk_posts) (page_of discussions_book p).
Proof.
  intros Hp. assert (p = 1 ∨ p = 2) as [-> | ->] by lia.
  - repeat constructor.
    + eexists. split; [reflexivity|]. intros _. exists "d1". split_and!.
      * reflexivity.
      * intros tr. eexists. split; [eexists; split; [reflexivity|]; vm_compute; eauto|reflexivity].
      * by vm_compute.
      * repeat constructor; eexists; reflexivity.
    + eexists. split; [reflexivity|]. intros Hold. by vm_compute in Hold.
  - repeat constructor.
    + eexists. split; [reflexivity|]. intros _. exists "d3". split_and!.
      * reflexivity.
      * intros tr. eexists. split; [eexists; split; [reflexivity|]; vm_compute; eauto|reflexivity].
      * by vm_compute.
      * repeat constructor; eexists; reflexivity.
    + eexists. split; [reflexivity|]. intros _. exists "d4". split_and!.
      * reflexivity.
      * intros tr. eexists. split; [eexists; split; [reflexivity|]; vm_compute; eauto|reflexivity].
      * by vm_compute.
      * repeat constructor; eexists; reflexivity.
Qed.

Lemma old_mentor_discussions_requests_witness :
  calls (trace (Exercism.old_mentor_discussions mentor_desk "awaiting_student" 30 "oldest"
                  fresh_world).2)
  = [ discussions_request "awaiting_student" "oldest" None;
      discussions_request "awaiting_student" "oldest" (Some 1);
      posts_request "d1";
      discussions_request "awaiting_student" "oldest" (Some 2);
      posts_request "d3";
      posts_request "d4" ].
Proof.
  rewrite (old_mentor_discussions_requests mentor_desk "awaiting_student" "oldest" 30
    fresh_world 2 (page_of discussions_book) desk_posts
    (30 * datetime.us_per_day) thirty_days_before_noon).
  - vm_compute. reflexivity.
  - apply (bool_decide_unpack _). by vm_compute.
  - apply (bool_decide_unpack _). by vm_compute.
  - reflexivity.
  - reflexivity.
  - apply desk_answers_first.
  - intros tr p Hp. by apply desk_answers_pages.
  - apply desk_listed.
Defined.

(** ** Pagination: the edges *)

Lemma fetch_page_step env l endpoint kw d rs cur tot p acc w :
  let url := Exercism.API +:+ "/" +:+ endpoint in
  0 ≤ sleep_or 200 kw ≤ max_sleep →
  reads_as l d w →
  (∀ tr, ∃ j, answers_with (server env tr (page_request endpoint kw d p)) j
              ∧ is_page j rs cur tot) →
  Exercism.fetch_page env l url [] kw p acc w
  = (Ok (if bool_decide (tot ≤ cur) then Break (acc ++ rs) else Continue (acc ++ rs)),
     turn_page l d (page_request endpoint kw d) (sleep_or 200 kw) p w).
Proof.
  intros url Hsl Hd Hsrv. unfold Exercism.fetch_page.
  rewrite run_bind. cbn [dict_setitem].
  set (w1 := {| trace := trace w; heap := _ |}).
  assert (Hreq : snapshot Requests GET [url] (with_params l kw) w1
                 = page_request endpoint kw d p).
  { unfold snapshot, page_request. cbn. rewrite lookup_insert_eq. cbn.
    unfold page_params. by rewrite Hd. }
  destruct (Hsrv (trace w1)) as (j & Hans & Hpage).
  rewrite run_bind, (answers_with_run env url (with_params l kw) w1 j)
    by (rewrite ?Hreq; done).
  rewrite Hreq.
  pose proof Hpage as (Hres & Hmeta).
  rewrite run_bind. unfold lift at 1. rewrite Hres. cbn [mbind Outcome_bind as_list].
  rewrite run_bind. unfold lift at 1.
  rewrite (is_page_last j rs cur tot) by done.
  cbn [mret M_ret]. unfold turn_page, slept, called, w1. cbn.
  rewrite <- app_assoc. cbn. unfold page_params.
  rewrite (Hd (JStr (str p))).
  reflexivity.
Qed.

Lemma async_fetch_page_step env l endpoint kw d rs cur tot p acc w :
  reads_as l d w →
  (∀ tr, ∃ j, answers_with (server env tr (async_page_request env endpoint kw d p)) j
              ∧ is_page j rs cur tot) →
  AsyncExercism.fetch_page env l endpoint [] kw p acc w
  = (Ok (if bool_decide (tot ≤ cur) then Break (acc ++ rs) else Continue (acc ++ rs)),
     turn_page l d (async_page_request env endpoint kw d) (Z.max 0 (sleep_or 200 kw)) p w).
Proof.
  intros Hd Hsrv. unfold AsyncExercism.fetch_page.
  rewrite run_bind. cbn [dict_setitem].
  set (w1 := {| trace := trace w; heap := _ |}).
  assert (Hreq : snapshot Aiohttp GET [AsyncExercism.API +:+ "/" +:+ endpoint]
                   (AsyncExercism.with_headers env (with_params l kw)) w1
                 = async_page_request env endpoint kw d p).
  { unfold snapshot, async_page_request, AsyncExercism.with_headers. cbn.
    destruct (kw_rest kw !! "headers"); cbn; rewrite lookup_insert_eq; cbn;
      unfold page_params; by rewrite Hd. }
  destruct (Hsrv (trace w1)) as (j & Hans & Hpage).
  rewrite run_bind, (async_answers_with_run env endpoint (with_params l kw) w1 j)
    by (rewrite ?Hreq; done).
  rewrite Hreq.
  pose proof Hpage as (Hres & Hmeta).
  rewrite run_bind. unfold lift at 1. rewrite Hres. cbn [mbind Outcome_bind as_list].
  rewrite run_bind. unfold lift at 1.
  rewrite (is_page_last j rs cur tot) by done.
  cbn [mret M_ret]. unfold turn_page, slept, called, w1. cbn.
  rewrite <- app_assoc. cbn. unfold page_params.
  rewrite (Hd (JStr (str p))). reflexivity.
Qed.

(** A loop over [itertools.count] whose body never breaks is still
    running at any bound. *)
Lemma for_count_forever {A} (body : Z → A → M (LoopStep A))
    (step : Z → A → A) (next : Z → World → World) (I : World → Prop) :
  (∀ p acc w, 1 ≤ p → I w →
     I (next p w) ∧ body p acc w = (Ok (Continue (step p acc)), next p w)) →
  ∀ fuel p acc w,
    1 ≤ p → I w →
    for_count fuel p acc body w
    = (OutOfFuel, foldl (λ w q, next q w) w (seqZ p (Z.of_nat fuel))).
Proof.
  intros Hbody fuel. induction fuel as [|fuel IH]; intros p acc w Hp HI; [done|].
  cbn [for_count]. destruct (Hbody p acc w Hp HI) as [HI' Hrun].
  rewrite (run_bind_ok _ _ _ _ _ Hrun).
  rewrite seqZ_cons by lia. cbn [foldl].
  rewrite IH by (done || lia).
  replace (Z.pred (Z.of_nat (S fuel))) with (Z.of_nat fuel) by lia.
  replace (Z.succ p) with (p + 1) by lia. reflexivity.
Qed.

Lemma time_sleep_overflow ms w :
  max_sleep < ms → time_sleep ms w = (Raise OverflowError, w).
Proof.
  intros H. unfold time_sleep. by rewrite bool_decide_eq_false_2 by lia.
Qed.

Lemma answers_with_overflow env url kw w j :
  answers_with (server env (trace w) (snapshot Requests GET [url] kw w)) j →
  max_sleep < sleep_or 200 kw →
  Exercism.get_json_with_retries env [url] kw w
  = (Raise OverflowError, called (snapshot Requests GET [url] kw w) w).
Proof.
  intros (r & Hs & Hr & Hst & Hb) Hsl.
  rewrite get_json_with_retries_three_attempts.
  unfold three_attempts, Exercism.get_json.
  rewrite run_bind.
  rewrite (request_not_rate_limited env GET url _ w r) by (rewrite ?snapshot_with_sleep; done).
  rewrite snapshot_with_sleep.
  unfold Exercism.raise_for_status. rewrite run_bind.
  rewrite bool_decide_eq_false_2 by lia. cbn [mret M_ret].
  rewrite run_bind. change (sleep_or 500 (with_sleep (sleep_or 200 kw) kw)) with (sleep_or 200 kw).
  rewrite time_sleep_overflow by done. reflexivity.
Qed.

(** A pause beyond what [time.sleep] takes ends the traversal at its
    first page: the request is answered, and the pause raises
    [OverflowError], which the decorator does not retry. *)
Lemma get_all_pages_pause_overflow env endpoint kw w fuel :
  let d := initial_params kw w in
  (0 < fuel)%nat →
  max_sleep < sleep_or 200 kw →
  (∀ tr, ∃ j, answers_with (server env tr (page_request endpoint kw d 1)) j) →
  let run := Exercism.get_all_pages env fuel [] endpoint kw w in
  run.1 = Raise OverflowError
  ∧ trace run.2 = trace w ++ [Call (page_request endpoint kw d 1)].
Proof.
  intros d Hfuel Hsl Hsrv run. subst run.
  destruct fuel as [|fuel]; [lia|].
  destruct (pop_params_run kw w) as (l & w1 & Hpop & Htr & Hd & _).
  unfold Exercism.get_all_pages. rewrite (run_bind_ok _ _ _ _ _ Hpop).
  cbn [for_count]. rewrite run_bind. unfold Exercism.fetch_page.
  rewrite run_bind. cbn [dict_setitem].
  set (w2 := {| trace := trace w1; heap := _ |}).
  assert (Hreq : snapshot Requests GET [Exercism.API +:+ "/" +:+ endpoint]
                   (with_params l kw) w2 = page_request endpoint kw d 1).
  { unfold snapshot, page_request. cbn. rewrite lookup_insert_eq. cbn.
    unfold page_params. by rewrite Hd. }
  destruct (Hsrv (trace w2)) as [j Hj].
  rewrite run_bind, (answers_with_overflow env _ (with_params l kw) w2 j)
    by (rewrite ?Hreq; done).
  rewrite Hreq. cbn. split; [done|]. by rewrite Htr.
Qed.

(** X15: the traversal has no bound of its own: it stops only when the
    server says so.  If every page comes back saying that more follow (a
    server that ignores the page asked for, or a total that keeps growing),
    then at any number of turns [get_all_pages] is still running: it has
    asked for the pages 1, 2, ... in turn, one request each, and has
    returned nothing.  The same holds of the cooperative client.  The
    blocking client pauses with [time.sleep]: a pause beyond its range
    raises [OverflowError] after the first request, and that is the one
    way out that is not the server's. *)
Theorem get_all_pages_stops_only_when_told (env : Env) (endpoint : string)
    (kw : Kwargs) (w : World) (pages : Z → list Json) (cur tot : Z → Z) :
  let d := initial_params kw w in
  (0 ≤ sleep_or 200 kw ≤ max_sleep →
   (∀ tr p, 1 ≤ p →
      ∃ j, answers_with (server env tr (page_request endpoint kw d p)) j
           ∧ is_page j (pages p) (cur p) (tot p) ∧ cur p < tot p) →
   ∀ fuel,
     let run := Exercism.get_all_pages env fuel [] endpoint kw w in
     run.1 = OutOfFuel
     ∧ calls (trace run.2)
       = calls (trace w) ++ (page_request endpoint kw d <$> seqZ 1 (Z.of_nat fuel)))
  ∧ ((∀ tr p, 1 ≤ p →
      ∃ j, answers_with (server env tr (async_page_request env endpoint kw d p)) j
           ∧ is_page j (pages p) (cur p) (tot p) ∧ cur p < tot p) →
   ∀ fuel,
     let run := AsyncExercism.get_all_pages env fuel [] endpoint kw w in
     run.1 = OutOfFuel
     ∧ calls (trace run.2)
       = calls (trace w)
         ++ (async_page_request env endpoint kw d <$> seqZ 1 (Z.of_nat fuel)))
  ∧ (max_sleep < sleep_or 200 kw →
     (∀ tr p, 1 ≤ p →
        ∃ j, answers_with (server env tr (page_request endpoint kw d p)) j
             ∧ is_page j (pages p) (cur p) (tot p) ∧ cur p < tot p) →
     ∀ fuel, (0 < fuel)%nat →
       let run := Exercism.get_all_pages env fuel [] endpoint kw w in
       run.1 = Raise OverflowError
       ∧ calls (trace run.2) = calls (trace w) ++ [page_request endpoint kw d 1]).
Proof.
  intros d.
  destruct (pop_params_run kw w) as (l & w1 & Hpop & Htr & Hd & _).
  split; [|split].
  3: { intros Hsl Hsrv fuel Hfuel run. subst run.
       destruct (get_all_pages_pause_overflow env endpoint kw w fuel Hfuel Hsl) as [Hr Ht].
       - intros tr. destruct (Hsrv tr 1 ltac:(lia)) as (j & Hj & _). eauto.
       - split; [exact Hr|]. rewrite Ht, calls_app. reflexivity. }
  - intros Hsl Hsrv fuel run. subst run.
    unfold Exercism.get_all_pages. rewrite (run_bind_ok _ _ _ _ _ Hpop).
    rewrite (for_count_forever _ (λ p acc, acc ++ pages p)
               (turn_page l d (page_request endpoint kw d) (sleep_or 200 kw))
               (reads_as l d)); [|clear fuel|lia|done].
    + cbn [fst snd]. split; [done|]. by rewrite turned_pages_calls, Htr.
    + intros p acc w0 Hp Hw0. split; [apply turn_page_reads_as|].
      destruct (Hsrv [] p Hp) as (_ & _ & _ & Hlt).
      rewrite (fetch_page_step env l endpoint kw d (pages p) (cur p) (tot p)); [|done..|].
      * by rewrite bool_decide_eq_false_2 by lia.
      * intros tr. destruct (Hsrv tr p Hp) as (j & ? & ? & _). eauto.
  - intros Hsrv fuel run. subst run.
    unfold AsyncExercism.get_all_pages. rewrite (run_bind_ok _ _ _ _ _ Hpop).
    rewrite (for_count_forever _ (λ p acc, acc ++ pages p)
               (turn_page l d (async_page_request env endpoint kw d)
                  (Z.max 0 (sleep_or 200 kw)))
               (reads_as l d)); [|clear fuel|lia|done].
    + cbn [fst snd]. split; [done|]. by rewrite turned_pages_calls, Htr.
    + intros p acc w0 Hp Hw0. split; [apply turn_page_reads_as|].
      destruct (Hsrv [] p Hp) as (_ & _ & _ & Hlt).
      rewrite (async_fetch_page_step env l endpoint kw d (pages p) (cur p) (tot p)); [|done|].
      * by rewrite bool_decide_eq_false_2 by lia.
      * intros tr. destruct (Hsrv tr p Hp) as (j & ? & ? & _). eauto.
Qed.

Lemma get_all_pages_stops_only_when_told_witness :
  (Exercism.get_all_pages stuck 7 [] "solutions" no_kwargs fresh_world).1 = OutOfFuel
  ∧ length (calls (trace (Exercism.get_all_pages stuck 7 [] "solutions" no_kwargs
                            fresh_world).2)) = 7%nat.
Proof.
  destruct (proj1 (get_all_pages_stops_only_when_told stuck "solutions" no_kwargs
    fresh_world (λ _, [JStr "a"]) (λ _, 1) (λ _, 2))) with (fuel := 7%nat) as [H1 H2].
  - split; vm_compute; congruence.
  - intros tr p Hp. eexists. split; [|split; [|lia]].
    + eexists. split; [reflexivity|]. split; [reflexivity|]. split; [cbn; lia|reflexivity].
    + split; [reflexivity|]. eexists. split; [reflexivity|]. split; reflexivity.
  - split; [exact H1|]. rewrite H2. reflexivity.
Defined.

(** *** The dictionaries *)

Global Instance same_heap_preorder : PreOrder same_heap.
Proof. split; unfold same_heap; [done|congruence]. Qed.

Global Instance untouched_preorder l : PreOrder (untouched l).
Proof.
  split.
  - by intros w l' _ _.
  - intros w1 w2 w3 H12 H23 l' Hl Hne.
    transitivity (heap w2 !! l'); [|by apply H12].
    apply H23; [|done]. by rewrite H12.
Qed.

Lemma same_heap_untouched l w w' : same_heap w w' → untouched l w w'.
Proof. intros H l' _ _. by rewrite H. Qed.

Lemma keeps_weaken {A} (R R' : World → World → Prop) (m : M A) :
  (∀ w w', R w w' → R' w w') → keeps R m → keeps R' m.
Proof. intros HR Hm w r w' H. by eapply HR, Hm. Qed.

Lemma same_heap_send env c m args kw : keeps same_heap (send env c m args kw).
Proof. intros w r w' H. by apply send_world in H as ->. Qed.

Lemma same_heap_asyncio_sleep ms : keeps same_heap (asyncio_sleep ms).
Proof. by intros w r w' [= _ <-]. Qed.

Lemma same_heap_py_int text : keeps same_heap (py_int text).
Proof. destruct text; by intros w r w' [= _ <-]. Qed.

Lemma same_heap_json resp : keeps same_heap (json resp).
Proof. unfold json. destruct (body resp); by intros w r w' [= _ <-]. Qed.

Lemma same_heap_async_get_json env args endpoint kw :
  keeps same_heap (AsyncExercism.get_json env args endpoint kw).
Proof.
  assert (Htail : ∀ resp,
    keeps same_heap (AsyncExercism.raise_for_status resp;;
                     asyncio_sleep (sleep_or 200 kw);; json resp)).
  { intros resp. apply keeps_bind; [apply _| |intros _].
    - unfold AsyncExercism.raise_for_status. case_bool_decide; by intros w r w' [= _ <-].
    - apply keeps_bind; [apply _|apply same_heap_asyncio_sleep|intros _].
      apply same_heap_json. }
  unfold AsyncExercism.get_json.
  apply keeps_bind; [apply _|apply same_heap_send|intros resp].
  destruct (retry_after resp) as [text|]; [|apply Htail].
  apply keeps_bind; [apply _|apply same_heap_py_int|intros d].
  apply keeps_bind; [apply _|apply same_heap_asyncio_sleep|intros _].
  apply keeps_bind; [apply _|apply same_heap_send|intros resp2].
  apply Htail.
Qed.

Lemma same_heap_async_get_json_with_retries env args endpoint kw :
  keeps same_heap (AsyncExercism.get_json_with_retries env args endpoint kw).
Proof.
  intros w r w'. rewrite async_get_json_with_retries_once.
  apply same_heap_async_get_json.
Qed.

Lemma same_heap_get_json_with_retries env args kw :
  keeps same_heap (Exercism.get_json_with_retries env args kw).
Proof. intros w r w' H. by apply get_json_with_retries_repeats in H as [H _]. Qed.

Lemma untouched_dict_setitem l k v : keeps (untouched (Some l)) (dict_setitem l k v).
Proof.
  intros w r w' [= _ <-] l' _ Hne. cbn. apply lookup_insert_ne. congruence.
Qed.

Lemma untouched_page_loop (fetch : Kwargs → M Json) (l : loc) (kw : Kwargs) fuel :
  (∀ kw, keeps same_heap (fetch kw)) →
  keeps (untouched (Some l))
    (for_count fuel 1 []
       (λ page all_data,
          dict_setitem l "page" (JStr (str page));;
          response ← fetch (with_params l kw);
          results ← lift (getitem response "results" ≫= as_list);
          let all_data := all_data ++ results in
          last ← lift (is_last_page response);
          mret (if last : bool then Break all_data else Continue all_data))).
Proof.
  intros Hfetch. apply keeps_for_count; [apply _|]. intros p acc.
  apply keeps_bind; [apply _|apply untouched_dict_setitem|intros _].
  apply keeps_bind; [apply _| |intros response].
  { eapply keeps_weaken; [apply same_heap_untouched|apply Hfetch]. }
  apply keeps_bind; [apply _|apply keeps_lift, _|intros results].
  apply keeps_bind; [apply _|apply keeps_lift, _|intros last].
  apply keeps_ret, _.
Qed.

Lemma untouched_pop_params kw w l w1 w' :
  pop_params kw w = (Ok l, w1) →
  untouched (Some l) w1 w' →
  untouched (kw_params kw) w w'.
Proof.
  unfold pop_params. destruct (kw_params kw) as [l0|].
  - by intros [= <- <-].
  - intros [= <- <-] H l' Hl _.
    assert (l' ≠ fresh (dom (heap w))) as Hne.
    { intros ->. apply elem_of_dom in Hl. by apply is_fresh in Hl. }
    rewrite H.
    + cbn. by apply lookup_insert_ne.
    + cbn. by rewrite lookup_insert_ne.
    + congruence.
Qed.

(** X16: [get_all_pages] touches no dictionary but [params], however it
    ends: whether it returns, raises on some page or is still running,
    every dictionary that existed before, the caller's [params] apart,
    reads as it did.  Without [params] the dictionary it fills is a new
    one. *)
Theorem get_all_pages_touches_only_params (env : Env) (fuel : nat)
    (args : list string) (endpoint : string) (kw : Kwargs) (w : World) :
  untouched (kw_params kw) w (Exercism.get_all_pages env fuel args endpoint kw w).2
  ∧ untouched (kw_params kw) w (AsyncExercism.get_all_pages env fuel args endpoint kw w).2.
Proof.
  split.
  - unfold Exercism.get_all_pages. rewrite run_bind.
    destruct (pop_params kw w) as [[l|e|] w1] eqn:Hpop;
      [|unfold pop_params, dict_new in Hpop; destruct (kw_params kw); simplify_eq..].
    destruct (for_count fuel 1 [] _ w1) as [r w'] eqn:Hloop.
    eapply untouched_pop_params; [exact Hpop|]. cbn [snd].
    eapply (untouched_page_loop
              (λ k, Exercism.get_json_with_retries env
                      ((Exercism.API +:+ "/" +:+ endpoint) :: args) k) l kw fuel);
      [|exact Hloop].
    intros k. apply same_heap_get_json_with_retries.
  - unfold AsyncExercism.get_all_pages. rewrite run_bind.
    destruct (pop_params kw w) as [[l|e|] w1] eqn:Hpop;
      [|unfold pop_params, dict_new in Hpop; destruct (kw_params kw); simplify_eq..].
    destruct (for_count fuel 1 [] _ w1) as [r w'] eqn:Hloop.
    eapply untouched_pop_params; [exact Hpop|]. cbn [snd].
    eapply (untouched_page_loop
              (λ k, AsyncExercism.get_json_with_retries env args endpoint k) l kw fuel);
      [|exact Hloop].
    intros k. apply same_heap_async_get_json_with_retries.
Qed.

Lemma unreadable_page_raises j e acc w :
  unreadable_page j e →
  (results ← lift (getitem j "results" ≫= as_list);
   let all_data := acc ++ results in
   last ← lift (is_last_page j);
   mret (if last : bool then Break all_data else Continue all_data)) w
  = (Raise e, w).
Proof.
  intros [Hr | (rs & Hr & H)]; rewrite run_bind; unfold lift at 1; rewrite Hr; [done|].
  cbn [mbind Outcome_bind as_list]. rewrite run_bind. unfold lift at 1, is_last_page.
  destruct H as [Hm | (meta & Hm & [Hc | (cur & Hc & Ht)])]; rewrite Hm; [done|..];
    cbn [mbind Outcome_bind]; rewrite Hc; [done|].
  cbn [mbind Outcome_bind]. by rewrite Ht.
Qed.

(** X17: a first page that cannot be read ends the traversal with the
    error of the failing subscript ([KeyError] for a missing key), after
    the one request and its pause: the decorator retries failed requests,
    not answers it cannot use, and nothing is returned.  The same holds of
    the cooperative client.  The pause of the blocking client is
    [time.sleep]'s: one beyond its range raises [OverflowError] in its
    place, before the answer is read. *)
Theorem get_all_pages_needs_a_page_envelope (env : Env) (endpoint : string)
    (kw : Kwargs) (w : World) (j : Json) (e : Exn) (fuel : nat) :
  let d := initial_params kw w in
  unreadable_page j e →
  (0 < fuel)%nat →
  (0 ≤ sleep_or 200 kw ≤ max_sleep →
   (∀ tr, answers_with (server env tr (page_request endpoint kw d 1)) j) →
   let run := Exercism.get_all_pages env fuel [] endpoint kw w in
   run.1 = Raise e
   ∧ trace run.2
     = trace w ++ [Call (page_request endpoint kw d 1); Sleep (sleep_or 200 kw)])
  ∧ ((∀ tr, answers_with (server env tr (async_page_request env endpoint kw d 1)) j) →
   let run := AsyncExercism.get_all_pages env fuel [] endpoint kw w in
   run.1 = Raise e
   ∧ trace run.2
     = trace w ++ [Call (async_page_request env endpoint kw d 1);
                   Sleep (Z.max 0 (sleep_or 200 kw))])
  ∧ (max_sleep < sleep_or 200 kw →
     (∀ tr, answers_with (server env tr (page_request endpoint kw d 1)) j) →
     let run := Exercism.get_all_pages env fuel [] endpoint kw w in
     run.1 = Raise OverflowError
     ∧ trace run.2 = trace w ++ [Call (page_request endpoint kw d 1)]).
Proof.
  intros d Hbad Hfuel.
  assert (Hover : max_sleep < sleep_or 200 kw →
     (∀ tr, answers_with (server env tr (page_request endpoint kw d 1)) j) →
     let run := Exercism.get_all_pages env fuel [] endpoint kw w in
     run.1 = Raise OverflowError
     ∧ trace run.2 = trace w ++ [Call (page_request endpoint kw d 1)]).
  { intros Hsl Hsrv. apply get_all_pages_pause_overflow; eauto. }
  destruct fuel as [|fuel]; [lia|].
  destruct (pop_params_run kw w) as (l & w1 & Hpop & Htr & Hd & _).
  split; [|split; [|exact Hover]].
  - intros Hsl Hsrv run. subst run.
    unfold Exercism.get_all_pages. rewrite (run_bind_ok _ _ _ _ _ Hpop).
    cbn [for_count]. rewrite run_bind. unfold Exercism.fetch_page.
    rewrite run_bind. cbn [dict_setitem].
    set (w2 := {| trace := trace w1; heap := _ |}).
    assert (Hreq : snapshot Requests GET [Exercism.API +:+ "/" +:+ endpoint]
                     (with_params l kw) w2 = page_request endpoint kw d 1).
    { unfold snapshot, page_request. cbn. rewrite lookup_insert_eq. cbn.
      unfold page_params. by rewrite Hd. }
    rewrite run_bind, (answers_with_run env _ (with_params l kw) w2 j)
      by (rewrite ?Hreq; done).
    rewrite Hreq, (unreadable_page_raises j e) by done.
    cbn. split; [done|]. by rewrite Htr, <- app_assoc.
  - intros Hsrv run. subst run.
    unfold AsyncExercism.get_all_pages. rewrite (run_bind_ok _ _ _ _ _ Hpop).
    cbn [for_count]. rewrite run_bind. unfold AsyncExercism.fetch_page.
    rewrite run_bind. cbn [dict_setitem].
    set (w2 := {| trace := trace w1; heap := _ |}).
    assert (Hreq : snapshot Aiohttp GET [AsyncExercism.API +:+ "/" +:+ endpoint]
                     (AsyncExercism.with_headers env (with_params l kw)) w2
                   = async_page_request env endpoint kw d 1).
    { unfold snapshot, async_page_request, AsyncExercism.with_headers. cbn.
      destruct (kw_rest kw !! "headers"); cbn; rewrite lookup_insert_eq; cbn;
        unfold page_params; by rewrite Hd. }
    rewrite run_bind, (async_answers_with_run env endpoint (with_params l kw) w2 j)
      by (rewrite ?Hreq; done).
    rewrite Hreq, (unreadable_page_raises j e) by done.
    cbn. split; [done|]. by rewrite Htr, <- app_assoc.
Qed.

Lemma get_all_pages_needs_a_page_envelope_witness :
  (Exercism.get_all_pages bare_listing 3 [] "solutions" no_kwargs fresh_world).1
  = Raise (KeyError "meta").
Proof.
  refine (proj1 (proj1 (get_all_pages_needs_a_page_envelope bare_listing "solutions"
    no_kwargs fresh_world (JObj [("results", JList [JStr "a"])]) (KeyError "meta") 3
    _ _) _ _)).
  - right. exists [JStr "a"]. split; [reflexivity|]. left. reflexivity.
  - lia.
  - split; vm_compute; congruence.
  - intros tr. eexists. split; [reflexivity|]. split; [reflexivity|].
    split; [cbn; lia|reflexivity].
Defined.

(** ** The watcher, cycle by cycle *)

Lemma filter_M_reads_all {A} (p : A → M bool) (q : A → bool) xs w :
  (∀ x w, x ∈ xs → p x w = (Ok (q x), w)) →
  filter_M p xs w = (Ok (filter (λ x, q x) xs), w).
Proof.
  induction xs as [|x xs IH]; intros Hp; cbn [filter_M]; [done|].
  rewrite run_bind, Hp by left. rewrite run_bind, IH by (intros; apply Hp; by right).
  cbn [mret M_ret]. destruct (q x) eqn:E.
  - by rewrite filter_cons_True by (by apply Is_true_true).
  - by rewrite filter_cons_False by (by apply Is_true_false).
Qed.

Lemma map_M_uuid_of rs w :
  Forall (λ r, ∃ u, getitem r "uuid" ≫= as_str = Ok u) rs →
  map_M Exercism.uuid_of rs w = (Ok (omap uuid_key rs), w).
Proof.
  induction 1 as [|r rs [u Hu] _ IH]; cbn [map_M]; [done|].
  rewrite run_bind. unfold Exercism.uuid_of at 1, lift. rewrite Hu.
  rewrite run_bind, IH. cbn. by rewrite (uuid_key_Ok _ _ Hu).
Qed.

Lemma unread_notifications_run env w j rs :
  answers_with (server env (trace w) notifications_request) j →
  getitem j "results" = Ok (JList rs) →
  Forall readable rs →
  Exercism.unread_notifications env w
  = (Ok (filter (λ r, is_unread r) rs), slept 200 (called notifications_request w)).
Proof.
  intros Hans Hres Hread. unfold Exercism.unread_notifications, Exercism.notifications.
  rewrite run_bind, (answers_with_run env _ no_kwargs w j) by done.
  rewrite run_bind. unfold lift at 1. rewrite Hres. cbn [mbind Outcome_bind as_list].
  apply filter_M_reads_all. intros r w0 Hin.
  rewrite Forall_forall in Hread. destruct (Hread r Hin) as [[b Hb] _].
  rewrite run_bind. unfold lift, is_unread. by rewrite Hb.
Qed.

Lemma owed_filter seen (rs : list Json) :
  filter (λ r, owed seen r) rs
  = filter (λ r, not_seen seen r) (filter (λ r, is_unread r) rs).
Proof.
  induction rs as [|r rs IH]; [done|]. unfold owed at 1.
  destruct (is_unread r) eqn:E.
  - rewrite (filter_cons_True (λ r, is_unread r)) by (by apply Is_true_true).
    cbn [andb]. destruct (not_seen seen r) eqn:F.
    + rewrite !filter_cons_True by (apply Is_true_true; by rewrite ?E, ?F).
      by rewrite <- IH.
    + rewrite !filter_cons_False by (apply Is_true_false; by rewrite ?E, ?F).
      by rewrite <- IH.
  - rewrite (filter_cons_False (λ r, is_unread r)) by (by apply Is_true_false).
    rewrite filter_cons_False by (apply Is_true_false; by rewrite E). exact IH.
Qed.

Lemma for_each_invoke_quiet callback rs w :
  (∀ tr r, r ∈ rs → callback tr r = None) →
  for_each rs tt (λ result _, invoke callback result) w
  = (Ok tt, {| trace := trace w ++ (Dispatch <$> rs); heap := heap w |}).
Proof.
  revert w. induction rs as [|r rs IH]; intros w Hq; cbn [for_each].
  - cbn. rewrite app_nil_r. by destruct w.
  - rewrite run_bind. unfold invoke at 1. rewrite Hq by left.
    rewrite IH by (intros; apply Hq; by right). cbn. by rewrite <- app_assoc.
Qed.

(** The part of a polling cycle that follows the fetch. *)
Lemma poll_cycle_fetched env callback seen w unread w1 :
  Exercism.unread_notifications env (slept (1000 * Exercism.WATCHER_SLEEP_SEC) w)
    = (Ok unread, w1) →
  Exercism.poll_cycle env callback seen w
  = (unseen ← filter_M (λ r, uuid ← Exercism.uuid_of r;
                             mret (bool_decide (uuid ∉ seen))) unread;
     for_each unseen tt (λ result _, invoke callback result);;
     new ← map_M Exercism.uuid_of unseen;
     mret (seen ∪ list_to_set new)) w1.
Proof.
  intros Hfetch. unfold Exercism.poll_cycle.
  rewrite run_bind, time_sleep_run by (split; vm_compute; congruence).
  rewrite run_bind. unfold try_except. rewrite run_bind, Hfetch. reflexivity.
Qed.

Lemma owed_has_uuid (rs : list Json) :
  Forall readable rs →
  Forall (λ r, ∃ u, getitem r "uuid" ≫= as_str = Ok u) (filter (λ r, is_unread r) rs).
Proof.
  intros H. apply Forall_forall. intros r [Hu Hin]%list_elem_of_filter.
  rewrite Forall_forall in H. destruct (H r Hin) as [_ Hr].
  apply Hr. by destruct (is_unread r).
Qed.

Lemma unseen_run seen unread w :
  Forall (λ r, ∃ u, getitem r "uuid" ≫= as_str = Ok u) unread →
  filter_M (λ r, uuid ← Exercism.uuid_of r; mret (bool_decide (uuid ∉ seen))) unread w
  = (Ok (filter (λ r, not_seen seen r) unread), w).
Proof.
  intros H. apply filter_M_reads_all. intros r w0 Hin.
  rewrite Forall_forall in H. destruct (H r Hin) as [u Hu].
  rewrite run_bind. unfold Exercism.uuid_of, lift, not_seen. rewrite Hu.
  by rewrite (uuid_key_Ok _ _ Hu).
Qed.

(** X18: a polling cycle delivers what it owes.  When the listing comes
    back and can be read, and the callback returns, the cycle hands the
    callback exactly the records that are unread and of a UUID not seen
    before, in the order of the listing, after sleeping a quarter of an
    hour and fetching once; and it ends with exactly their UUIDs added to
    the seen-set. *)
Theorem poll_cycle_delivers_what_it_owes (env : Env) (callback : Callback)
    (seen : gset string) (w : World) (j : Json) (rs : list Json) :
  let new := filter (λ r, owed seen r) rs in
  answers_with
    (server env (trace w ++ [Sleep (1000 * Exercism.WATCHER_SLEEP_SEC)])
       notifications_request) j →
  getitem j "results" = Ok (JList rs) →
  Forall readable rs →
  (∀ tr r, r ∈ new → callback tr r = None) →
  Exercism.poll_cycle env callback seen w
  = (Ok (seen ∪ list_to_set (omap uuid_key new)), after_cycle w new).
Proof.
  intros new Hans Hres Hread Hquiet.
  rewrite (poll_cycle_fetched env callback seen w (filter (λ r, is_unread r) rs)
             (slept 200 (called notifications_request
                (slept (1000 * Exercism.WATCHER_SLEEP_SEC) w))))
    by (by apply (unread_notifications_run env _ j rs)).
  pose proof (owed_has_uuid rs Hread) as Huu.
  rewrite run_bind, unseen_run by done.
  rewrite <- owed_filter. fold new.
  rewrite run_bind, for_each_invoke_quiet by done.
  rewrite run_bind, map_M_uuid_of.
  - unfold after_cycle. cbn. rewrite <- !app_assoc. reflexivity.
  - subst new. rewrite owed_filter. apply Forall_forall.
    intros r [_ Hin]%list_elem_of_filter. rewrite Forall_forall in Huu. by apply Huu.
Qed.

Lemma mailbox_readable :
  Forall readable [notification "n1" false; notification "n2" false; notification "n3" true].
Proof.
  repeat constructor; try (by eexists); intros _; by eexists.
Qed.

Lemma poll_cycle_delivers_what_it_owes_witness :
  Exercism.poll_cycle mailbox quiet_callback {["n1"]} fresh_world
  = (Ok ({["n1"]} ∪ list_to_set ["n2"]), after_cycle fresh_world [notification "n2" false]).
Proof.
  assert (Hnew : filter (λ r, owed {["n1"]} r)
                   [notification "n1" false; notification "n2" false;
                    notification "n3" true]
                 = [notification "n2" false]) by (vm_compute; reflexivity).
  rewrite (poll_cycle_delivers_what_it_owes mailbox quiet_callback {["n1"]} fresh_world
    (JObj [("results", JList [notification "n1" false; notification "n2" false;
                              notification "n3" true]);
           ("meta", JObj [("unread_count", JNum 0)])])
    [notification "n1" false; notification "n2" false; notification "n3" true]).
  - by rewrite Hnew.
  - eexists. split; [reflexivity|]. split; [reflexivity|]. split; [cbn; lia|reflexivity].
  - reflexivity.
  - apply mailbox_readable.
  - done.
Defined.

Lemma for_each_invoke_fails callback before x after e w :
  (∀ tr r, r ∈ before → callback tr r = None) →
  (∀ tr, callback tr x = Some e) →
  for_each (before ++ x :: after) tt (λ result _, invoke callback result) w
  = (Raise e, {| trace := trace w ++ (Dispatch <$> before ++ [x]); heap := heap w |}).
Proof.
  intros Hq Hx.
  erewrite for_each_fails; [reflexivity|by apply for_each_invoke_quiet|].
  unfold invoke. rewrite Hx. cbn. by rewrite fmap_app, app_assoc.
Qed.

(** X19: the watcher does not survive its callback.  The handler of the
    loop covers the fetch alone: an exception of the callback, of whatever
    class, ends the cycle and with it [notification_pusher].  The records
    before the failing one were handed over, the failing one was too, and
    those after it never are. *)
Theorem callback_failure_ends_the_watcher (env : Env) (callback : Callback)
    (seen : gset string) (w : World) (j : Json) (rs : list Json)
    (before after : list Json) (x : Json) (e : Exn) (n : nat) :
  answers_with
    (server env (trace w ++ [Sleep (1000 * Exercism.WATCHER_SLEEP_SEC)])
       notifications_request) j →
  getitem j "results" = Ok (JList rs) →
  Forall readable rs →
  filter (λ r, owed seen r) rs = before ++ x :: after →
  (∀ tr r, r ∈ before → callback tr r = None) →
  (∀ tr, callback tr x = Some e) →
  Exercism.poll_cycle env callback seen w = (Raise e, after_cycle w (before ++ [x]))
  ∧ Exercism.polling env (S n) callback seen w
    = (Raise e, after_cycle w (before ++ [x])).
Proof.
  intros Hans Hres Hread Hnew Hquiet Hx.
  assert (Hcycle : Exercism.poll_cycle env callback seen w
                   = (Raise e, after_cycle w (before ++ [x]))).
  { rewrite (poll_cycle_fetched env callback seen w (filter (λ r, is_unread r) rs)
               (slept 200 (called notifications_request
                  (slept (1000 * Exercism.WATCHER_SLEEP_SEC) w))))
      by (by apply (unread_notifications_run env _ j rs)).
    pose proof (owed_has_uuid rs Hread) as Huu.
    rewrite run_bind, unseen_run by done.
    rewrite <- owed_filter, Hnew.
    rewrite run_bind, (for_each_invoke_fails callback before x after e) by done.
    unfold after_cycle. cbn. by rewrite <- !app_assoc. }
  split; [done|]. cbn [Exercism.polling]. by rewrite run_bind, Hcycle.
Qed.

Lemma callback_failure_ends_the_watcher_witness :
  Exercism.polling mailbox 3 choking_callback {["n1"]} fresh_world
  = (Raise (CallbackError "n2"), after_cycle fresh_world [notification "n2" false]).
Proof.
  refine (proj2 (callback_failure_ends_the_watcher mailbox choking_callback {["n1"]}
    fresh_world
    (JObj [("results", JList [notification "n1" false; notification "n2" false;
                              notification "n3" true]);
           ("meta", JObj [("unread_count", JNum 0)])])
    [notification "n1" false; notification "n2" false; notification "n3" true]
    [] [] (notification "n2" false) (CallbackError "n2") 2 _ _ _ _ _ _)).
  - eexists. split; [reflexivity|]. split; [reflexivity|]. split; [cbn; lia|reflexivity].
  - reflexivity.
  - apply mailbox_readable.
  - vm_compute. reflexivity.
  - intros tr r Hr. by apply elem_of_nil in Hr.
  - reflexivity.
Defined.

(** ** Syncing *)

Lemma sync_solution_run env synced s updates w :
  syncable env synced s →
  Exercism.sync_solution env s updates w
  = (Ok (updates ++ (synced <$> stale_uuids [s])),
     {| trace := trace w ++ concat (paced 500 ∘ sync_request <$> stale_uuids [s]);
        heap := heap w |}).
Proof.
  intros [[b Hb] Hstale].
  assert (Hood : out_of_date s = truthy b) by (unfold out_of_date; by rewrite Hb).
  unfold Exercism.sync_solution.
  rewrite run_bind. unfold lift at 1. rewrite Hb.
  destruct (truthy b); cbn [negb].
  - destruct Hstale as (uuid & Hu & Hsrv); [done|].
    assert (stale_uuids [s] = [uuid]) as ->.
    { unfold stale_uuids. cbn. by rewrite Hood, (uuid_key_Ok _ _ Hu). }
    rewrite run_bind. unfold lift at 1. rewrite Hu.
    destruct (Hsrv (trace w)) as (r & j & Hs & Hr & Hst & Hbody & Hsol).
    rewrite run_bind. unfold Exercism.patch.
    rewrite (request_not_rate_limited env PATCH _ _ w r) by done.
    rewrite run_bind. unfold Exercism.raise_for_status.
    rewrite bool_decide_eq_false_2 by done. cbn [mret M_ret].
    rewrite run_bind, time_sleep_run by done.
    cbn [mret M_ret]. rewrite run_bind. unfold json. rewrite Hbody. cbn [mret M_ret].
    rewrite run_bind. unfold lift. rewrite Hsol.
    unfold mret, M_ret, slept, called. cbn [trace heap]. by rewrite <- app_assoc.
  - assert (stale_uuids [s] = []) as ->.
    { unfold stale_uuids. cbn. by rewrite Hood. }
    cbn. rewrite !app_nil_r. by destruct w.
Qed.

Lemma stale_uuids_cons s solutions :
  stale_uuids (s :: solutions) = stale_uuids [s] ++ stale_uuids solutions.
Proof. unfold stale_uuids. cbn. by destruct (if out_of_date s then _ else _). Qed.

Lemma sync_loop_run env synced solutions updates w :
  Forall (syncable env synced) solutions →
  for_each solutions updates (Exercism.sync_solution env) w
  = (Ok (updates ++ (synced <$> stale_uuids solutions)),
     {| trace := trace w ++ concat (paced 500 ∘ sync_request <$> stale_uuids solutions);
        heap := heap w |}).
Proof.
  intros H. revert updates w.
  induction H as [|s solutions Hs _ IH]; intros updates w; cbn [for_each].
  - cbn. rewrite !app_nil_r. by destruct w.
  - rewrite run_bind, (sync_solution_run env synced) by done.
    rewrite IH, (stale_uuids_cons s solutions). cbn [trace heap].
    by rewrite !fmap_app, concat_app, <- !app_assoc.
Qed.

(** X20: [update_exercises] syncs the solutions that are out of date and
    no other.  Once the traversal has returned the solutions, and with a
    server that accepts the syncs, it sends one PATCH to the [sync] URL of
    each solution that says it is out of date, in the order of the
    traversal, each followed by a pause of 0.5 s; a solution that is up to
    date costs no request.  What it returns is the [solution] record of
    each answer, in the same order. *)
Theorem update_exercises_syncs_the_stale (env : Env) (fuel : nat) (w w1 : World)
    (solutions : list Json) (synced : string → Json) :
  Exercism.get_all_pages env fuel [] "solutions" no_kwargs w = (Ok solutions, w1) →
  Forall (syncable env synced) solutions →
  Exercism.update_exercises env fuel w
  = (Ok (synced <$> stale_uuids solutions),
     {| trace := trace w1 ++ concat (paced 500 ∘ sync_request <$> stale_uuids solutions);
        heap := heap w1 |}).
Proof.
  intros Hpages Hsync. unfold Exercism.update_exercises.
  rewrite run_bind, Hpages. by rewrite (sync_loop_run env synced).
Qed.

Lemma shelf_syncable :
  Forall (syncable shelf (λ _, JObj [("is_out_of_date", JBool false)]))
    [solution "s1" true; solution "s2" false; solution "s3" true].
Proof.
  assert (Hacc : ∀ uuid tr, ∃ r j,
            server shelf tr (sync_request uuid) = Answer r
            ∧ retry_after r = None ∧ ¬ (400 ≤ status r < 600)
            ∧ body r = Some j
            ∧ getitem j "solution" = Ok (JObj [("is_out_of_date", JBool false)])).
  { intros uuid tr. eexists _, _. split; [reflexivity|]. split; [reflexivity|].
    split; [cbn; lia|]. split; reflexivity. }
  apply Forall_cons. split; [|apply Forall_cons; split; [|apply Forall_cons; split; [|constructor]]].
  - split; [by eexists|]. intros _. exists "s1". split; [reflexivity|]. apply Hacc.
  - split; [by eexists|]. intros H. discriminate H.
  - split; [by eexists|]. intros _. exists "s3". split; [reflexivity|]. apply Hacc.
Qed.

Lemma update_exercises_syncs_the_stale_witness :
  calls (trace (Exercism.update_exercises shelf 1 fresh_world).2)
  = [page_request "solutions" no_kwargs ∅ 1; sync_request "s1"; sync_request "s3"].
Proof.
  rewrite (update_exercises_syncs_the_stale shelf 1 fresh_world
    (Exercism.get_all_pages shelf 1 [] "solutions" no_kwargs fresh_world).2
    [solution "s1" true; solution "s2" false; solution "s3" true]
    (λ _, JObj [("is_out_of_date", JBool false)])).
  - vm_compute. reflexivity.
  - vm_compute. reflexivity.
  - apply shelf_syncable.
Defined.

(** ** Failing solutions *)

Lemma field_of_Ok s k v : getitem s k = Ok v → field_of s k = v.
Proof. unfold field_of. by intros ->. Qed.

Lemma failing_solution_run track s solutions :
  reportable track s →
  Exercism.failing_solution track s solutions
  = Ok (solutions ++ if is_failing track s then [report s] else []).
Proof.
  intros (Htrack & Hstatus & Hrest). unfold Exercism.failing_solution.
  assert (Hskip : Exercism.other_track track s = Ok (negb (on_track track s))).
  { unfold Exercism.other_track, on_track. destruct track as [t|]; [|done].
    destruct (String.eqb t "") eqn:Et; [done|].
    destruct (Htrack t eq_refl) as (tr & Htr & slug & Hslug); [by apply String.eqb_neq|].
    rewrite Htr. cbn. rewrite Hslug. cbn. unfold slug_of.
    by rewrite (field_of_Ok _ _ _ Htr), (field_of_Ok _ _ _ Hslug). }
  rewrite Hskip. cbn [mbind Outcome_bind]. unfold is_failing.
  destruct (on_track track s) eqn:Hon; cbn [negb andb]; [|by rewrite app_nil_r].
  destruct (Hstatus eq_refl) as (st & Hst). unfold Exercism.tests_status. rewrite Hst.
  cbn [mbind Outcome_bind].
  assert (Hpass : passes s = eq_str st "passed" || eq_str st "not_queued").
  { unfold passes. by rewrite (field_of_Ok _ _ _ Hst). }
  rewrite <- Hpass. destruct (passes s) eqn:Hp; cbn [negb]; [by rewrite app_nil_r|].
  destruct Hrest as (Hkeys & (ex & Hex & exs & Hexs) & (tr & Htr & trs & Htrs)).
  { unfold is_failing. by rewrite Hon, Hp. }
  unfold Exercism.failing_keys in *.
  repeat match goal with
         | H : Forall _ (_ :: _) |- _ => apply Forall_cons in H as [[? ?] H]
         end.
  unfold report, slug_of.
  rewrite (field_of_Ok _ _ _ Hex), (field_of_Ok _ _ _ Hexs).
  rewrite (field_of_Ok _ _ _ Htr), (field_of_Ok _ _ _ Htrs).
  cbn [foldr foldl]. rewrite Hex, Htr.
  repeat match goal with
         | H : getitem s _ = Ok _ |- _ => rewrite H; rewrite ?(field_of_Ok _ _ _ H); clear H
         end.
  cbn [mbind Outcome_bind]. rewrite Hexs. cbn [mbind Outcome_bind]. rewrite Htrs.
  reflexivity.
Qed.

Lemma failing_loop_run track results solutions w :
  Forall (reportable track) results →
  for_each results solutions
    (λ solution acc, lift (Exercism.failing_solution track solution acc)) w
  = (Ok (solutions ++ (report <$> filter (λ s, is_failing track s) results)), w).
Proof.
  intros H. revert solutions.
  induction H as [|s results Hs _ IH]; intros solutions; cbn [for_each].
  - by rewrite app_nil_r.
  - rewrite run_bind. unfold lift at 1. rewrite (failing_solution_run track s) by done.
    rewrite IH. destruct (is_failing track s) eqn:E.
    + rewrite filter_cons_True by (by apply Is_true_true). by rewrite <- app_assoc.
    + rewrite filter_cons_False by (by apply Is_true_false). by rewrite app_nil_r.
Qed.

Lemma failing_page_run env track l pages T p solutions w :
  1 ≤ p ≤ T →
  reads_as l ∅ w →
  (∀ tr, ∃ j, answers_with (server env tr (solutions_request (Some p))) j
              ∧ getitem j "results" = Ok (JList (pages p))) →
  Forall (reportable track) (pages p) →
  ∃ w', Exercism.failing_page env track l p solutions w
        = (Ok (solutions ++ (report <$> filter (λ s, is_failing track s) (pages p))), w')
        ∧ trace w' = trace w ++ paced 200 (solutions_request (Some p))
        ∧ reads_as l ∅ w'.
Proof.
  intros Hp Hd Hsrv Hok. unfold Exercism.failing_page.
  rewrite run_bind. cbn [dict_setitem].
  set (w1 := {| trace := trace w; heap := _ |}).
  assert (Hd1 : reads_as l ∅ w1).
  { intros v. cbn. rewrite lookup_insert_eq. cbn. by rewrite insert_insert_eq. }
  assert (Hreq : snapshot Requests GET [Exercism.API +:+ "/solutions"]
                   (with_params l no_kwargs) w1 = solutions_request (Some p)).
  { unfold snapshot, solutions_request. cbn. rewrite lookup_insert_eq. cbn.
    by rewrite Hd. }
  destruct (Hsrv (trace w1)) as (j & Hans & Hres).
  rewrite run_bind, (answers_with_run env _ (with_params l no_kwargs) w1 j)
    by (rewrite ?Hreq; done).
  rewrite run_bind. unfold lift at 1. rewrite Hres. cbn [mbind Outcome_bind as_list].
  rewrite Hreq, failing_loop_run by done.
  eexists. split; [reflexivity|]. split.
  - cbn. by rewrite <- app_assoc.
  - intros v. apply Hd1.
Qed.

Lemma foldl_report_pages track (pages : Z → list Json) (acc : list Json) (ps : list Z) :
  foldl (λ a p, a ++ (report <$> filter (λ s, is_failing track s) (pages p))) acc ps
  = acc ++ (report <$> filter (λ s, is_failing track s) (concat (pages <$> ps))).
Proof.
  revert acc. induction ps as [|p ps IH]; intros acc; cbn.
  - by rewrite app_nil_r.
  - by rewrite IH, filter_app, fmap_app, app_assoc.
Qed.

(** X21: what [failing_solutions] reports and what it costs.  With a
    server that answers as the design supposes, it returns one record for
    every solution on the pages 1 to [T] whose tests status is neither
    [passed] nor [not_queued] and which, when a track is asked for, is of
    that track, in the order of the pages; [None] and the empty string
    ask for no track.  Each record holds seven fields of the solution and
    the slugs of its exercise and its track.  The listing is asked for
    once without a page and then page by page, so page 1 is fetched
    twice, and every answer is followed by a pause of 0.2 s. *)
Theorem failing_solutions_report (env : Env) (track : option string) (w : World)
    (T : Z) (pages : Z → list Json) :
  (∃ j meta, answers_with (server env (trace w) (solutions_request None)) j
             ∧ getitem j "meta" = Ok meta
             ∧ getitem meta "total_pages" = Ok (JNum T)) →
  (∀ tr p, 1 ≤ p ≤ T →
     ∃ j, answers_with (server env tr (solutions_request (Some p))) j
          ∧ getitem j "results" = Ok (JList (pages p))) →
  (∀ p, 1 ≤ p ≤ T → Forall (reportable track) (pages p)) →
  let run := Exercism.failing_solutions env track w in
  run.1 = Ok (report <$> filter (λ s, is_failing track s) (concat (pages <$> seqZ 1 T)))
  ∧ trace run.2
    = trace w ++ concat (paced 200 <$>
                    solutions_request None :: (solutions_request ∘ Some <$> seqZ 1 T)).
Proof.
  intros (j0 & meta & Hans & Hmeta & HT) Hpages Hok run.
  assert (∃ w', run = (Ok (report <$> filter (λ s, is_failing track s)
                                        (concat (pages <$> seqZ 1 T))), w')
                ∧ trace w' = trace w ++ concat (paced 200 <$>
                    solutions_request None :: (solutions_request ∘ Some <$> seqZ 1 T)))
    as (w' & -> & Htr); [|done].
  subst run. unfold Exercism.failing_solutions.
  rewrite run_bind. cbn [dict_of].
  set (l := fresh (dom (heap w))).
  set (w1 := {| trace := trace w; heap := _ |}).
  assert (Hd1 : reads_as l ∅ w1).
  { intros v. cbn. by rewrite lookup_insert_eq. }
  assert (Hreq : snapshot Requests GET [Exercism.API +:+ "/solutions"]
                   (with_params l no_kwargs) w1 = solutions_request None).
  { unfold snapshot, solutions_request. cbn. by rewrite lookup_insert_eq. }
  rewrite run_bind, (answers_with_run env _ (with_params l no_kwargs) w1 j0)
    by (rewrite ?Hreq; done).
  rewrite Hreq.
  rewrite run_bind. unfold lift at 1. rewrite Hmeta. cbn [mbind Outcome_bind]. rewrite HT.
  rewrite run_bind. unfold lift at 1. cbn [as_int].
  set (w2 := slept _ _).
  destruct (for_each_traced (Exercism.failing_page env track l)
              (λ p acc, acc ++ (report <$> filter (λ s, is_failing track s) (pages p)))
              (λ p, paced 200 (solutions_request (Some p)))
              (reads_as l ∅) (seqZ 1 T))
    with (acc := @nil Json) (w := w2) as (w' & Hrun & Htr & _).
  - intros p acc w0 Hin Hw0. apply elem_of_seqZ in Hin.
    apply (failing_page_run env track l pages T p acc w0);
      [lia|done|intros tr; apply Hpages; lia|apply Hok; lia].
  - done.
  - exists w'. rewrite Hrun. split.
    + do 2 f_equal. apply (foldl_report_pages track pages []).
    + rewrite Htr. cbn [w2 slept called trace w1]. rewrite <- !app_assoc.
      f_equal. cbn. do 2 f_equal. by rewrite <- list_fmap_compose.
Qed.

Lemma solved_reportable track uuid t status :
  reportable track (solved uuid t status).
Proof.
  split_and!.
  - intros t' _ _. eexists. split; [reflexivity|]. by eexists.
  - intros _. by eexists.
  - intros _. split_and!.
    + repeat constructor; by eexists.
    + eexists. split; [reflexivity|]. by eexists.
    + eexists. split; [reflexivity|]. by eexists.
Qed.

Lemma failing_solutions_report_witness :
  (Exercism.failing_solutions report_desk (Some "python") fresh_world).1
  = Ok [report (solved "s2" "python" "failed")].
Proof.
  refine (proj1 (failing_solutions_report report_desk (Some "python") fresh_world 1
    (λ _, four_solutions) _ _ _)).
  - eexists _, _. split.
    { eexists. split; [reflexivity|]. split; [reflexivity|]. split; [cbn; lia|reflexivity]. }
    split; reflexivity.
  - intros tr p Hp. eexists. split.
    { eexists. split; [reflexivity|]. split; [reflexivity|]. split; [cbn; lia|reflexivity]. }
    reflexivity.
  - intros p Hp. unfold four_solutions.
    repeat (apply Forall_cons; split; [apply solved_reportable|]). constructor.
Defined.

(** ** Streaming events *)

(** *** The sort *)

Lemma insert_by_key_perm {A} (x : Z * A) (l : list (Z * A)) :
  insert_by_key x l ≡ₚ x :: l.
Proof.
  induction l as [|y l IH]; cbn; [done|].
  destruct (y.1 <? x.1); [|done]. rewrite IH. apply perm_swap.
Qed.

Lemma sort_by_key_perm {A} (l : list (Z * A)) : sort_by_key l ≡ₚ l.
Proof.
  induction l as [|x l IH]; cbn; [done|].
  by rewrite insert_by_key_perm, IH.
Qed.

Lemma insert_by_key_sorted {A} (x : Z * A) (l : list (Z * A)) :
  Sorted (λ a b, a.1 ≤ b.1) l → Sorted (λ a b, a.1 ≤ b.1) (insert_by_key x l).
Proof.
  induction 1 as [|y l Hl IH Hy]; cbn; [by repeat constructor|].
  destruct (y.1 <? x.1) eqn:E.
  - apply Z.ltb_lt in E. constructor; [done|].
    destruct l as [|z l]; cbn in *.
    + constructor. lia.
    + destruct (z.1 <? x.1); constructor; [by inversion Hy|lia].
  - apply Z.ltb_ge in E. constructor; [by constructor|]. by constructor.
Qed.

Lemma sort_by_key_sorted {A} (l : list (Z * A)) :
  Sorted (λ a b, a.1 ≤ b.1) (sort_by_key l).
Proof.
  induction l as [|x l IH]; cbn; [constructor|]. by apply insert_by_key_sorted.
Qed.

Lemma insert_by_key_filter {A} (k : Z) (x : Z * A) (l : list (Z * A)) :
  filter (λ p, p.1 = k) (insert_by_key x l) = filter (λ p, p.1 = k) (x :: l).
Proof.
  induction l as [|y l IH]; cbn; [done|].
  destruct (y.1 <? x.1) eqn:E; [|done].
  apply Z.ltb_lt in E.
  rewrite (filter_cons _ y), IH, !filter_cons.
  repeat case_decide; try done; lia.
Qed.

Lemma sort_by_key_filter {A} (k : Z) (l : list (Z * A)) :
  filter (λ p, p.1 = k) (sort_by_key l) = filter (λ p, p.1 = k) l.
Proof.
  induction l as [|x l IH]; [done|].
  change (sort_by_key (x :: l)) with (insert_by_key x (sort_by_key l)).
  by rewrite insert_by_key_filter, !filter_cons, IH.
Qed.

(** *** The records *)

Lemma item_get_json k fields :
  item_get k (prod_map id VJson <$> fields) = as_value (getitem (JObj fields) k).
Proof.
  cbn. induction fields as [|[k' v] fields IH]; cbn; [done|].
  destruct (String.eqb k k'); [done|]. rewrite IH. by destruct (assoc k fields).
Qed.

Lemma item_get_set k v i : item_get k (item_set k v i) = Ok v.
Proof.
  induction i as [|[k' v'] i IH]; cbn.
  - by rewrite String.eqb_refl.
  - destruct (String.eqb k k') eqn:E; cbn; by rewrite ?String.eqb_refl, ?E.
Qed.

Lemma item_get_set_ne k k' v i : k ≠ k' → item_get k (item_set k' v i) = item_get k i.
Proof.
  intros Hne. induction i as [|[k2 v2] i IH]; cbn.
  - by apply String.eqb_neq in Hne as ->.
  - destruct (String.eqb k' k2) eqn:E; cbn.
    + apply String.eqb_eq in E as <-. by apply String.eqb_neq in Hne as ->.
    + by rewrite IH.
Qed.

Lemma parse_times_parsed i item : Exercism.parse_times i = Ok item → parsed i item.
Proof.
  unfold Exercism.parse_times. destruct i as [| | | | |fields]; try done. cbn [foldl].
  set (it0 := prod_map id VJson <$> fields).
  cbn [mbind Outcome_bind].
  destruct (item_get "starts_at" it0) as [[[| | |s| |]|]|e|] eqn:Hs; try done.
  cbn [mbind Outcome_bind].
  destruct (datetime.strptime_ms s) as [ts|e|] eqn:Hts; try done.
  cbn [mbind Outcome_bind].
  rewrite (item_get_set_ne "ends_at" "starts_at") by done.
  destruct (item_get "ends_at" it0) as [[[| | |e| |]|]|e|] eqn:He; try done.
  cbn [mbind Outcome_bind].
  destruct (datetime.strptime_ms e) as [te|e'|] eqn:Hte; try done.
  intros [= <-].
  unfold it0 in Hs, He. rewrite item_get_json in Hs, He.
  exists s, e, ts, te. split_and!; try done.
  - by destruct (getitem (JObj fields) "starts_at"); simplify_eq/=.
  - by destruct (getitem (JObj fields) "ends_at"); simplify_eq/=.
  - by rewrite item_get_set_ne, item_get_set.
  - by rewrite item_get_set.
  - intros k Hk1 Hk2. rewrite !item_get_set_ne by done. apply item_get_json.
Qed.

Lemma parsed_start_time i item :
  parsed i item → ∃ ts, Exercism.starts_at item = Ok ts.
Proof.
  intros (s & e & ts & te & _ & _ & _ & _ & Hs & _). exists ts.
  unfold Exercism.starts_at. by rewrite Hs.
Qed.

Lemma collect_inv {A B} (f : A → Outcome B) (xs : list A) (ys : list B) :
  foldr (λ x acc, y ← f x; rest ← acc; Ok (y :: rest)) (Ok []) xs = Ok ys →
  Forall2 (λ x y, f x = Ok y) xs ys.
Proof.
  revert ys. induction xs as [|x xs IH]; intros ys; cbn.
  - intros [= <-]. constructor.
  - destruct (f x) as [y|e|] eqn:Hy; try done. cbn.
    destruct (foldr _ _ xs) as [rest|e|]; try done. cbn. intros [= <-].
    constructor; [done|]. by apply IH.
Qed.

Lemma timed_and_sorted_in_order all_data events :
  Exercism.timed_and_sorted all_data = Ok events →
  in_order_of_start all_data events.
Proof.
  unfold Exercism.timed_and_sorted.
  destruct (foldr _ _ all_data) as [items|e|] eqn:Hitems; try done.
  cbn [mbind Outcome_bind].
  destruct (foldr _ _ items) as [keys|e|] eqn:Hkeys; try done.
  cbn [mbind Outcome_bind]. intros [= <-].
  apply collect_inv in Hitems, Hkeys.
  assert (Hitems' : Forall2 parsed all_data items).
  { eapply Forall2_impl; [exact Hitems|]. intros ? ?. apply parse_times_parsed. }
  assert (Hlen : length keys = length items) by (symmetry; by eapply Forall2_length).
  assert (Hkey : Forall (λ p : Z * Item, start_time p.2 = p.1) (zip keys items)).
  { clear -Hkeys. induction Hkeys as [|x k items keys Hx _ IH]; cbn; [constructor|].
    constructor; [|done]. cbn. unfold start_time. by rewrite Hx. }
  assert (Hkey' : Forall (λ p : Z * Item, start_time p.2 = p.1)
                    (sort_by_key (zip keys items))).
  { by rewrite sort_by_key_perm. }
  exists items. split_and!; [done| | |].
  - rewrite sort_by_key_perm. by rewrite snd_zip by lia.
  - pose proof (sort_by_key_sorted (zip keys items)) as Hs.
    induction Hs as [|p l Hl IH Hp]; cbn; [constructor|].
    apply Forall_cons in Hkey' as [Hp1 Hkey'].
    constructor; [by apply IH|].
    destruct Hp as [|q l Hq]; cbn; constructor.
    apply Forall_cons in Hkey' as [Hq1 _]. unfold by_start. lia.
  - intros t.
    assert (Hf : ∀ l : list (Z * Item),
      Forall (λ p, start_time p.2 = p.1) l →
      filter (λ x, start_time x = t) l.*2 = (filter (λ p, p.1 = t) l).*2).
    { clear. induction 1 as [|p l Hp _ IH]; [done|].
      rewrite fmap_cons, !filter_cons, IH. rewrite Hp.
      by destruct (decide (p.1 = t)). }
    rewrite Hf by done. rewrite sort_by_key_filter, <- Hf by done.
    by rewrite snd_zip by lia.
Qed.

Lemma streaming_events_in_order_of_fetch (env : Env) (fuel : nat) (live : bool) (w : World) :
  (∀ events w',
     Exercism.streaming_events env fuel live w = (Ok events, w') →
     ∃ all_data, streaming_fetch env fuel live w = (Ok all_data, w')
                 ∧ in_order_of_start all_data events)
  ∧ (∀ events w',
       AsyncExercism.streaming_events env fuel live w = (Ok events, w') →
       ∃ all_data, async_streaming_fetch env fuel live w = (Ok all_data, w')
                   ∧ in_order_of_start all_data events).
Proof.
  split; intros events w' H.
  - unfold Exercism.streaming_events in H.
    apply bind_ok_inv in H as (l & w1 & Hl & H).
    apply bind_ok_inv in H as (all_data & w2 & Hfetch & H).
    apply lift_inv in H as [H ->].
    exists all_data. split; [|by apply timed_and_sorted_in_order].
    unfold streaming_fetch. by rewrite (run_bind_ok _ _ _ _ _ Hl).
  - unfold AsyncExercism.streaming_events in H.
    apply bind_ok_inv in H as (l & w1 & Hl & H).
    apply bind_ok_inv in H as (all_data & w2 & Hfetch & H).
    apply lift_inv in H as [H ->].
    exists all_data. split; [|by apply timed_and_sorted_in_order].
    unfold async_streaming_fetch. by rewrite (run_bind_ok _ _ _ _ _ Hl).
Qed.

Lemma live_request_refused env tr : server env tr (live_request env) = Refused.
Proof.
  unfold server, accepted, encodes, live_request, async_page_request. cbn [client params].
  rewrite (bool_decide_eq_false_2 (map_Forall _ _)); [by rewrite andb_false_r|].
  intros H. specialize (H "live" (JBool true)). unfold page_params in H.
  rewrite lookup_insert_ne, lookup_singleton_eq in H by done.
  by specialize (H eq_refl).
Qed.

Lemma async_streaming_events_live env fuel w :
  (0 < fuel)%nat →
  let run := AsyncExercism.streaming_events env fuel true w in
  run.1 = Raise TypeError
  ∧ trace run.2 = trace w ++ [Call (live_request env)].
Proof.
  intros Hfuel run. subst run. destruct fuel as [|fuel]; [lia|].
  unfold AsyncExercism.streaming_events.
  rewrite run_bind. cbn [dict_of].
  set (l := fresh (dom (heap w))).
  rewrite run_bind. unfold AsyncExercism.get_all_pages.
  rewrite run_bind. cbn [pop_params with_params kw_params mret M_ret].
  cbn [for_count]. rewrite run_bind.
  unfold AsyncExercism.fetch_page.
  rewrite run_bind. cbn [dict_setitem].
  rewrite run_bind, async_get_json_with_retries_once.
  unfold AsyncExercism.get_json. rewrite run_bind, send_run.
  match goal with |- context [server env ?tr ?req] =>
    replace req with (live_request env)
  end.
  - rewrite live_request_refused. cbn. done.
  - unfold snapshot, live_request, async_page_request, page_params,
      AsyncExercism.with_headers.
    cbn. rewrite !lookup_empty. cbn. rewrite !lookup_insert_eq. reflexivity.
Qed.

(** X22: [streaming_events] gives back every record the traversal
    returned, each once, with [starts_at] and [ends_at] parsed into
    datetimes and every other entry as it was; the list is in ascending
    order of [starts_at], and records that start at the same instant stay
    in the order the server gave them.  This holds of the blocking
    client, with [live] set or not, and of the cooperative client with
    [live] unset.  The cooperative client with [live] set returns
    nothing: it hands [aiohttp] the parameter [live = True], a boolean,
    which the library does not write into a URL, so the first call is
    refused with [TypeError] before anything is sent, whatever the API
    holds. *)
Theorem streaming_events_in_order (env : Env) (fuel : nat) (w : World) :
  (∀ live events w',
     Exercism.streaming_events env fuel live w = (Ok events, w') →
     ∃ all_data, streaming_fetch env fuel live w = (Ok all_data, w')
                 ∧ in_order_of_start all_data events)
  ∧ (∀ events w',
       AsyncExercism.streaming_events env fuel false w = (Ok events, w') →
       ∃ all_data, async_streaming_fetch env fuel false w = (Ok all_data, w')
                   ∧ in_order_of_start all_data events)
  ∧ (∀ tr, server env tr (live_request env) = Refused)
  ∧ ((0 < fuel)%nat →
     let run := AsyncExercism.streaming_events env fuel true w in
     run.1 = Raise TypeError
     ∧ trace run.2 = trace w ++ [Call (live_request env)]).
Proof.
  split_and!.
  - intros live. apply streaming_events_in_order_of_fetch.
  - apply streaming_events_in_order_of_fetch.
  - intros tr. apply live_request_refused.
  - apply async_streaming_events_live.
Qed.

Lemma streaming_events_in_order_witness :
  let titles := fmap (M := list) (λ x, item_get "title" x) in
  let sorted := [Ok (VJson (JStr "early")); Ok (VJson (JStr "middle"));
                 Ok (VJson (JStr "late"))] in
  (∀ live, ∃ events,
     (Exercism.streaming_events studio 1 live fresh_world).1 = Ok events
     ∧ in_order_of_start three_streams events
     ∧ titles events = sorted)
  ∧ (∃ events,
       (AsyncExercism.streaming_events studio 1 false fresh_world).1 = Ok events
       ∧ in_order_of_start three_streams events
       ∧ titles events = sorted)
  ∧ (AsyncExercism.streaming_events studio 1 true fresh_world).1 = Raise TypeError.
Proof.
  intros titles sorted.
  split_and!.
  - intros live.
    destruct (Exercism.streaming_events studio 1 live fresh_world) as [r w'] eqn:E.
    assert (Hr : ∃ events, r = Ok events ∧ titles events = sorted).
    { apply (f_equal fst) in E. cbn in E. subst r. destruct live; vm_compute; eauto. }
    destruct Hr as (events & -> & Htitles). exists events. split; [done|]. split; [|done].
    destruct (proj1 (streaming_events_in_order studio 1 fresh_world) live events w' E)
      as (all_data & Hfetch & Horder).
    replace three_streams with all_data; [done|].
    apply (f_equal fst) in Hfetch. destruct live; vm_compute in Hfetch; by injection Hfetch.
  - destruct (AsyncExercism.streaming_events studio 1 false fresh_world) as [r w'] eqn:E.
    assert (Hr : ∃ events, r = Ok events ∧ titles events = sorted).
    { apply (f_equal fst) in E. cbn in E. subst r. vm_compute. eauto. }
    destruct Hr as (events & -> & Htitles). exists events. split; [done|]. split; [|done].
    destruct (proj1 (proj2 (streaming_events_in_order studio 1 fresh_world)) events w' E)
      as (all_data & Hfetch & Horder).
    replace three_streams with all_data; [done|].
    apply (f_equal fst) in Hfetch. vm_compute in Hfetch. by injection Hfetch.
  - apply (proj2 (proj2 (proj2 (streaming_events_in_order studio 1 fresh_world)))). lia.
Defined.

Lemma collect_returns {A B} (f : A → Outcome B) (xs : list A) :
  (∀ x, f x ≠ OutOfFuel) →
  foldr (λ x acc, y ← f x; rest ← acc; Ok (y :: rest)) (Ok []) xs ≠ OutOfFuel.
Proof.
  intros Hf. induction xs as [|x xs IH]; cbn; [done|].
  specialize (Hf x). destruct (f x); [|done..]. cbn.
  by destruct (foldr _ _ xs).
Qed.

Lemma item_get_returns k i : item_get k i ≠ OutOfFuel.
Proof. induction i as [|[k' v] i IH]; cbn; [done|]. by destruct (String.eqb k k'). Qed.

Lemma strptime_ms_returns s : datetime.strptime_ms s ≠ OutOfFuel.
Proof. unfold datetime.strptime_ms. by destruct (datetime.parse_ms s). Qed.

Lemma parse_times_returns i : Exercism.parse_times i ≠ OutOfFuel.
Proof.
  unfold Exercism.parse_times. destruct i as [| | | | |fields]; try done. cbn [foldl].
  set (it0 := prod_map id VJson <$> fields). cbn [mbind Outcome_bind].
  pose proof (item_get_returns "starts_at" it0).
  destruct (item_get "starts_at" it0) as [[[| | |s| |]|]|e|]; try done.
  cbn [mbind Outcome_bind].
  pose proof (strptime_ms_returns s).
  destruct (datetime.strptime_ms s) as [ts|e|]; try done.
  cbn [mbind Outcome_bind].
  set (it1 := item_set _ _ it0).
  pose proof (item_get_returns "ends_at" it1).
  destruct (item_get "ends_at" it1) as [[[| | |e| |]|]|e|]; try done.
  cbn [mbind Outcome_bind].
  pose proof (strptime_ms_returns e).
  by destruct (datetime.strptime_ms e) as [te|e'|].
Qed.

Lemma starts_at_returns x : Exercism.starts_at x ≠ OutOfFuel.
Proof.
  unfold Exercism.starts_at. pose proof (item_get_returns "starts_at" x).
  by destruct (item_get "starts_at" x) as [[|]| |].
Qed.

Lemma timed_and_sorted_returns all_data : Exercism.timed_and_sorted all_data ≠ OutOfFuel.
Proof.
  unfold Exercism.timed_and_sorted.
  pose proof (collect_returns Exercism.parse_times all_data parse_times_returns).
  destruct (foldr _ _ all_data) as [items| |]; [|done..]. cbn [mbind Outcome_bind].
  pose proof (collect_returns Exercism.starts_at items starts_at_returns).
  by destruct (foldr _ _ items).
Qed.

Lemma timed_and_sorted_needs_all all_data i :
  i ∈ all_data → (∀ item, ¬ parsed i item) →
  ∃ e, Exercism.timed_and_sorted all_data = Raise e.
Proof.
  intros Hin Hbad. pose proof (timed_and_sorted_returns all_data).
  destruct (Exercism.timed_and_sorted all_data) as [events|e|] eqn:E; [|by eauto|done].
  apply timed_and_sorted_in_order in E as (items & Hitems & _).
  apply list_elem_of_lookup in Hin as [n Hn].
  destruct (Forall2_lookup_l _ _ _ _ _ Hitems Hn) as (item & _ & Hp).
  by destruct (Hbad item).
Qed.

(** X23: one record whose timestamps cannot be read costs the whole list.
    If, of the records the traversal returned, one has no [starts_at] or
    [ends_at], or has one that is not text in the format with [.000]
    before the [Z], then [streaming_events] raises and returns nothing;
    the record is not skipped.  The same holds of the cooperative
    client. *)
Theorem streaming_events_needs_every_timestamp (env : Env) (fuel : nat) (live : bool)
    (w : World) (all_data : list Json) (w' : World) (i : Json) :
  i ∈ all_data →
  (∀ item, ¬ parsed i item) →
  (streaming_fetch env fuel live w = (Ok all_data, w') →
   ∃ e, Exercism.streaming_events env fuel live w = (Raise e, w'))
  ∧ (async_streaming_fetch env fuel live w = (Ok all_data, w') →
     ∃ e, AsyncExercism.streaming_events env fuel live w = (Raise e, w')).
Proof.
  intros Hin Hbad.
  destruct (timed_and_sorted_needs_all all_data i Hin Hbad) as [e He].
  split; intros Hfetch; exists e.
  - unfold streaming_fetch in Hfetch. unfold Exercism.streaming_events.
    apply bind_ok_inv in Hfetch as (l & w1 & Hl & Hfetch).
    rewrite (run_bind_ok _ _ _ _ _ Hl), (run_bind_ok _ _ _ _ _ Hfetch).
    unfold lift. by rewrite He.
  - unfold async_streaming_fetch in Hfetch. unfold AsyncExercism.streaming_events.
    apply bind_ok_inv in Hfetch as (l & w1 & Hl & Hfetch).
    rewrite (run_bind_ok _ _ _ _ _ Hl), (run_bind_ok _ _ _ _ _ Hfetch).
    unfold lift. by rewrite He.
Qed.

Lemma streaming_events_needs_every_timestamp_witness :
  (Exercism.streaming_events off_beat_studio 1 false fresh_world).1 = Raise ValueError.
Proof.
  assert (Hin : stream "odd" "2025-06-02T18:00:00.500Z" "2025-06-02T19:00:00.000Z"
                ∈ off_beat) by (right; left).
  assert (Hbad : ∀ item,
            ¬ parsed (stream "odd" "2025-06-02T18:00:00.500Z" "2025-06-02T19:00:00.000Z")
                item).
  { intros item (s & e & ts & te & Hs & Hts & _). vm_compute in Hs.
    injection Hs as <-. vm_compute in Hts. discriminate Hts. }
  destruct (proj1 (streaming_events_needs_every_timestamp off_beat_studio 1 false
    fresh_world off_beat (streaming_fetch off_beat_studio 1 false fresh_world).2
    (stream "odd" "2025-06-02T18:00:00.500Z" "2025-06-02T19:00:00.000Z") Hin Hbad))
    as [e He].
  - vm_compute. reflexivity.
  - rewrite He. cbn. apply (f_equal fst) in He. vm_compute in He. by injection He as <-.
Defined.

(** *** What is still to come *)

Lemma not_before_filter now events future :
  Exercism.not_before now events = Ok future →
  future = filter (λ x, now ≤ start_time x) events.
Proof.
  revert future. induction events as [|x events IH]; intros future.
  - by intros [= <-].
  - unfold Exercism.not_before. cbn [foldr].
    destruct (Exercism.starts_at x) as [t|e|] eqn:Hx; try done. cbn [mbind Outcome_bind].
    assert (Ht : start_time x = t) by (unfold start_time; by rewrite Hx).
    fold (Exercism.not_before now events).
    destruct (Exercism.not_before now events) as [rest|e|]; try done.
    cbn [mbind Outcome_bind]. intros [= <-]. rewrite (IH rest eq_refl).
    case_bool_decide.
    + by rewrite filter_cons_True by lia.
    + by rewrite filter_cons_False by lia.
Qed.

Lemma Sorted_by_start_all x events :
  Sorted by_start (x :: events) → Forall (λ y, start_time x ≤ start_time y) events.
Proof.
  intros H. apply Sorted_StronglySorted in H.
  - by inversion H.
  - intros a b c. unfold by_start. lia.
Qed.

Lemma filter_sorted_suffix now events :
  Sorted by_start events →
  filter (λ x, now ≤ start_time x) events `suffix_of` events.
Proof.
  induction events as [|x events IH]; intros Hs; [done|].
  rewrite filter_cons. destruct (decide (now ≤ start_time x)) as [Hx|Hx].
  - pose proof (Sorted_by_start_all x events Hs) as Hall.
    replace (filter (λ x, now ≤ start_time x) events) with events; [done|].
    symmetry. clear -Hall Hx. induction Hall as [|y events Hy _ IH]; [done|].
    rewrite filter_cons_True by lia. by rewrite IH.
  - apply suffix_cons_r, IH. by inversion Hs.
Qed.

Lemma Sorted_suffix (future events : list Item) :
  future `suffix_of` events → Sorted by_start events → Sorted by_start future.
Proof.
  intros [pre ->]. induction pre as [|x pre IH]; [done|].
  intros H. apply IH. by inversion H.
Qed.

Lemma not_before_suffix now all_data events future :
  in_order_of_start all_data events →
  Exercism.not_before now events = Ok future →
  future = filter (λ x, now ≤ start_time x) events
  ∧ future `suffix_of` events
  ∧ Sorted by_start future.
Proof.
  intros (items & _ & _ & Hsorted & _) Hf.
  apply not_before_filter in Hf as ->. split; [done|].
  pose proof (filter_sorted_suffix now events Hsorted) as Hsuf.
  split; [done|]. by eapply Sorted_suffix.
Qed.

(** X24: [future_streaming_events] reads the UTC clock first and then
    asks for the events with [live] unset.  What it returns are the events
    of [streaming_events] that start at that instant or later, an event
    starting exactly then included; as the events come in ascending order
    of start, these are the tail of that list, in the same order.  The
    same holds of the cooperative client. *)
Theorem future_streaming_events_are_the_tail (env : Env) (utc_clock : list Event → Z)
    (fuel : nat) (w : World) :
  let now := utc_clock (trace w) in
  (∀ future w',
     Exercism.future_streaming_events env utc_clock fuel w = (Ok future, w') →
     ∃ events,
       Exercism.streaming_events env fuel false w = (Ok events, w')
       ∧ future = filter (λ x, now ≤ start_time x) events
       ∧ future `suffix_of` events
       ∧ Sorted by_start future)
  ∧ (∀ future w',
       AsyncExercism.future_streaming_events env utc_clock fuel w = (Ok future, w') →
       ∃ events,
         AsyncExercism.streaming_events env fuel false w = (Ok events, w')
         ∧ future = filter (λ x, now ≤ start_time x) events
         ∧ future `suffix_of` events
         ∧ Sorted by_start future).
Proof.
  intros now. split; intros future w' H.
  - unfold Exercism.future_streaming_events in H.
    apply bind_ok_inv in H as (t & w0 & [= <- <-] & H).
    apply bind_ok_inv in H as (events & w1 & Hev & H).
    apply lift_inv in H as [H ->]. exists events. split; [done|].
    destruct (proj1 (streaming_events_in_order_of_fetch env fuel false w) events w1 Hev)
      as (all_data & _ & Horder).
    by eapply not_before_suffix.
  - unfold AsyncExercism.future_streaming_events in H.
    apply bind_ok_inv in H as (t & w0 & [= <- <-] & H).
    apply bind_ok_inv in H as (events & w1 & Hev & H).
    apply lift_inv in H as [H ->]. exists events. split; [done|].
    destruct (proj2 (streaming_events_in_order_of_fetch env fuel false w) events w1 Hev)
      as (all_data & _ & Horder).
    by eapply not_before_suffix.
Qed.

Lemma future_streaming_events_are_the_tail_witness :
  ∃ future events,
    (Exercism.future_streaming_events studio noon_2025_06_02_utc 1 fresh_world).1
      = Ok future
    ∧ (Exercism.streaming_events studio 1 false fresh_world).1 = Ok events
    ∧ future `suffix_of` events
    ∧ (λ x, item_get "title" x) <$> future
      = [Ok (VJson (JStr "middle")); Ok (VJson (JStr "late"))].
Proof.
  destruct (Exercism.future_streaming_events studio noon_2025_06_02_utc 1 fresh_world)
    as [r w'] eqn:E.
  assert (Hr : ∃ future, r = Ok future
            ∧ (λ x, item_get "title" x) <$> future
              = [Ok (VJson (JStr "middle")); Ok (VJson (JStr "late"))]).
  { apply (f_equal fst) in E. cbn in E. subst r. vm_compute. eauto. }
  destruct Hr as (future & -> & Htitles).
  destruct (proj1 (future_streaming_events_are_the_tail studio noon_2025_06_02_utc 1
    fresh_world) future w' E) as (events & Hev & _ & Hsuf & _).
  exists future, events. rewrite Hev. done.
Defined.

(** ** Traversals with a filter *)

Lemma turned_pages_trace l d req ms ps w :
  trace (foldl (λ w q, turn_page l d req ms q w) w ps)
  = trace w ++ concat (paced ms ∘ req <$> ps).
Proof.
  revert w. induction ps as [|p ps IH]; intros w; cbn.
  - by rewrite app_nil_r.
  - rewrite IH. cbn. by rewrite <- app_assoc.
Qed.

Lemma get_all_pages_run env endpoint kw w pages T fuel :
  let d := initial_params kw w in
  let n := Z.max T 1 in
  (Z.to_nat n ≤ fuel)%nat →
  0 ≤ sleep_or 200 kw ≤ max_sleep →
  (∀ tr p, 1 ≤ p ≤ n →
     ∃ j, answers_with (server env tr (page_request endpoint kw d p)) j
          ∧ is_page j (pages p) p T) →
  ∃ w', Exercism.get_all_pages env fuel [] endpoint kw w
        = (Ok (concat (pages <$> seqZ 1 n)), w')
        ∧ trace w' = trace w
            ++ concat (paced (sleep_or 200 kw) ∘ page_request endpoint kw d <$> seqZ 1 n).
Proof.
  intros d n Hfuel Hsl Hsrv.
  destruct (pop_params_run kw w) as (l & w1 & Hpop & Htr & Hreads & _ & _).
  fold d in Hreads. unfold Exercism.get_all_pages.
  rewrite (run_bind_ok _ _ _ _ _ Hpop).
  rewrite (for_count_run _ (λ p acc, acc ++ pages p)
             (turn_page l d (page_request endpoint kw d) (sleep_or 200 kw))
             (reads_as l d) n).
  - replace (n - 1 + 1) with n by lia.
    rewrite foldl_concat. cbn [app]. eexists. split; [reflexivity|].
    by rewrite turned_pages_trace, Htr.
  - intros p acc w2 Hp Hw2. split; [apply turn_page_reads_as|].
    rewrite (fetch_page_run env l endpoint kw d pages T p acc w2) by eauto.
    repeat case_bool_decide; (done || lia).
  - lia.
  - lia.
  - done.
Qed.

Lemma async_get_all_pages_run env endpoint kw w pages T fuel :
  let d := initial_params kw w in
  let n := Z.max T 1 in
  (Z.to_nat n ≤ fuel)%nat →
  (∀ tr p, 1 ≤ p ≤ n →
     ∃ j, answers_with (server env tr (async_page_request env endpoint kw d p)) j
          ∧ is_page j (pages p) p T) →
  ∃ w', AsyncExercism.get_all_pages env fuel [] endpoint kw w
        = (Ok (concat (pages <$> seqZ 1 n)), w')
        ∧ trace w' = trace w
            ++ concat (paced (Z.max 0 (sleep_or 200 kw))
                       ∘ async_page_request env endpoint kw d <$> seqZ 1 n).
Proof.
  intros d n Hfuel Hsrv.
  destruct (pop_params_run kw w) as (l & w1 & Hpop & Htr & Hreads & _ & _).
  fold d in Hreads. unfold AsyncExercism.get_all_pages.
  rewrite (run_bind_ok _ _ _ _ _ Hpop).
  rewrite (for_count_run _ (λ p acc, acc ++ pages p)
             (turn_page l d (async_page_request env endpoint kw d)
                (Z.max 0 (sleep_or 200 kw)))
             (reads_as l d) n).
  - replace (n - 1 + 1) with n by lia.
    rewrite foldl_concat. cbn [app]. eexists. split; [reflexivity|].
    by rewrite turned_pages_trace, Htr.
  - intros p acc w2 Hp Hw2. split; [apply turn_page_reads_as|].
    rewrite (async_fetch_page_run env l endpoint kw d pages T p acc w2) by eauto.
    repeat case_bool_decide; (done || lia).
  - lia.
  - lia.
  - done.
Qed.

Lemma lower_char_lower c : lower_char (lower_char c) = lower_char c.
Proof.
  destruct c as [[] [] [] [] [] [] [] []]; reflexivity.
Qed.

Lemma lower_lower s : lower (lower s) = lower s.
Proof. induction s as [|c s IH]; cbn; [done|]. by rewrite lower_char_lower, IH. Qed.

(** X25: [mentor_requests] asks for the track in lower case, whatever
    the case it is given in, and paces itself at half a second.  With a
    server that reports a stable page count [T], it asks for the pages 1
    to [max T 1] of the mentoring requests, each once, each request
    carrying [track_slug] in lower case and the page number as text, each
    answer followed by a pause of 0.5 s, and returns the records of these
    pages in order.  Two spellings of a track that differ in case only
    are asked for with the same requests.  The same holds of the
    cooperative client. *)
Theorem mentor_requests_lower_case (env : Env) (track : string) (w : World)
    (pages : Z → list Json) (T : Z) (fuel : nat) :
  let d := track_filter track in
  let n := Z.max T 1 in
  let kw := with_sleep 500 no_kwargs in
  (Z.to_nat n ≤ fuel)%nat →
  track_filter (lower track) = d
  ∧ ((∀ tr p, 1 ≤ p ≤ n →
        ∃ j, answers_with (server env tr (page_request "mentoring/requests" kw d p)) j
             ∧ is_page j (pages p) p T) →
     let run := Exercism.mentor_requests env fuel track w in
     run.1 = Ok (concat (pages <$> seqZ 1 n))
     ∧ trace run.2
       = trace w ++ concat (paced 500 ∘ page_request "mentoring/requests" kw d <$> seqZ 1 n))
  ∧ ((∀ tr p, 1 ≤ p ≤ n →
        ∃ j, answers_with
               (server env tr (async_page_request env "mentoring/requests" kw d p)) j
             ∧ is_page j (pages p) p T) →
     let run := AsyncExercism.mentor_requests env fuel track w in
     run.1 = Ok (concat (pages <$> seqZ 1 n))
     ∧ trace run.2
       = trace w
         ++ concat (paced 500 ∘ async_page_request env "mentoring/requests" kw d
                    <$> seqZ 1 n)).
Proof.
  intros d n kw Hfuel. split; [unfold d, track_filter; by rewrite lower_lower|].
  set (l := fresh (dom (heap w))).
  set (w1 := {| trace := trace w; heap := <[l := d]> (heap w) |}).
  set (kw1 := {| kw_sleep := Some 500; kw_params := Some l; kw_rest := ∅ |}).
  assert (Hd : initial_params kw1 w1 = d).
  { unfold initial_params. cbn. by rewrite lookup_insert_eq. }
  split.
  - intros Hsrv run.
    destruct (get_all_pages_run env "mentoring/requests" kw1 w1 pages T fuel)
      as (w' & Hrun & Htr); [done|done|by rewrite Hd|].
    subst run.
    change (Exercism.mentor_requests env fuel track w)
      with (Exercism.get_all_pages env fuel [] "mentoring/requests" kw1 w1).
    rewrite Hrun. cbn [fst snd]. by rewrite Htr, Hd.
  - intros Hsrv run.
    destruct (async_get_all_pages_run env "mentoring/requests" kw1 w1 pages T fuel)
      as (w' & Hrun & Htr); [done|by rewrite Hd|].
    subst run.
    change (AsyncExercism.mentor_requests env fuel track w)
      with (AsyncExercism.get_all_pages env fuel [] "mentoring/requests" kw1 w1).
    rewrite Hrun. cbn [fst snd]. by rewrite Htr, Hd.
Qed.

Lemma library_answers tr d p :
  1 ≤ p ≤ 2 →
  ∃ j, answers_with (server library tr
                       (page_request "mentoring/requests" (with_sleep 500 no_kwargs) d p)) j
       ∧ is_page j (page_of two_pages p) p 2.
Proof.
  intros Hp.
  rewrite server_accepted by (by eapply accepted_by_position).
  assert (p = 1 ∨ p = 2) as [-> | ->] by lia.
  - exists (envelope (page_of two_pages 1) 1 2). split.
    + eexists. split.
      { unfold library, paged_env, paged, page_request, page_params. cbn.
        rewrite lookup_insert_eq. reflexivity. }
      split; [reflexivity|]. split; [cbn; lia|reflexivity].
    + split; [reflexivity|]. eexists. split; [reflexivity|]. split; reflexivity.
  - exists (envelope (page_of two_pages 2) 2 2). split.
    + eexists. split.
      { unfold library, paged_env, paged, page_request, page_params. cbn.
        rewrite lookup_insert_eq. reflexivity. }
      split; [reflexivity|]. split; [cbn; lia|reflexivity].
    + split; [reflexivity|]. eexists. split; [reflexivity|]. split; reflexivity.
Qed.

Lemma mentor_requests_lower_case_witness :
  (Exercism.mentor_requests library 2 "Python" fresh_world).1
    = Ok [JStr "a"; JStr "b"; JStr "c"]
  ∧ track_filter "Python" = {["track_slug" := JStr "python"]}.
Proof.
  split; [|reflexivity].
  refine (proj1 (proj1 (proj2 (mentor_requests_lower_case library "Python" fresh_world
    (page_of two_pages) 2 2 _)) _)).
  - cbn. lia.
  - intros tr p Hp. apply library_answers. lia.
Defined.

(** ** Tracks *)

Lemma collect_run {A B} (f : A → Outcome B) (xs : list A) (ys : list B) :
  Forall2 (λ x y, f x = Ok y) xs ys →
  foldr (λ x acc, y ← f x; rest ← acc; Ok (y :: rest)) (Ok []) xs = Ok ys.
Proof.
  induction 1 as [|x y xs ys Hx _ IH]; cbn; [done|]. by rewrite Hx, IH.
Qed.

(** X26: on a good first answer the two clients agree.  When the server
    answers the [tracks] request with a body that lists the tracks,
    [all_tracks] returns the [slug] of each, in the order listed, after
    the one request and a pause of 0.2 s, in the blocking client and in
    the cooperative one alike; the cooperative request carries the
    [Authorization] header among its keywords. *)
Theorem all_tracks_lists_the_slugs (env : Env) (w : World) (j : Json)
    (tracks slugs : list Json) :
  getitem j "tracks" = Ok (JList tracks) →
  Forall2 (λ t s, getitem t "slug" = Ok s) tracks slugs →
  (answers_with (server env (trace w) tracks_request) j →
   Exercism.all_tracks env w = (Ok slugs, slept 200 (called tracks_request w)))
  ∧ (answers_with (server env (trace w) (async_tracks_request env)) j →
     AsyncExercism.all_tracks env w
     = (Ok slugs, slept 200 (called (async_tracks_request env) w))).
Proof.
  intros Htracks Hslugs.
  assert (Hs : Exercism.slugs j = Ok slugs).
  { unfold Exercism.slugs. rewrite Htracks. cbn [mbind Outcome_bind as_list].
    by apply collect_run. }
  split; intros Hans.
  - unfold Exercism.all_tracks.
    rewrite run_bind, (answers_with_run env _ no_kwargs w j) by done.
    unfold lift. by rewrite Hs.
  - unfold AsyncExercism.all_tracks.
    rewrite run_bind, (async_answers_with_run env "tracks" no_kwargs w j) by done.
    unfold lift. by rewrite Hs.
Qed.

Lemma all_tracks_lists_the_slugs_witness :
  (Exercism.all_tracks two_tracks fresh_world).1 = Ok [JStr "python"; JStr "rust"]
  ∧ (AsyncExercism.all_tracks two_tracks fresh_world).1 = Ok [JStr "python"; JStr "rust"].
Proof.
  destruct (all_tracks_lists_the_slugs two_tracks fresh_world
    (JObj [("tracks", JList [JObj [("slug", JStr "python")]; JObj [("slug", JStr "rust")]])])
    [JObj [("slug", JStr "python")]; JObj [("slug", JStr "rust")]]
    [JStr "python"; JStr "rust"]) as [Hb Ha].
  - reflexivity.
  - by repeat constructor.
  - split.
    + rewrite Hb; [done|]. eexists. split; [reflexivity|]. split; [reflexivity|].
      split; [cbn; lia|reflexivity].
    + rewrite Ha; [done|]. eexists. split; [reflexivity|]. split; [reflexivity|].
      split; [cbn; lia|reflexivity].
Defined.

(** ** What is printed *)

(** *** [sorted(set(...))] *)

Lemma ltb_irrefl (a : string) : String.ltb a a = false.
Proof.
  unfold String.ltb. pose proof (String.compare_antisym a a) as H.
  by destruct (a ?= a)%string.
Qed.

Lemma ltb_trans (a b c : string) :
  String.ltb a b = true → String.ltb b c = true → String.ltb a c = true.
Proof.
  intros Hab Hbc.
  assert (Hle : (a ≤ c)%string).
  { etrans; [by apply ltb_leb|by apply ltb_leb]. }
  unfold String.ltb, String.le, String.leb in *.
  destruct (a ?= c)%string eqn:E; [|done|done].
  apply String.compare_eq_iff in E as ->.
  rewrite (String.compare_antisym c b) in Hab.
  by destruct (b ?= c)%string.
Qed.

Lemma ltb_total (a b : string) :
  String.ltb a b = false → String.eqb b a = false → String.ltb b a = true.
Proof.
  unfold String.ltb. intros Hab Hne. rewrite (String.compare_antisym b a).
  destruct (a ?= b)%string eqn:E; try done.
  apply String.compare_eq_iff in E as ->. by rewrite String.eqb_refl in Hne.
Qed.

Lemma ltb_le_trans (a b c : string) :
  String.ltb a b = true → String.ltb b c = true → (a ≤ c)%string.
Proof. intros. by apply ltb_leb, (ltb_trans a b c). Qed.

Lemma insert_once_elem x y sorted : y ∈ insert_once x sorted ↔ y = x ∨ y ∈ sorted.
Proof.
  induction sorted as [|z sorted IH]; cbn.
  - set_solver.
  - destruct (String.ltb z x); [set_solver|].
    destruct (String.eqb x z) eqn:E; [|set_solver].
    apply String.eqb_eq in E as ->. set_solver.
Qed.

Lemma sorted_set_elem x xs : x ∈ sorted_set xs ↔ x ∈ xs.
Proof.
  induction xs as [|y xs IH]; cbn; [done|].
  rewrite insert_once_elem, IH. set_solver.
Qed.

Lemma insert_once_sorted x sorted :
  StronglySorted (λ a b, String.ltb a b = true) sorted →
  StronglySorted (λ a b, String.ltb a b = true) (insert_once x sorted).
Proof.
  induction 1 as [|z sorted Hs IH Hz]; cbn; [by repeat constructor|].
  destruct (String.ltb z x) eqn:Ezx.
  - constructor; [done|]. apply Forall_forall. intros y [->|Hy]%insert_once_elem; [done|].
    rewrite Forall_forall in Hz. by apply Hz.
  - destruct (String.eqb x z) eqn:Exz; [by constructor|].
    assert (Hxz : String.ltb x z = true) by (by apply ltb_total).
    constructor; [by constructor|]. constructor; [done|].
    eapply Forall_impl; [exact Hz|]. intros y Hy. by apply (ltb_trans x z y).
Qed.

Lemma sorted_set_sorted xs :
  StronglySorted (λ a b, String.ltb a b = true) (sorted_set xs).
Proof.
  induction xs as [|x xs IH]; cbn; [constructor|]. by apply insert_once_sorted.
Qed.

Lemma strictly_sorted_NoDup (ks : list string) :
  StronglySorted (λ a b, String.ltb a b = true) ks → NoDup ks.
Proof.
  induction 1 as [|k ks _ IH Hk]; constructor; [|done].
  intros Hin. rewrite Forall_forall in Hk. specialize (Hk k Hin).
  by rewrite ltb_irrefl in Hk.
Qed.

(** *** Groups *)

Lemma grouped_cons k keys xs :
  grouped (k :: keys) xs = filter (λ x, status_of x = k) xs ++ grouped keys xs.
Proof. reflexivity. Qed.

Lemma grouped_elem keys xs x : x ∈ grouped keys xs → status_of x ∈ keys ∧ x ∈ xs.
Proof.
  induction keys as [|k keys IH]; [by intros ?%elem_of_nil|].
  rewrite grouped_cons, elem_of_app, list_elem_of_filter.
  intros [[<- Hx]|Hx]; [set_solver|]. apply IH in Hx. set_solver.
Qed.

Lemma grouped_perm keys xs :
  NoDup keys → grouped keys xs ≡ₚ filter (λ x, status_of x ∈ keys) xs.
Proof.
  induction 1 as [|k keys Hk _ IH].
  - cbn. induction xs as [|x xs IHx]; [done|].
    rewrite filter_cons_False by set_solver. done.
  - rewrite grouped_cons, IH. clear IH.
    induction xs as [|x xs IHx]; [done|].
    rewrite !filter_cons.
    destruct (decide (status_of x = k)) as [Hx|Hx].
    + rewrite decide_False by (by rewrite Hx).
      rewrite decide_True by set_solver. cbn. by rewrite IHx.
    + destruct (decide (status_of x ∈ keys)) as [Hin|Hin].
      * rewrite decide_True by set_solver.
        rewrite <- Permutation_middle. by rewrite IHx.
      * rewrite decide_False by set_solver. done.
Qed.

Lemma grouped_filter keys xs st :
  NoDup keys →
  filter (λ x, status_of x = st) (grouped keys xs)
  = if decide (st ∈ keys) then filter (λ x, status_of x = st) xs else [].
Proof.
  induction 1 as [|k keys Hk _ IH]; [done|].
  rewrite grouped_cons, filter_app, IH. clear IH.
  destruct (decide (st = k)) as [->|Hne].
  - rewrite decide_False by done. rewrite decide_True by set_solver.
    rewrite app_nil_r. clear. induction xs as [|x xs IH]; [done|].
    rewrite filter_cons. destruct (decide (status_of x = k)).
    + rewrite !filter_cons_True by done. by rewrite IH.
    + exact IH.
  - assert (filter (λ x, status_of x = st) (filter (λ x, status_of x = k) xs) = []) as ->.
    { clear -Hne. induction xs as [|x xs IH]; [done|].
      rewrite filter_cons. destruct (decide (status_of x = k)) as [Hx|Hx]; [|done].
      rewrite filter_cons_False by congruence. done. }
    cbn. destruct (decide (st ∈ keys)).
    + by rewrite decide_True by set_solver.
    + by rewrite decide_False by set_solver.
Qed.

Lemma grouped_sorted keys xs :
  StronglySorted (λ a b, String.ltb a b = true) keys →
  StronglySorted by_status (grouped keys xs).
Proof.
  induction 1 as [|k keys _ IH Hk]; [constructor|].
  rewrite grouped_cons. apply StronglySorted_app_2; [| |done].
  - intros a b [Ha _]%list_elem_of_filter [Hb _]%grouped_elem.
    rewrite Forall_forall in Hk. unfold by_status. rewrite Ha.
    by apply ltb_leb, Hk.
  - clear. induction xs as [|x xs IHx]; [constructor|].
    rewrite filter_cons. destruct (decide (status_of x = k)) as [Hx|Hx]; [|done].
    constructor; [done|]. apply Forall_forall.
    intros y [Hy _]%list_elem_of_filter. unfold by_status. by rewrite Hx, Hy.
Qed.

(** *** The lines *)

Lemma for_each_out_cons {A} (x : A) (rest : list A) (body : A → Out unit) lines more :
  body x = (lines, Ok tt) →
  for_each_out rest body = (more, Ok tt) →
  for_each_out (x :: rest) body = (lines ++ more, Ok tt).
Proof. intros Hx Hrest. cbn. unfold mbind, Out_bind. by rewrite Hx, Hrest. Qed.

Lemma printable_status record :
  printable record → Exercism.tests_status record = Ok (JStr (status_of record)).
Proof. intros [[s Hs] _]. unfold status_of. by rewrite Hs. Qed.

Lemma printable_line record :
  printable record →
  Exercism.updated_line (status_of record) record = Ok (line_of record).
Proof. intros [_ [l Hl]]. unfold line_of. by rewrite Hl. Qed.

Lemma states_run updates :
  Forall printable updates →
  foldr (λ update acc,
           state ← Exercism.tests_status update ≫= as_str;
           rest ← acc;
           Ok (state :: rest)) (Ok []) updates
  = Ok (status_of <$> updates).
Proof.
  induction 1 as [|u updates Hu _ IH]; cbn; [done|].
  rewrite (printable_status u Hu). cbn. by rewrite IH.
Qed.

Lemma group_lines state updates :
  Forall printable updates →
  for_each_out updates (λ update,
    status ← out (Exercism.tests_status update);
    if eq_str status state then
      line ← out (Exercism.updated_line state update);
      print line
    else mret tt)
  = (line_of <$> filter (λ u, status_of u = state) updates, Ok tt).
Proof.
  induction 1 as [|u updates Hu _ IH]; [done|].
  rewrite filter_cons. destruct (decide (status_of u = state)) as [Hs|Hs].
  - apply (for_each_out_cons u updates _ [line_of u]); [|done].
    rewrite (printable_status u Hu). cbn. rewrite <- Hs, String.eqb_refl.
    by rewrite (printable_line u Hu).
  - apply (for_each_out_cons u updates _ []); [|done].
    rewrite (printable_status u Hu). cbn.
    by apply String.eqb_neq in Hs as ->.
Qed.

Lemma groups_lines keys updates :
  Forall printable updates →
  for_each_out keys (λ state,
    for_each_out updates (λ update,
      status ← out (Exercism.tests_status update);
      if eq_str status state then
        line ← out (Exercism.updated_line state update);
        print line
      else mret tt))
  = (line_of <$> grouped keys updates, Ok tt).
Proof.
  intros H. induction keys as [|k keys IH]; [done|].
  rewrite grouped_cons, fmap_app.
  apply for_each_out_cons; [by apply group_lines|done].
Qed.

Lemma update_lines_run updates :
  Forall printable updates →
  Exercism.update_lines updates
  = (line_of <$> grouped (sorted_set (status_of <$> updates)) updates, Ok tt).
Proof.
  intros H. unfold Exercism.update_lines. rewrite (states_run updates H).
  unfold out, mbind at 1, Out_bind. by rewrite (groups_lines _ updates H).
Qed.

Lemma filter_covered (keys : list string) (xs : list Json) :
  (∀ x, x ∈ xs → status_of x ∈ keys) →
  filter (λ x, status_of x ∈ keys) xs = xs.
Proof.
  induction xs as [|x xs IH]; intros H; [done|].
  rewrite filter_cons_True by (apply H; left).
  rewrite IH; [done|]. intros x' Hx'. apply H. by right.
Qed.

Lemma filter_uncovered (keys : list string) (xs : list Json) status :
  (∀ x, x ∈ xs → status_of x ∈ keys) →
  status ∉ keys →
  filter (λ x, status_of x = status) xs = [].
Proof.
  induction xs as [|x xs IH]; intros H Hout; [done|].
  rewrite filter_cons_False.
  - apply IH; [|done]. intros x' Hx'. apply H. by right.
  - intros <-. apply Hout, H. left.
Qed.

(** X27: [update_exercises_and_print] prints every update once, grouped
    by status.  When each update has a text status and the slugs of its
    track and exercise, the lines printed are those of the updates
    rearranged in ascending order of status, the updates of one status
    staying in the order [update_exercises] returned them; each line is
    the status in upper case, [: Updated], and the track and exercise
    slugs. *)
Theorem update_exercises_and_print_groups_by_status (env : Env) (fuel : nat)
    (w : World) (updates : list Json) (w' : World) :
  Exercism.update_exercises env fuel w = (Ok updates, w') →
  Forall printable updates →
  ∃ order,
    Exercism.update_exercises_and_print env fuel w = (Ok (line_of <$> order, Ok tt), w')
    ∧ order ≡ₚ updates
    ∧ Sorted by_status order
    ∧ ∀ status,
        filter (λ u, status_of u = status) order
        = filter (λ u, status_of u = status) updates.
Proof.
  intros Hrun Hp.
  set (keys := sorted_set (status_of <$> updates)).
  pose proof (sorted_set_sorted (status_of <$> updates)) as Hsorted.
  pose proof (strictly_sorted_NoDup _ Hsorted) as Hnodup.
  assert (Hcover : ∀ u, u ∈ updates → status_of u ∈ keys).
  { intros u Hu. apply sorted_set_elem. by apply list_elem_of_fmap_2. }
  exists (grouped keys updates). split_and!.
  - unfold Exercism.update_exercises_and_print.
    rewrite (run_bind_ok _ _ _ _ _ Hrun). by rewrite update_lines_run.
  - by rewrite grouped_perm, filter_covered by done.
  - apply StronglySorted_Sorted. by apply grouped_sorted.
  - intros status. rewrite grouped_filter by done.
    destruct (decide (status ∈ keys)) as [|Hout]; [done|].
    symmetry. by apply (filter_uncovered keys).
Qed.

Lemma solved_printable uuid track status : printable (solved uuid track status).
Proof. split; by eexists. Qed.

Lemma update_exercises_and_print_groups_by_status_witness :
  (Exercism.update_exercises_and_print workshop 1 fresh_world).1
  = Ok (["FAILED: Updated python/leap"; "PASSED: Updated python/leap";
         "PASSED: Updated rust/leap"], Ok tt)
  ∧ ∃ order,
      (Exercism.update_exercises_and_print workshop 1 fresh_world).1
        = Ok (line_of <$> order, Ok tt)
      ∧ order ≡ₚ three_updates
      ∧ Sorted by_status order.
Proof.
  split; [vm_compute; reflexivity|].
  destruct (update_exercises_and_print_groups_by_status workshop 1 fresh_world
    three_updates (Exercism.update_exercises workshop 1 fresh_world).2)
    as (order & Hrun & Hperm & Hsorted & _).
  - vm_compute. reflexivity.
  - repeat (apply Forall_cons; split; [apply solved_printable|]). constructor.
  - exists order. by rewrite Hrun.
Defined.

Lemma nonpassing_lines_run solutions :
  Forall showable solutions →
  Exercism.nonpassing_lines solutions
  = (line_of <$> filter (λ s, has_passed s = false) solutions, Ok tt).
Proof.
  unfold Exercism.nonpassing_lines.
  induction 1 as [|s solutions [[st Hst] Hp] _ IH]; [done|].
  assert (Hf : has_passed s = eq_str st "passed").
  { unfold has_passed. by rewrite (field_of_Ok _ _ _ Hst). }
  rewrite filter_cons. destruct (eq_str st "passed") eqn:E.
  - rewrite decide_False by (by rewrite Hf).
    apply (for_each_out_cons s solutions _ []); [|done].
    rewrite Hst. cbn. by rewrite E.
  - rewrite decide_True by done.
    apply (for_each_out_cons s solutions _ [line_of s]); [|done].
    assert (Hs : printable s).
    { apply Hp. rewrite Hst. intros [= ->]. by vm_compute in E. }
    pose proof (printable_status s Hs) as Hst'. rewrite Hst in Hst'.
    injection Hst' as ->. rewrite Hst. cbn in E |- *. rewrite E.
    by rewrite (printable_line s Hs).
Qed.

(** X28: [print_nonpassing_solutions] prints one line for every solution
    of the traversal whose tests status is not [passed], in the order of
    the traversal, and nothing for those that passed; a solution that is
    [not_queued] is printed, unlike in [failing_solutions].  The line is
    the status in upper case, [: Updated] and the track and exercise
    slugs, though nothing was updated. *)
Theorem print_nonpassing_solutions_lines (env : Env) (fuel : nat) (w : World)
    (solutions : list Json) (w' : World) :
  Exercism.get_all_pages env fuel [] "solutions" no_kwargs w = (Ok solutions, w') →
  Forall showable solutions →
  Exercism.print_nonpassing_solutions env fuel w
  = (Ok (line_of <$> filter (λ s, has_passed s = false) solutions, Ok tt), w').
Proof.
  intros Hrun Hs. unfold Exercism.print_nonpassing_solutions.
  rewrite (run_bind_ok _ _ _ _ _ Hrun). by rewrite nonpassing_lines_run.
Qed.

Lemma solved_showable uuid track status : showable (solved uuid track status).
Proof. split; [by eexists|]. intros _. apply solved_printable. Qed.

Lemma print_nonpassing_solutions_lines_witness :
  Exercism.print_nonpassing_solutions report_desk 1 fresh_world
  = (Ok (["FAILED: Updated python/leap"; "ERRORED: Updated rust/leap";
          "NOT_QUEUED: Updated python/leap"], Ok tt),
     (Exercism.get_all_pages report_desk 1 [] "solutions" no_kwargs fresh_world).2).
Proof.
  rewrite (print_nonpassing_solutions_lines report_desk 1 fresh_world four_solutions
    (Exercism.get_all_pages report_desk 1 [] "solutions" no_kwargs fresh_world).2).
  - reflexivity.
  - vm_compute. reflexivity.
  - unfold four_solutions.
    repeat (apply Forall_cons; split; [apply solved_showable|]). constructor.
Defined.

Lemma unread_lines_run notifications (n : Z) results :
  (∃ meta, getitem notifications "meta" = Ok meta
           ∧ getitem meta "unread_count" = Ok (JNum n)) →
  getitem notifications "results" = Ok (JList results) →
  Forall listable results →
  Exercism.unread_lines notifications
  = (("Unread count: " +:+ str n)
     :: (notice_of <$> filter (λ r, is_unread r) results), Ok tt).
Proof.
  intros (meta & Hmeta & Hn) Hres Hl. unfold Exercism.unread_lines.
  rewrite Hmeta. cbn [mbind Outcome_bind]. rewrite Hn. cbn [mbind Outcome_bind as_int].
  rewrite Hres. cbn [mbind Outcome_bind as_list].
  assert (for_each_out results (λ result,
            is_read ← out (getitem result "is_read");
            if truthy is_read then mret tt
            else
              url ← out (getitem result "url" ≫= as_str);
              text ← out (getitem result "text" ≫= as_str);
              print (url +:+ " " +:+ text))
          = (notice_of <$> filter (λ r, is_unread r) results, Ok tt)) as Hloop.
  { clear -Hl. induction Hl as [|r results [[b Hb] Hr] _ IH]; [done|].
    assert (Hu : is_unread r = negb (truthy b)) by (unfold is_unread; by rewrite Hb).
    destruct (truthy b) eqn:E.
    - rewrite filter_cons_False by (apply Is_true_false; by rewrite Hu).
      apply (for_each_out_cons r results _ []); [|done]. rewrite Hb. cbn. by rewrite E.
    - rewrite filter_cons_True by (apply Is_true_true; by rewrite Hu).
      destruct Hr as (url & text & Hurl & Htext); [by rewrite Hu|].
      apply (for_each_out_cons r results _ [notice_of r]); [|done].
      rewrite Hb. cbn. rewrite E. unfold notice_of. rewrite Hurl, Htext. done. }
  unfold out, print, mbind, Out_bind in *. cbv beta iota in *.
  by rewrite Hloop.
Qed.

(** X29: [print_unread_notifications] prints the count the server gives
    in [meta], whatever the listing holds, and then one line for every
    notification of the listing that is not read, in the order of the
    listing: its URL, a space, and its text.  Read notifications print
    nothing. *)
Theorem print_unread_notifications_lines (env : Env) (w w' : World)
    (notifications : Json) (n : Z) (results : list Json) :
  Exercism.notifications env w = (Ok notifications, w') →
  (∃ meta, getitem notifications "meta" = Ok meta
           ∧ getitem meta "unread_count" = Ok (JNum n)) →
  getitem notifications "results" = Ok (JList results) →
  Forall listable results →
  Exercism.print_unread_notifications env w
  = (Ok (("Unread count: " +:+ str n)
         :: (notice_of <$> filter (λ r, is_unread r) results), Ok tt), w').
Proof.
  intros Hrun Hmeta Hres Hl. unfold Exercism.print_unread_notifications.
  rewrite (run_bind_ok _ _ _ _ _ Hrun). by rewrite (unread_lines_run _ n results).
Qed.

Lemma print_unread_notifications_lines_witness :
  (Exercism.print_unread_notifications mailbox fresh_world).1
  = Ok (["Unread count: 0";
         "https://exercism.org/notifications/n1 A mentor has replied";
         "https://exercism.org/notifications/n2 A mentor has replied"], Ok tt).
Proof.
  rewrite (print_unread_notifications_lines mailbox fresh_world
    (Exercism.notifications mailbox fresh_world).2
    (JObj [("results", JList [notification "n1" false; notification "n2" false;
                              notification "n3" true]);
           ("meta", JObj [("unread_count", JNum 0)])])
    0 [notification "n1" false; notification "n2" false; notification "n3" true]).
  - reflexivity.
  - vm_compute. reflexivity.
  - eexists. split; reflexivity.
  - reflexivity.
  - repeat (apply Forall_cons; split; [split; [by eexists|]|]); try constructor.
    + intros _. by eexists _, _.
    + intros _. by eexists _, _.
    + intros H. discriminate H.
Defined.
